(** * A shallow embedding of the segregated-list allocator [mm.c]

    The allocator keeps every block inside one contiguous arena obtained
    from [mem_sbrk].  A block starts with a one-word header that packs the
    block size with three flag bits; free blocks of 32 bytes or more also
    carry a footer and two list links, free 16-byte blocks carry one link.

    Machine words ([word_t], [size_t]) are modelled as [Z] in the range
    [0, 2^64) with the wrap-around of unsigned arithmetic written out.
    Memory is a finite map from the byte address of a word to the word. *)

From Stdlib Require Import ZArith Lia List Bool.
From stdpp Require Import base option gmap list.

Local Open Scope Z_scope.

(** ** Basic constants *)

Abbreviation word_t := Z (only parsing).

Definition modulus : Z := 2 ^ 64.
Definition SIZE_MAX : Z := modulus - 1.

(** Unsigned 64-bit wrap-around. *)
Definition wrap (x : Z) : Z := x mod modulus.

Definition wsize : Z := 8.
Definition dsize : Z := 2 * wsize.
Definition min_block_size : Z := dsize.
Definition chunksize : Z := Z.shiftl 1 9.
Definition alloc_mask : word_t := 1.
Definition palloc_mask : word_t := 2.
Definition mpalloc_mask : word_t := 4.
(** [~(word_t)0xF] on a 64-bit word. *)
Definition size_mask : word_t := Z.lxor SIZE_MAX 15.
Definition BUCKET_COUNT : Z := 14.
Definition MINI_BLOCK_SIZE : Z := 16.

(** Linear arithmetic with division and remainder by constants. *)
Ltac divlia := Z.to_euclidean_division_equations; lia.

(** ** Pure helpers *)

Definition max (x y : Z) : Z := if y <? x then x else y.

(** [n * ((size + (n - 1)) / n)] on [size_t]. *)
Definition round_up (size n : Z) : Z :=
  wrap (n * (wrap (size + (n - 1)) / n)).

Definition pack (size : Z) (mpalloc palloc alloc : bool) : word_t :=
  let word := size in
  let word := if alloc then Z.lor word alloc_mask else word in
  let word := if palloc then Z.lor word palloc_mask else word in
  let word := if mpalloc then Z.lor word mpalloc_mask else word in
  word.

Definition extract_size (word : word_t) : Z := Z.land word size_mask.

(** Conversion of an integer to C's [bool]. *)
Definition to_bool (x : Z) : bool := negb (x =? 0).

Definition extract_alloc (word : word_t) : bool :=
  to_bool (Z.land word alloc_mask).

Definition extract_palloc (word : word_t) : bool :=
  to_bool (Z.shiftr (Z.land word palloc_mask) 1).

Definition extract_mpalloc (word : word_t) : bool :=
  to_bool (Z.shiftr (Z.land word mpalloc_mask) 2).

Definition isMiniSize (size : Z) : bool := size =? MINI_BLOCK_SIZE.

Definition home_address (size : Z) : Z :=
  if size =? 32 then 0
  else if (33 <=? size) && (size <=? 64) then 1
  else if (65 <=? size) && (size <=? 85) then 2
  else if (86 <=? size) && (size <=? 112) then 3
  else if (113 <=? size) && (size <=? 128) then 4
  else if (129 <=? size) && (size <=? 160) then 5
  else if (161 <=? size) && (size <=? 200) then 6
  else if (201 <=? size) && (size <=? 256) then 7
  else if (257 <=? size) && (size <=? 512) then 8
  else if (513 <=? size) && (size <=? 1024) then 9
  else if (1025 <=? size) && (size <=? 2048) then 10
  else if (2049 <=? size) && (size <=? 4096) then 11
  else if (4097 <=? size) && (size <=? 8192) then 12
  else 13.

(** The bucket table as the design document lists it: inclusive lower and
    upper bounds, the last bucket being unbounded. *)
Definition bucket_table : list (Z * option Z) :=
  [ (32, Some 32); (33, Some 64); (65, Some 85); (86, Some 112);
    (113, Some 128); (129, Some 160); (161, Some 200); (201, Some 256);
    (257, Some 512); (513, Some 1024); (1025, Some 2048);
    (2049, Some 4096); (4097, Some 8192); (8193, None) ].

Definition in_bucket (size : Z) (b : Z * option Z) : bool :=
  (fst b <=? size) &&
  match snd b with Some hi => size <=? hi | None => true end.

(** ** The metadata codec *)

Section Codec.

Lemma flag_bits (size : Z) (mpalloc palloc alloc : bool) :
  0 <= size -> size mod 16 = 0 ->
  pack size mpalloc palloc alloc =
    size + (Z.b2z alloc + 2 * Z.b2z palloc + 4 * Z.b2z mpalloc).
Proof.
  intros Hs Hm.
  assert (Hk : size = 16 * (size / 16)) by (apply Z.div_exact; lia).
  set (k := size / 16) in *. clearbody k. subst size.
  assert (0 <= k) by lia.
  assert (Hlow : forall f, 0 <= f < 16 -> Z.lor (16 * k) f = 16 * k + f).
  { intros f Hf.
    assert (Hd : Z.land (16 * k) f = 0).
    { apply Z.bits_inj'; intros n Hn. rewrite Z.land_spec, Z.bits_0.
      destruct (Z_lt_ge_dec n 4) as [Hlt|Hge].
      - change 16 with (2 ^ 4). rewrite (Z.mul_comm _ k), Z.mul_pow2_bits_low by lia.
        reflexivity.
      - destruct (Z.eq_dec f 0) as [->|Hf0]; [now rewrite Z.bits_0, andb_false_r|].
        assert (Z.log2 f < 4) by (apply Z.log2_lt_pow2; lia).
        rewrite (Z.bits_above_log2 f n), andb_false_r by lia. reflexivity. }
    rewrite <- Z.lxor_lor by exact Hd. symmetry. apply Z.add_nocarry_lxor, Hd. }
  unfold pack, alloc_mask, palloc_mask, mpalloc_mask.
  destruct alloc, palloc, mpalloc; cbn [Z.b2z];
    rewrite <- ?Z.lor_assoc;
    repeat match goal with
           | |- context [Z.lor (Zpos ?a) (Zpos ?b)] =>
               let v := eval vm_compute in (Z.lor (Zpos a) (Zpos b)) in
               change (Z.lor (Zpos a) (Zpos b)) with v
           end;
    rewrite ?Hlow by lia; lia.
Qed.

Lemma size_mask_bits (n : Z) :
  0 <= n -> Z.testbit size_mask n = (4 <=? n) && (n <? 64).
Proof.
  intros Hn. change size_mask with (Z.shiftl (Z.ones 60) 4).
  destruct (Z.leb_spec 4 n) as [H4|H4]; cbn [andb].
  - rewrite Z.shiftl_spec by lia.
    destruct (Z.ltb_spec n 64).
    + apply Z.ones_spec_low; lia.
    + apply Z.ones_spec_high; lia.
  - apply Z.shiftl_spec_low; lia.
Qed.

(** Reading a size clears the four flag bits and keeps bits 4 to 63. *)
Lemma extract_size_spec (w : word_t) :
  extract_size w = 16 * ((w mod modulus) / 16).
Proof.
  unfold extract_size, modulus.
  rewrite (Z.mul_comm 16). change 16 with (2 ^ 4).
  rewrite <- Z.shiftr_div_pow2, <- Z.shiftl_mul_pow2, <- Z.land_ones by lia.
  apply Z.bits_inj'; intros n Hn.
  rewrite Z.land_spec, size_mask_bits by lia.
  destruct (Z.leb_spec 4 n) as [H4|H4]; cbn [andb].
  - rewrite Z.shiftl_spec, Z.shiftr_spec, Z.land_spec by lia.
    replace (n - 4 + 4) with n by lia.
    destruct (Z.ltb_spec n 64).
    + rewrite Z.ones_spec_low by lia. reflexivity.
    + rewrite Z.ones_spec_high by lia. reflexivity.
  - rewrite Z.shiftl_spec_low, andb_false_r by lia. reflexivity.
Qed.

Lemma extract_size_range (w : word_t) :
  0 <= extract_size w < modulus /\ extract_size w mod 16 = 0.
Proof.
  rewrite extract_size_spec. unfold modulus.
  assert (0 <= w mod 2 ^ 64 < 2 ^ 64) by (apply Z.mod_pos_bound; lia).
  assert (16 * (w mod 2 ^ 64 / 16) <= w mod 2 ^ 64) by (apply Z.mul_div_le; lia).
  assert (0 <= w mod 2 ^ 64 / 16) by (apply Z.div_pos; lia).
  split; [lia|]. rewrite Z.mul_comm. apply Z.mod_mul. lia.
Qed.

(** Each flag extractor reads one bit of the word. *)
Lemma flag_testbit (w : word_t) (i : Z) :
  0 <= i ->
  to_bool (Z.shiftr (Z.land w (2 ^ i)) i) = Z.testbit w i.
Proof.
  intros Hi.
  assert (E : Z.shiftr (Z.land w (2 ^ i)) i = Z.b2z (Z.testbit w i)).
  { apply Z.bits_inj'; intros n Hn.
    rewrite Z.shiftr_spec, Z.land_spec, Z.pow2_bits_eqb by lia.
    destruct (Z.eq_dec n 0) as [->|Hn0].
    - rewrite Z.add_0_l, Z.eqb_refl, andb_true_r, Z.b2z_bit0. reflexivity.
    - replace (i =? n + i) with false by (symmetry; apply Z.eqb_neq; lia).
      rewrite andb_false_r.
      destruct (Z.testbit w i); cbn [Z.b2z]; [|now rewrite Z.bits_0].
      rewrite <- (Z.pow_0_r 2), Z.pow2_bits_eqb by lia.
      symmetry; apply Z.eqb_neq; lia. }
  rewrite E. unfold to_bool. destruct (Z.testbit w i); reflexivity.
Qed.

Lemma extract_alloc_bit (w : word_t) : extract_alloc w = Z.testbit w 0.
Proof.
  unfold extract_alloc, alloc_mask.
  rewrite <- (flag_testbit w 0), Z.shiftr_0_r by lia. reflexivity.
Qed.

Lemma extract_palloc_bit (w : word_t) : extract_palloc w = Z.testbit w 1.
Proof. apply (flag_testbit w 1). lia. Qed.

Lemma extract_mpalloc_bit (w : word_t) : extract_mpalloc w = Z.testbit w 2.
Proof. apply (flag_testbit w 2). lia. Qed.

Lemma testbit_div (w i : Z) :
  0 <= i -> Z.b2z (Z.testbit w i) = (w / 2 ^ i) mod 2.
Proof. intros. apply Z.testbit_spec'. lia. Qed.

Lemma b2z_inj (a b : bool) : Z.b2z a = Z.b2z b -> a = b.
Proof. destruct a, b; cbn; congruence. Qed.

(** The four reads of a freshly packed word. *)
Lemma unpack (size : Z) (mpalloc palloc alloc : bool) :
  0 <= size < modulus -> size mod 16 = 0 ->
  let w := pack size mpalloc palloc alloc in
  extract_size w = size /\ extract_alloc w = alloc /\
  extract_palloc w = palloc /\ extract_mpalloc w = mpalloc.
Proof.
  intros Hs Hm w. subst w. rewrite flag_bits by lia.
  rewrite extract_size_spec, extract_alloc_bit, extract_palloc_bit,
    extract_mpalloc_bit.
  unfold modulus in *.
  repeat split; [|apply b2z_inj; rewrite testbit_div by lia ..];
    destruct alloc, palloc, mpalloc; cbn [Z.b2z];
    change (2 ^ 0) with 1; change (2 ^ 1) with 2; change (2 ^ 2) with 4;
    change (2 ^ 64) with 18446744073709551616 in *; divlia.
Qed.

End Codec.

(** ** The size classes *)

Section Buckets.

(** The index of the first table row holding the size, counted from
    [i]; the length of the table when no row holds it. *)
Fixpoint table_index (size : Z) (i : Z) (t : list (Z * option Z)) : Z :=
  match t with
  | [] => i
  | b :: t' => if in_bucket size b then i else table_index size (i + 1) t'
  end.

Lemma home_address_table (size : Z) :
  32 <= size -> home_address size = table_index size 0 bucket_table.
Proof.
  intros Hs. unfold home_address, bucket_table, table_index, in_bucket.
  cbn [fst snd].
  assert (Hc : size = 32 \/ 33 <= size <= 64 \/ 65 <= size <= 85 \/
               86 <= size <= 112 \/ 113 <= size <= 128 \/
               129 <= size <= 160 \/ 161 <= size <= 200 \/
               201 <= size <= 256 \/ 257 <= size <= 512 \/
               513 <= size <= 1024 \/ 1025 <= size <= 2048 \/
               2049 <= size <= 4096 \/ 4097 <= size <= 8192 \/
               8193 <= size) by lia.
  repeat (destruct Hc as [Hc|Hc]);
    repeat match goal with
           | |- context [(?a <=? ?b)] =>
               first [ rewrite (proj2 (Z.leb_le a b)) by lia
                     | rewrite (proj2 (Z.leb_gt a b)) by lia ]
           | |- context [(?a =? ?b)] =>
               first [ rewrite (proj2 (Z.eqb_eq a b)) by lia
                     | rewrite (proj2 (Z.eqb_neq a b)) by lia ]
           end; reflexivity.
Qed.

End Buckets.

(** ** Allocator state

    The three globals of [mm.c] ([heap_start], [mini_root], [seglist])
    together with the arena of [memlib]: its contents, its fixed base
    and limit, and the current break. *)

Record state : Type := mkState {
  mem : gmap Z Z;
  mem_lo : Z;
  mem_brk : Z;
  mem_max : Z;
  heap_start : Z;
  mini_root : Z;
  seglist : list Z
}.

Definition NULL : Z := 0.

Definition set_mem (m : gmap Z Z) (s : state) : state :=
  mkState m (mem_lo s) (mem_brk s) (mem_max s) (heap_start s) (mini_root s)
    (seglist s).
Definition set_brk (b : Z) (s : state) : state :=
  mkState (mem s) (mem_lo s) b (mem_max s) (heap_start s) (mini_root s)
    (seglist s).
Definition set_heap_start (p : Z) (s : state) : state :=
  mkState (mem s) (mem_lo s) (mem_brk s) (mem_max s) p (mini_root s)
    (seglist s).
Definition set_mini_root (p : Z) (s : state) : state :=
  mkState (mem s) (mem_lo s) (mem_brk s) (mem_max s) (heap_start s) p
    (seglist s).
Definition set_seglist (l : list Z) (s : state) : state :=
  mkState (mem s) (mem_lo s) (mem_brk s) (mem_max s) (heap_start s)
    (mini_root s) l.

(** The state of a process that has not called the allocator yet: statics
    are zero, the arena is empty. *)
Definition fresh (lo max : Z) : state :=
  mkState ∅ lo lo max NULL NULL (replicate 14 NULL).

(** ** A state monad with abort

    [None] stands for a run that yields no result: a failed [assert], or a
    list walk that did not end within its fuel. *)

Definition M (A : Type) : Type := state -> option (A * state).

Definition ret {A} (a : A) : M A := fun s => Some (a, s).

Definition bind {A B} (c : M A) (k : A -> M B) : M B :=
  fun s => match c s with
           | Some (a, s') => k a s'
           | None => None
           end.

Definition abort {A} : M A := fun _ => None.

Declare Scope alloc_scope.
Delimit Scope alloc_scope with alloc.
Notation "'let*' x ':=' c 'in' k" := (bind c (fun x => k))
  (at level 10, x name, c at level 100, k at level 200,
   only parsing) : alloc_scope.
Notation "'do' c 'then' k" := (bind c (fun _ => k))
  (at level 10, c at level 100, k at level 200,
   only parsing) : alloc_scope.
Local Open Scope alloc_scope.

Definition gets {A} (f : state -> A) : M A := fun s => Some (f s, s).
Definition modify (f : state -> state) : M unit := fun s => Some (tt, f s).
(** C's [assert]: the program stops when the condition is false. *)
Definition assert (b : bool) : M unit := if b then ret tt else abort.

(** Word access.  A word never written reads as zero.  The map has no
    bounds: an address outside the arena reads as zero as well, where the
    C program would read out of bounds. *)
Definition load_word (s : state) (a : Z) : word_t := default 0 (mem s !! a).
Definition load (a : Z) : M word_t := gets (fun s => load_word s a).
Definition store (a : Z) (v : word_t) : M unit :=
  modify (fun s => set_mem (<[a := v]> (mem s)) s).

Definition seg_get (s : state) (idx : Z) : Z :=
  default NULL (seglist s !! Z.to_nat idx).
Definition seg_read (idx : Z) : M Z := gets (fun s => seg_get s idx).
Definition seg_write (idx : Z) (p : Z) : M unit :=
  modify (fun s => set_seglist (<[Z.to_nat idx := p]> (seglist s)) s).

(** Modelled from the spec: the heap growth primitive of [memlib], which
    is not part of the source.  It appends [incr] bytes to the arena and
    returns the old break, or fails (the C code's [(void * )-1]) when the
    arena cannot grow that far. *)
Definition mem_sbrk (incr : Z) : M (option Z) :=
  fun s => if mem_brk s + incr <=? mem_max s
           then Some (Some (mem_brk s), set_brk (mem_brk s + incr) s)
           else Some (None, s).

(** Modelled from the spec: [mem_heap_hi] of [memlib], the address of the
    last byte of the arena. *)
Definition mem_heap_hi (s : state) : Z := mem_brk s - 1.

(** ** Field offsets of [block_t] and [mini_block_t] *)

Definition off_payload : Z := 8.
Definition off_next : Z := 8.
Definition off_prev : Z := 16.

(** ** Boundary navigation *)

Definition get_size (b : Z) : M Z :=
  let* w := load b in ret (extract_size w).

Definition payload_to_header (bp : Z) : Z := bp - off_payload.

Definition header_to_payload (b : Z) : Z := b + off_payload.

Definition header_to_footer (b : Z) : M Z :=
  let* sz := get_size b in ret (b + off_payload + sz - dsize).

Definition footer_to_header (footer : Z) : M Z :=
  let* w := load footer in ret (footer + wsize - extract_size w).

Definition get_payload_size (b : Z) : M Z :=
  let* asize := get_size b in ret (wrap (asize - wsize)).

Definition get_alloc (b : Z) : M bool :=
  let* w := load b in ret (extract_alloc w).

Definition get_palloc (b : Z) : M bool :=
  let* w := load b in ret (extract_palloc w).

Definition get_mpalloc (b : Z) : M bool :=
  let* w := load b in ret (extract_mpalloc w).

Definition find_next (b : Z) : M Z :=
  let* sz := get_size b in ret (b + sz).

Definition find_prev_footer (b : Z) : Z := b - wsize.

Definition find_prev (b : Z) (mpalloc : bool) : M Z :=
  if mpalloc then ret (b - MINI_BLOCK_SIZE)
  else
    let footerp := find_prev_footer b in
    let* w := load footerp in
    if extract_size w =? 0 then ret NULL
    else footer_to_header footerp.

Definition write_epilogue (b : Z) (mpalloc palloc : bool) : M unit :=
  store b (pack 0 mpalloc palloc true).

Definition isEpilogue (b : Z) : M bool :=
  let* hi := gets mem_heap_hi in
  let* a := get_alloc b in
  let* sz := get_size b in
  ret ((b =? hi - 7) && a && (sz =? 0)).

Definition isMiniBlock (b : Z) : M bool :=
  let* sz := get_size b in ret (sz =? MINI_BLOCK_SIZE).

Definition write_block (b size : Z) (mpalloc palloc alloc : bool) : M unit :=
  if isMiniSize size then store b (pack size mpalloc palloc alloc)
  else if alloc then store b (pack size mpalloc palloc alloc)
  else
    do store b (pack size mpalloc palloc alloc) then
    let* footerp := header_to_footer b in
    store footerp (pack size mpalloc palloc alloc).

(** ** The segregated free lists *)

Definition explicit_insert_block (b idx : Z) : M unit :=
  let* mini := isMiniBlock b in
  do assert (negb mini) then
  let* head := seg_read idx in
  if head =? NULL then
    do seg_write idx b then
    do store (b + off_next) NULL then
    store (b + off_prev) NULL
  else
    do store (head + off_prev) b then
    do store (b + off_next) head then
    do store (b + off_prev) NULL then
    seg_write idx b.

Definition explicit_remove_block (b idx : Z) : M unit :=
  let* mini := isMiniBlock b in
  do assert (negb mini) then
  let* prev_free_block := load (b + off_prev) in
  let* next_free_block := load (b + off_next) in
  if (prev_free_block =? NULL) && (next_free_block =? NULL) then
    seg_write idx NULL
  else if (prev_free_block =? NULL) && negb (next_free_block =? NULL) then
    do store (next_free_block + off_prev) NULL then
    seg_write idx next_free_block
  else if negb (prev_free_block =? NULL) && (next_free_block =? NULL) then
    store (prev_free_block + off_next) NULL
  else
    do store (prev_free_block + off_next) next_free_block then
    store (next_free_block + off_prev) prev_free_block.

Definition seglist_init : M unit :=
  modify (set_seglist (replicate (Z.to_nat BUCKET_COUNT) NULL)).

Definition update_next_palloc (b : Z) : M unit :=
  let* alloc := get_alloc b in
  let* next := find_next b in
  let* next_size := get_size next in
  let* next_alloc := get_alloc next in
  let* next_mpalloc := get_mpalloc next in
  let* e := isEpilogue next in
  if e then write_epilogue next next_mpalloc alloc
  else write_block next next_size next_mpalloc alloc next_alloc.

Definition update_next_mpalloc (b : Z) : M unit :=
  let* new_next_mpalloc := isMiniBlock b in
  let* next := find_next b in
  let* next_size := get_size next in
  let* next_alloc := get_alloc next in
  let* next_palloc := get_palloc next in
  let* e := isEpilogue next in
  if e then write_epilogue next new_next_mpalloc next_palloc
  else write_block next next_size new_next_mpalloc next_palloc next_alloc.

(** ** The list of 16-byte blocks *)

Definition insert_mini_block (b : Z) : M unit :=
  let* mini := isMiniBlock b in
  do assert mini then
  let* root := gets mini_root in
  do (if root =? NULL then
        do modify (set_mini_root b) then
        store (b + off_next) NULL
      else
        do store (b + off_next) root then
        modify (set_mini_root b)) then
  do update_next_palloc b then
  update_next_mpalloc b.

(** The scan of [remove_mini_block] from [cur]; the result tells whether
    the function returned from inside the loop. *)
Fixpoint remove_mini_scan (fuel : nat) (b cur : Z) : M bool :=
  match fuel with
  | O => abort
  | S fuel' =>
      if cur =? NULL then ret false
      else
        let* cur_next := load (cur + off_next) in
        if cur_next =? b then
          let* b_next := load (b + off_next) in
          do store (cur + off_next) b_next then
          do store (b + off_next) NULL then
          ret true
        else remove_mini_scan fuel' b cur_next
  end.

Definition remove_mini_block (fuel : nat) (b : Z) : M unit :=
  let* mini := isMiniBlock b in
  do assert mini then
  let* root := gets mini_root in
  if root =? NULL then ret tt
  else
    let* returned :=
      (if root =? b then
         let* b_next := load (b + off_next) in
         do modify (set_mini_root b_next) then
         do store (b + off_next) NULL then
         ret false
       else remove_mini_scan fuel b root) in
    if returned then ret tt
    else
      do update_next_palloc b then
      update_next_mpalloc b.

(** ** Fit search *)

(** The locals of [find_fit] that live across iterations. *)
Record fit_state : Type := mkFit {
  count_switch : bool;
  counter : Z;
  best_block : Z;
  best_gap : Z
}.

(** One pass of the inner loop over a bucket, from [cur].  The boolean of
    the result is [true] when the search returned from inside the loop. *)
Fixpoint find_fit_bucket (fuel : nat) (asize cur : Z) (st : fit_state)
  : M (bool * fit_state) :=
  match fuel with
  | O => abort
  | S fuel' =>
      if cur =? NULL then ret (false, st)
      else
        let* cur_size := get_size cur in
        if negb (0 <? cur_size) then ret (false, st)
        else
          let* st1 :=
            (if asize <=? cur_size then
               if best_block st =? NULL then
                 let* best_size := get_size cur in
                 ret (mkFit true (counter st) cur (wrap (best_size - asize)))
               else
                 if wrap (cur_size - asize) <? best_gap st then
                   ret (mkFit (count_switch st) (counter st) cur
                          (wrap (cur_size - asize)))
                 else ret st
             else ret st) in
          let st2 :=
            if count_switch st1
            then mkFit true (counter st1 - 1) (best_block st1) (best_gap st1)
            else st1 in
          if count_switch st1 && (counter st2 =? 0) then ret (true, st2)
          else
            let* cur_next := load (cur + off_next) in
            find_fit_bucket fuel' asize cur_next st2
  end.

(** The outer loop over the [n] buckets from index [i]. *)
Fixpoint find_fit_from (n : nat) (fuel : nat) (asize i : Z) (st : fit_state)
  : M Z :=
  match n with
  | O => ret (best_block st)
  | S n' =>
      let* head := seg_read i in
      let* r := find_fit_bucket fuel asize head st in
      if fst r then ret (best_block (snd r))
      else if negb (best_block (snd r) =? NULL) then ret (best_block (snd r))
      else find_fit_from n' fuel asize (i + 1) (snd r)
  end.

Definition find_fit (fuel : nat) (asize idx : Z) : M Z :=
  find_fit_from (Z.to_nat (BUCKET_COUNT - idx)) fuel asize idx
    (mkFit false 3 NULL 0).

Definition mm_checkheap (line : Z) : bool := true.

(** ** Insertion and removal by block size *)

Definition insertVagueBlock (b : Z) : M unit :=
  let* mini := isMiniBlock b in
  if mini then insert_mini_block b
  else
    let* sz := get_size b in
    explicit_insert_block b (home_address sz).

Definition removeVagueBlock (fuel : nat) (b : Z) : M unit :=
  let* mini := isMiniBlock b in
  if mini then remove_mini_block fuel b
  else
    let* sz := get_size b in
    explicit_remove_block b (home_address sz).

(** ** Coalescing *)

Definition coalesce_block (fuel : nat) (b : Z) : M Z :=
  let* next := find_next b in
  let* prev_allocated := get_palloc b in
  let* next_allocated := get_alloc next in
  let* mpalloc := get_mpalloc b in
  if negb prev_allocated && negb next_allocated then
    let* prev := find_prev b mpalloc in
    let* prev_mpalloc := get_mpalloc prev in
    let* prev_palloc := get_palloc prev in
    let* sp := get_size prev in
    let* sb := get_size b in
    let* sn := get_size next in
    let newSum := wrap (wrap (sp + sb) + sn) in
    do removeVagueBlock fuel prev then
    do removeVagueBlock fuel next then
    do write_block prev newSum prev_mpalloc prev_palloc false then
    do insertVagueBlock prev then
    do update_next_palloc prev then
    do update_next_mpalloc prev then
    ret prev
  else if negb next_allocated && prev_allocated then
    let* sb := get_size b in
    let* sn := get_size next in
    let newSum := wrap (sb + sn) in
    do removeVagueBlock fuel next then
    let* block_mpalloc := get_mpalloc b in
    let* block_palloc := get_palloc b in
    do write_block b newSum block_mpalloc block_palloc false then
    do insertVagueBlock b then
    do update_next_mpalloc b then
    do update_next_palloc b then
    ret b
  else if negb prev_allocated && next_allocated then
    let* prev := find_prev b mpalloc in
    let* prev_mpalloc := get_mpalloc prev in
    let* prev_palloc := get_palloc prev in
    let* sp := get_size prev in
    let* sb := get_size b in
    let newSum := wrap (sp + sb) in
    do removeVagueBlock fuel prev then
    do write_block prev newSum prev_mpalloc prev_palloc false then
    do insertVagueBlock prev then
    do update_next_palloc prev then
    do update_next_mpalloc prev then
    ret prev
  else
    do insertVagueBlock b then
    do update_next_palloc b then
    do update_next_mpalloc b then
    ret b.

(** ** Heap growth *)

Definition extend_heap (fuel : nat) (size : Z) (mpalloc palloc : bool) : M Z :=
  let size := round_up size dsize in
  let* r := mem_sbrk size in
  match r with
  | None => ret NULL
  | Some bp =>
      let b := payload_to_header bp in
      do write_block b size mpalloc palloc false then
      let* block_next := find_next b in
      let* mini := isMiniBlock b in
      do write_epilogue block_next mini false then
      coalesce_block fuel b
  end.

Definition mm_init (fuel : nat) : M bool :=
  do seglist_init then
  do modify (set_mini_root NULL) then
  let* r := mem_sbrk (2 * wsize) in
  match r with
  | None => ret false
  | Some start =>
      do store start (pack 0 false true true) then
      do store (start + wsize) (pack 0 false true true) then
      do modify (set_heap_start (start + wsize)) then
      let* b := extend_heap fuel chunksize false true in
      if b =? NULL then ret false else ret true
  end.

(** ** Splitting *)

Definition split_block (fuel : nat) (b asize : Z) : M unit :=
  let* block_size := get_size b in
  if min_block_size <=? wrap (block_size - asize) then
    let* mpalloc := get_mpalloc b in
    let* palloc := get_palloc b in
    do removeVagueBlock fuel b then
    do write_block b asize mpalloc palloc true then
    let* block_next := find_next b in
    let* mini := isMiniBlock b in
    do write_block block_next (wrap (block_size - asize)) mini true false then
    do insertVagueBlock block_next then
    do update_next_mpalloc block_next then
    update_next_palloc block_next
  else
    let* mpalloc := get_mpalloc b in
    let* palloc := get_palloc b in
    do removeVagueBlock fuel b then
    do write_block b block_size mpalloc palloc true then
    do update_next_palloc b then
    update_next_mpalloc b.

(** ** Bytes

    [memcpy] and [memset] work on bytes.  A byte lives in the word that
    contains its address, least significant byte first. *)

Definition word_of (a : Z) : Z := a - a mod wsize.
Definition byte_shift (a : Z) : Z := 8 * (a mod wsize).

Definition load_byte (s : state) (a : Z) : Z :=
  (load_word s (word_of a) / 2 ^ byte_shift a) mod 256.

Definition store_byte (a v : Z) : M unit :=
  let* w := load (word_of a) in
  let old := (w / 2 ^ byte_shift a) mod 256 in
  store (word_of a) (w - old * 2 ^ byte_shift a + (v mod 256) * 2 ^ byte_shift a).

Fixpoint copy_bytes (n : nat) (dst src : Z) : M unit :=
  match n with
  | O => ret tt
  | S n' =>
      let* v := gets (fun s => load_byte s src) in
      do store_byte dst v then
      copy_bytes n' (dst + 1) (src + 1)
  end.

Definition memcpy (dst src n : Z) : M unit := copy_bytes (Z.to_nat n) dst src.

Fixpoint fill_bytes (n : nat) (dst v : Z) : M unit :=
  match n with
  | O => ret tt
  | S n' => do store_byte dst v then fill_bytes n' (dst + 1) v
  end.

Definition memset (dst v n : Z) : M unit := fill_bytes (Z.to_nat n) dst v.

(** ** The four entry points *)

Definition malloc (fuel : nat) (size : Z) : M Z :=
  let bp := NULL in
  let* hs := gets heap_start in
  do (if hs =? NULL then let* ok := mm_init fuel in ret tt else ret tt) then
  if size =? 0 then ret bp
  else
    let asize := round_up (wrap (size + wsize)) dsize in
    let* found :=
      (if asize =? MINI_BLOCK_SIZE then
         let* root := gets mini_root in
         if root =? NULL then find_fit fuel asize 0 else ret root
       else
         let home := home_address asize in
         find_fit fuel asize home) in
    let* block :=
      (if found =? NULL then
         let* hi := gets mem_heap_hi in
         let* old_mpalloc := get_mpalloc (hi - 7) in
         let* old_palloc := get_palloc (hi - 7) in
         let extendsize := max asize chunksize in
         extend_heap fuel extendsize old_mpalloc old_palloc
       else ret found) in
    if block =? NULL then ret bp
    else
      let* block_size := get_size block in
      let* mpalloc := get_mpalloc block in
      let* palloc := get_palloc block in
      do write_block block block_size mpalloc palloc true then
      do split_block fuel block asize then
      ret (header_to_payload block).

Definition free (fuel : nat) (bp : Z) : M unit :=
  if bp =? NULL then ret tt
  else
    let b := payload_to_header bp in
    let* size := get_size b in
    let* mpalloc := get_mpalloc b in
    let* palloc := get_palloc b in
    do write_block b size mpalloc palloc false then
    let* b' := coalesce_block fuel b in
    do update_next_mpalloc b' then
    update_next_palloc b'.

Definition realloc (fuel : nat) (ptr size : Z) : M Z :=
  let b := payload_to_header ptr in
  if size =? 0 then do free fuel ptr then ret NULL
  else if ptr =? NULL then malloc fuel size
  else
    let* newptr := malloc fuel size in
    if newptr =? NULL then ret NULL
    else
      let* old_payload := get_payload_size b in
      let copysize := if size <? old_payload then size else old_payload in
      do memcpy newptr ptr copysize then
      do free fuel ptr then
      ret newptr.

Definition calloc (fuel : nat) (elements size : Z) : M Z :=
  let asize := wrap (elements * size) in
  if elements =? 0 then ret NULL
  else if negb (asize / elements =? size) then ret NULL
  else
    let* bp := malloc fuel asize in
    if bp =? NULL then ret NULL
    else
      do memset bp 0 asize then
      ret bp.

(** * Reasoning about runs

    [wp c Q s] holds when [c] run from [s] yields a result (it neither
    aborts nor runs out of fuel) and the result and the final state
    satisfy [Q]. *)

Definition wp {A} (c : M A) (Q : A -> state -> Prop) (s : state) : Prop :=
  match c s with
  | Some (a, s') => Q a s'
  | None => False
  end.

Section WP.

Context {A B : Type}.

Lemma wp_run (c : M A) (Q : A -> state -> Prop) (s : state) :
  wp c Q s <-> exists a s', c s = Some (a, s') /\ Q a s'.
Proof.
  unfold wp. destruct (c s) as [[a s']|].
  - split; [eauto|]. intros (a0 & s0 & E & H). congruence.
  - split; [tauto|]. intros (a0 & s0 & E & H). discriminate.
Qed.

Lemma wp_bind (c : M A) (k : A -> M B) (Q : B -> state -> Prop) s :
  wp (bind c k) Q s <-> wp c (fun a s' => wp (k a) Q s') s.
Proof. unfold wp, bind. destruct (c s) as [[a s']|]; reflexivity. Qed.

Lemma wp_ret (a : A) (Q : A -> state -> Prop) s : wp (ret a) Q s <-> Q a s.
Proof. reflexivity. Qed.

Lemma wp_gets (f : state -> A) (Q : A -> state -> Prop) s :
  wp (gets f) Q s <-> Q (f s) s.
Proof. reflexivity. Qed.

Lemma wp_mono (c : M A) (Q Q' : A -> state -> Prop) s :
  wp c Q s -> (forall a s', Q a s' -> Q' a s') -> wp c Q' s.
Proof. unfold wp. destruct (c s) as [[a s']|]; auto. Qed.

Lemma wp_abort (Q : A -> state -> Prop) s : wp abort Q s <-> False.
Proof. reflexivity. Qed.

End WP.

Lemma wp_modify (f : state -> state) (Q : unit -> state -> Prop) s :
  wp (modify f) Q s <-> Q tt (f s).
Proof. reflexivity. Qed.

Lemma wp_assert (b : bool) (Q : unit -> state -> Prop) s :
  wp (assert b) Q s <-> b = true /\ Q tt s.
Proof. destruct b; cbn; intuition congruence. Qed.

Lemma wp_load (a : Z) (Q : word_t -> state -> Prop) s :
  wp (load a) Q s <-> Q (load_word s a) s.
Proof. reflexivity. Qed.

Lemma wp_store (a : Z) (v : word_t) (Q : unit -> state -> Prop) s :
  wp (store a v) Q s <-> Q tt (set_mem (<[a := v]> (mem s)) s).
Proof. reflexivity. Qed.

(** Reads after writes. *)
Lemma load_word_set_mem (m : gmap Z Z) (s : state) (a : Z) :
  load_word (set_mem m s) a = default 0 (m !! a).
Proof. reflexivity. Qed.

Lemma load_store_eq (m : gmap Z Z) (a v : Z) :
  default 0 (<[a := v]> m !! a) = v.
Proof. rewrite lookup_insert_eq. reflexivity. Qed.

Lemma load_store_ne (m : gmap Z Z) (a b v : Z) :
  a <> b -> default 0 (<[a := v]> m !! b) = default 0 (m !! b).
Proof. intros. rewrite lookup_insert_ne by assumption. reflexivity. Qed.

(** ** What a header says *)

Definition size_at (s : state) (b : Z) : Z := extract_size (load_word s b).
Definition alloc_at (s : state) (b : Z) : bool := extract_alloc (load_word s b).
Definition palloc_at (s : state) (b : Z) : bool := extract_palloc (load_word s b).
Definition mpalloc_at (s : state) (b : Z) : bool :=
  extract_mpalloc (load_word s b).

Definition next_of (s : state) (b : Z) : Z := b + size_at s b.

Definition is_epilogue (s : state) (b : Z) : bool :=
  (b =? mem_heap_hi s - 7) && alloc_at s b && (size_at s b =? 0).

Definition prev_of (s : state) (b : Z) (mpalloc : bool) : Z :=
  if mpalloc then b - MINI_BLOCK_SIZE
  else if size_at s (b - wsize) =? 0 then NULL
       else b - wsize + wsize - size_at s (b - wsize).

Section Reads.

Variable Q : Z -> state -> Prop.
Variable Qb : bool -> state -> Prop.
Variable s : state.
Variable b : Z.

Lemma wp_get_size : wp (get_size b) Q s <-> Q (size_at s b) s.
Proof. reflexivity. Qed.

Lemma wp_get_alloc : wp (get_alloc b) Qb s <-> Qb (alloc_at s b) s.
Proof. reflexivity. Qed.

Lemma wp_get_palloc : wp (get_palloc b) Qb s <-> Qb (palloc_at s b) s.
Proof. reflexivity. Qed.

Lemma wp_get_mpalloc : wp (get_mpalloc b) Qb s <-> Qb (mpalloc_at s b) s.
Proof. reflexivity. Qed.

Lemma wp_find_next : wp (find_next b) Q s <-> Q (next_of s b) s.
Proof. reflexivity. Qed.

Lemma wp_isMiniBlock :
  wp (isMiniBlock b) Qb s <-> Qb (size_at s b =? MINI_BLOCK_SIZE) s.
Proof. reflexivity. Qed.

Lemma wp_isEpilogue : wp (isEpilogue b) Qb s <-> Qb (is_epilogue s b) s.
Proof. reflexivity. Qed.

Lemma wp_header_to_footer :
  wp (header_to_footer b) Q s <-> Q (b + off_payload + size_at s b - dsize) s.
Proof. reflexivity. Qed.

Lemma wp_get_payload_size :
  wp (get_payload_size b) Q s <-> Q (wrap (size_at s b - wsize)) s.
Proof. reflexivity. Qed.

Lemma wp_find_prev (mp : bool) :
  wp (find_prev b mp) Q s <-> Q (prev_of s b mp) s.
Proof.
  unfold find_prev, prev_of, find_prev_footer, size_at. destruct mp; [reflexivity|].
  unfold wp, bind, load, gets. cbn.
  destruct (extract_size (load_word s (b - wsize)) =? 0); reflexivity.
Qed.

Lemma wp_seg_read (idx : Z) : wp (seg_read idx) Q s <-> Q (seg_get s idx) s.
Proof. reflexivity. Qed.

End Reads.

Lemma wp_seg_write (idx p : Z) (Q : unit -> state -> Prop) s :
  wp (seg_write idx p) Q s <->
  Q tt (set_seglist (<[Z.to_nat idx := p]> (seglist s)) s).
Proof. reflexivity. Qed.

Lemma wp_write_epilogue (b : Z) (mp p : bool) (Q : unit -> state -> Prop) s :
  wp (write_epilogue b mp p) Q s <->
  Q tt (set_mem (<[b := pack 0 mp p true]> (mem s)) s).
Proof. reflexivity. Qed.

Lemma wp_mem_sbrk (incr : Z) (Q : option Z -> state -> Prop) s :
  wp (mem_sbrk incr) Q s <->
  if mem_brk s + incr <=? mem_max s
  then Q (Some (mem_brk s)) (set_brk (mem_brk s + incr) s)
  else Q None s.
Proof. unfold wp, mem_sbrk. destruct (_ <=? _); reflexivity. Qed.

(** The memory after [write_block]. *)
Definition write_block_mem (m : gmap Z Z) (b size : Z) (mp p a : bool)
  : gmap Z Z :=
  let w := pack size mp p a in
  if isMiniSize size || a then <[b := w]> m
  else <[b + off_payload + extract_size w - dsize := w]> (<[b := w]> m).

Lemma wp_write_block (b size : Z) (mp p a : bool) (Q : unit -> state -> Prop) s :
  wp (write_block b size mp p a) Q s <->
  Q tt (set_mem (write_block_mem (mem s) b size mp p a) s).
Proof.
  unfold write_block, write_block_mem.
  destruct (isMiniSize size); [reflexivity|]. destruct a; [reflexivity|].
  cbn [orb]. unfold wp, bind, store, modify, header_to_footer, get_size, load,
    gets, ret. cbn. unfold load_word. cbn. rewrite lookup_insert_eq. reflexivity.
Qed.

(** Stepping through a run, one primitive at a time. *)
Ltac wp_prim :=
  lazymatch goal with
  | |- wp (bind _ _) _ _ => apply wp_bind
  | |- wp (ret _) _ _ => apply wp_ret
  | |- wp (gets _) _ _ => apply wp_gets
  | |- wp (modify _) _ _ => apply wp_modify
  | |- wp (load _) _ _ => apply wp_load
  | |- wp (store _ _) _ _ => apply wp_store
  | |- wp (seg_read _) _ _ => apply wp_seg_read
  | |- wp (seg_write _ _) _ _ => apply wp_seg_write
  | |- wp (get_size _) _ _ => apply wp_get_size
  | |- wp (get_alloc _) _ _ => apply wp_get_alloc
  | |- wp (get_palloc _) _ _ => apply wp_get_palloc
  | |- wp (get_mpalloc _) _ _ => apply wp_get_mpalloc
  | |- wp (find_next _) _ _ => apply wp_find_next
  | |- wp (find_prev _ _) _ _ => apply wp_find_prev
  | |- wp (isMiniBlock _) _ _ => apply wp_isMiniBlock
  | |- wp (isEpilogue _) _ _ => apply wp_isEpilogue
  | |- wp (header_to_footer _) _ _ => apply wp_header_to_footer
  | |- wp (get_payload_size _) _ _ => apply wp_get_payload_size
  | |- wp (write_epilogue _ _ _) _ _ => apply wp_write_epilogue
  | |- wp (write_block _ _ _ _ _) _ _ => apply wp_write_block
  | |- wp (mem_sbrk _) _ _ => apply wp_mem_sbrk
  | |- wp (assert _) _ _ => apply wp_assert; split; [try reflexivity|]
  end; cbv beta.

Ltac wp_steps := repeat wp_prim.

Lemma wp_mem_sbrk_cases (incr : Z) (Q : option Z -> state -> Prop) s :
  (mem_brk s + incr <= mem_max s ->
   Q (Some (mem_brk s)) (set_brk (mem_brk s + incr) s)) ->
  (mem_max s < mem_brk s + incr -> Q None s) ->
  wp (mem_sbrk incr) Q s.
Proof.
  intros H1 H2. apply wp_mem_sbrk.
  destruct (Z.leb_spec (mem_brk s + incr) (mem_max s)); auto.
Qed.

Lemma lookup_store_eq (m : gmap Z Z) (a x v : Z) :
  a = x -> <[a := v]> m !! x = Some v.
Proof. intros ->. apply lookup_insert_eq. Qed.

Section Unpack.

Variables (sz : Z) (mp p a : bool).
Hypothesis Hrange : 0 <= sz < modulus.
Hypothesis Hmult : sz mod 16 = 0.

Lemma unpack_size : extract_size (pack sz mp p a) = sz.
Proof. apply unpack; assumption. Qed.
Lemma unpack_alloc : extract_alloc (pack sz mp p a) = a.
Proof. apply unpack; assumption. Qed.
Lemma unpack_palloc : extract_palloc (pack sz mp p a) = p.
Proof. apply unpack; assumption. Qed.
Lemma unpack_mpalloc : extract_mpalloc (pack sz mp p a) = mp.
Proof. apply unpack; assumption. Qed.

End Unpack.

(** Symbolic execution: record fields, reads after writes, decoded
    headers, decided comparisons. *)
Ltac st_simpl :=
  unfold set_mem, set_brk, set_heap_start, set_mini_root, set_seglist,
    mem_heap_hi;
  cbn [mem mem_lo mem_brk mem_max heap_start mini_root seglist].

Ltac szside :=
  first [ assumption
        | split; [lia | unfold modulus; lia]
        | reflexivity
        | (vm_compute; intuition congruence) ].

Ltac hdr_simpl :=
  repeat first [ rewrite unpack_size by szside
               | rewrite unpack_alloc by szside
               | rewrite unpack_palloc by szside
               | rewrite unpack_mpalloc by szside ].

Ltac bool_simpl :=
  repeat match goal with
         | |- context [?a =? ?b] =>
             first [ rewrite (proj2 (Z.eqb_eq a b)) by lia
                   | rewrite (proj2 (Z.eqb_neq a b)) by lia ]
         end;
  cbn [orb andb negb].

Ltac read_simpl :=
  unfold is_epilogue, next_of, prev_of;
  unfold size_at, alloc_at, palloc_at, mpalloc_at,
    load_word, mem_heap_hi, write_block_mem, isMiniSize, off_payload,
    off_next, off_prev, dsize, wsize, MINI_BLOCK_SIZE, NULL;
  cbn [mem mem_lo mem_brk mem_max heap_start mini_root seglist];
  repeat (progress (
    repeat match goal with
           | |- context [<[?a := ?v]> ?m !! ?x] =>
               first [ rewrite (lookup_insert_ne m a x v) by lia
                     | rewrite (lookup_store_eq m a x v) by lia ]
           end;
    cbn [default from_option id]; hdr_simpl; bool_simpl)).

Ltac wp1 :=
  lazymatch goal with
  | |- wp (mem_sbrk _) _ _ =>
      apply wp_mem_sbrk_cases; intros ?;
      cbn [mem mem_lo mem_brk mem_max heap_start mini_root seglist] in *
  | |- wp (if _ then _ else _) _ _ => fail "branch"
  | |- wp (match _ with _ => _ end) _ _ => fail "match"
  | |- _ => wp_prim
  end; st_simpl; read_simpl.

Ltac wps := repeat wp1.

(** ** Initialisation always runs to completion *)

Lemma mm_init_total (fuel : nat) (s : state) :
  wp (mm_init fuel) (fun _ _ => True) s.
Proof.
  unfold mm_init, seglist_init. wps; [|exact I].
  unfold extend_heap. change (round_up chunksize dsize) with 512.
  unfold payload_to_header. wps; [|reflexivity].
  unfold coalesce_block. wps.
  unfold insertVagueBlock. wps. change (home_address 512) with 8.
  unfold explicit_insert_block. wps.
  unfold seg_get; cbn [seglist].
  match goal with
  | |- context [default NULL (?l !! ?i)] =>
      let v := eval vm_compute in (default NULL (l !! i)) in
      change (default NULL (l !! i)) with v
  end.
  change (0 =? 0) with true. cbv iota. wps. unfold update_next_palloc. wps.
  unfold update_next_mpalloc. wps.
  destruct (_ =? 0); exact I.
Qed.

Lemma malloc_zero_null (fuel : nat) (s : state) :
  wp (malloc fuel 0) (fun r _ => r = NULL) s.
Proof.
  unfold malloc. wps. apply wp_bind.
  destruct (heap_start s =? 0).
  - wps. eapply wp_mono; [apply mm_init_total|].
    intros _ s' _. wps. reflexivity.
  - wps. reflexivity.
Qed.

(** * The claims *)

(** ** C8: the metadata codec round-trips *)

(** C8.  For every size that is a multiple of 16 and fits a machine word,
    and every choice of the three flags, the four extractors applied to
    [pack size mpalloc palloc alloc] give back [size], [alloc], [palloc]
    and [mpalloc]. *)
Theorem pack_extract_roundtrip (size : Z) (mpalloc palloc alloc : bool) :
  0 <= size < modulus ->
  size mod 16 = 0 ->
  extract_size (pack size mpalloc palloc alloc) = size /\
  extract_alloc (pack size mpalloc palloc alloc) = alloc /\
  extract_palloc (pack size mpalloc palloc alloc) = palloc /\
  extract_mpalloc (pack size mpalloc palloc alloc) = mpalloc.
Proof. intros Hr Hm. exact (unpack size mpalloc palloc alloc Hr Hm). Qed.

Lemma pack_extract_roundtrip_witness :
  (0 <= 48 < modulus) /\ 48 mod 16 = 0 /\
  extract_size (pack 48 true false true) = 48 /\
  extract_alloc (pack 48 true false true) = true /\
  extract_palloc (pack 48 true false true) = false /\
  extract_mpalloc (pack 48 true false true) = true.
Proof.
  assert (Hr : 0 <= 48 < modulus) by (unfold modulus; lia).
  assert (Hm : 48 mod 16 = 0) by reflexivity.
  split; [exact Hr|]. split; [exact Hm|].
  exact (pack_extract_roundtrip 48 true false true Hr Hm).
Defined.

(** ** C9: the size classes *)

Lemma home_address_cases (size : Z) :
  32 <= size ->
  (size = 32 /\ home_address size = 0) \/
  (33 <= size <= 64 /\ home_address size = 1) \/
  (65 <= size <= 85 /\ home_address size = 2) \/
  (86 <= size <= 112 /\ home_address size = 3) \/
  (113 <= size <= 128 /\ home_address size = 4) \/
  (129 <= size <= 160 /\ home_address size = 5) \/
  (161 <= size <= 200 /\ home_address size = 6) \/
  (201 <= size <= 256 /\ home_address size = 7) \/
  (257 <= size <= 512 /\ home_address size = 8) \/
  (513 <= size <= 1024 /\ home_address size = 9) \/
  (1025 <= size <= 2048 /\ home_address size = 10) \/
  (2049 <= size <= 4096 /\ home_address size = 11) \/
  (4097 <= size <= 8192 /\ home_address size = 12) \/
  (8193 <= size /\ home_address size = 13).
Proof.
  intros Hs. rewrite home_address_table by assumption.
  unfold bucket_table, table_index, in_bucket. cbn [fst snd].
  assert (Hc : size = 32 \/ 33 <= size <= 64 \/ 65 <= size <= 85 \/
               86 <= size <= 112 \/ 113 <= size <= 128 \/
               129 <= size <= 160 \/ 161 <= size <= 200 \/
               201 <= size <= 256 \/ 257 <= size <= 512 \/
               513 <= size <= 1024 \/ 1025 <= size <= 2048 \/
               2049 <= size <= 4096 \/ 4097 <= size <= 8192 \/
               8193 <= size) by lia.
  repeat (destruct Hc as [Hc|Hc]);
    repeat match goal with
           | |- context [(?a <=? ?b)] =>
               first [ rewrite (proj2 (Z.leb_le a b)) by lia
                     | rewrite (proj2 (Z.leb_gt a b)) by lia ]
           end; cbn; lia.
Qed.

(** C9.  For every size of at least 32, [home_address] returns the index
    (0 to 13) of the one row of the fourteen-row boundary table whose
    inclusive range holds the size. *)
Theorem home_address_buckets (size : Z) :
  32 <= size ->
  0 <= home_address size <= 13 /\
  forall (i : nat) (b : Z * option Z),
    bucket_table !! i = Some b ->
    (in_bucket size b = true <-> home_address size = Z.of_nat i).
Proof.
  intros Hs. pose proof (home_address_cases size Hs) as Hc.
  split; [lia|].
  intros i b Hb.
  do 14 (destruct i as [|i];
         [cbn in Hb; injection Hb as <-; unfold in_bucket; cbn [fst snd];
          rewrite ?andb_true_iff, ?Z.leb_le; lia|]).
  cbn in Hb. discriminate.
Qed.

Lemma home_address_buckets_witness :
  32 <= 100 /\ home_address 100 = 3 /\ in_bucket 100 (86, Some 112) = true.
Proof.
  assert (H : 32 <= 100) by lia.
  split; [exact H|]. split; [reflexivity|].
  exact (proj2 (proj2 (home_address_buckets 100 H) 3%nat (86, Some 112)
                  eq_refl) eq_refl).
Defined.

(** ** C3: a request of zero bytes *)

(** A process that has not used the allocator yet, with room to grow. *)
Definition fresh_state : state := fresh 4096 65536.

(** C3, as the code has it.  [malloc 0] returns the null pointer in every
    state.  Once the heap has been initialised ([heap_start] is set) it
    leaves the whole allocator state as it was. *)
Theorem malloc_zero (fuel : nat) (s : state) :
  wp (malloc fuel 0) (fun r _ => r = NULL) s /\
  (heap_start s <> NULL -> malloc fuel 0 s = Some (NULL, s)).
Proof.
  split; [apply malloc_zero_null|].
  intros Hs. unfold malloc, bind, gets.
  destruct (Z.eqb_spec (heap_start s) NULL) as [E|_]; [contradiction|].
  reflexivity.
Qed.

(** C3 as stated fails on the state of a process that never called the
    allocator: the first call initialises the heap before it looks at the
    size, so the arena has grown and [heap_start] is set afterwards. *)
Lemma malloc_zero_fresh_changes_state :
  exists s', malloc 8 0 fresh_state = Some (NULL, s') /\
             heap_start s' = 4104 /\ heap_start fresh_state = NULL /\
             mem_brk s' = 4624 /\ mem_brk fresh_state = 4096 /\
             s' <> fresh_state.
Proof.
  destruct (malloc 8 0 fresh_state) as [[r s']|] eqn:E;
    [|vm_compute in E; discriminate].
  vm_compute in E. injection E as <- <-.
  eexists. split; [reflexivity|].
  repeat split.
  intros H. apply (f_equal heap_start) in H. vm_compute in H. discriminate.
Qed.

(** ** C6 and C10: zero-initialised allocation that yields nothing *)

Lemma wrapped_product_quotient (elements size : Z) :
  0 < elements < modulus -> 0 <= size < modulus ->
  modulus <= elements * size ->
  wrap (elements * size) / elements <> size.
Proof.
  intros He Hs Hov. unfold wrap.
  assert (Hm : 0 <= (elements * size) mod modulus < modulus)
    by (apply Z.mod_pos_bound; unfold modulus; lia).
  intros Hq.
  assert (Hle : elements * ((elements * size) mod modulus / elements)
                <= (elements * size) mod modulus)
    by (apply Z.mul_div_le; lia).
  rewrite Hq in Hle. lia.
Qed.

(** C6.  With [count = 0], and with a product [count * size] that does not
    fit a machine word, [calloc] returns the null pointer and the allocator
    state is exactly what it was: nothing is allocated, nothing is
    written. *)
Theorem calloc_null_without_effect (fuel : nat) (s : state) (count size : Z) :
  0 <= count < modulus ->
  0 <= size < modulus ->
  count = 0 \/ modulus <= count * size ->
  calloc fuel count size s = Some (NULL, s).
Proof.
  intros Hc Hs [->|Hov]; [reflexivity|].
  unfold calloc.
  destruct (Z.eqb_spec count 0) as [->|Hne]; [reflexivity|].
  destruct (Z.eqb_spec (wrap (count * size) / count) size) as [E|_];
    [|reflexivity].
  exfalso. revert E. apply wrapped_product_quotient; lia.
Qed.

Lemma calloc_null_without_effect_witness :
  calloc 8 0 8 fresh_state = Some (NULL, fresh_state) /\
  calloc 8 2 SIZE_MAX fresh_state = Some (NULL, fresh_state).
Proof.
  split.
  - apply (calloc_null_without_effect 8 fresh_state 0 8);
      [unfold modulus; lia | unfold modulus; lia | left; reflexivity].
  - apply (calloc_null_without_effect 8 fresh_state 2 SIZE_MAX);
      [unfold modulus; lia | unfold SIZE_MAX, modulus; lia
      | right; unfold SIZE_MAX, modulus; lia].
Defined.

(** C10.  With a positive count and an element size of zero the product
    is zero, the overflow test passes, [malloc 0] returns null, and so
    does [calloc]. *)
Theorem calloc_zero_size (fuel : nat) (s : state) (count : Z) :
  0 < count < modulus ->
  wp (calloc fuel count 0) (fun r _ => r = NULL) s.
Proof.
  intros Hc. unfold calloc.
  rewrite Z.mul_0_r. change (wrap 0) with 0.
  destruct (Z.eqb_spec count 0) as [->|_]; [lia|].
  rewrite Z.div_0_l by lia. cbn [Z.eqb negb].
  apply wp_bind. eapply wp_mono; [apply malloc_zero_null|].
  intros r s' ->. cbn. reflexivity.
Qed.

Lemma calloc_zero_size_witness :
  0 < 5 < modulus /\ wp (calloc 8 5 0) (fun r _ => r = NULL) fresh_state.
Proof.
  assert (H : 0 < 5 < modulus) by (unfold modulus; lia).
  split; [exact H|]. exact (calloc_zero_size 8 fresh_state 5 H).
Defined.

(** ** C2: the improvement window of the fit search *)

(** The blocks of a bucket in list order, by following [next]. *)
Fixpoint walk_next (fuel : nat) (s : state) (p : Z) : list Z :=
  match fuel with
  | O => []
  | S fuel' =>
      if p =? NULL then []
      else p :: walk_next fuel' s (load_word s (p + off_next))
  end.

Definition bucket_blocks (fuel : nat) (s : state) (idx : Z) : list Z :=
  walk_next fuel s (seg_get s idx).

(** Four blocks of 64, 64, 64 and 48 bytes, kept apart by 16-byte blocks
    that stay allocated, and released last to first, so that bucket 1
    lists them in address order. *)
Definition four_in_bucket_one : M unit :=
  let* a1 := malloc 8 56 in
  let* x1 := malloc 8 8 in
  let* a2 := malloc 8 56 in
  let* x2 := malloc 8 8 in
  let* a3 := malloc 8 56 in
  let* x3 := malloc 8 8 in
  let* a4 := malloc 8 40 in
  let* x4 := malloc 8 8 in
  do free 8 a4 then
  do free 8 a3 then
  do free 8 a2 then
  free 8 a1.

Definition fit_scenario : option state :=
  match four_in_bucket_one fresh_state with
  | Some (_, s) => Some s
  | None => None
  end.

(** C2, what the code does.  Bucket 1 holds blocks of 64, 64, 64 and 48
    bytes in this order and 48 bytes are asked for.  The first block fits
    with 16 bytes left over and the fourth fits exactly; it is the third
    block after the first fit.  The search returns the first block: the
    counter set to 3 is already decremented on the block that is the first
    fit, so only two more blocks are looked at. *)
Theorem find_fit_stops_after_two_more :
  exists s,
    fit_scenario = Some s /\
    bucket_blocks 8 s 1 = [4104; 4184; 4264; 4344] /\
    map (size_at s) [4104; 4184; 4264; 4344] = [64; 64; 64; 48] /\
    map (alloc_at s) [4104; 4184; 4264; 4344] = [false; false; false; false] /\
    find_fit 8 48 (home_address 48) s = Some (4104, s).
Proof.
  destruct fit_scenario as [s|] eqn:E; [|vm_compute in E; discriminate].
  vm_compute in E. injection E as <-.
  eexists. split; [reflexivity|].
  repeat split; vm_compute; reflexivity.
Qed.

(** ** C7: the usable size of a returned block *)

(** C7, what the code does on a request of [SIZE_MAX] bytes.  Adding the
    header word wraps around, the rounded size is 16, and the call
    succeeds with a 16-byte block, whose payload of 8 bytes is far smaller
    than the request. *)
Theorem malloc_size_max_returns_mini_block :
  wp (malloc 8 SIZE_MAX)
     (fun p s' =>
        p = 4112 /\
        alloc_at s' (payload_to_header p) = true /\
        size_at s' (payload_to_header p) = 16 /\
        size_at s' (payload_to_header p) - wsize < SIZE_MAX)
     fresh_state.
Proof.
  unfold wp.
  destruct (malloc 8 SIZE_MAX fresh_state) as [[p s']|] eqn:E;
    [|vm_compute in E; discriminate].
  vm_compute in E. injection E as <- <-.
  repeat split; vm_compute; reflexivity.
Qed.

(** * The heap invariant

    The abstract heap lists what the arena is meant to hold: for every
    block its decoded header, by address; the flags of the epilogue; and
    the contents of the free lists in list order. *)

Record blk : Type := mkBlk {
  bsz : Z;
  bmp : bool;
  bpa : bool;
  bal : bool
}.

Definition hdr_word (e : blk) : Z := pack (bsz e) (bmp e) (bpa e) (bal e).

Record aheap : Type := mkHeap {
  blocks : gmap Z blk;
  emp : bool;
  epa : bool;
  minis : list Z;
  segs : Z -> list Z
}.

(** The address of the epilogue. *)
Definition heap_end (s : state) : Z := mem_brk s - 8.

(** A singly linked list through the [next] fields. *)
Fixpoint sll (m : gmap Z Z) (p : Z) (l : list Z) : Prop :=
  match l with
  | [] => p = NULL
  | x :: l' => p = x /\ x <> NULL /\ sll m (default 0 (m !! (x + off_next))) l'
  end.

(** A doubly linked list: [pv] is what the [prev] field of the first node
    must hold. *)
Fixpoint dll (m : gmap Z Z) (pv p : Z) (l : list Z) : Prop :=
  match l with
  | [] => p = NULL
  | x :: l' =>
      p = x /\ x <> NULL /\ default 0 (m !! (x + off_prev)) = pv /\
      dll m x (default 0 (m !! (x + off_next))) l'
  end.

(** The block layout: headers, footers, epilogue, and how the blocks tile
    the arena from [heap_start] to the epilogue. *)
Record Layout (s : state) (A : aheap) : Prop := mkLayout {
  lay_start : 0 < heap_start s <= heap_end s;
  lay_align : heap_start s mod 16 = 8;
  lay_max : mem_brk s <= mem_max s < modulus;
  lay_hdr : forall x e, blocks A !! x = Some e ->
              mem s !! x = Some (hdr_word e);
  lay_ftr : forall x e, blocks A !! x = Some e ->
              bal e = false -> bsz e <> 16 ->
              mem s !! (x + bsz e - 8) = Some (hdr_word e);
  lay_epi : mem s !! heap_end s = Some (pack 0 (emp A) (epa A) true);
  lay_size : forall x e, blocks A !! x = Some e ->
               16 <= bsz e /\ bsz e mod 16 = 0 /\ x mod 16 = 8;
  lay_in : forall x e, blocks A !! x = Some e ->
             heap_start s <= x /\ x + bsz e <= heap_end s;
  lay_disj : forall x y ex ey,
      blocks A !! x = Some ex -> blocks A !! y = Some ey ->
      x < y -> x + bsz ex <= y;
  lay_next : forall x e, blocks A !! x = Some e ->
               x + bsz e = heap_end s \/ is_Some (blocks A !! (x + bsz e));
  lay_prev : forall x e, blocks A !! x = Some e ->
               x = heap_start s \/
               exists y ey, blocks A !! y = Some ey /\ y + bsz ey = x;
  lay_first : heap_start s = heap_end s \/
              is_Some (blocks A !! heap_start s);
  lay_last : heap_start s = heap_end s \/
             exists y ey, blocks A !! y = Some ey /\ y + bsz ey = heap_end s
}.

(** The free lists as they lie in memory. *)
Record Lists (s : state) (A : aheap) : Prop := mkLists {
  lst_len : length (seglist s) = 14%nat;
  lst_mini : sll (mem s) (mini_root s) (minis A);
  lst_mini_nodup : List.NoDup (minis A);
  lst_mini_blk : forall x, In x (minis A) ->
                   exists e, blocks A !! x = Some e /\ bsz e = 16;
  lst_seg : forall idx, 0 <= idx < 14 ->
              dll (mem s) NULL (seg_get s idx) (segs A idx);
  lst_seg_nodup : forall idx, 0 <= idx < 14 -> List.NoDup (segs A idx);
  lst_seg_blk : forall idx x, 0 <= idx < 14 -> In x (segs A idx) ->
                  exists e, blocks A !! x = Some e /\ bsz e <> 16 /\
                            home_address (bsz e) = idx
}.

Definition Rep (s : state) (A : aheap) : Prop := Layout s A /\ Lists s A.

(** Membership of a block in the free list of its size. *)
Definition listed (A : aheap) (x : Z) (e : blk) : Prop :=
  if bsz e =? 16 then In x (minis A)
  else In x (segs A (home_address (bsz e))).

(** What must hold between calls, on top of the layout: the flags tell the
    truth about the preceding block, no two neighbours are both free, and
    the free lists hold exactly the free blocks. *)
Record Good (hs he : Z) (A : aheap) : Prop := mkGood {
  g_flags : forall x e e', blocks A !! x = Some e ->
              blocks A !! (x + bsz e) = Some e' ->
              bpa e' = bal e /\ bmp e' = (bsz e =? 16);
  g_first : forall e, blocks A !! hs = Some e -> bpa e = true;
  g_last : forall x e, blocks A !! x = Some e -> x + bsz e = he ->
             epa A = bal e /\ emp A = (bsz e =? 16);
  g_empty : hs = he -> epa A = true;
  g_noadj : forall x e e', blocks A !! x = Some e ->
              blocks A !! (x + bsz e) = Some e' ->
              bal e = true \/ bal e' = true;
  g_listed : forall x e, blocks A !! x = Some e ->
               (bal e = false <-> listed A x e)
}.

Definition Inv (s : state) : Prop :=
  exists A, Rep s A /\ Good (heap_start s) (heap_end s) A.

(** ** Reading a laid-out heap *)

Section LayoutFacts.

Variables (s : state) (A : aheap).
Hypothesis HL : Layout s A.

Lemma blk_bounds x e :
  blocks A !! x = Some e ->
  16 <= bsz e < modulus /\ bsz e mod 16 = 0 /\
  0 < x /\ x + bsz e <= heap_end s /\ heap_end s < modulus.
Proof.
  intros Hx.
  destruct (lay_size s A HL x e Hx) as (? & ? & ?).
  destruct (lay_in s A HL x e Hx).
  pose proof (lay_start s A HL). pose proof (lay_max s A HL).
  unfold heap_end in *. lia.
Qed.

Lemma blk_range x e : blocks A !! x = Some e -> 0 <= bsz e < modulus.
Proof. intros Hx. pose proof (blk_bounds x e Hx). lia. Qed.

Lemma blk_mult x e : blocks A !! x = Some e -> bsz e mod 16 = 0.
Proof. intros Hx. apply (blk_bounds x e Hx). Qed.

Lemma blk_load x e : blocks A !! x = Some e -> load_word s x = hdr_word e.
Proof. intros Hx. unfold load_word. rewrite (lay_hdr s A HL x e Hx). reflexivity. Qed.

Lemma blk_size_at x e : blocks A !! x = Some e -> size_at s x = bsz e.
Proof.
  intros Hx. unfold size_at. rewrite (blk_load x e Hx).
  apply unpack_size; [apply (blk_range x e Hx)|apply (blk_mult x e Hx)].
Qed.

Lemma blk_alloc_at x e : blocks A !! x = Some e -> alloc_at s x = bal e.
Proof.
  intros Hx. unfold alloc_at. rewrite (blk_load x e Hx).
  apply unpack_alloc; [apply (blk_range x e Hx)|apply (blk_mult x e Hx)].
Qed.

Lemma blk_palloc_at x e : blocks A !! x = Some e -> palloc_at s x = bpa e.
Proof.
  intros Hx. unfold palloc_at. rewrite (blk_load x e Hx).
  apply unpack_palloc; [apply (blk_range x e Hx)|apply (blk_mult x e Hx)].
Qed.

Lemma blk_mpalloc_at x e : blocks A !! x = Some e -> mpalloc_at s x = bmp e.
Proof.
  intros Hx. unfold mpalloc_at. rewrite (blk_load x e Hx).
  apply unpack_mpalloc; [apply (blk_range x e Hx)|apply (blk_mult x e Hx)].
Qed.

Lemma blk_next_of x e : blocks A !! x = Some e -> next_of s x = x + bsz e.
Proof. intros Hx. unfold next_of. rewrite (blk_size_at x e Hx). reflexivity. Qed.

Lemma epi_load : load_word s (heap_end s) = pack 0 (emp A) (epa A) true.
Proof. unfold load_word. rewrite (lay_epi s A HL). reflexivity. Qed.

Lemma epi_size_at : size_at s (heap_end s) = 0.
Proof. unfold size_at. rewrite epi_load. apply unpack_size; [unfold modulus; lia|reflexivity]. Qed.

Lemma epi_alloc_at : alloc_at s (heap_end s) = true.
Proof. unfold alloc_at. rewrite epi_load. apply unpack_alloc; [unfold modulus; lia|reflexivity]. Qed.

Lemma epi_palloc_at : palloc_at s (heap_end s) = epa A.
Proof. unfold palloc_at. rewrite epi_load. apply unpack_palloc; [unfold modulus; lia|reflexivity]. Qed.

Lemma epi_mpalloc_at : mpalloc_at s (heap_end s) = emp A.
Proof. unfold mpalloc_at. rewrite epi_load. apply unpack_mpalloc; [unfold modulus; lia|reflexivity]. Qed.

Lemma epi_is_epilogue : is_epilogue s (heap_end s) = true.
Proof.
  unfold is_epilogue. rewrite epi_alloc_at, epi_size_at.
  unfold heap_end, mem_heap_hi.
  replace (mem_brk s - 8 =? mem_brk s - 1 - 7) with true
    by (symmetry; apply Z.eqb_eq; lia).
  reflexivity.
Qed.

Lemma blk_not_epilogue x e : blocks A !! x = Some e -> is_epilogue s x = false.
Proof.
  intros Hx. unfold is_epilogue. rewrite (blk_size_at x e Hx).
  pose proof (blk_bounds x e Hx).
  replace (bsz e =? 0) with false by (symmetry; apply Z.eqb_neq; lia).
  apply andb_false_r.
Qed.

(** Two blocks are the same or their extents do not meet. *)
Lemma blk_apart x y ex ey :
  blocks A !! x = Some ex -> blocks A !! y = Some ey ->
  x = y \/ x + bsz ex <= y \/ y + bsz ey <= x.
Proof.
  intros Hx Hy.
  destruct (Z.lt_trichotomy x y) as [H|[H|H]]; [|auto|].
  - right; left. exact (lay_disj s A HL x y ex ey Hx Hy H).
  - right; right. exact (lay_disj s A HL y x ey ex Hy Hx H).
Qed.

Lemma blk_inj x e e' :
  blocks A !! x = Some e -> blocks A !! x = Some e' -> e = e'.
Proof. congruence. Qed.

(** The block that ends where [x] starts is unique. *)
Lemma blk_prev_unique x y z ey ez :
  blocks A !! y = Some ey -> blocks A !! z = Some ez ->
  y + bsz ey = x -> z + bsz ez = x -> y = z.
Proof.
  intros Hy Hz E1 E2.
  pose proof (blk_bounds y ey Hy) as By. pose proof (blk_bounds z ez Hz) as Bz.
  destruct (blk_apart y z ey ez Hy Hz) as [H|[H|H]]; lia.
Qed.

End LayoutFacts.

(** ** Updating the abstract heap *)

Definition set_blocks (H : gmap Z blk) (A : aheap) : aheap :=
  mkHeap H (emp A) (epa A) (minis A) (segs A).
Definition set_block (x : Z) (e : blk) (A : aheap) : aheap :=
  set_blocks (<[x := e]> (blocks A)) A.
Definition set_epi (mp p : bool) (A : aheap) : aheap :=
  mkHeap (blocks A) mp p (minis A) (segs A).
Definition set_minis (l : list Z) (A : aheap) : aheap :=
  mkHeap (blocks A) (emp A) (epa A) l (segs A).
Definition set_seg (idx : Z) (l : list Z) (A : aheap) : aheap :=
  mkHeap (blocks A) (emp A) (epa A) (minis A)
    (fun i => if i =? idx then l else segs A i).

(** The words the layout depends on. *)
Definition tag (s : state) (A : aheap) (a : Z) : Prop :=
  a = heap_end s \/
  exists x e, blocks A !! x = Some e /\
              (a = x \/ (bal e = false /\ bsz e <> 16 /\ a = x + bsz e - 8)).

(** The words the lists depend on. *)
Definition link (A : aheap) (a : Z) : Prop :=
  (exists x, In x (minis A) /\ a = x + off_next) \/
  (exists idx x, 0 <= idx < 14 /\ In x (segs A idx) /\
                 (a = x + off_next \/ a = x + off_prev)).

(** Two states with the same arena bounds. *)
Definition same_arena (s s' : state) : Prop :=
  heap_start s' = heap_start s /\ mem_brk s' = mem_brk s /\
  mem_max s' = mem_max s /\ mem_lo s' = mem_lo s.

Lemma same_arena_refl s : same_arena s s.
Proof. repeat split. Qed.

Lemma same_arena_trans s1 s2 s3 :
  same_arena s1 s2 -> same_arena s2 s3 -> same_arena s1 s3.
Proof. unfold same_arena. intros (?&?&?&?) (?&?&?&?). repeat split; congruence. Qed.

Lemma same_arena_end s s' : same_arena s s' -> heap_end s' = heap_end s.
Proof. unfold same_arena, heap_end. intros (?&?&?&?). congruence. Qed.

Lemma layout_frame s s' A :
  Layout s A -> same_arena s s' ->
  (forall a, tag s A a -> mem s' !! a = mem s !! a) ->
  Layout s' A.
Proof.
  intros HL Ha Hm. pose proof (same_arena_end s s' Ha) as He.
  destruct Ha as (Hs & Hb & Hx & Hl).
  destruct HL as [h1 h2 h3 h4 h5 h6 h7 h8 h9 h10 h11 h12 h13].
  constructor; rewrite ?He, ?Hs, ?Hb, ?Hx; auto.
  - intros x e Hxe. rewrite Hm; [auto|]. right. exists x, e. auto.
  - intros x e Hxe Hf Hn. rewrite Hm; [auto|]. right. exists x, e. auto.
  - rewrite Hm; [auto|]. left. reflexivity.
Qed.

Lemma sll_frame m m' p l :
  (forall x, In x l -> m' !! (x + off_next) = m !! (x + off_next)) ->
  sll m p l -> sll m' p l.
Proof.
  revert p. induction l as [|x l IH]; intros p Hm; cbn; [auto|].
  intros (-> & Hx & Hl). repeat split; auto.
  rewrite Hm by (left; reflexivity).
  apply IH; [|exact Hl]. intros y Hy. apply Hm. right. exact Hy.
Qed.

Lemma dll_frame m m' pv p l :
  (forall x, In x l -> m' !! (x + off_next) = m !! (x + off_next) /\
                       m' !! (x + off_prev) = m !! (x + off_prev)) ->
  dll m pv p l -> dll m' pv p l.
Proof.
  revert pv p. induction l as [|x l IH]; intros pv p Hm; cbn; [auto|].
  intros (-> & Hx & Hp & Hl).
  destruct (Hm x (or_introl eq_refl)) as [E1 E2].
  repeat split; auto.
  - rewrite E2. exact Hp.
  - rewrite E1. apply IH; [|exact Hl]. intros y Hy. apply Hm. right. exact Hy.
Qed.

Lemma lists_frame s s' A :
  Lists s A ->
  seglist s' = seglist s -> mini_root s' = mini_root s ->
  (forall a, link A a -> mem s' !! a = mem s !! a) ->
  Lists s' A.
Proof.
  intros [h1 h2 h3 h4 h5 h6 h7] Hs Hr Hm.
  constructor; auto.
  - congruence.
  - rewrite Hr. eapply sll_frame; [|exact h2].
    intros x Hx. apply Hm. left. exists x. auto.
  - intros idx Hi. unfold seg_get. rewrite Hs.
    eapply dll_frame; [|exact (h5 idx Hi)].
    intros x Hx. split; apply Hm; right; exists idx, x; auto.
Qed.

(** A link field lies strictly inside the block that owns it, below any
    footer. *)
Lemma link_inside s A a :
  Layout s A -> Lists s A -> link A a ->
  exists z ez, blocks A !! z = Some ez /\ listed A z ez /\
               ((a = z + 8) \/ (a = z + 16 /\ bsz ez <> 16)).
Proof.
  intros HL HS [(x & Hx & ->)|(idx & x & Hi & Hx & Ha)].
  - destruct (lst_mini_blk s A HS x Hx) as (e & He & Hsz).
    exists x, e. split; [exact He|]. split; [|left; reflexivity].
    unfold listed. rewrite Hsz. exact Hx.
  - destruct (lst_seg_blk s A HS idx x Hi Hx) as (e & He & Hsz & Hh).
    exists x, e. split; [exact He|]. split.
    + unfold listed. rewrite (proj2 (Z.eqb_neq _ _) Hsz), Hh. exact Hx.
    + unfold off_next, off_prev in Ha. destruct Ha as [->| ->]; auto.
Qed.

Lemma tag_not_link s A a :
  Layout s A -> Lists s A -> tag s A a -> link A a -> False.
Proof.
  intros HL HS Ht Hl.
  destruct (link_inside s A a HL HS Hl) as (z & ez & Hz & _ & Ha).
  pose proof (blk_bounds s A HL z ez Hz) as Bz.
  destruct Ht as [Ea|(x & e & Hx & Hax)].
  - destruct Ha as [E|[E Hn]]; Z.to_euclidean_division_equations; lia.
  - pose proof (blk_bounds s A HL x e Hx) as Bx.
    pose proof (blk_apart s A HL x z e ez Hx Hz) as Hd.
    assert (Hsame : x = z -> bsz e = bsz ez) by (intros ->; congruence).
    destruct Hax as [E1|(Hf & Hn & E1)];
      destruct Ha as [E2|[E2 Hn']];
      destruct Hd as [Hd|[Hd|Hd]]; try lia;
      specialize (Hsame Hd);
      Z.to_euclidean_division_equations; lia.
Qed.

(** ** The memory after [write_block] *)

Section WriteBlockMem.

Variables (m : gmap Z Z) (x sz : Z) (mp p a : bool).
Hypothesis Hrange : 0 <= sz < modulus.
Hypothesis Hmult : sz mod 16 = 0.

Lemma wbm_hdr :
  write_block_mem m x sz mp p a !! x = Some (pack sz mp p a).
Proof.
  unfold write_block_mem. destruct (isMiniSize sz || a).
  - apply lookup_insert_eq.
  - rewrite unpack_size by assumption. unfold off_payload, dsize, wsize.
    destruct (Z.eq_dec (x + 8 + sz - 2 * 8) x) as [E|E].
    + rewrite E. apply lookup_insert_eq.
    + rewrite lookup_insert_ne by exact E. apply lookup_insert_eq.
Qed.

Lemma wbm_ftr :
  a = false -> sz <> 16 ->
  write_block_mem m x sz mp p a !! (x + sz - 8) = Some (pack sz mp p a).
Proof.
  intros -> Hn. unfold write_block_mem, isMiniSize, MINI_BLOCK_SIZE.
  rewrite (proj2 (Z.eqb_neq _ _) Hn). cbn [orb].
  rewrite unpack_size by assumption. unfold off_payload, dsize, wsize.
  replace (x + 8 + sz - 2 * 8) with (x + sz - 8) by lia.
  apply lookup_insert_eq.
Qed.

Lemma wbm_other y :
  y <> x -> y <> x + sz - 8 ->
  write_block_mem m x sz mp p a !! y = m !! y.
Proof.
  intros H1 H2. unfold write_block_mem. destruct (isMiniSize sz || a).
  - apply lookup_insert_ne. congruence.
  - rewrite unpack_size by assumption. unfold off_payload, dsize, wsize.
    rewrite !lookup_insert_ne by lia. reflexivity.
Qed.

(** An allocated or 16-byte block has no footer: only the header word is
    written. *)
Lemma wbm_other_nofooter y :
  (a = true \/ sz = 16) -> y <> x ->
  write_block_mem m x sz mp p a !! y = m !! y.
Proof.
  intros Hc H1. unfold write_block_mem, isMiniSize, MINI_BLOCK_SIZE.
  replace ((sz =? 16) || a) with true.
  - apply lookup_insert_ne. congruence.
  - destruct Hc as [->| ->]; [apply eq_sym, orb_true_r|reflexivity].
Qed.

End WriteBlockMem.

(** ** Rewriting a header in place *)

Section WriteSame.

Variables (s : state) (A : aheap) (x : Z) (e : blk) (mp p a : bool).
Hypothesis HL : Layout s A.
Hypothesis Hx : blocks A !! x = Some e.

Let e' : blk := mkBlk (bsz e) mp p a.
Let s' : state := set_mem (write_block_mem (mem s) x (bsz e) mp p a) s.
Let A' : aheap := set_block x e' A.

Lemma set_same_fwd y e1 :
  blocks A' !! y = Some e1 ->
  exists e0, blocks A !! y = Some e0 /\ bsz e0 = bsz e1 /\
             (y <> x -> e0 = e1) /\ (y = x -> e1 = e').
Proof.
  unfold A', set_block, set_blocks. cbn [blocks]. intros H.
  destruct (Z.eq_dec x y) as [<-|Hne].
  - rewrite lookup_insert_eq in H. injection H as <-.
    exists e. repeat split; auto. congruence.
  - rewrite lookup_insert_ne in H by exact Hne.
    exists e1. repeat split; auto. congruence.
Qed.

Lemma set_same_bwd y e0 :
  blocks A !! y = Some e0 ->
  exists e1, blocks A' !! y = Some e1 /\ bsz e1 = bsz e0.
Proof.
  unfold A', set_block, set_blocks. cbn [blocks]. intros H.
  destruct (Z.eq_dec x y) as [<-|Hne].
  - rewrite lookup_insert_eq. exists e'. split; [reflexivity|].
    cbn. congruence.
  - rewrite lookup_insert_ne by exact Hne. exists e0. auto.
Qed.

Lemma layout_write_same : Layout s' A'.
Proof.
  pose proof (blk_bounds s A HL x e Hx) as Bx.
  assert (Hr : 0 <= bsz e < modulus) by lia.
  assert (Hm : bsz e mod 16 = 0) by apply Bx.
  constructor; unfold s'; st_simpl; cbn [mem heap_start mem_brk mem_max];
    try apply HL.
  - (* headers *)
    intros y e1 Hy. destruct (set_same_fwd y e1 Hy) as (e0 & H0 & Hsz & Hne & Heq).
    destruct (Z.eq_dec y x) as [->|Hyx].
    + rewrite (Heq eq_refl). apply wbm_hdr; assumption.
    + rewrite <- (Hne Hyx).
      pose proof (blk_bounds s A HL y e0 H0) as By.
      pose proof (blk_apart s A HL x y e e0 Hx H0) as Hd.
      rewrite wbm_other by (try assumption; lia).
      apply (lay_hdr s A HL y e0 H0).
  - (* footers *)
    intros y e1 Hy Hf Hn.
    destruct (set_same_fwd y e1 Hy) as (e0 & H0 & Hsz & Hne & Heq).
    destruct (Z.eq_dec y x) as [->|Hyx].
    + rewrite (Heq eq_refl) in *. cbn [bsz bal] in *.
      apply wbm_ftr; assumption.
    + specialize (Hne Hyx). subst e1.
      pose proof (blk_bounds s A HL y e0 H0) as By.
      pose proof (blk_apart s A HL x y e e0 Hx H0) as Hd.
      rewrite wbm_other by (try assumption; lia).
      apply (lay_ftr s A HL y e0 H0 Hf Hn).
  - (* epilogue *)
    change (heap_end (mkState _ _ _ _ _ _ _)) with (heap_end s).
    rewrite wbm_other by (try assumption; lia). apply HL.
  - intros y e1 Hy. destruct (set_same_fwd y e1 Hy) as (e0 & H0 & Hsz & _).
    rewrite <- Hsz. apply (lay_size s A HL y e0 H0).
  - intros y e1 Hy. destruct (set_same_fwd y e1 Hy) as (e0 & H0 & Hsz & _).
    rewrite <- Hsz. apply (lay_in s A HL y e0 H0).
  - intros y z e1 e2 Hy Hz Hlt.
    destruct (set_same_fwd y e1 Hy) as (e0 & H0 & Hsz & _).
    destruct (set_same_fwd z e2 Hz) as (e3 & H3 & _).
    rewrite <- Hsz. apply (lay_disj s A HL y z e0 e3 H0 H3 Hlt).
  - intros y e1 Hy. destruct (set_same_fwd y e1 Hy) as (e0 & H0 & Hsz & _).
    rewrite <- Hsz.
    destruct (lay_next s A HL y e0 H0) as [E|[e2 H2]]; [left; exact E|].
    right. destruct (set_same_bwd _ e2 H2) as (e3 & H3 & _). eauto.
  - intros y e1 Hy. destruct (set_same_fwd y e1 Hy) as (e0 & H0 & Hsz & _).
    destruct (lay_prev s A HL y e0 H0) as [E|(z & ez & Hz & E)]; [left; exact E|].
    right. destruct (set_same_bwd _ ez Hz) as (e3 & H3 & Hsz3).
    exists z, e3. split; [exact H3|]. congruence.
  - destruct (lay_first s A HL) as [E|[e2 H2]]; [left; exact E|].
    right. destruct (set_same_bwd _ e2 H2) as (e3 & H3 & _). eauto.
  - destruct (lay_last s A HL) as [E|(y & ey & Hy & E)]; [left; exact E|].
    right. destruct (set_same_bwd _ ey Hy) as (e3 & H3 & Hs3).
    exists y, e3. split; [exact H3|]. rewrite Hs3. exact E.
Qed.

End WriteSame.

Lemma lists_write_same s A x e mp p a :
  Layout s A -> Lists s A -> blocks A !! x = Some e ->
  Lists (set_mem (write_block_mem (mem s) x (bsz e) mp p a) s)
        (set_block x (mkBlk (bsz e) mp p a) A).
Proof.
  intros HL HS Hx.
  pose proof (blk_bounds s A HL x e Hx) as Bx.
  assert (Hr : 0 <= bsz e < modulus) by lia.
  assert (Hm : bsz e mod 16 = 0) by apply Bx.
  assert (Hfr : forall c, link A c ->
            write_block_mem (mem s) x (bsz e) mp p a !! c = mem s !! c).
  { intros c Hc.
    destruct (link_inside s A c HL HS Hc) as (z & ez & Hz & _ & Hcz).
    pose proof (blk_bounds s A HL z ez Hz) as Bz.
    pose proof (blk_apart s A HL x z e ez Hx Hz) as Hd.
    assert (Hsame : x = z -> bsz e = bsz ez) by (intros ->; congruence).
    destruct (Z.eq_dec (bsz e) 16) as [E16|N16].
    - apply wbm_other_nofooter; auto.
      destruct Hcz as [->|[-> ?]]; destruct Hd as [Hd|[Hd|Hd]]; lia.
    - destruct a.
      + apply wbm_other_nofooter; auto.
        destruct Hcz as [->|[-> ?]]; destruct Hd as [Hd|[Hd|Hd]]; lia.
      + apply wbm_other; try assumption;
          destruct Hcz as [->|[-> ?]]; destruct Hd as [Hd|[Hd|Hd]];
          try lia; specialize (Hsame Hd);
          Z.to_euclidean_division_equations; lia. }
  pose proof (lists_frame s
    (set_mem (write_block_mem (mem s) x (bsz e) mp p a) s) A HS
    eq_refl eq_refl Hfr) as [h1 h2 h3 h4 h5 h6 h7].
  constructor; auto.
  - intros z Hz. destruct (h4 z Hz) as (ez & Hez & Hsz).
    destruct (set_same_bwd A x e mp p a Hx z ez Hez) as (e1 & H1 & Hs1).
    exists e1. split; [exact H1|]. congruence.
  - intros idx z Hi Hz. destruct (h7 idx z Hi Hz) as (ez & Hez & Hsz & Hh).
    destruct (set_same_bwd A x e mp p a Hx z ez Hez) as (e1 & H1 & Hs1).
    exists e1. rewrite Hs1. auto.
Qed.

Lemma rep_write_same s A x e mp p a :
  Rep s A -> blocks A !! x = Some e ->
  Rep (set_mem (write_block_mem (mem s) x (bsz e) mp p a) s)
      (set_block x (mkBlk (bsz e) mp p a) A).
Proof.
  intros [HL HS] Hx. split.
  - apply layout_write_same; assumption.
  - apply lists_write_same; assumption.
Qed.

Lemma rep_write_epilogue s A mp p :
  Rep s A ->
  Rep (set_mem (<[heap_end s := pack 0 mp p true]> (mem s)) s) (set_epi mp p A).
Proof.
  intros [HL HS]. split.
  - destruct HL as [h1 h2 h3 h4 h5 h6 h7 h8 h9 h10 h11 h12 h13].
    constructor; auto; cbn [mem set_mem blocks set_epi].
    + intros x e Hx. destruct (h8 x e Hx). destruct (h7 x e Hx).
      rewrite lookup_insert_ne by lia. auto.
    + intros x e Hx Hf Hn. destruct (h8 x e Hx). destruct (h7 x e Hx).
      rewrite lookup_insert_ne by lia. auto.
    + apply lookup_insert_eq.
  - assert (Hfr : forall c, link A c ->
              <[heap_end s := pack 0 mp p true]> (mem s) !! c = mem s !! c).
    { intros c Hc. apply lookup_insert_ne. intros <-.
      apply (tag_not_link s A (heap_end s) HL HS); [left; reflexivity|exact Hc]. }
    pose proof (lists_frame s
      (set_mem (<[heap_end s := pack 0 mp p true]> (mem s)) s) A HS
      eq_refl eq_refl Hfr) as [h1 h2 h3 h4 h5 h6 h7].
    constructor; auto.
Qed.

(** ** Payloads in use

    A word is held when it lies inside an allocated block that is on no
    free list, past the header: it belongs to the program, and the
    allocator must leave it alone. *)
Definition held (A : aheap) (a : Z) : Prop :=
  exists x e, blocks A !! x = Some e /\ bal e = true /\ ~ listed A x e /\
              x < a < x + bsz e.

(** The held words read the same in both states. *)
Definition keeps (A : aheap) (s s' : state) : Prop :=
  forall a, held A a -> mem s' !! a = mem s !! a.

Lemma keeps_refl A s : keeps A s s.
Proof. intros a _. reflexivity. Qed.

Lemma keeps_trans A A1 s s1 s2 :
  keeps A s s1 -> keeps A1 s1 s2 -> (forall a, held A a -> held A1 a) ->
  keeps A s s2.
Proof. intros H1 H2 Hi a Ha. rewrite (H2 a (Hi a Ha)). apply (H1 a Ha). Qed.

Lemma keeps_set_seglist A s l : keeps A s (set_seglist l s).
Proof. intros a _. reflexivity. Qed.

Section HeldFacts.

Variables (s : state) (A : aheap).
Hypothesis HL : Layout s A.

(** A held word lies in no block that is free or listed, and is no
    header. *)
Lemma held_apart a y ey :
  held A a -> blocks A !! y = Some ey ->
  a <> y /\ (bal ey = false \/ listed A y ey -> a < y \/ y + bsz ey <= a).
Proof.
  intros (x & e & Hx & Hal & Hnl & Hin) Hy.
  pose proof (blk_bounds s A HL x e Hx) as Bx.
  pose proof (blk_bounds s A HL y ey Hy) as By.
  destruct (blk_apart s A HL x y e ey Hx Hy) as [E|[D|D]].
  - subst y. assert (ey = e) by congruence. subst ey.
    split; [lia|]. intros [H|H]; [congruence|contradiction].
  - split; lia.
  - split; lia.
Qed.

Lemma held_below_end a : held A a -> heap_start s < a < heap_end s.
Proof.
  intros (x & e & Hx & _ & _ & Hin). pose proof (lay_in s A HL x e Hx). lia.
Qed.

Lemma held_not_tag a : held A a -> ~ tag s A a.
Proof.
  intros Ha [E|(y & ey & Hy & [E|(Hf & Hn & E)])].
  - pose proof (held_below_end a Ha). lia.
  - destruct (held_apart a y ey Ha Hy) as [N _]. contradiction.
  - destruct (held_apart a y ey Ha Hy) as [_ D].
    pose proof (blk_bounds s A HL y ey Hy). destruct (D (or_introl Hf)); lia.
Qed.

Lemma held_not_link a : Lists s A -> held A a -> ~ link A a.
Proof.
  intros HS Ha Hl.
  destruct (link_inside s A a HL HS Hl) as (z & ez & Hz & Hlz & Hc).
  destruct (held_apart a z ez Ha Hz) as [_ D].
  pose proof (blk_bounds s A HL z ez Hz) as Bz.
  destruct (lay_size s A HL z ez Hz) as (_ & Hm & _).
  destruct (D (or_intror Hlz)) as [D1|D1]; destruct Hc as [E|[E Hn]];
    try lia; revert Hm; divlia.
Qed.

(** Rewriting a header, and the footer of a block that is free, keeps
    the held words. *)
Lemma keeps_write_same x e mp p a :
  blocks A !! x = Some e -> a = true \/ bal e = false ->
  keeps A s (set_mem (write_block_mem (mem s) x (bsz e) mp p a) s).
Proof.
  intros Hx Hc c Hh. cbn [mem set_mem].
  pose proof (blk_bounds s A HL x e Hx) as Bx.
  destruct (held_apart c x e Hh Hx) as [N D].
  assert (Hr : 0 <= bsz e < modulus) by lia.
  assert (Hm : bsz e mod 16 = 0) by apply Bx.
  destruct Hc as [->|Hf].
  - apply (wbm_other_nofooter _ _ _ _ _ _ Hr Hm); [left; reflexivity|exact N].
  - apply (wbm_other _ _ _ _ _ _ Hr Hm); [exact N|].
    destruct (D (or_introl Hf)); lia.
Qed.

Lemma keeps_write_epilogue mp p :
  keeps A s (set_mem (<[heap_end s := pack 0 mp p true]> (mem s)) s).
Proof.
  intros c Hh. cbn [mem set_mem]. pose proof (held_below_end c Hh).
  apply lookup_insert_ne. lia.
Qed.

End HeldFacts.

(** ** Propagating flags to the next block *)

Definition upd_next_pa (b : Z) (A : aheap) : aheap :=
  match blocks A !! b with
  | Some e =>
      match blocks A !! (b + bsz e) with
      | Some en =>
          set_block (b + bsz e) (mkBlk (bsz en) (bmp en) (bal e) (bal en)) A
      | None => set_epi (emp A) (bal e) A
      end
  | None => A
  end.

Definition upd_next_mp (b : Z) (A : aheap) : aheap :=
  match blocks A !! b with
  | Some e =>
      match blocks A !! (b + bsz e) with
      | Some en =>
          set_block (b + bsz e)
            (mkBlk (bsz en) (bsz e =? 16) (bpa en) (bal en)) A
      | None => set_epi (bsz e =? 16) (epa A) A
      end
  | None => A
  end.

Lemma same_arena_set_mem s m : same_arena s (set_mem m s).
Proof. repeat split. Qed.

Lemma update_next_palloc_spec s A b e (Q : unit -> state -> Prop) :
  Rep s A -> blocks A !! b = Some e ->
  (forall s', Rep s' (upd_next_pa b A) -> same_arena s s' -> keeps A s s' ->
     Q tt s') ->
  wp (update_next_palloc b) Q s.
Proof.
  intros HR Hb HQ. pose proof HR as [HL HS].
  unfold update_next_palloc. repeat wp_prim.
  rewrite (blk_next_of s A HL b e Hb), (blk_alloc_at s A HL b e Hb).
  unfold upd_next_pa in HQ. rewrite Hb in HQ.
  destruct (lay_next s A HL b e Hb) as [E|[en Hn]].
  - assert (Hnone : blocks A !! (b + bsz e) = None).
    { destruct (blocks A !! (b + bsz e)) as [en|] eqn:Hn; [|reflexivity].
      pose proof (blk_bounds s A HL _ en Hn). lia. }
    rewrite Hnone in HQ. rewrite E.
    rewrite (epi_is_epilogue s A HL), (epi_mpalloc_at s A HL).
    apply wp_write_epilogue. apply HQ.
    + apply rep_write_epilogue. exact HR.
    + apply same_arena_set_mem.
    + apply (keeps_write_epilogue s A HL).
  - rewrite Hn in HQ.
    rewrite (blk_not_epilogue s A HL _ en Hn), (blk_size_at s A HL _ en Hn),
      (blk_mpalloc_at s A HL _ en Hn), (blk_alloc_at s A HL _ en Hn).
    apply wp_write_block. apply HQ.
    + apply rep_write_same; assumption.
    + apply same_arena_set_mem.
    + apply (keeps_write_same s A HL _ en); [exact Hn|].
      destruct (bal en); auto.
Qed.

Lemma update_next_mpalloc_spec s A b e (Q : unit -> state -> Prop) :
  Rep s A -> blocks A !! b = Some e ->
  (forall s', Rep s' (upd_next_mp b A) -> same_arena s s' -> keeps A s s' ->
     Q tt s') ->
  wp (update_next_mpalloc b) Q s.
Proof.
  intros HR Hb HQ. pose proof HR as [HL HS].
  unfold update_next_mpalloc. repeat wp_prim.
  rewrite (blk_next_of s A HL b e Hb), (blk_size_at s A HL b e Hb).
  unfold upd_next_mp in HQ. rewrite Hb in HQ.
  destruct (lay_next s A HL b e Hb) as [E|[en Hn]].
  - assert (Hnone : blocks A !! (b + bsz e) = None).
    { destruct (blocks A !! (b + bsz e)) as [en|] eqn:Hn; [|reflexivity].
      pose proof (blk_bounds s A HL _ en Hn). lia. }
    rewrite Hnone in HQ. rewrite E.
    rewrite (epi_is_epilogue s A HL), (epi_palloc_at s A HL).
    apply wp_write_epilogue. apply HQ.
    + apply rep_write_epilogue. exact HR.
    + apply same_arena_set_mem.
    + apply (keeps_write_epilogue s A HL).
  - rewrite Hn in HQ.
    rewrite (blk_not_epilogue s A HL _ en Hn), (blk_size_at s A HL _ en Hn),
      (blk_palloc_at s A HL _ en Hn), (blk_alloc_at s A HL _ en Hn).
    apply wp_write_block. apply HQ.
    + apply rep_write_same; assumption.
    + apply same_arena_set_mem.
    + apply (keeps_write_same s A HL _ en); [exact Hn|].
      destruct (bal en); auto.
Qed.

(** ** What stays held when the heap is described anew *)

Lemma held_mono_blk A A' a :
  (forall x e, blocks A !! x = Some e -> bal e = true -> ~ listed A x e ->
     exists e', blocks A' !! x = Some e' /\ bal e' = true /\
                bsz e' = bsz e /\ ~ listed A' x e') ->
  held A a -> held A' a.
Proof.
  intros H (x & e & Hx & Hal & Hnl & Hin).
  destruct (H x e Hx Hal Hnl) as (e' & Hx' & Hal' & Hsz & Hnl').
  exists x, e'. rewrite Hsz. auto.
Qed.

Lemma held_set_block A y ey e' a :
  blocks A !! y = Some ey -> bsz e' = bsz ey -> (bal ey = true -> bal e' = true) ->
  held A a -> held (set_block y e' A) a.
Proof.
  intros Hy Hsz Hal. apply held_mono_blk. intros x e Hx Hax Hnl.
  unfold set_block, set_blocks, listed in *. cbn [blocks minis segs].
  destruct (Z.eq_dec y x) as [<-|N].
  - rewrite lookup_insert_eq. exists e'.
    assert (e = ey) by congruence. subst e.
    rewrite Hsz. repeat split; auto.
  - rewrite lookup_insert_ne by exact N. exists e. auto.
Qed.

Lemma held_set_epi A mp p a : held A a -> held (set_epi mp p A) a.
Proof. intros H. exact H. Qed.

Lemma held_upd_next_pa b A a : held A a -> held (upd_next_pa b A) a.
Proof.
  unfold upd_next_pa. destruct (blocks A !! b) as [e|] eqn:Hb; [|auto].
  destruct (blocks A !! (b + bsz e)) as [en|] eqn:Hn; [|apply held_set_epi].
  apply (held_set_block A _ en); auto.
Qed.

Lemma held_upd_next_mp b A a : held A a -> held (upd_next_mp b A) a.
Proof.
  unfold upd_next_mp. destruct (blocks A !! b) as [e|] eqn:Hb; [|auto].
  destruct (blocks A !! (b + bsz e)) as [en|] eqn:Hn; [|apply held_set_epi].
  apply (held_set_block A _ en); auto.
Qed.

(** Lists may lose nodes and gain free blocks. *)
Lemma held_set_minis A l a :
  (forall x, In x l ->
     In x (minis A) \/ exists e, blocks A !! x = Some e /\ bal e = false) ->
  held A a -> held (set_minis l A) a.
Proof.
  intros Hl. apply held_mono_blk. intros x e Hx Hal Hnl.
  exists e. repeat split; auto. unfold listed in *. cbn [minis segs set_minis].
  destruct (bsz e =? 16); [|exact Hnl].
  intros Hx'. destruct (Hl x Hx') as [H|(e0 & H0 & Hf)]; [auto|congruence].
Qed.

Lemma held_set_seg A idx l a :
  (forall x, In x l ->
     In x (segs A idx) \/ exists e, blocks A !! x = Some e /\ bal e = false) ->
  held A a -> held (set_seg idx l A) a.
Proof.
  intros Hl. apply held_mono_blk. intros x e Hx Hal Hnl.
  exists e. repeat split; auto. unfold listed in *. cbn [minis segs set_seg].
  destruct (bsz e =? 16); [exact Hnl|].
  destruct (Z.eqb_spec (home_address (bsz e)) idx) as [E|N]; [|exact Hnl].
  intros Hx'. destruct (Hl x Hx') as [H|(e0 & H0 & Hf)]; [|congruence].
  rewrite E in Hnl. auto.
Qed.

(** ** Stores that the layout does not see *)

Lemma layout_same_blocks s A A' :
  Layout s A -> blocks A' = blocks A -> emp A' = emp A -> epa A' = epa A ->
  Layout s A'.
Proof.
  intros [h1 h2 h3 h4 h5 h6 h7 h8 h9 h10 h11 h12 h13] Hb He Hp.
  constructor; rewrite ?Hb, ?He, ?Hp; auto.
Qed.

Lemma layout_same_mem s s' A :
  Layout s A -> same_arena s s' -> mem s' = mem s -> Layout s' A.
Proof.
  intros HL Ha Hm. apply (layout_frame s s' A HL Ha).
  intros a _. rewrite Hm. reflexivity.
Qed.

(** A store strictly inside a block, off its footer. *)
Lemma layout_store_inside s A z ez a v :
  Layout s A -> blocks A !! z = Some ez ->
  z < a < z + bsz ez ->
  (bal ez = false -> bsz ez <> 16 -> a <> z + bsz ez - 8) ->
  Layout (set_mem (<[a := v]> (mem s)) s) A.
Proof.
  intros HL Hz Ha Hf.
  apply (layout_frame s _ A HL (same_arena_set_mem s _)).
  intros c Hc. cbn [mem set_mem]. apply lookup_insert_ne. intros <-.
  pose proof (blk_bounds s A HL z ez Hz) as Bz.
  destruct Hc as [E|(x & e & Hx & Hax)]; [lia|].
  pose proof (blk_bounds s A HL x e Hx) as Bx.
  pose proof (blk_apart s A HL x z e ez Hx Hz) as Hd.
  destruct Hax as [E|(Hfr & Hn & E)]; destruct Hd as [Hd|[Hd|Hd]]; try lia.
  all: subst x; assert (e = ez) by congruence; subst e; apply Hf; auto.
Qed.

(** The link fields of a block that can be listed. *)
Lemma layout_store_next s A z ez v :
  Layout s A -> blocks A !! z = Some ez ->
  Layout (set_mem (<[z + off_next := v]> (mem s)) s) A.
Proof.
  intros HL Hz. pose proof (blk_bounds s A HL z ez Hz) as Bz.
  apply (layout_store_inside s A z ez); auto; unfold off_next; lia.
Qed.

Lemma layout_store_prev s A z ez v :
  Layout s A -> blocks A !! z = Some ez -> bsz ez <> 16 ->
  Layout (set_mem (<[z + off_prev := v]> (mem s)) s) A.
Proof.
  intros HL Hz Hn. pose proof (blk_bounds s A HL z ez Hz) as Bz.
  apply (layout_store_inside s A z ez); auto; unfold off_prev;
    try (Z.to_euclidean_division_equations; lia).
Qed.

(** ** Linked lists in memory *)

(** Nodes that are far enough apart for their link fields not to meet. *)
Definition spaced (l : list Z) : Prop :=
  forall x y, In x l -> In y l -> x = y \/ x + 16 <= y \/ y + 16 <= x.

Lemma spaced_cons_inv x l : spaced (x :: l) -> spaced l.
Proof. intros H a b Ha Hb. apply H; right; assumption. Qed.

Lemma spaced_app_inv l1 l2 : spaced (l1 ++ l2) -> spaced l1 /\ spaced l2.
Proof.
  intros H. split; intros a b Ha Hb; apply H; apply in_or_app; auto.
Qed.

Lemma sll_nonnull m p l : sll m p l -> ~ In NULL l.
Proof.
  revert p. induction l as [|x l IH]; intros p; cbn; [tauto|].
  intros (-> & Hx & Hl) [E|Hin]; [congruence|]. exact (IH _ Hl Hin).
Qed.

Lemma dll_nonnull m pv p l : dll m pv p l -> ~ In NULL l.
Proof.
  revert pv p. induction l as [|x l IH]; intros pv p; cbn; [tauto|].
  intros (-> & Hx & _ & Hl) [E|Hin]; [congruence|]. exact (IH _ _ Hl Hin).
Qed.

Lemma dll_head m pv p l :
  dll m pv p l -> p = hd NULL l.
Proof. destruct l; cbn; [auto|]. intros (-> & _). reflexivity. Qed.

Lemma sll_head m p l : sll m p l -> p = hd NULL l.
Proof. destruct l; cbn; [auto|]. intros (-> & _). reflexivity. Qed.

(** A store to a word that is no link field of the list. *)
Lemma dll_store_other m pv p l a v :
  (forall x, In x l -> a <> x + off_next /\ a <> x + off_prev) ->
  dll m pv p l -> dll (<[a := v]> m) pv p l.
Proof.
  intros Ha. apply dll_frame. intros x Hx. destruct (Ha x Hx).
  split; apply lookup_insert_ne; assumption.
Qed.

Lemma sll_store_other m p l a v :
  (forall x, In x l -> a <> x + off_next) ->
  sll m p l -> sll (<[a := v]> m) p l.
Proof.
  intros Ha. apply sll_frame. intros x Hx.
  apply lookup_insert_ne. apply Ha. exact Hx.
Qed.

(** Changing what the first node's [prev] holds. *)
Lemma dll_set_prev m pv pv' p l :
  spaced l -> List.NoDup l -> l <> [] ->
  dll m pv p l -> dll (<[p + off_prev := pv']> m) pv' p l.
Proof.
  destruct l as [|x l]; [congruence|]. intros Hsp Hnd _.
  cbn. intros (-> & Hx & Hp & Hl). repeat split; auto.
  - rewrite lookup_insert_eq. reflexivity.
  - unfold off_next, off_prev. rewrite lookup_insert_ne by lia.
    apply dll_store_other; [|exact Hl].
    intros y Hy. inversion Hnd as [|? ? Hnin _]; subst.
    assert (x <> y) by (intros ->; contradiction).
    destruct (Hsp x y (or_introl eq_refl) (or_intror Hy)) as [?|[?|?]];
      unfold off_next, off_prev; lia.
Qed.

Lemma dll_cons_intro m pv x l :
  x <> NULL -> default 0 (m !! (x + off_prev)) = pv ->
  dll m x (default 0 (m !! (x + off_next))) l ->
  dll m pv x (x :: l).
Proof. cbn. auto. Qed.

(** Pushing a node in front of a list, as [explicit_insert_block] does. *)
Lemma dll_push m p l b :
  dll m NULL p l -> b <> NULL -> ~ In b l ->
  spaced (b :: l) -> List.NoDup l ->
  let m1 := if p =? NULL then m else <[p + off_prev := b]> m in
  dll (<[b + off_prev := NULL]> (<[b + off_next := p]> m1)) NULL b (b :: l).
Proof.
  intros Hl Hb Hnin Hsp Hnd m1. cbn [dll]. unfold off_next, off_prev in *.
  repeat split; auto.
  - rewrite lookup_insert_eq. reflexivity.
  - rewrite lookup_insert_ne by lia. rewrite lookup_insert_eq. cbn.
    assert (Hfar : forall y, In y l -> b + 16 <> y + 8 /\ b + 16 <> y + 16 /\
                                       b + 8 <> y + 8 /\ b + 8 <> y + 16).
    { intros y Hy. assert (b <> y) by (intros ->; contradiction).
      destruct (Hsp b y (or_introl eq_refl) (or_intror Hy)) as [?|[?|?]]; lia. }
    apply dll_store_other;
      [intros y Hy; unfold off_next, off_prev; destruct (Hfar y Hy) as (?&?&?&?); auto|].
    apply dll_store_other;
      [intros y Hy; unfold off_next, off_prev; destruct (Hfar y Hy) as (?&?&?&?); auto|].
    subst m1. destruct l as [|x l].
    + cbn in Hl. subst p. cbn. reflexivity.
    + pose proof (dll_nonnull _ _ _ _ Hl) as Hnn.
      pose proof Hl as (-> & Hx & _). 
      rewrite (proj2 (Z.eqb_neq x NULL) Hx).
      apply (dll_set_prev m NULL b x (x :: l)); auto;
        first [discriminate | apply (spaced_cons_inv b); exact Hsp].
Qed.

(** Taking the node after [c] out of a list. *)
Lemma dll_unlink m pv p l1 c b l2 :
  dll m pv p (l1 ++ c :: b :: l2) ->
  List.NoDup (l1 ++ c :: b :: l2) -> spaced (l1 ++ c :: b :: l2) ->
  let nxt := default 0 (m !! (b + off_next)) in
  let m1 := <[c + off_next := nxt]> m in
  let m2 := if nxt =? NULL then m1 else <[nxt + off_prev := c]> m1 in
  default 0 (m !! (b + off_prev)) = c /\ nxt = hd NULL l2 /\
  dll m2 pv p (l1 ++ c :: l2).
Proof.
  revert pv p. induction l1 as [|x l1 IH]; intros pv p Hl Hnd Hsp nxt m1 m2.
  - cbn [app] in *. cbn [dll] in Hl.
    destruct Hl as (-> & Hc & Hpv & _ & Hb & Hbp & Hl2).
    pose proof (dll_head _ _ _ _ Hl2) as Hnx. fold nxt in Hnx.
    pose proof (dll_nonnull _ _ _ _ Hl2) as Hnn.
    split; [exact Hbp|]. split; [exact Hnx|].
    assert (Hc2 : ~ In c l2).
    { inversion Hnd as [|? ? Hn1 _]; subst. intros H. apply Hn1. right. exact H. }
    assert (Hfar : forall y, In y l2 -> c <> y /\ (c + 16 <= y \/ y + 16 <= c)).
    { intros y Hy. assert (c <> y) by (intros ->; contradiction).
      split; [assumption|].
      destruct (Hsp c y (or_introl eq_refl) (or_intror (or_intror Hy)))
        as [?|[?|?]]; [contradiction|auto|auto]. }
    assert (Hm1 : dll m1 b nxt l2).
    { subst m1. apply dll_store_other; [|exact Hl2].
      intros y Hy. destruct (Hfar y Hy) as [? ?]. unfold off_next, off_prev. lia. }
    apply dll_cons_intro; [exact Hc| |]; unfold off_next, off_prev in *.
    + subst m2 m1. destruct (Z.eqb_spec nxt NULL) as [E|E].
      * rewrite lookup_insert_ne by lia. exact Hpv.
      * assert (In nxt l2) as Hin
          by (destruct l2 as [|n l2]; cbn in Hnx; [congruence|left; congruence]).
        destruct (Hfar nxt Hin). rewrite !lookup_insert_ne by lia. exact Hpv.
    + assert (E : default 0 (m2 !! (c + 8)) = nxt).
      { subst m2 m1. destruct (Z.eqb_spec nxt NULL) as [E|E].
        - rewrite lookup_insert_eq. reflexivity.
        - assert (In nxt l2) as Hin
            by (destruct l2 as [|n l2]; cbn in Hnx; [congruence|left; congruence]).
          destruct (Hfar nxt Hin). rewrite lookup_insert_ne by lia.
          rewrite lookup_insert_eq. reflexivity. }
      rewrite E. subst m2. destruct (Z.eqb_spec nxt NULL) as [E0|E0].
      * destruct l2 as [|n l2]; [cbn; exact E0|].
        exfalso. apply Hnn. left. cbn in Hnx. congruence.
      * destruct l2 as [|n l2]; [cbn in Hnx; congruence|].
        apply (dll_set_prev m1 b c nxt (n :: l2)); auto;
          first [ discriminate
                | apply (spaced_cons_inv b), (spaced_cons_inv c); exact Hsp
                | inversion Hnd as [|? ? _ Hnd']; subst;
                  inversion Hnd' as [|? ? _ Hnd'']; subst; exact Hnd'' ].
  - cbn [app] in *. cbn [dll] in Hl. destruct Hl as (-> & Hx & Hpv & Hl).
    apply List.NoDup_cons_iff in Hnd as [Hxn Hnd'].
    destruct (IH x _ Hl Hnd' (spaced_cons_inv _ _ Hsp)) as (E1 & E2 & Hd).
    split; [exact E1|]. split; [exact E2|].
    fold nxt in E2. fold nxt m1 m2 in Hd.
    assert (Hxc : x <> c /\ (x + 16 <= c \/ c + 16 <= x)).
    { assert (In c (l1 ++ c :: b :: l2)) by (apply in_or_app; right; left; reflexivity).
      assert (x <> c) by (intros ->; contradiction).
      split; [assumption|].
      destruct (Hsp x c (or_introl eq_refl) (or_intror H)) as [?|[?|?]];
        [contradiction|auto|auto]. }
    assert (Hxn' : nxt <> NULL -> x <> nxt /\ (x + 16 <= nxt \/ nxt + 16 <= x)).
    { intros Hn0. assert (In nxt l2).
      { destruct l2 as [|n l2]; cbn in E2; [congruence|]. left. congruence. }
      assert (In nxt (l1 ++ c :: b :: l2))
        by (apply in_or_app; right; right; right; assumption).
      assert (x <> nxt) by (intros ->; contradiction).
      split; [assumption|].
      destruct (Hsp x nxt (or_introl eq_refl) (or_intror H0)) as [?|[?|?]];
        [contradiction|auto|auto]. }
    apply dll_cons_intro; [exact Hx| |]; unfold off_next, off_prev in *.
    + subst m2 m1. destruct (Z.eqb_spec nxt NULL) as [E|E].
      * rewrite lookup_insert_ne by lia. exact Hpv.
      * destruct (Hxn' E). rewrite !lookup_insert_ne by lia. exact Hpv.
    + replace (default 0 (m2 !! (x + 8))) with (default 0 (m !! (x + 8)));
        [exact Hd|].
      subst m2 m1. destruct (Z.eqb_spec nxt NULL) as [E|E].
      * rewrite lookup_insert_ne by lia. reflexivity.
      * destruct (Hxn' E). rewrite !lookup_insert_ne by lia. reflexivity.
Qed.

(** ** The bucket array *)

Lemma seg_get_write s l idx i p :
  length (seglist s) = 14%nat -> 0 <= idx < 14 -> 0 <= i < 14 ->
  seg_get (set_seglist (<[Z.to_nat idx := p]> (seglist s)) l) i =
  if i =? idx then p else seg_get s i.
Proof.
  intros Hlen Hidx Hi. unfold seg_get. cbn [seglist set_seglist].
  destruct (Z.eqb_spec i idx) as [->|Hne].
  - rewrite list_lookup_insert_eq by lia. reflexivity.
  - rewrite list_lookup_insert_ne by lia. reflexivity.
Qed.

Lemma home_address_total sz : 0 <= home_address sz < 14.
Proof.
  unfold home_address.
  repeat match goal with
         | |- context [if ?c then _ else _] => destruct c
         end; lia.
Qed.

Lemma home_address_range sz : 32 <= sz -> 0 <= home_address sz < 14.
Proof. intros _. apply home_address_total. Qed.

Section ListedFacts.

Variables (s : state) (A : aheap).
Hypothesis HL : Layout s A.

Lemma blocks_spaced (l : list Z) :
  (forall x, In x l -> exists e, blocks A !! x = Some e) -> spaced l.
Proof.
  intros H x y Hx Hy.
  destruct (H x Hx) as (ex & Ex). destruct (H y Hy) as (ey & Ey).
  pose proof (blk_bounds s A HL x ex Ex). pose proof (blk_bounds s A HL y ey Ey).
  destruct (blk_apart s A HL x y ex ey Ex Ey) as [?|[?|?]]; [auto|right|right]; lia.
Qed.

Lemma nonmini_ge32 x e : blocks A !! x = Some e -> bsz e <> 16 -> 32 <= bsz e.
Proof.
  intros Hx Hn. pose proof (blk_bounds s A HL x e Hx).
  Z.to_euclidean_division_equations; lia.
Qed.

(** A store strictly inside a block does not touch the link fields of the
    other blocks. *)
Lemma store_inside_not_link y ey a z ez :
  blocks A !! y = Some ey -> y < a < y + bsz ey ->
  blocks A !! z = Some ez -> z <> y ->
  a <> z + off_next /\ a <> z + off_prev.
Proof.
  intros Hy Ha Hz Hne.
  pose proof (blk_bounds s A HL y ey Hy). pose proof (blk_bounds s A HL z ez Hz).
  unfold off_next, off_prev.
  destruct (blk_apart s A HL y z ey ez Hy Hz) as [?|[?|?]]; [congruence| |]; lia.
Qed.

Lemma dll_store_inside m pv p l y ey a v :
  (forall z, In z l -> exists e, blocks A !! z = Some e) ->
  blocks A !! y = Some ey -> y < a < y + bsz ey -> ~ In y l ->
  dll m pv p l -> dll (<[a := v]> m) pv p l.
Proof.
  intros Hb Hy Ha Hnin. apply dll_store_other. intros z Hz.
  destruct (Hb z Hz) as (ez & Ez).
  apply (store_inside_not_link y ey a z ez); auto. intros ->. contradiction.
Qed.

Lemma sll_store_inside m p l y ey a v :
  (forall z, In z l -> exists e, blocks A !! z = Some e) ->
  blocks A !! y = Some ey -> y < a < y + bsz ey -> ~ In y l ->
  sll m p l -> sll (<[a := v]> m) p l.
Proof.
  intros Hb Hy Ha Hnin. apply sll_store_other. intros z Hz.
  destruct (Hb z Hz) as (ez & Ez).
  apply (store_inside_not_link y ey a z ez); auto. intros ->. contradiction.
Qed.

End ListedFacts.

(** A block is in at most one free list. *)
Lemma seg_seg_disjoint s A i j z :
  Lists s A -> 0 <= i < 14 -> 0 <= j < 14 -> i <> j ->
  In z (segs A i) -> ~ In z (segs A j).
Proof.
  intros HS Hi Hj Hne Hz Hz'.
  destruct (lst_seg_blk s A HS i z Hi Hz) as (e1 & E1 & _ & H1).
  destruct (lst_seg_blk s A HS j z Hj Hz') as (e2 & E2 & _ & H2).
  congruence.
Qed.

Lemma mini_seg_disjoint s A j z :
  Lists s A -> 0 <= j < 14 -> In z (minis A) -> ~ In z (segs A j).
Proof.
  intros HS Hj Hz Hz'.
  destruct (lst_mini_blk s A HS z Hz) as (e1 & E1 & S1).
  destruct (lst_seg_blk s A HS j z Hj Hz') as (e2 & E2 & S2 & _).
  congruence.
Qed.

(** ** Inserting into a bucket *)

Section InsertSeg.

Variables (s : state) (A : aheap) (b : Z) (e : blk) (idx : Z).
Hypothesis HR : Rep s A.
Hypothesis Hb : blocks A !! b = Some e.
Hypothesis Hn16 : bsz e <> 16.
Hypothesis Hidx : idx = home_address (bsz e).
Hypothesis Hnew : ~ In b (segs A idx).

Let head : Z := seg_get s idx.
Let m1 : gmap Z Z :=
  if head =? NULL then mem s else <[head + off_prev := b]> (mem s).
Let mf : gmap Z Z := <[b + off_prev := NULL]> (<[b + off_next := head]> m1).
Let sf : state :=
  set_seglist (<[Z.to_nat idx := b]> (seglist s)) (set_mem mf s).
Let A' : aheap := set_seg idx (b :: segs A idx) A.

Lemma insert_seg_idx : 0 <= idx < 14.
Proof.
  destruct HR as [HL _]. rewrite Hidx. apply home_address_range.
  apply (nonmini_ge32 s A HL b e Hb Hn16).
Qed.

Lemma insert_seg_head :
  head = NULL /\ segs A idx = [] \/
  exists eh l, segs A idx = head :: l /\ head <> NULL /\ head <> b /\
               blocks A !! head = Some eh /\ bsz eh <> 16.
Proof.
  destruct HR as [HL HS]. pose proof insert_seg_idx as Hi.
  pose proof (lst_seg s A HS idx Hi) as Hd. fold head in Hd.
  assert (Hcase : segs A idx = [] \/ exists h l, segs A idx = h :: l)
    by (destruct (segs A idx); eauto).
  destruct Hcase as [El|(h & l & El)]; rewrite El in Hd.
  - left. cbn in Hd. auto.
  - right. cbn in Hd. destruct Hd as (Eh & Hh0 & _).
    assert (Hin : In h (segs A idx)) by (rewrite El; left; reflexivity).
    destruct (lst_seg_blk s A HS idx h Hi Hin) as (eh & Heh & Hsz & _).
    exists eh, l. rewrite Eh. repeat split; auto.
    intros ->. apply Hnew. rewrite El. left. reflexivity.
Qed.

Lemma insert_seg_layout : Layout sf A'.
Proof.
  destruct HR as [HL HS].
  assert (H1 : Layout (set_mem m1 s) A).
  { subst m1. destruct insert_seg_head as [[E _]|(eh & l & _ & Hh0 & _ & Heh & Hsz)].
    - rewrite E. cbn. destruct s; exact HL.
    - rewrite (proj2 (Z.eqb_neq _ _) Hh0).
      apply (layout_store_prev s A head eh); assumption. }
  pose proof (layout_store_next _ A b e head H1 Hb) as H2.
  pose proof (layout_store_prev _ A b e NULL H2 Hb Hn16) as H3.
  apply (layout_same_blocks sf A); [|reflexivity..].
  apply (layout_same_mem _ sf A H3); [repeat split|reflexivity].
Qed.

Lemma insert_seg_lists : Lists sf A'.
Proof.
  destruct HR as [HL HS]. pose proof insert_seg_idx as Hi.
  pose proof (blk_bounds s A HL b e Hb) as Bb.
  pose proof (nonmini_ge32 s A HL b e Hb Hn16) as B32.
  assert (Hb0 : b <> NULL) by (unfold NULL; lia).
  (* the three stores leave every list that holds neither block alone *)
  assert (Hother_d : forall pv p l,
            (forall z, In z l -> exists ez, blocks A !! z = Some ez) ->
            ~ In b l -> (head = NULL \/ ~ In head l) ->
            dll (mem s) pv p l -> dll mf pv p l).
  { intros pv p l Hblk Hnb Hnh Hd. subst mf.
    apply (dll_store_inside s A HL _ _ _ _ b e); auto; [unfold off_prev; lia|].
    apply (dll_store_inside s A HL _ _ _ _ b e); auto; [unfold off_next; lia|].
    subst m1. destruct insert_seg_head as [[E _]|(eh & l' & _ & Hh0 & _ & Heh & Hsz)].
    - rewrite E. exact Hd.
    - rewrite (proj2 (Z.eqb_neq _ _) Hh0).
      pose proof (nonmini_ge32 s A HL head eh Heh Hsz).
      apply (dll_store_inside s A HL _ _ _ _ head eh); auto;
        [unfold off_prev; lia|]. destruct Hnh; [contradiction|assumption]. }
  assert (Hother_s : forall p l,
            (forall z, In z l -> exists ez, blocks A !! z = Some ez) ->
            ~ In b l -> (head = NULL \/ ~ In head l) ->
            sll (mem s) p l -> sll mf p l).
  { intros p l Hblk Hnb Hnh Hd. subst mf.
    apply (sll_store_inside s A HL _ _ _ b e); auto; [unfold off_prev; lia|].
    apply (sll_store_inside s A HL _ _ _ b e); auto; [unfold off_next; lia|].
    subst m1. destruct insert_seg_head as [[E _]|(eh & l' & _ & Hh0 & _ & Heh & Hsz)].
    - rewrite E. exact Hd.
    - rewrite (proj2 (Z.eqb_neq _ _) Hh0).
      pose proof (nonmini_ge32 s A HL head eh Heh Hsz).
      apply (sll_store_inside s A HL _ _ _ head eh); auto;
        [unfold off_prev; lia|]. destruct Hnh; [contradiction|assumption]. }
  assert (Hmini_not : forall z, In z (minis A) ->
            forall y ey, blocks A !! y = Some ey -> bsz ey <> 16 -> z <> y).
  { intros z Hz y ey Hy Hsz ->.
    destruct (lst_mini_blk s A HS y Hz) as (e0 & E0 & S0). congruence. }
  assert (Hseg_not : forall i z, 0 <= i < 14 -> i <> idx -> In z (segs A i) ->
            forall y ey, blocks A !! y = Some ey ->
                         home_address (bsz ey) = idx -> z <> y).
  { intros i z Hi' Hne Hz y ey Hy Hh ->.
    destruct (lst_seg_blk s A HS i y Hi' Hz) as (e0 & E0 & _ & H0). congruence. }
  constructor.
  - unfold sf. cbn [seglist set_seglist]. rewrite length_insert.
    apply (lst_len s A HS).
  - unfold sf, A'. cbn [mem mini_root set_seglist set_mem minis set_seg].
    apply Hother_s; [| | |apply (lst_mini s A HS)].
    + intros z Hz. destruct (lst_mini_blk s A HS z Hz) as (ez & ? & _). eauto.
    + intros Hin. exact (Hmini_not b Hin b e Hb Hn16 eq_refl).
    + destruct insert_seg_head as [[E _]|(eh & l' & _ & Hh0 & _ & Heh & Hsz)];
        [left; exact E|right].
      intros Hin. exact (Hmini_not head Hin head eh Heh Hsz eq_refl).
  - apply (lst_mini_nodup s A HS).
  - apply (lst_mini_blk s A HS).
  - intros i Hi'. unfold sf, A'.
    rewrite (seg_get_write s _ idx i b (lst_len s A HS) Hi Hi').
    cbn [mem set_seglist set_mem segs set_seg].
    destruct (Z.eqb_spec i idx) as [->|Hne].
    + subst mf m1. fold head.
      apply dll_push; auto.
      * apply (lst_seg s A HS idx Hi).
      * apply (blocks_spaced s A HL). intros z [<-|Hz]; [eauto|].
        destruct (lst_seg_blk s A HS idx z Hi Hz) as (ez & ? & _). eauto.
      * apply (lst_seg_nodup s A HS idx Hi).
    + apply Hother_d; [| | |apply (lst_seg s A HS i Hi')].
      * intros z Hz. destruct (lst_seg_blk s A HS i z Hi' Hz) as (ez & ? & _). eauto.
      * intros Hin. exact (Hseg_not i b Hi' Hne Hin b e Hb (eq_sym Hidx) eq_refl).
      * destruct insert_seg_head as [[E _]|(eh & l' & El & Hh0 & _ & Heh & Hsz)];
          [left; exact E|right].
        intros Hin.
        assert (Hin0 : In head (segs A idx)) by (rewrite El; left; reflexivity).
        destruct (lst_seg_blk s A HS idx head Hi Hin0) as (e0 & E0 & _ & H0).
        assert (e0 = eh) by congruence. subst e0.
        exact (Hseg_not i head Hi' Hne Hin head eh Heh H0 eq_refl).
  - intros i Hi'. unfold A'. cbn [segs set_seg].
    destruct (Z.eqb_spec i idx) as [->|Hne]; [|apply (lst_seg_nodup s A HS i Hi')].
    constructor; [exact Hnew|apply (lst_seg_nodup s A HS idx Hi)].
  - intros i z Hi'. unfold A'. cbn [segs set_seg blocks].
    destruct (Z.eqb_spec i idx) as [->|Hne]; [|apply (lst_seg_blk s A HS i z Hi')].
    intros [<-|Hz]; [exists e; auto|apply (lst_seg_blk s A HS idx z Hi Hz)].
Qed.

(** The stores go to the link fields of [b], which is free, and of the
    old head. *)
Lemma insert_seg_keeps : bal e = false -> keeps A s sf.
Proof.
  intros Hfree a Ha. destruct HR as [HL HS].
  pose proof (blk_bounds s A HL b e Hb) as Bb.
  pose proof (nonmini_ge32 s A HL b e Hb Hn16) as B32.
  destruct (held_apart s A HL a b e Ha Hb) as [_ D].
  specialize (D (or_introl Hfree)).
  unfold sf, mf, m1. cbn [mem set_seglist set_mem].
  unfold off_next, off_prev.
  rewrite !lookup_insert_ne by lia.
  destruct (Z.eqb_spec head NULL) as [E|N]; [reflexivity|].
  apply lookup_insert_ne. intros <-.
  apply (held_not_link s A HL (head + 16) HS Ha).
  right. exists idx, head. split; [apply insert_seg_idx|].
  split; [|right; reflexivity].
  destruct insert_seg_head as [[E _]|(eh & l & El & _)]; [contradiction|].
  rewrite El. left. reflexivity.
Qed.

Lemma explicit_insert_block_spec (Q : unit -> state -> Prop) :
  (forall s', Rep s' A' -> same_arena s s' ->
              (bal e = false -> keeps A s s') -> Q tt s') ->
  wp (explicit_insert_block b idx) Q s.
Proof.
  intros HQ. destruct HR as [HL HS].
  assert (Hfin : Q tt sf).
  { apply HQ; [split; [apply insert_seg_layout|apply insert_seg_lists]|
               |exact insert_seg_keeps].
    repeat split. }
  unfold explicit_insert_block.
  apply wp_bind, wp_isMiniBlock.
  rewrite (blk_size_at s A HL b e Hb).
  unfold MINI_BLOCK_SIZE. rewrite (proj2 (Z.eqb_neq _ _) Hn16).
  repeat wp_prim.
  unfold sf, mf, m1, head in Hfin.
  destruct (seg_get s idx =? NULL) eqn:E.
  - apply Z.eqb_eq in E. repeat wp_prim. rewrite E in Hfin. exact Hfin.
  - repeat wp_prim. exact Hfin.
Qed.

End InsertSeg.

(** ** Removing from a bucket *)

Lemma list_snoc_case {T} (l : list T) :
  l = [] \/ exists l' c, l = l' ++ [c].
Proof.
  destruct l as [|x l]; [left; reflexivity|right].
  destruct (@exists_last T (x :: l)) as (l' & c & E); [discriminate|eauto].
Qed.

Lemma remove_middle (b : Z) (l1 l2 : list Z) :
  List.NoDup (l1 ++ b :: l2) ->
  List.remove Z.eq_dec b (l1 ++ b :: l2) = l1 ++ l2.
Proof.
  intros Hnd. apply List.NoDup_remove_2 in Hnd.
  rewrite List.remove_app. cbn [List.remove].
  destruct (Z.eq_dec b b) as [_|N]; [|congruence].
  rewrite !List.notin_remove; [reflexivity| |];
    intros H; apply Hnd; apply in_or_app; auto.
Qed.

Section RemoveSeg.

Variables (s : state) (A : aheap) (b : Z) (idx : Z).
Hypothesis HR : Rep s A.
Hypothesis Hidx : 0 <= idx < 14.
Hypothesis Hin : In b (segs A idx).

Let prv : Z := load_word s (b + off_prev).
Let nxt : Z := load_word s (b + off_next).
Let ma : gmap Z Z :=
  if prv =? NULL then mem s else <[prv + off_next := nxt]> (mem s).
Let mf : gmap Z Z :=
  if nxt =? NULL then ma else <[nxt + off_prev := prv]> ma.
Let sf : state :=
  set_seglist (if prv =? NULL then <[Z.to_nat idx := nxt]> (seglist s)
               else seglist s) (set_mem mf s).
Let A' : aheap := set_seg idx (List.remove Z.eq_dec b (segs A idx)) A.

(** How the block sits in its list. *)
Lemma remove_seg_shape :
  exists l1 l2,
    segs A idx = l1 ++ b :: l2 /\
    List.remove Z.eq_dec b (segs A idx) = l1 ++ l2 /\
    nxt = hd NULL l2 /\ ~ In NULL (segs A idx) /\
    ((l1 = [] /\ prv = NULL /\ seg_get s idx = b /\
      dll (mem s) b nxt l2) \/
     (exists l1' c, l1 = l1' ++ [c] /\ prv = c /\ c <> NULL /\
                    dll mf NULL (seg_get s idx) (l1' ++ c :: l2))).
Proof.
  destruct HR as [HL HS].
  pose proof (lst_seg s A HS idx Hidx) as Hd.
  pose proof (lst_seg_nodup s A HS idx Hidx) as Hnd.
  pose proof (dll_nonnull _ _ _ _ Hd) as Hnn.
  assert (Hsp : spaced (segs A idx)).
  { apply (blocks_spaced s A HL). intros z Hz.
    destruct (lst_seg_blk s A HS idx z Hidx Hz) as (ez & ? & _). eauto. }
  destruct (in_split b (segs A idx) Hin) as (l1 & l2 & El).
  exists l1, l2. split; [exact El|].
  split; [rewrite El; apply remove_middle; rewrite <- El; exact Hnd|].
  rewrite El in Hd, Hnd, Hsp.
  destruct (list_snoc_case l1) as [->|(l1' & c & ->)].
  - cbn [app dll] in Hd. destruct Hd as (Eh & Hb0 & Hpv & Hl2).
    split; [exact (dll_head _ _ _ _ Hl2)|]. split; [exact Hnn|].
    left. repeat split; auto.
  - rewrite <- app_assoc in Hd, Hnd, Hsp. cbn [app] in Hd, Hnd, Hsp.
    destruct (dll_unlink _ _ _ _ _ _ _ Hd Hnd Hsp) as (E1 & E2 & Hd').
    split; [exact E2|]. split; [exact Hnn|].
    right. exists l1', c. split; [reflexivity|]. split; [exact E1|].
    assert (Hc0 : c <> NULL).
    { intros E. apply Hnn. rewrite El, <- app_assoc. apply in_or_app. right.
      left. exact E. }
    split; [exact Hc0|].
    unfold mf, ma, prv, nxt, load_word. rewrite E1.
    rewrite (proj2 (Z.eqb_neq _ _) Hc0). exact Hd'.
Qed.

Lemma remove_seg_neighbours :
  (prv = NULL \/ exists ep, blocks A !! prv = Some ep /\ bsz ep <> 16 /\
                            In prv (segs A idx)) /\
  (nxt = NULL \/ exists en, blocks A !! nxt = Some en /\ bsz en <> 16 /\
                            In nxt (segs A idx)).
Proof.
  destruct HR as [HL HS].
  destruct remove_seg_shape as (l1 & l2 & El & _ & En & Hnn & Hc).
  assert (Hblk : forall z, In z (segs A idx) ->
            exists ez, blocks A !! z = Some ez /\ bsz ez <> 16 /\
                       In z (segs A idx)).
  { intros z Hz. destruct (lst_seg_blk s A HS idx z Hidx Hz) as (ez & ? & ? & _).
    eauto. }
  split.
  - destruct Hc as [(_ & E & _)|(l1' & c & E1 & E2 & _)]; [left; exact E|right].
    apply Hblk. rewrite El, E1, E2, <- app_assoc. apply in_or_app. right.
    left. reflexivity.
  - destruct l2 as [|n l2]; [left; exact En|right].
    apply Hblk. rewrite El, En. apply in_or_app. right. right. left. reflexivity.
Qed.

Lemma remove_seg_layout : Layout sf A'.
Proof.
  destruct HR as [HL HS].
  destruct remove_seg_neighbours as [Hp Hn].
  assert (H1 : Layout (set_mem ma s) A).
  { unfold ma. destruct (Z.eqb_spec prv NULL) as [E|E].
    - destruct s; exact HL.
    - destruct Hp as [?|(ep & Hep & _)]; [contradiction|].
      apply (layout_store_next s A prv ep); assumption. }
  assert (H2 : Layout (set_mem mf s) A).
  { unfold mf. destruct (Z.eqb_spec nxt NULL) as [E|E]; [exact H1|].
    destruct Hn as [?|(en & Hen & Hsz & _)]; [contradiction|].
    apply (layout_store_prev _ A nxt en _ H1 Hen Hsz). }
  apply (layout_same_blocks sf A); [|reflexivity..].
  apply (layout_same_mem _ sf A H2); [repeat split|reflexivity].
Qed.

Lemma remove_seg_frame_d pv p l :
  (forall z, In z l -> exists ez, blocks A !! z = Some ez) ->
  (prv = NULL \/ ~ In prv l) -> (nxt = NULL \/ ~ In nxt l) ->
  dll (mem s) pv p l -> dll mf pv p l.
Proof.
  intros Hblk Hnp Hnn Hd. destruct HR as [HL HS].
  destruct remove_seg_neighbours as [Hp Hn].
  assert (H1 : dll ma pv p l).
  { unfold ma. destruct (Z.eqb_spec prv NULL) as [E|E]; [exact Hd|].
    destruct Hp as [?|(ep & Hep & Hsz & _)]; [contradiction|].
    pose proof (nonmini_ge32 s A HL prv ep Hep Hsz).
    apply (dll_store_inside s A HL _ _ _ _ prv ep); auto; [unfold off_next; lia|].
    destruct Hnp; [contradiction|assumption]. }
  unfold mf. destruct (Z.eqb_spec nxt NULL) as [E|E]; [exact H1|].
  destruct Hn as [?|(en & Hen & Hsz & _)]; [contradiction|].
  pose proof (nonmini_ge32 s A HL nxt en Hen Hsz).
  apply (dll_store_inside s A HL _ _ _ _ nxt en); auto; [unfold off_prev; lia|].
  destruct Hnn; [contradiction|assumption].
Qed.

Lemma remove_seg_frame_s p l :
  (forall z, In z l -> exists ez, blocks A !! z = Some ez) ->
  (prv = NULL \/ ~ In prv l) -> (nxt = NULL \/ ~ In nxt l) ->
  sll (mem s) p l -> sll mf p l.
Proof.
  intros Hblk Hnp Hnn Hd. destruct HR as [HL HS].
  destruct remove_seg_neighbours as [Hp Hn].
  assert (H1 : sll ma p l).
  { unfold ma. destruct (Z.eqb_spec prv NULL) as [E|E]; [exact Hd|].
    destruct Hp as [?|(ep & Hep & Hsz & _)]; [contradiction|].
    pose proof (nonmini_ge32 s A HL prv ep Hep Hsz).
    apply (sll_store_inside s A HL _ _ _ prv ep); auto; [unfold off_next; lia|].
    destruct Hnp; [contradiction|assumption]. }
  unfold mf. destruct (Z.eqb_spec nxt NULL) as [E|E]; [exact H1|].
  destruct Hn as [?|(en & Hen & Hsz & _)]; [contradiction|].
  pose proof (nonmini_ge32 s A HL nxt en Hen Hsz).
  apply (sll_store_inside s A HL _ _ _ nxt en); auto; [unfold off_prev; lia|].
  destruct Hnn; [contradiction|assumption].
Qed.

Lemma remove_seg_lists : Lists sf A'.
Proof.
  pose proof HR as [HL HS].
  destruct remove_seg_neighbours as [Hp Hn].
  destruct remove_seg_shape as (l1 & l2 & El & Erem & En & Hnn & Hc).
  pose proof (lst_seg_nodup s A HS idx Hidx) as Hnd.
  constructor.
  - unfold sf. cbn [seglist set_seglist].
    destruct (prv =? NULL); [rewrite length_insert|]; apply (lst_len s A HS).
  - unfold sf, A'. cbn [mem mini_root set_seglist set_mem minis set_seg].
    apply remove_seg_frame_s; [| | |apply (lst_mini s A HS)].
    + intros z Hz. destruct (lst_mini_blk s A HS z Hz) as (ez & ? & _). eauto.
    + destruct Hp as [?|(ep & _ & _ & Hi)]; [left; assumption|right].
      intros Hm. exact (mini_seg_disjoint s A idx prv HS Hidx Hm Hi).
    + destruct Hn as [?|(en & _ & _ & Hi)]; [left; assumption|right].
      intros Hm. exact (mini_seg_disjoint s A idx nxt HS Hidx Hm Hi).
  - apply (lst_mini_nodup s A HS).
  - apply (lst_mini_blk s A HS).
  - intros i Hi. unfold A'. cbn [segs set_seg].
    assert (Hget : seg_get sf i =
                   if (i =? idx) && (prv =? NULL) then nxt else seg_get s i).
    { unfold sf. destruct (prv =? NULL).
      - rewrite (seg_get_write s _ idx i nxt (lst_len s A HS) Hidx Hi).
        rewrite andb_true_r. reflexivity.
      - rewrite andb_false_r. reflexivity. }
    rewrite Hget. unfold sf. cbn [mem set_seglist set_mem].
    destruct (Z.eqb_spec i idx) as [->|Hne].
    + rewrite Erem.
      destruct Hc as [(E1 & Ep & Eh & Hd)|(l1' & c & E1 & Ep & Hc0 & Hd)].
      * rewrite E1, Ep. cbn [andb Z.eqb NULL app]. change (0 =? 0) with true.
        cbv iota. unfold mf, ma. rewrite Ep. change (NULL =? NULL) with true.
        cbv iota.
        destruct l2 as [|n l2]; cbn [hd] in En.
        -- rewrite En. cbn. reflexivity.
        -- assert (Hn0 : n <> NULL).
           { intros E. apply Hnn. rewrite El. apply in_or_app. right. right.
             left. exact E. }
           rewrite En, (proj2 (Z.eqb_neq _ _) Hn0).
           rewrite En in Hd.
           rewrite El, E1 in Hnd. cbn [app] in Hnd.
           apply List.NoDup_cons_iff in Hnd as [_ Hnd].
           assert (Hsp : spaced (n :: l2)).
           { apply (blocks_spaced s A HL). intros z Hz.
             assert (Hz' : In z (segs A idx))
               by (rewrite El; apply in_or_app; right; right; exact Hz).
             destruct (lst_seg_blk s A HS idx z Hidx Hz') as (ez & ? & _). eauto. }
           apply (dll_set_prev (mem s) b NULL n (n :: l2)); auto; discriminate.
      * rewrite Ep, (proj2 (Z.eqb_neq _ _) Hc0), andb_false_r.
        rewrite E1, <- app_assoc. exact Hd.
    + cbn [andb]. apply remove_seg_frame_d; [| | |apply (lst_seg s A HS i Hi)].
      * intros z Hz. destruct (lst_seg_blk s A HS i z Hi Hz) as (ez & ? & _). eauto.
      * destruct Hp as [?|(ep & _ & _ & Hi')]; [left; assumption|right].
        intros Hm. exact (seg_seg_disjoint s A i idx prv HS Hi Hidx Hne Hm Hi').
      * destruct Hn as [?|(en & _ & _ & Hi')]; [left; assumption|right].
        intros Hm. exact (seg_seg_disjoint s A i idx nxt HS Hi Hidx Hne Hm Hi').
  - intros i Hi. unfold A'. cbn [segs set_seg].
    destruct (Z.eqb_spec i idx) as [->|Hne]; [|apply (lst_seg_nodup s A HS i Hi)].
    rewrite Erem. rewrite El in Hnd. apply (List.NoDup_remove_1 _ _ _ Hnd).
  - intros i z Hi. unfold A'. cbn [segs set_seg blocks].
    destruct (Z.eqb_spec i idx) as [->|Hne]; [|apply (lst_seg_blk s A HS i z Hi)].
    intros Hz. apply List.in_remove in Hz as [Hz _].
    apply (lst_seg_blk s A HS idx z Hidx Hz).
Qed.

(** The stores go to the link fields of the two neighbours in the
    list. *)
Lemma remove_seg_keeps : keeps A s sf.
Proof.
  intros a Ha. destruct HR as [HL HS].
  destruct remove_seg_neighbours as [Hp Hn].
  assert (Hlk : forall z, In z (segs A idx) ->
            a <> z + off_next /\ a <> z + off_prev).
  { intros z Hz. split; intros ->;
      apply (held_not_link s A HL _ HS Ha); right; exists idx, z; auto. }
  unfold sf, mf, ma. cbn [mem set_seglist set_mem].
  destruct (Z.eqb_spec nxt NULL) as [En|Nn];
    destruct (Z.eqb_spec prv NULL) as [Ep|Np];
    try reflexivity;
    repeat match goal with
           | H : ?x = NULL \/ _, N : ?x <> NULL |- _ =>
               destruct H as [H|(? & _ & _ & H)]; [contradiction|]
           end.
  - rewrite lookup_insert_ne
      by (intros E; symmetry in E; apply (proj1 (Hlk prv Hp) E)).
    reflexivity.
  - rewrite lookup_insert_ne
      by (intros E; symmetry in E; apply (proj2 (Hlk nxt Hn) E)).
    reflexivity.
  - rewrite lookup_insert_ne
      by (intros E; symmetry in E; apply (proj2 (Hlk nxt Hn) E)).
    rewrite lookup_insert_ne
      by (intros E; symmetry in E; apply (proj1 (Hlk prv Hp) E)).
    reflexivity.
Qed.

Lemma explicit_remove_block_spec (Q : unit -> state -> Prop) :
  (forall s', Rep s' A' -> same_arena s s' -> keeps A s s' -> Q tt s') ->
  wp (explicit_remove_block b idx) Q s.
Proof.
  intros HQ. pose proof remove_seg_keeps as Hk. pose proof HR as [HL HS].
  assert (Hfin : Q tt sf).
  { apply HQ; [split; [apply remove_seg_layout|apply remove_seg_lists]| |exact Hk].
    repeat split. }
  destruct (lst_seg_blk s A HS idx b Hidx Hin) as (e & Hb & Hn16 & _).
  unfold explicit_remove_block.
  apply wp_bind, wp_isMiniBlock.
  rewrite (blk_size_at s A HL b e Hb).
  unfold MINI_BLOCK_SIZE. rewrite (proj2 (Z.eqb_neq _ _) Hn16).
  repeat wp_prim.
  unfold sf, mf, ma, prv, nxt in Hfin.
  destruct (load_word s (b + off_prev) =? NULL) eqn:Ep;
    destruct (load_word s (b + off_next) =? NULL) eqn:En;
    cbn [andb negb]; repeat wp_prim; try exact Hfin.
  - apply Z.eqb_eq in En. rewrite <- En. exact Hfin.
  - apply Z.eqb_eq in Ep. rewrite <- Ep. exact Hfin.
  - apply Z.eqb_eq in En. rewrite <- En. exact Hfin.
Qed.

End RemoveSeg.

(** ** The list of 16-byte blocks *)

Lemma sll_push m p l b :
  sll m p l -> b <> NULL -> ~ In b l -> spaced (b :: l) ->
  sll (<[b + off_next := p]> m) b (b :: l).
Proof.
  intros Hl Hb Hnin Hsp. cbn [sll]. repeat split; auto.
  rewrite lookup_insert_eq. cbn.
  apply sll_store_other; [|exact Hl].
  intros y Hy. assert (b <> y) by (intros ->; contradiction).
  unfold off_next. lia.
Qed.

Lemma sll_unlink m p l1 c b l2 :
  sll m p (l1 ++ c :: b :: l2) ->
  List.NoDup (l1 ++ c :: b :: l2) ->
  let nxt := default 0 (m !! (b + off_next)) in
  default 0 (m !! (c + off_next)) = b /\
  sll (<[b + off_next := NULL]> (<[c + off_next := nxt]> m)) p (l1 ++ c :: l2).
Proof.
  revert p. induction l1 as [|x l1 IH]; intros p Hl Hnd nxt.
  - cbn [app] in *. cbn [sll] in Hl. destruct Hl as (-> & Hc & Hcb & Hb & Hl2).
    split; [exact Hcb|].
    apply List.NoDup_cons_iff in Hnd as [Hc1 Hnd].
    apply List.NoDup_cons_iff in Hnd as [Hb1 Hnd].
    assert (Hcb' : c <> b) by (intros ->; apply Hc1; left; reflexivity).
    cbn [sll]. unfold off_next in *. repeat split; auto.
    rewrite lookup_insert_ne by lia. rewrite lookup_insert_eq. cbn.
    apply sll_store_other;
      [intros y Hy; unfold off_next;
       assert (b <> y) by (intros ->; contradiction); lia|].
    apply sll_store_other;
      [intros y Hy; unfold off_next;
       assert (c <> y) by (intros ->; apply Hc1; right; exact Hy); lia|].
    exact Hl2.
  - cbn [app] in *. cbn [sll] in Hl. destruct Hl as (-> & Hx & Hl).
    apply List.NoDup_cons_iff in Hnd as [Hx1 Hnd].
    destruct (IH _ Hl Hnd) as (E1 & Hd). split; [exact E1|].
    fold nxt in Hd.
    assert (Hxc : x <> c) by (intros ->; apply Hx1; apply in_or_app; right; left; reflexivity).
    assert (Hxb : x <> b)
      by (intros ->; apply Hx1; apply in_or_app; right; right; left; reflexivity).
    cbn [sll]. unfold off_next in *. repeat split; auto.
    rewrite !lookup_insert_ne by lia. exact Hd.
Qed.

(** The scan of [remove_mini_block] finds the node before [b]. *)
Lemma remove_mini_scan_spec (fuel : nat) s l1 c b l2 cur
    (Q : bool -> state -> Prop) :
  sll (mem s) cur (l1 ++ c :: b :: l2) ->
  List.NoDup (l1 ++ c :: b :: l2) ->
  (length l1 < fuel)%nat ->
  Q true (set_mem (<[b + off_next := NULL]>
                     (<[c + off_next := load_word s (b + off_next)]> (mem s))) s) ->
  wp (remove_mini_scan fuel b cur) Q s.
Proof.
  revert fuel cur. induction l1 as [|x l1 IH]; intros fuel cur Hl Hnd Hf HQ.
  - destruct fuel as [|fuel]; [cbn in Hf; lia|].
    cbn [app sll] in Hl. destruct Hl as (-> & Hc & Hcb & _).
    cbn [remove_mini_scan]. rewrite (proj2 (Z.eqb_neq _ _) Hc).
    repeat wp_prim. unfold load_word at 1. rewrite Hcb, Z.eqb_refl.
    repeat wp_prim. exact HQ.
  - destruct fuel as [|fuel]; [cbn in Hf; lia|].
    cbn [app sll] in Hl. destruct Hl as (-> & Hx & Hl).
    apply List.NoDup_cons_iff in Hnd as [Hx1 Hnd].
    cbn [remove_mini_scan]. rewrite (proj2 (Z.eqb_neq _ _) Hx).
    repeat wp_prim.
    assert (Hne : load_word s (x + off_next) <> b).
    { unfold load_word. rewrite (sll_head _ _ _ Hl). intros E.
      assert (Hnb : ~ In b ((l1 ++ [c]) ++ l2)).
      { apply List.NoDup_remove_2. rewrite <- app_assoc. exact Hnd. }
      apply Hnb. apply in_or_app. left.
      destruct l1 as [|y l1]; cbn [app hd] in E |- *; left; exact E. }
    rewrite (proj2 (Z.eqb_neq _ _) Hne).
    apply IH; auto. cbn in Hf. lia.
Qed.

(** The entries that flag propagation leaves alone. *)
Lemma upd_next_pa_self s A b e :
  Layout s A -> blocks A !! b = Some e ->
  blocks (upd_next_pa b A) !! b = Some e.
Proof.
  intros HL Hb. unfold upd_next_pa. rewrite Hb.
  pose proof (blk_bounds s A HL b e Hb).
  destruct (blocks A !! (b + bsz e)) as [en|]; [|exact Hb].
  cbn [blocks set_block set_blocks]. rewrite lookup_insert_ne by lia. exact Hb.
Qed.

Lemma upd_next_mp_self s A b e :
  Layout s A -> blocks A !! b = Some e ->
  blocks (upd_next_mp b A) !! b = Some e.
Proof.
  intros HL Hb. unfold upd_next_mp. rewrite Hb.
  pose proof (blk_bounds s A HL b e Hb).
  destruct (blocks A !! (b + bsz e)) as [en|]; [|exact Hb].
  cbn [blocks set_block set_blocks]. rewrite lookup_insert_ne by lia. exact Hb.
Qed.

Section InsertMini.

Variables (s : state) (A : aheap) (b : Z) (e : blk).
Hypothesis HR : Rep s A.
Hypothesis Hb : blocks A !! b = Some e.
Hypothesis H16 : bsz e = 16.
Hypothesis Hnew : ~ In b (minis A).

Let s1 : state :=
  set_mini_root b (set_mem (<[b + off_next := mini_root s]> (mem s)) s).
Let A1 : aheap := set_minis (b :: minis A) A.

Lemma insert_mini_rep : Rep s1 A1.
Proof.
  destruct HR as [HL HS]. pose proof (blk_bounds s A HL b e Hb) as Bb.
  assert (Hb0 : b <> NULL) by (unfold NULL; lia).
  split.
  - apply (layout_same_blocks s1 A); [|reflexivity..].
    apply (layout_same_mem (set_mem (<[b + off_next := mini_root s]> (mem s)) s));
      [|repeat split|reflexivity].
    apply (layout_store_next s A b e); assumption.
  - constructor.
    + apply (lst_len s A HS).
    + unfold s1, A1. cbn [mem mini_root set_mini_root set_mem minis set_minis].
      apply sll_push; auto; [apply (lst_mini s A HS)|].
      apply (blocks_spaced s A HL). intros z [<-|Hz]; [eauto|].
      destruct (lst_mini_blk s A HS z Hz) as (ez & ? & _). eauto.
    + constructor; [exact Hnew|apply (lst_mini_nodup s A HS)].
    + intros z [<-|Hz]; [exists e; auto|apply (lst_mini_blk s A HS z Hz)].
    + intros i Hi. unfold s1, A1. cbn [mem set_mini_root set_mem segs set_minis].
      change (seg_get _ i) with (seg_get s i).
      apply (dll_store_inside s A HL _ _ _ _ b e); auto;
        [| unfold off_next; lia | | apply (lst_seg s A HS i Hi)].
      * intros z Hz. destruct (lst_seg_blk s A HS i z Hi Hz) as (ez & ? & _). eauto.
      * intros Hz. destruct (lst_seg_blk s A HS i b Hi Hz) as (ez & ? & ? & _).
        congruence.
    + apply (lst_seg_nodup s A HS).
    + apply (lst_seg_blk s A HS).
Qed.

Lemma insert_mini_keeps : bal e = false -> keeps A s s1 /\ (forall a, held A a -> held A1 a).
Proof.
  intros Hfree. destruct HR as [HL HS]. split.
  - intros a Ha. pose proof (blk_bounds s A HL b e Hb) as Bb.
    destruct (held_apart s A HL a b e Ha Hb) as [_ D].
    specialize (D (or_introl Hfree)).
    unfold s1. cbn [mem set_mini_root set_mem]. unfold off_next.
    apply lookup_insert_ne. lia.
  - intros a. apply held_set_minis. intros x [<-|Hx]; [right; eauto|left; exact Hx].
Qed.

Lemma insert_mini_block_spec (Q : unit -> state -> Prop) :
  (forall s', Rep s' (upd_next_mp b (upd_next_pa b A1)) ->
              same_arena s s' -> (bal e = false -> keeps A s s') -> Q tt s') ->
  wp (insert_mini_block b) Q s.
Proof.
  intros HQ. pose proof HR as [HL HS].
  pose proof insert_mini_rep as HR1.
  assert (Hb1 : blocks A1 !! b = Some e) by exact Hb.
  assert (Hcont : wp (update_next_palloc b)
                     (fun _ s' => wp (update_next_mpalloc b) Q s') s1).
  { apply (update_next_palloc_spec s1 A1 b e _ HR1 Hb1).
    intros s2 HR2 Ha2 Hk2.
    apply (update_next_mpalloc_spec s2 _ b e _ HR2).
    - apply (upd_next_pa_self s1 A1 b e (proj1 HR1) Hb1).
    - intros s3 HR3 Ha3 Hk3. apply HQ; [exact HR3| |].
      + apply (same_arena_trans s s1 s3); [repeat split|].
        apply (same_arena_trans s1 s2 s3); assumption.
      + intros Hfree. destruct (insert_mini_keeps Hfree) as [Hk1 Hi1].
        apply (keeps_trans A A1 s s1 s3 Hk1); [|exact Hi1].
        apply (keeps_trans A1 _ s1 s2 s3 Hk2 Hk3).
        intros a. apply held_upd_next_pa. }
  unfold insert_mini_block.
  apply wp_bind, wp_isMiniBlock.
  rewrite (blk_size_at s A HL b e Hb), H16. cbn [Z.eqb MINI_BLOCK_SIZE].
  change (16 =? 16) with true.
  repeat wp_prim. apply wp_bind.
  unfold s1 in Hcont.
  destruct (mini_root s =? NULL) eqn:E.
  - apply Z.eqb_eq in E. repeat wp_prim. rewrite E in Hcont.
    revert Hcont. st_simpl. intros Hcont. exact Hcont.
  - repeat wp_prim. revert Hcont. st_simpl. intros Hcont. exact Hcont.
Qed.

End InsertMini.

Section RemoveMini.

Variables (s : state) (A : aheap) (b : Z) (fuel : nat).
Hypothesis HR : Rep s A.
Hypothesis Hin : In b (minis A).
Hypothesis Hfuel : (length (minis A) < fuel)%nat.

Let A1 : aheap := set_minis (List.remove Z.eq_dec b (minis A)) A.

(** The abstract heap after the removal: the flags of the next block are
    refreshed only when [b] was the first node. *)
Definition rm_mini_heap : aheap :=
  if hd NULL (minis A) =? b then upd_next_mp b (upd_next_pa b A1) else A1.

Lemma remove_mini_blk : exists e, blocks A !! b = Some e /\ bsz e = 16.
Proof. destruct HR as [_ HS]. apply (lst_mini_blk s A HS b Hin). Qed.

(** Any store to the [next] field of listed 16-byte blocks keeps the
    layout and the buckets. *)
Lemma remove_mini_rep_frame m' p' l' :
  (forall c, (forall z, In z (minis A) -> c <> z + off_next) ->
             m' !! c = mem s !! c) ->
  sll m' p' l' -> List.NoDup l' -> (forall z, In z l' -> In z (minis A)) ->
  Rep (set_mini_root p' (set_mem m' s)) (set_minis l' A).
Proof.
  intros Hm Hsll Hnd Hsub. destruct HR as [HL HS]. split.
  - apply (layout_same_blocks _ A); [|reflexivity..].
    apply (layout_frame s _ A HL); [repeat split|].
    intros c Hc. cbn [mem set_mini_root set_mem]. apply Hm.
    intros z Hz ->. apply (tag_not_link s A (z + off_next) HL HS Hc).
    left. exists z. auto.
  - constructor; cbn [minis set_minis segs]; auto.
    + apply (lst_len s A HS).
    + intros z Hz. apply (lst_mini_blk s A HS z (Hsub z Hz)).
    + intros i Hi. change (seg_get _ i) with (seg_get s i).
      cbn [mem set_mini_root set_mem].
      apply (dll_frame (mem s)); [|apply (lst_seg s A HS i Hi)].
      intros x Hx.
      assert (Hx' : forall z, In z (minis A) -> x <> z)
        by (intros z Hz ->; exact (mini_seg_disjoint s A i z HS Hi Hz Hx)).
      destruct (lst_seg_blk s A HS i x Hi Hx) as (ex & Ex & Sx & _).
      pose proof (nonmini_ge32 s A HL x ex Ex Sx) as B32.
      split; apply Hm; intros z Hz;
        destruct (lst_mini_blk s A HS z Hz) as (ez & Ez & Sz);
        pose proof (blk_bounds s A HL z ez Ez);
        pose proof (blk_bounds s A HL x ex Ex);
        specialize (Hx' z Hz);
        destruct (blk_apart s A HL x z ex ez Ex Ez) as [?|[?|?]];
        unfold off_next, off_prev; try lia.
    + apply (lst_seg_nodup s A HS).
    + apply (lst_seg_blk s A HS).
Qed.

Lemma remove_mini_held l a :
  (forall z, In z l -> In z (minis A)) -> held A a -> held (set_minis l A) a.
Proof. intros Hl. apply held_set_minis. intros x Hx. left. apply (Hl x Hx). Qed.

(** A store to the [next] field of a listed 16-byte block. *)
Lemma remove_mini_store a z :
  held A a -> In z (minis A) -> a <> z + off_next.
Proof.
  intros Ha Hz ->. destruct HR as [HL HS].
  apply (held_not_link s A HL _ HS Ha). left. exists z. auto.
Qed.

Lemma remove_mini_block_spec (Q : unit -> state -> Prop) :
  (forall s', Rep s' rm_mini_heap -> same_arena s s' -> keeps A s s' -> Q tt s') ->
  wp (remove_mini_block fuel b) Q s.
Proof.
  intros HQ. pose proof HR as [HL HS].
  destruct remove_mini_blk as (e & Hb & H16).
  pose proof (lst_mini s A HS) as Hsll.
  pose proof (lst_mini_nodup s A HS) as Hnd.
  pose proof (sll_nonnull _ _ _ Hsll) as Hnn.
  pose proof (sll_head _ _ _ Hsll) as Hroot.
  destruct (in_split b (minis A) Hin) as (l1 & l2 & El).
  assert (Erem : List.remove Z.eq_dec b (minis A) = l1 ++ l2)
    by (rewrite El; apply remove_middle; rewrite <- El; exact Hnd).
  assert (Hb0 : b <> NULL) by (intros E; apply Hnn; rewrite <- E; exact Hin).
  unfold remove_mini_block.
  apply wp_bind, wp_isMiniBlock.
  rewrite (blk_size_at s A HL b e Hb), H16. change (16 =? MINI_BLOCK_SIZE) with true.
  repeat wp_prim.
  assert (Hr0 : mini_root s <> NULL).
  { rewrite Hroot, El. destruct l1 as [|x l1]; cbn [app hd]; [exact Hb0|].
    intros E. apply Hnn. rewrite El. left. exact E. }
  rewrite (proj2 (Z.eqb_neq _ _) Hr0). apply wp_bind.
  unfold rm_mini_heap, A1 in HQ. rewrite Erem, <- Hroot in HQ.
  destruct (Z.eqb_spec (mini_root s) b) as [E|E].
  - (* [b] is the first node *)
    assert (El1 : l1 = []).
    { destruct l1 as [|x l1]; [reflexivity|exfalso].
      rewrite El in Hroot, Hnd. cbn [app hd] in Hroot, Hnd.
      apply List.NoDup_cons_iff in Hnd as [Hx _]. apply Hx.
      apply in_or_app. right. left. congruence. }
    subst l1. cbn [app] in *. rewrite El in Hsll, Hnd.
    cbn [sll] in Hsll. destruct Hsll as (_ & _ & Hl2).
    apply List.NoDup_cons_iff in Hnd as [Hbl2 Hnd2].
    repeat wp_prim. st_simpl.
    set (m' := <[b + off_next := NULL]> (mem s)).
    assert (HR1 : Rep (set_mini_root (load_word s (b + off_next)) (set_mem m' s))
                      (set_minis l2 A)).
    { apply remove_mini_rep_frame; auto.
      - intros c Hc. unfold m'. apply lookup_insert_ne. intros <-.
        exact (Hc b Hin eq_refl).
      - unfold m'. apply sll_store_other; [|exact Hl2].
        intros y Hy. assert (b <> y) by (intros ->; contradiction).
        unfold off_next. lia.
      - intros z Hz. rewrite El. right. exact Hz. }
    assert (Hb1 : blocks (set_minis l2 A) !! b = Some e) by exact Hb.
    assert (Hk1 : keeps A s (set_mini_root (load_word s (b + off_next))
                               (set_mem m' s))).
    { intros a Ha. unfold m'. cbn [mem set_mini_root set_mem].
      apply lookup_insert_ne. intros E'. symmetry in E'.
      apply (remove_mini_store a b Ha Hin E'). }
    assert (Hi1 : forall a, held A a -> held (set_minis l2 A) a).
    { intros a. apply remove_mini_held. intros z Hz. rewrite El. right. exact Hz. }
    apply (update_next_palloc_spec _ _ b e _ HR1 Hb1).
    intros s2 HR2 Ha2 Hk2.
    apply (update_next_mpalloc_spec s2 _ b e _ HR2).
    + apply (upd_next_pa_self _ _ b e (proj1 HR1) Hb1).
    + intros s3 HR3 Ha3 Hk3. apply HQ; [exact HR3| |].
      * apply (same_arena_trans s s2 s3); [|exact Ha3].
        refine (same_arena_trans _ _ _ _ Ha2). repeat split.
      * apply (keeps_trans A (set_minis l2 A) s _ s3 Hk1); [|exact Hi1].
        apply (keeps_trans _ _ _ s2 s3 Hk2 Hk3).
        intros a. apply held_upd_next_pa.
  - (* [b] is further down: the scan finds the node before it *)
    destruct (list_snoc_case l1) as [->|(l1' & c & ->)].
    { exfalso. apply E. rewrite Hroot, El. reflexivity. }
    rewrite <- app_assoc in El, Erem, HQ. cbn [app] in El, Erem, HQ.
    rewrite El in Hsll, Hnd.
    apply (remove_mini_scan_spec fuel s l1' c b l2); auto.
    + rewrite El in Hfuel. rewrite length_app in Hfuel. lia.
    + destruct (sll_unlink _ _ _ _ _ _ Hsll Hnd) as (Ecb & Hsll').
      set (m' := <[b + off_next := NULL]>
                   (<[c + off_next := load_word s (b + off_next)]> (mem s))).
      assert (HR1 : Rep (set_mini_root (mini_root s) (set_mem m' s))
                        (set_minis (l1' ++ c :: l2) A)).
      { apply remove_mini_rep_frame; auto.
        - intros x Hx. unfold m'.
          assert (Hc : In c (minis A))
            by (rewrite El; apply in_or_app; right; left; reflexivity).
          rewrite !lookup_insert_ne; [reflexivity| |]; intros <-;
            [exact (Hx c Hc eq_refl)|exact (Hx b Hin eq_refl)].
        - replace (l1' ++ c :: l2) with ((l1' ++ [c]) ++ l2)
            by (rewrite <- app_assoc; reflexivity).
          apply (List.NoDup_remove_1 (l1' ++ [c]) l2 b).
          rewrite <- app_assoc. exact Hnd.
        - intros z Hz. rewrite El. apply in_app_or in Hz as [Hz|[Hz|Hz]];
            apply in_or_app; [left|right; left|right; right; right]; assumption. }
      repeat wp_prim.
      apply HQ; [exact HR1|repeat split|].
      intros a Ha. unfold m'. cbn [mem set_mini_root set_mem].
      assert (Hc : In c (minis A))
        by (rewrite El; apply in_or_app; right; left; reflexivity).
      rewrite !lookup_insert_ne; [reflexivity| |]; intros E';
        symmetry in E'; [apply (remove_mini_store a c Ha Hc E')
                        |apply (remove_mini_store a b Ha Hin E')].
Qed.

End RemoveMini.

(** ** Insertion and removal by size *)

Definition ins_heap (b : Z) (e : blk) (A : aheap) : aheap :=
  if bsz e =? 16
  then upd_next_mp b (upd_next_pa b (set_minis (b :: minis A) A))
  else set_seg (home_address (bsz e)) (b :: segs A (home_address (bsz e))) A.

Definition rm_heap (b : Z) (e : blk) (A : aheap) : aheap :=
  if bsz e =? 16
  then rm_mini_heap A b
  else set_seg (home_address (bsz e))
         (List.remove Z.eq_dec b (segs A (home_address (bsz e)))) A.

Lemma held_ins_heap A b e a :
  blocks A !! b = Some e -> bal e = false ->
  held A a -> held (ins_heap b e A) a.
Proof.
  intros Hb Hfree Ha. unfold ins_heap. destruct (bsz e =? 16).
  - apply held_upd_next_mp, held_upd_next_pa. revert Ha. apply held_set_minis.
    intros x [<-|Hx]; [right; eauto|left; exact Hx].
  - revert Ha. apply held_set_seg.
    intros x [<-|Hx]; [right; eauto|left; exact Hx].
Qed.

Lemma held_rm_heap A b e a : held A a -> held (rm_heap b e A) a.
Proof.
  intros Ha. unfold rm_heap, rm_mini_heap. destruct (bsz e =? 16).
  - assert (H1 : held (set_minis (List.remove Z.eq_dec b (minis A)) A) a).
    { revert Ha. apply held_set_minis. intros x Hx. left.
      apply List.in_remove in Hx. tauto. }
    destruct (hd NULL (minis A) =? b); [|exact H1].
    apply held_upd_next_mp, held_upd_next_pa. exact H1.
  - revert Ha. apply held_set_seg. intros x Hx. left.
    apply List.in_remove in Hx. tauto.
Qed.

Lemma insertVagueBlock_links s A b e (Q : unit -> state -> Prop) :
  Rep s A -> blocks A !! b = Some e -> ~ listed A b e ->
  (forall s', Rep s' (ins_heap b e A) -> same_arena s s' ->
     (bal e = false -> keeps A s s') -> Q tt s') ->
  wp (insertVagueBlock b) Q s.
Proof.
  intros HR Hb Hnl HQ. pose proof HR as [HL HS].
  unfold insertVagueBlock. apply wp_bind, wp_isMiniBlock.
  rewrite (blk_size_at s A HL b e Hb). unfold MINI_BLOCK_SIZE.
  unfold ins_heap in HQ. unfold listed in Hnl.
  destruct (Z.eqb_spec (bsz e) 16) as [E|E].
  - apply (insert_mini_block_spec s A b e HR Hb E Hnl). exact HQ.
  - apply wp_bind, wp_get_size. rewrite (blk_size_at s A HL b e Hb).
    apply (explicit_insert_block_spec s A b e _ HR Hb E eq_refl Hnl).
    exact HQ.
Qed.

Lemma insertVagueBlock_spec s A b e (Q : unit -> state -> Prop) :
  Rep s A -> blocks A !! b = Some e -> ~ listed A b e -> bal e = false ->
  (forall s', Rep s' (ins_heap b e A) -> same_arena s s' -> keeps A s s' ->
     Q tt s') ->
  wp (insertVagueBlock b) Q s.
Proof.
  intros HR Hb Hnl Hfree HQ.
  apply (insertVagueBlock_links s A b e Q HR Hb Hnl).
  intros s' HR' Hsa Hk. apply HQ; auto.
Qed.

Lemma removeVagueBlock_spec fuel s A b e (Q : unit -> state -> Prop) :
  Rep s A -> blocks A !! b = Some e -> listed A b e ->
  (length (minis A) < fuel)%nat ->
  (forall s', Rep s' (rm_heap b e A) -> same_arena s s' -> keeps A s s' ->
     Q tt s') ->
  wp (removeVagueBlock fuel b) Q s.
Proof.
  intros HR Hb Hl Hf HQ. pose proof HR as [HL HS].
  unfold removeVagueBlock. apply wp_bind, wp_isMiniBlock.
  rewrite (blk_size_at s A HL b e Hb). unfold MINI_BLOCK_SIZE.
  unfold rm_heap in HQ. unfold listed in Hl.
  destruct (Z.eqb_spec (bsz e) 16) as [E|E].
  - apply (remove_mini_block_spec s A b fuel HR Hl Hf). exact HQ.
  - apply wp_bind, wp_get_size. rewrite (blk_size_at s A HL b e Hb).
    apply (explicit_remove_block_spec s A b _ HR); [|exact Hl|exact HQ].
    apply home_address_range. apply (nonmini_ge32 s A HL b e Hb E).
Qed.

(** ** Merging a block with the blocks that follow it

    One [write_block] at [p] with the summed size turns [p] and the blocks
    up to [p + S] into a single free block. *)

Definition absorb_blocks (p S : Z) (e' : blk) (H : gmap Z blk) : gmap Z blk :=
  <[p := e']> (filter (fun kv : Z * blk => kv.1 < p \/ p + S <= kv.1) H).

Lemma lookup_absorb p S e' H x e :
  absorb_blocks p S e' H !! x = Some e <->
  (x = p /\ e = e') \/
  (x <> p /\ H !! x = Some e /\ (x < p \/ p + S <= x)).
Proof.
  unfold absorb_blocks. destruct (Z.eq_dec p x) as [<-|Hne].
  - rewrite lookup_insert_eq. split.
    + intros [= <-]. left. auto.
    + intros [[_ ->]|[N _]]; [reflexivity|congruence].
  - rewrite lookup_insert_ne by exact Hne.
    rewrite map_lookup_filter_Some. cbn [fst]. split.
    + intros [? ?]. right. repeat split; auto.
    + intros [[E _]|(_ & ? & ?)]; [congruence|auto].
Qed.

Section Merge.

Variables (s : state) (A : aheap) (p : Z) (ep : blk) (S : Z) (mp pa : bool).
Hypothesis HR : Rep s A.
Hypothesis Hp : blocks A !! p = Some ep.
Hypothesis HS1 : bsz ep < S.
Hypothesis HS2 : S mod 16 = 0.
Hypothesis Hend : p + S = heap_end s \/ is_Some (blocks A !! (p + S)).
Hypothesis Hunl : forall x e, blocks A !! x = Some e -> p <= x < p + S ->
                              ~ listed A x e.

Let e' : blk := mkBlk S mp pa false.
Let s' : state := set_mem (write_block_mem (mem s) p S mp pa false) s.
Let A' : aheap := set_blocks (absorb_blocks p S e' (blocks A)) A.

Lemma merge_bounds :
  32 <= S < modulus /\ p + S <= heap_end s /\ 0 < p /\ p mod 16 = 8.
Proof.
  destruct HR as [HL _]. pose proof (blk_bounds s A HL p ep Hp) as Bp.
  destruct (lay_size s A HL p ep Hp) as (_ & _ & Hal).
  assert (p + S <= heap_end s).
  { destruct Hend as [E|[en Hn]]; [lia|].
    pose proof (blk_bounds s A HL _ en Hn). lia. }
  repeat split; try lia. Z.to_euclidean_division_equations; lia.
Qed.

(** No block straddles the end of the merged extent. *)
Lemma merge_no_straddle x e :
  blocks A !! x = Some e -> x < p + S -> x + bsz e <= p + S.
Proof.
  intros Hx Hlt. destruct HR as [HL _].
  pose proof (blk_bounds s A HL x e Hx).
  destruct Hend as [E|[en Hn]]; [lia|].
  exact (lay_disj s A HL x (p + S) e en Hx Hn Hlt).
Qed.

Lemma merge_kept x e :
  blocks A !! x = Some e -> x <> p -> (x < p \/ p + S <= x) ->
  x + bsz e <= p \/ p + S <= x.
Proof.
  intros Hx Hne [Hlt|Hge]; [left|right; exact Hge].
  destruct HR as [HL _]. exact (lay_disj s A HL x p e ep Hx Hp Hlt).
Qed.

Lemma merge_layout : Layout s' A'.
Proof.
  pose proof HR as [HL HS].
  pose proof merge_bounds as (BS & Bend & Bp0 & Bal).
  assert (Hr : 0 <= S < modulus) by lia.
  pose proof (blk_bounds s A HL p ep Hp) as Bp.
  constructor; unfold s', A'; cbn [mem heap_start mem_brk mem_max set_mem blocks set_blocks];
    change (heap_end (set_mem _ s)) with (heap_end s); try apply HL.
  - intros x e Hx. apply lookup_absorb in Hx as [[-> ->]|(Hne & Hx & Hk)].
    + apply wbm_hdr; assumption.
    + pose proof (blk_bounds s A HL x e Hx).
      destruct (merge_kept x e Hx Hne Hk).
      * rewrite wbm_other by (try assumption; lia). apply (lay_hdr s A HL x e Hx).
      * rewrite wbm_other by (try assumption; lia). apply (lay_hdr s A HL x e Hx).
  - intros x e Hx Hf Hn. apply lookup_absorb in Hx as [[-> ->]|(Hne & Hx & Hk)].
    + (try unfold e'); cbn [bsz]. apply wbm_ftr; auto; lia.
    + pose proof (blk_bounds s A HL x e Hx).
      destruct (merge_kept x e Hx Hne Hk).
      * rewrite wbm_other by (try assumption; lia). apply (lay_ftr s A HL x e Hx Hf Hn).
      * rewrite wbm_other by (try assumption; lia). apply (lay_ftr s A HL x e Hx Hf Hn).
  - rewrite wbm_other by (try assumption; lia). apply HL.
  - intros x e Hx. apply lookup_absorb in Hx as [[-> ->]|(Hne & Hx & Hk)].
    + (try unfold e'); cbn [bsz]. repeat split; auto; lia.
    + apply (lay_size s A HL x e Hx).
  - intros x e Hx. apply lookup_absorb in Hx as [[-> ->]|(Hne & Hx & Hk)].
    + (try unfold e'); cbn [bsz]. pose proof (lay_in s A HL p ep Hp). lia.
    + apply (lay_in s A HL x e Hx).
  - intros x y ex ey Hx Hy Hlt.
    apply lookup_absorb in Hx as [[-> ->]|(Hnx & Hx & Hkx)];
      apply lookup_absorb in Hy as [[-> ->]|(Hny & Hy & Hky)]; (try unfold e'); cbn [bsz]; try lia.
    + destruct (merge_kept x ex Hx Hnx Hkx); lia.
    + exact (lay_disj s A HL x y ex ey Hx Hy Hlt).
  - intros x e Hx. apply lookup_absorb in Hx as [[-> ->]|(Hne & Hx & Hk)].
    + (try unfold e'); cbn [bsz]. destruct Hend as [E|[en Hn]]; [left; exact E|right].
      exists en. apply lookup_absorb. right. repeat split; auto; lia.
    + destruct (lay_next s A HL x e Hx) as [E|[en Hn]]; [left; exact E|right].
      pose proof (blk_bounds s A HL x e Hx).
      destruct (Z.eq_dec (x + bsz e) p) as [E|E].
      * exists e'. apply lookup_absorb. left. auto.
      * exists en. apply lookup_absorb. right. repeat split; auto.
        destruct (merge_kept x e Hx Hne Hk); lia.
  - intros x e Hx. apply lookup_absorb in Hx as [[-> ->]|(Hne & Hx & Hk)].
    + destruct (lay_prev s A HL p ep Hp) as [E|(y & ey & Hy & E)];
        [left; exact E|right].
      pose proof (blk_bounds s A HL y ey Hy).
      exists y, ey. split; [|exact E]. apply lookup_absorb. right.
      repeat split; auto; lia.
    + destruct (lay_prev s A HL x e Hx) as [E|(y & ey & Hy & E)];
        [left; exact E|right].
      pose proof (blk_bounds s A HL y ey Hy) as By.
      pose proof (blk_bounds s A HL x e Hx) as Bx.
      destruct (Z.eq_dec y p) as [->|Hyp].
      * assert (ey = ep) by congruence. subst ey.
        pose proof (merge_no_straddle x e Hx). lia.
      * destruct (Z_lt_ge_dec y p) as [Hlt|Hge].
        -- exists y, ey. split; [|exact E]. apply lookup_absorb. right.
           repeat split; auto; lia.
        -- destruct (Z_lt_ge_dec y (p + S)) as [Hin|Hout].
           ++ pose proof (merge_no_straddle y ey Hy Hin).
              exists p, e'. split; [apply lookup_absorb; left; auto|].
              (try unfold e'); cbn [bsz]. destruct Hk; lia.
           ++ exists y, ey. split; [|exact E]. apply lookup_absorb. right.
              repeat split; auto; lia.
  - destruct (lay_first s A HL) as [E|[e0 H0]]; [left; exact E|right].
    pose proof (lay_in s A HL p ep Hp).
    destruct (Z.eq_dec (heap_start s) p) as [E|E].
    + exists e'. apply lookup_absorb. left. auto.
    + exists e0. apply lookup_absorb. right. repeat split; auto; lia.
  - destruct (lay_last s A HL) as [E|(y & ey & Hy & E)]; [left; exact E|right].
    pose proof (blk_bounds s A HL y ey Hy) as By.
    destruct (Z_lt_ge_dec y p) as [Hlt|Hge].
    + exists y, ey. split; [|exact E]. apply lookup_absorb. right.
      repeat split; auto; lia.
    + destruct (Z_lt_ge_dec y (p + S)) as [Hin|Hout].
      * pose proof (merge_no_straddle y ey Hy Hin).
        exists p, e'. split; [apply lookup_absorb; left; auto|]. (try unfold e'); cbn [bsz]. lia.
      * exists y, ey. split; [|exact E]. apply lookup_absorb. right.
        repeat split; auto; lia.
Qed.

Lemma merge_listed_outside z ez :
  blocks A !! z = Some ez -> listed A z ez ->
  z <> p /\ (z + bsz ez <= p \/ p + S <= z) /\
  blocks A' !! z = Some ez.
Proof.
  intros Hz Hl. destruct HR as [HL _].
  assert (Hout : ~ (p <= z < p + S)) by (intros H; exact (Hunl z ez Hz H Hl)).
  pose proof (blk_bounds s A HL z ez Hz).
  pose proof (blk_bounds s A HL p ep Hp).
  assert (Hne : z <> p) by lia.
  assert (Hk : z < p \/ p + S <= z) by lia.
  split; [exact Hne|]. split; [exact (merge_kept z ez Hz Hne Hk)|].
  unfold A'. cbn [blocks set_blocks]. apply lookup_absorb. right. auto.
Qed.

Lemma merge_lists : Lists s' A'.
Proof.
  pose proof HR as [HL HS].
  pose proof merge_bounds as (BS & Bend & Bp0 & Bal).
  assert (Hr : 0 <= S < modulus) by lia.
  assert (Hfr : forall c, link A c ->
            write_block_mem (mem s) p S mp pa false !! c = mem s !! c).
  { intros c Hc.
    destruct (link_inside s A c HL HS Hc) as (z & ez & Hz & Hl & Hcz).
    destruct (merge_listed_outside z ez Hz Hl) as (Hne & Hout & _).
    pose proof (blk_bounds s A HL z ez Hz) as Bz.
    apply wbm_other; try assumption;
      destruct Hcz as [->|[-> Hn]]; destruct Hout; try lia;
      pose proof (nonmini_ge32 s A HL z ez Hz Hn); lia. }
  pose proof (lists_frame s s' A HS eq_refl eq_refl Hfr) as [h1 h2 h3 h4 h5 h6 h7].
  constructor; auto.
  - intros z Hz. destruct (h4 z Hz) as (ez & Ez & Sz).
    exists ez. split; [|exact Sz].
    apply (merge_listed_outside z ez Ez). unfold listed. rewrite Sz. exact Hz.
  - intros i z Hi Hz. destruct (h7 i z Hi Hz) as (ez & Ez & Sz & Hh).
    exists ez. split; [|auto].
    apply (merge_listed_outside z ez Ez). unfold listed.
    rewrite (proj2 (Z.eqb_neq _ _) Sz), Hh. exact Hz.
Qed.

Lemma rep_merge : Rep s' A'.
Proof. split; [apply merge_layout|apply merge_lists]. Qed.

End Merge.

(** ** Splitting a block in two *)

Section Split.

Variables (s : state) (A : aheap) (b : Z) (eb : blk) (asize : Z).
Variables (mp pa mp2 pa2 : bool).
Hypothesis HR : Rep s A.
Hypothesis Hb : blocks A !! b = Some eb.
Hypothesis Ha1 : 16 <= asize.
Hypothesis Ha2 : asize mod 16 = 0.
Hypothesis Ha3 : asize + 16 <= bsz eb.
Hypothesis Hunl : ~ listed A b eb.

Let rem : Z := bsz eb - asize.
Let e1 : blk := mkBlk asize mp pa true.
Let e2 : blk := mkBlk rem mp2 pa2 false.
Let s' : state :=
  set_mem (write_block_mem (write_block_mem (mem s) b asize mp pa true)
             (b + asize) rem mp2 pa2 false) s.
Let A' : aheap :=
  set_blocks (<[b + asize := e2]> (<[b := e1]> (blocks A))) A.

Lemma split_bounds :
  0 <= asize < modulus /\ 16 <= rem < modulus /\ rem mod 16 = 0 /\
  0 < b /\ b mod 16 = 8 /\ b + bsz eb <= heap_end s /\
  blocks A !! (b + asize) = None.
Proof.
  destruct HR as [HL _]. pose proof (blk_bounds s A HL b eb Hb) as Bb.
  destruct (lay_size s A HL b eb Hb) as (_ & _ & Hal).
  unfold rem. repeat split; try lia; try (Z.to_euclidean_division_equations; lia).
  destruct (blocks A !! (b + asize)) as [en|] eqn:Hn; [exfalso|reflexivity].
  pose proof (blk_bounds s A HL _ en Hn).
  assert (Hlt : b < b + asize) by lia.
  pose proof (lay_disj s A HL b (b + asize) eb en Hb Hn Hlt). lia.
Qed.

Lemma lookup_split x e :
  blocks A' !! x = Some e <->
  (x = b + asize /\ e = e2) \/ (x = b /\ e = e1) \/
  (x <> b /\ x <> b + asize /\ blocks A !! x = Some e).
Proof.
  unfold A'. cbn [blocks set_blocks].
  destruct (Z.eq_dec (b + asize) x) as [<-|N1].
  - rewrite lookup_insert_eq. split.
    + intros [= <-]. auto.
    + intros [[_ ->]|[[E _]|(_ & N & _)]]; [reflexivity|lia|congruence].
  - rewrite lookup_insert_ne by exact N1.
    destruct (Z.eq_dec b x) as [<-|N2].
    + rewrite lookup_insert_eq. split.
      * intros [= <-]. auto.
      * intros [[E _]|[[_ ->]|(N & _)]]; [lia|reflexivity|congruence].
    + rewrite lookup_insert_ne by exact N2. split.
      * intros H. right. right. repeat split; auto.
      * intros [[E _]|[[E _]|(_ & _ & H)]]; [congruence|congruence|exact H].
Qed.

(** Every other block lies outside the extent that is split. *)
Lemma split_outside x e :
  blocks A !! x = Some e -> x <> b ->
  x + bsz e <= b \/ b + bsz eb <= x.
Proof.
  intros Hx Hne. destruct HR as [HL _].
  destruct (blk_apart s A HL x b e eb Hx Hb) as [?|[?|?]]; [contradiction|auto|auto].
Qed.

Lemma split_mem_other c :
  c <> b -> c <> b + asize -> c <> b + bsz eb - 8 ->
  mem s' !! c = mem s !! c.
Proof.
  intros N1 N2 N3. pose proof split_bounds as (B1 & B2 & B3 & _).
  unfold s'. cbn [mem set_mem].
  rewrite wbm_other; [|lia|assumption|assumption|unfold rem; lia].
  apply wbm_other_nofooter; auto.
Qed.

Lemma split_layout : Layout s' A'.
Proof.
  pose proof HR as [HL HS].
  pose proof split_bounds as (B1 & B2 & B3 & B4 & B5 & B6 & B7).
  pose proof (blk_bounds s A HL b eb Hb) as Bb.
  assert (Br : 0 <= rem < modulus) by lia.
  constructor; unfold s'; cbn [heap_start mem_brk mem_max set_mem];
    change (heap_end (set_mem _ s)) with (heap_end s); try apply HL; fold s'.
  - intros x e Hx. apply lookup_split in Hx as [[-> ->]|[[-> ->]|(N1 & N2 & Hx)]].
    + unfold s'. cbn [mem set_mem]. apply wbm_hdr; assumption.
    + unfold s'. cbn [mem set_mem].
      rewrite wbm_other; [|lia|assumption|lia|unfold rem; lia].
      apply wbm_hdr; assumption.
    + pose proof (blk_bounds s A HL x e Hx).
      rewrite split_mem_other; [apply (lay_hdr s A HL x e Hx)|auto|auto|].
      destruct (split_outside x e Hx N1); lia.
  - intros x e Hx Hf Hn. apply lookup_split in Hx as [[-> ->]|[[-> ->]|(N1 & N2 & Hx)]].
    + unfold s', e2. cbn [mem set_mem bsz].
      replace (b + asize + rem - 8) with ((b + asize) + rem - 8) by lia.
      apply wbm_ftr; auto.
    + cbn in Hf. discriminate.
    + pose proof (blk_bounds s A HL x e Hx).
      pose proof (nonmini_ge32 s A HL x e Hx Hn).
      rewrite split_mem_other; [apply (lay_ftr s A HL x e Hx Hf Hn)| | |];
        destruct (split_outside x e Hx N1); lia.
  - rewrite split_mem_other; [apply HL| | |]; lia.
  - intros x e Hx. apply lookup_split in Hx as [[-> ->]|[[-> ->]|(N1 & N2 & Hx)]].
    + unfold e2; cbn [bsz]. repeat split; auto; try lia.
      Z.to_euclidean_division_equations; lia.
    + unfold e1; cbn [bsz]. repeat split; auto.
    + apply (lay_size s A HL x e Hx).
  - intros x e Hx. pose proof (lay_in s A HL b eb Hb).
    apply lookup_split in Hx as [[-> ->]|[[-> ->]|(N1 & N2 & Hx)]].
    + unfold e2, rem; cbn [bsz]. lia.
    + unfold e1; cbn [bsz]. lia.
    + apply (lay_in s A HL x e Hx).
  - intros x y ex ey Hx Hy Hlt.
    apply lookup_split in Hx as [[-> ->]|[[-> ->]|(N1 & N2 & Hx)]];
      apply lookup_split in Hy as [[-> ->]|[[-> ->]|(M1 & M2 & Hy)]];
      unfold e1, e2, rem; cbn [bsz]; try lia.
    + destruct (split_outside y ey Hy M1); pose proof (blk_bounds s A HL y ey Hy); lia.
    + destruct (split_outside y ey Hy M1); pose proof (blk_bounds s A HL y ey Hy); lia.
    + destruct (split_outside x ex Hx N1); lia.
    + destruct (split_outside x ex Hx N1); lia.
    + exact (lay_disj s A HL x y ex ey Hx Hy Hlt).
  - intros x e Hx. apply lookup_split in Hx as [[-> ->]|[[-> ->]|(N1 & N2 & Hx)]].
    + unfold e2, rem; cbn [bsz].
      replace (b + asize + (bsz eb - asize)) with (b + bsz eb) by lia.
      destruct (lay_next s A HL b eb Hb) as [E|[en Hn]]; [left; exact E|right].
      exists en. apply lookup_split. right. right. repeat split; auto; lia.
    + right. exists e2. apply lookup_split. left. auto.
    + destruct (lay_next s A HL x e Hx) as [E|[en Hn]]; [left; exact E|right].
      destruct (Z.eq_dec (x + bsz e) b) as [E|E].
      * exists e1. apply lookup_split. right. left. auto.
      * exists en. apply lookup_split. right. right. repeat split; auto; try lia; intros E'; rewrite E' in Hn; congruence.
  - intros x e Hx. apply lookup_split in Hx as [[-> ->]|[[-> ->]|(N1 & N2 & Hx)]].
    + right. exists b, e1. split; [apply lookup_split; right; left; auto|].
      reflexivity.
    + destruct (lay_prev s A HL b eb Hb) as [E|(y & ey & Hy & E)];
        [left; exact E|right].
      pose proof (blk_bounds s A HL y ey Hy).
      exists y, ey. split; [|exact E]. apply lookup_split. right. right.
      repeat split; auto; try lia; intros E'; rewrite E' in Hy; congruence.
    + destruct (lay_prev s A HL x e Hx) as [E|(y & ey & Hy & E)];
        [left; exact E|right].
      destruct (Z.eq_dec y b) as [->|Hyb].
      * assert (ey = eb) by congruence. subst ey.
        exists (b + asize), e2. split; [apply lookup_split; left; auto|].
        unfold e2, rem; cbn [bsz]. lia.
      * exists y, ey. split; [|exact E]. apply lookup_split. right. right.
        repeat split; auto; try lia; intros E'; rewrite E' in Hy; congruence.
  - destruct (lay_first s A HL) as [E|[e0 H0]]; [left; exact E|right].
    destruct (Z.eq_dec (heap_start s) b) as [E|E].
    + exists e1. apply lookup_split. right. left. auto.
    + exists e0. apply lookup_split. right. right. repeat split; auto; try lia; intros E'; rewrite E' in H0; congruence.
  - destruct (lay_last s A HL) as [E|(y & ey & Hy & E)]; [left; exact E|right].
    destruct (Z.eq_dec y b) as [->|Hyb].
    + assert (ey = eb) by congruence. subst ey.
      exists (b + asize), e2. split; [apply lookup_split; left; auto|].
      unfold e2, rem; cbn [bsz]. lia.
    + exists y, ey. split; [|exact E]. apply lookup_split. right. right.
      repeat split; auto; try lia; intros E'; rewrite E' in Hy; congruence.
Qed.

Lemma split_lists : Lists s' A'.
Proof.
  pose proof HR as [HL HS].
  pose proof (blk_bounds s A HL b eb Hb) as Bb.
  assert (Hkeep : forall z ez, blocks A !! z = Some ez -> listed A z ez ->
            z <> b /\ blocks A' !! z = Some ez).
  { intros z ez Hz Hl.
    assert (z <> b) by (intros ->; assert (ez = eb) by congruence; subst; contradiction).
    split; [assumption|]. apply lookup_split. right. right. repeat split; auto.
    intros E. pose proof split_bounds as (_ & _ & _ & _ & _ & _ & Hnone).
    rewrite E in Hz. congruence. }
  assert (Hfr : forall c, link A c -> mem s' !! c = mem s !! c).
  { intros c Hc.
    destruct (link_inside s A c HL HS Hc) as (z & ez & Hz & Hl & Hcz).
    destruct (Hkeep z ez Hz Hl) as (Hne & _).
    pose proof (blk_bounds s A HL z ez Hz) as Bz.
    apply split_mem_other;
      destruct Hcz as [->|[-> Hn]]; destruct (split_outside z ez Hz Hne);
      try lia; pose proof (nonmini_ge32 s A HL z ez Hz Hn); lia. }
  pose proof (lists_frame s s' A HS eq_refl eq_refl Hfr) as [h1 h2 h3 h4 h5 h6 h7].
  constructor; auto.
  - intros z Hz. destruct (h4 z Hz) as (ez & Ez & Sz).
    exists ez. split; [|exact Sz].
    apply (Hkeep z ez Ez). unfold listed. rewrite Sz. exact Hz.
  - intros i z Hi Hz. destruct (h7 i z Hi Hz) as (ez & Ez & Sz & Hh).
    exists ez. split; [|auto].
    apply (Hkeep z ez Ez). unfold listed.
    rewrite (proj2 (Z.eqb_neq _ _) Sz), Hh. exact Hz.
Qed.

Lemma rep_split : Rep s' A'.
Proof. split; [apply split_layout|apply split_lists]. Qed.

End Split.

(** ** Growing the arena by one free block *)

Section Extend.

Variables (s : state) (A : aheap) (size : Z) (mp pa : bool).
Hypothesis HR : Rep s A.
Hypothesis Hs1 : 32 <= size.
Hypothesis Hs2 : size mod 16 = 0.
Hypothesis Hfit : mem_brk s + size <= mem_max s.

Let he : Z := heap_end s.
Let e' : blk := mkBlk size mp pa false.
Let s' : state :=
  set_mem (<[he + size := pack 0 (size =? 16) false true]>
             (write_block_mem (mem s) he size mp pa false))
          (set_brk (mem_brk s + size) s).
Let A' : aheap := set_epi (size =? 16) false (set_block he e' A).

Lemma extend_end : heap_end s' = he + size.
Proof. unfold s', he, heap_end. cbn. lia. Qed.

Lemma extend_bounds :
  0 <= size < modulus /\ 0 < he /\ he mod 16 = 8 /\
  blocks A !! he = None /\
  (forall x e, blocks A !! x = Some e -> x + bsz e <= he /\ 16 <= bsz e).
Proof.
  destruct HR as [HL _]. pose proof (lay_start s A HL). pose proof (lay_max s A HL).
  pose proof (lay_align s A HL).
  assert (Hall : forall x e, blocks A !! x = Some e -> x + bsz e <= he /\ 16 <= bsz e).
  { intros x e Hx. pose proof (blk_bounds s A HL x e Hx). unfold he. lia. }
  unfold he, heap_end in *. repeat split; try lia.
  - destruct (lay_last s A HL) as [E|(y & ey & Hy & E)]; unfold heap_end in *.
    + rewrite <- E. assumption.
    + destruct (lay_size s A HL y ey Hy) as (_ & ? & ?).
      rewrite <- E. Z.to_euclidean_division_equations; lia.
  - destruct (blocks A !! (mem_brk s - 8)) as [e|] eqn:E; [|reflexivity].
    destruct (Hall _ e E). unfold he, heap_end in *. lia.
  - apply (Hall x e H2).
  - apply (Hall x e H2).
Qed.

Lemma lookup_extend x e :
  blocks A' !! x = Some e <->
  (x = he /\ e = e') \/ (x <> he /\ blocks A !! x = Some e).
Proof.
  unfold A'. cbn [blocks set_epi set_block set_blocks].
  destruct (Z.eq_dec he x) as [<-|N].
  - rewrite lookup_insert_eq. split.
    + intros [= <-]. auto.
    + intros [[_ ->]|[N _]]; [reflexivity|congruence].
  - rewrite lookup_insert_ne by exact N. split.
    + intros H. right. auto.
    + intros [[E _]|[_ H]]; [congruence|exact H].
Qed.

Lemma extend_mem_other c : c < he -> mem s' !! c = mem s !! c.
Proof.
  intros Hc. pose proof extend_bounds as (B1 & _).
  unfold s'. cbn [mem set_mem set_brk].
  rewrite lookup_insert_ne by lia.
  apply wbm_other; try assumption; lia.
Qed.

Lemma extend_layout : Layout s' A'.
Proof.
  pose proof HR as [HL HS].
  pose proof extend_bounds as (B1 & B2 & B3 & B4 & B5).
  pose proof (lay_start s A HL) as Hst. pose proof (lay_max s A HL) as Hmx.
  fold he in Hst.
  constructor; rewrite ?extend_end;
    change (heap_start s') with (heap_start s);
    change (mem_brk s') with (mem_brk s + size);
    change (mem_max s') with (mem_max s); try apply HL.
  - lia.
  - lia.
  - intros x e Hx. apply lookup_extend in Hx as [[-> ->]|(N & Hx)].
    + unfold s'. cbn [mem set_mem set_brk]. rewrite lookup_insert_ne by lia.
      apply wbm_hdr; assumption.
    + destruct (B5 x e Hx). rewrite extend_mem_other by lia.
      apply (lay_hdr s A HL x e Hx).
  - intros x e Hx Hf Hn. apply lookup_extend in Hx as [[-> ->]|(N & Hx)].
    + unfold s', e'. cbn [mem set_mem set_brk bsz].
      rewrite lookup_insert_ne by lia. apply wbm_ftr; auto; lia.
    + destruct (B5 x e Hx). rewrite extend_mem_other by lia.
      apply (lay_ftr s A HL x e Hx Hf Hn).
  - unfold s', A'. cbn [mem set_mem set_brk emp epa set_epi].
    apply lookup_insert_eq.
  - intros x e Hx. apply lookup_extend in Hx as [[-> ->]|(N & Hx)].
    + unfold e'; cbn [bsz]. repeat split; auto; lia.
    + apply (lay_size s A HL x e Hx).
  - intros x e Hx. apply lookup_extend in Hx as [[-> ->]|(N & Hx)].
    + unfold e'; cbn [bsz]. lia.
    + destruct (B5 x e Hx). pose proof (lay_in s A HL x e Hx). lia.
  - intros x y ex ey Hx Hy Hlt.
    apply lookup_extend in Hx as [[-> ->]|(N & Hx)];
      apply lookup_extend in Hy as [[-> ->]|(M & Hy)]; try lia.
    + destruct (B5 y ey Hy). lia.
    + destruct (B5 x ex Hx). lia.
    + exact (lay_disj s A HL x y ex ey Hx Hy Hlt).
  - intros x e Hx. apply lookup_extend in Hx as [[-> ->]|(N & Hx)].
    + left. reflexivity.
    + right. destruct (lay_next s A HL x e Hx) as [E|[en Hn]].
      * exists e'. apply lookup_extend. left. fold he in E. auto.
      * exists en. apply lookup_extend. right. split; [|exact Hn].
        intros E. rewrite E in Hn. congruence.
  - intros x e Hx. apply lookup_extend in Hx as [[-> ->]|(N & Hx)].
    + destruct (lay_last s A HL) as [E|(y & ey & Hy & E)]; [left; symmetry; exact E|right].
      exists y, ey. split; [|exact E]. apply lookup_extend. right. split; [|exact Hy].
      destruct (B5 y ey Hy). lia.
    + destruct (lay_prev s A HL x e Hx) as [E|(y & ey & Hy & E)]; [left; exact E|right].
      exists y, ey. split; [|exact E]. apply lookup_extend. right. split; [|exact Hy].
      destruct (B5 y ey Hy). lia.
  - right. destruct (lay_first s A HL) as [E|[e0 H0]].
    + exists e'. apply lookup_extend. left. fold he in E. auto.
    + exists e0. apply lookup_extend. right. split; [|exact H0].
      intros E. rewrite E in H0. congruence.
  - right. exists he, e'. split; [apply lookup_extend; left; auto|reflexivity].
Qed.

Lemma extend_lists : Lists s' A'.
Proof.
  pose proof HR as [HL HS].
  pose proof extend_bounds as (B1 & B2 & B3 & B4 & B5).
  assert (Hfr : forall c, link A c -> mem s' !! c = mem s !! c).
  { intros c Hc.
    destruct (link_inside s A c HL HS Hc) as (z & ez & Hz & Hl & Hcz).
    destruct (B5 z ez Hz). apply extend_mem_other.
    destruct Hcz as [->|[-> Hn]]; [lia|].
    pose proof (nonmini_ge32 s A HL z ez Hz Hn). lia. }
  pose proof (lists_frame s s' A HS eq_refl eq_refl Hfr) as [h1 h2 h3 h4 h5 h6 h7].
  assert (Hkeep : forall z ez, blocks A !! z = Some ez -> blocks A' !! z = Some ez).
  { intros z ez Hz. apply lookup_extend. right. split; [|exact Hz].
    intros E. rewrite E in Hz. congruence. }
  constructor; auto.
  - intros z Hz. destruct (h4 z Hz) as (ez & Ez & Sz). eauto.
  - intros i z Hi Hz. destruct (h7 i z Hi Hz) as (ez & Ez & Sz & Hh). eauto.
Qed.

Lemma rep_extend : Rep s' A'.
Proof. split; [apply extend_layout|apply extend_lists]. Qed.

End Extend.

(** * Two views of the abstract heap

    The flags of a block repeat what its predecessor is.  While an
    operation runs some of them are stale; [Flags] records for which
    predecessors the [palloc] and the [mpalloc] bit of the successor may
    be wrong.  The second view, [cb], forgets the flags. *)

Record Flags (hs he : Z) (A : aheap) (Spa Smp : Z -> Prop) : Prop := mkFlags {
  fl_pa : forall x e e', blocks A !! x = Some e ->
            blocks A !! (x + bsz e) = Some e' -> ~ Spa x -> bpa e' = bal e;
  fl_mp : forall x e e', blocks A !! x = Some e ->
            blocks A !! (x + bsz e) = Some e' -> ~ Smp x ->
            bmp e' = (bsz e =? 16);
  fl_first : forall e, blocks A !! hs = Some e -> bpa e = true;
  fl_last_pa : forall x e, blocks A !! x = Some e -> x + bsz e = he ->
                 ~ Spa x -> epa A = bal e;
  fl_last_mp : forall x e, blocks A !! x = Some e -> x + bsz e = he ->
                 ~ Smp x -> emp A = (bsz e =? 16);
  fl_empty : hs = he -> epa A = true
}.

Definition none : Z -> Prop := fun _ => False.
Definition only (b : Z) : Z -> Prop := fun x => x = b.

Lemma flags_weaken hs he A (S1 S2 T1 T2 : Z -> Prop) :
  Flags hs he A S1 S2 ->
  (forall x, S1 x -> T1 x) -> (forall x, S2 x -> T2 x) ->
  Flags hs he A T1 T2.
Proof.
  intros [h1 h2 h3 h4 h5 h6] H1 H2. constructor; auto.
  - intros x e e' Hx Hn Hs. apply (h1 x e e' Hx Hn). auto.
  - intros x e e' Hx Hn Hs. apply (h2 x e e' Hx Hn). auto.
  - intros x e Hx Hn Hs. apply (h4 x e Hx Hn). auto.
  - intros x e Hx Hn Hs. apply (h5 x e Hx Hn). auto.
Qed.

Lemma flags_same_blocks hs he A A' S1 S2 :
  Flags hs he A S1 S2 ->
  blocks A' = blocks A -> emp A' = emp A -> epa A' = epa A ->
  Flags hs he A' S1 S2.
Proof.
  intros [h1 h2 h3 h4 h5 h6] Hb He Hp.
  constructor; rewrite ?Hb, ?He, ?Hp; auto.
Qed.

(** The size and allocation bit of the block at an address. *)
Definition cb (A : aheap) (x : Z) : option (Z * bool) :=
  (fun e => (bsz e, bal e)) <$> blocks A !! x.

Lemma cb_Some A x sz al :
  cb A x = Some (sz, al) <->
  exists e, blocks A !! x = Some e /\ bsz e = sz /\ bal e = al.
Proof.
  unfold cb. destruct (blocks A !! x) as [e|]; cbn; split.
  - intros [= <- <-]. eauto.
  - intros (e0 & [= <-] & <- & <-). reflexivity.
  - discriminate.
  - intros (e0 & H & _). discriminate.
Qed.

Lemma cb_of A x e : blocks A !! x = Some e -> cb A x = Some (bsz e, bal e).
Proof. intros H. unfold cb. rewrite H. reflexivity. Qed.

Lemma cb_None A x : cb A x = None <-> blocks A !! x = None.
Proof. unfold cb. destruct (blocks A !! x); cbn; split; congruence. Qed.

(** ** Flag propagation in the two views *)

(** The tiling of the arena by the blocks, as far as sizes go. *)
Record Shape (hs he : Z) (A : aheap) : Prop := mkShape {
  sh_pos : forall x e, blocks A !! x = Some e ->
             0 < bsz e /\ hs <= x /\ x + bsz e <= he;
  sh_next : forall x e, blocks A !! x = Some e ->
              x + bsz e = he \/ is_Some (blocks A !! (x + bsz e));
  sh_prev : forall x y z ey ez, blocks A !! y = Some ey ->
              blocks A !! z = Some ez ->
              y + bsz ey = x -> z + bsz ez = x -> y = z
}.

Lemma layout_shape s A : Layout s A -> Shape (heap_start s) (heap_end s) A.
Proof.
  intros HL. constructor.
  - intros x e Hx. pose proof (blk_bounds s A HL x e Hx).
    pose proof (lay_in s A HL x e Hx). lia.
  - intros x e Hx. apply (lay_next s A HL x e Hx).
  - intros x y z ey ez Hy Hz E1 E2.
    apply (blk_prev_unique s A HL x y z ey ez Hy Hz E1 E2).
Qed.

Lemma shape_cb hs he A A' :
  Shape hs he A -> (forall x, cb A' x = cb A x) -> Shape hs he A'.
Proof.
  intros [h1 h2 h3] Hc.
  assert (K : forall x e, blocks A' !! x = Some e ->
            exists e0, blocks A !! x = Some e0 /\ bsz e0 = bsz e).
  { intros x e Hx. pose proof (Hc x) as E. rewrite (cb_of A' x e Hx) in E.
    symmetry in E. apply cb_Some in E as (e0 & H0 & S0 & _). eauto. }
  constructor.
  - intros x e Hx. destruct (K x e Hx) as (e0 & H0 & S0).
    rewrite <- S0. apply (h1 x e0 H0).
  - intros x e Hx. destruct (K x e Hx) as (e0 & H0 & S0).
    rewrite <- S0. destruct (h2 x e0 H0) as [E|[en Hn]]; [left; exact E|right].
    pose proof (Hc (x + bsz e0)) as E. rewrite (cb_of A _ en Hn) in E.
    apply cb_Some in E as (e1 & H1 & _). eauto.
  - intros x y z ey ez Hy Hz E1 E2.
    destruct (K y ey Hy) as (ey0 & Hy0 & Sy).
    destruct (K z ez Hz) as (ez0 & Hz0 & Sz).
    apply (h3 x y z ey0 ez0 Hy0 Hz0); congruence.
Qed.

Section UpdNext.

Variables (hs he : Z) (A : aheap) (b : Z) (e : blk).
Hypothesis HL : Shape hs he A.
Hypothesis Hb : blocks A !! b = Some e.

Lemma upd_next_pa_cases :
  (exists en, blocks A !! (b + bsz e) = Some en /\
     upd_next_pa b A =
       set_block (b + bsz e) (mkBlk (bsz en) (bmp en) (bal e) (bal en)) A) \/
  (blocks A !! (b + bsz e) = None /\ b + bsz e = he /\
     upd_next_pa b A = set_epi (emp A) (bal e) A).
Proof.
  unfold upd_next_pa. rewrite Hb.
  destruct (blocks A !! (b + bsz e)) as [en|] eqn:Hn; [left; eauto|right].
  destruct (sh_next hs he A HL b e Hb) as [E|[en Hn']]; [auto|congruence].
Qed.

Lemma upd_next_mp_cases :
  (exists en, blocks A !! (b + bsz e) = Some en /\
     upd_next_mp b A =
       set_block (b + bsz e) (mkBlk (bsz en) (bsz e =? 16) (bpa en) (bal en)) A) \/
  (blocks A !! (b + bsz e) = None /\ b + bsz e = he /\
     upd_next_mp b A = set_epi (bsz e =? 16) (epa A) A).
Proof.
  unfold upd_next_mp. rewrite Hb.
  destruct (blocks A !! (b + bsz e)) as [en|] eqn:Hn; [left; eauto|right].
  destruct (sh_next hs he A HL b e Hb) as [E|[en Hn']]; [auto|congruence].
Qed.

Lemma cb_upd_next_pa x : cb (upd_next_pa b A) x = cb A x.
Proof.
  destruct upd_next_pa_cases as [(en & Hn & ->)|(_ & _ & ->)]; [|reflexivity].
  unfold cb. cbn [blocks set_block set_blocks].
  destruct (Z.eq_dec (b + bsz e) x) as [<-|N].
  - rewrite lookup_insert_eq, Hn. reflexivity.
  - rewrite lookup_insert_ne by exact N. reflexivity.
Qed.

Lemma cb_upd_next_mp x : cb (upd_next_mp b A) x = cb A x.
Proof.
  destruct upd_next_mp_cases as [(en & Hn & ->)|(_ & _ & ->)]; [|reflexivity].
  unfold cb. cbn [blocks set_block set_blocks].
  destruct (Z.eq_dec (b + bsz e) x) as [<-|N].
  - rewrite lookup_insert_eq, Hn. reflexivity.
  - rewrite lookup_insert_ne by exact N. reflexivity.
Qed.

Lemma lists_upd_next_pa :
  minis (upd_next_pa b A) = minis A /\ segs (upd_next_pa b A) = segs A.
Proof.
  destruct upd_next_pa_cases as [(en & Hn & ->)|(_ & _ & ->)]; split; reflexivity.
Qed.

Lemma lists_upd_next_mp :
  minis (upd_next_mp b A) = minis A /\ segs (upd_next_mp b A) = segs A.
Proof.
  destruct upd_next_mp_cases as [(en & Hn & ->)|(_ & _ & ->)]; split; reflexivity.
Qed.

End UpdNext.

Section UpdNextFlags.

Variables (hs he : Z) (A : aheap) (b : Z) (e : blk) (Spa Smp : Z -> Prop).
Hypothesis HL : Shape hs he A.
Hypothesis Hb : blocks A !! b = Some e.
Hypothesis HF : Flags hs he A Spa Smp.

Lemma flags_upd_next_pa :
  Flags hs he (upd_next_pa b A)
        (fun x => Spa x /\ x <> b) Smp.
Proof.
  destruct HF as [h1 h2 h3 h4 h5 h6].
  pose proof (sh_pos hs he A HL b e Hb) as Bb.
  destruct (upd_next_pa_cases hs he A b e HL Hb) as [(en & Hn & ->)|(Hn & Hend & ->)].
  - set (nb := b + bsz e) in *.
    set (en' := mkBlk (bsz en) (bmp en) (bal e) (bal en)).
    assert (Hlk : forall x ex, blocks (set_block nb en' A) !! x = Some ex ->
              exists e0, blocks A !! x = Some e0 /\ bsz e0 = bsz ex /\
                         bal e0 = bal ex /\ bmp e0 = bmp ex /\
                         (x <> nb -> e0 = ex) /\ (x = nb -> ex = en')).
    { intros x ex. cbn [blocks set_block set_blocks].
      destruct (Z.eq_dec nb x) as [<-|N].
      - rewrite lookup_insert_eq. intros [= <-]. exists en.
        repeat split; auto. congruence.
      - rewrite lookup_insert_ne by exact N. intros H. exists ex.
        repeat split; auto. congruence. }
    constructor.
    + intros x e1 e2 Hx Hnx Hs.
      destruct (Hlk _ _ Hx) as (e1' & H1 & S1 & A1 & _).
      destruct (Hlk _ _ Hnx) as (e2' & H2 & _ & _ & _ & N2 & E2).
      rewrite <- S1 in H2. rewrite <- A1.
      destruct (Z.eq_dec (x + bsz e1') nb) as [E|E].
      * assert (x = b) by (apply (sh_prev hs he A HL nb x b e1' e H1 Hb E eq_refl)).
        subst x. assert (e1' = e) by congruence. subst e1'.
        rewrite S1 in E. rewrite (E2 E). reflexivity.
      * rewrite S1 in E. rewrite <- (N2 E).
        apply (h1 x e1' e2' H1 H2). intros HS. apply Hs. split; [exact HS|].
        intros ->. assert (e1' = e) by congruence. subst e1'. apply E.
        rewrite <- S1. reflexivity.
    + intros x e1 e2 Hx Hnx Hs.
      destruct (Hlk _ _ Hx) as (e1' & H1 & S1 & A1 & _).
      destruct (Hlk _ _ Hnx) as (e2' & H2 & _ & _ & M2 & _).
      rewrite <- S1 in H2 |- *. rewrite <- M2.
      apply (h2 x e1' e2' H1 H2 Hs).
    + intros e1 Hx. destruct (Hlk _ _ Hx) as (e1' & H1 & _ & _ & _ & N & _).
      rewrite <- N; [apply (h3 e1' H1)|]. unfold nb. lia.
    + intros x e1 Hx Hend Hs. cbn [epa set_block set_blocks].
      destruct (Hlk _ _ Hx) as (e1' & H1 & S1 & A1 & _).
      rewrite <- A1. rewrite <- S1 in Hend. apply (h4 x e1' H1 Hend).
      intros HS. apply Hs. split; [exact HS|]. intros ->.
      assert (e1' = e) by congruence. subst e1'.
      pose proof (sh_pos hs he A HL _ en Hn). unfold nb in *. lia.
    + intros x e1 Hx Hend Hs. cbn [emp set_block set_blocks].
      destruct (Hlk _ _ Hx) as (e1' & H1 & S1 & A1 & _).
      rewrite <- S1 in Hend |- *. apply (h5 x e1' H1 Hend Hs).
    + exact h6.
  - constructor; cbn [blocks emp epa set_epi]; auto.
    + intros x e1 e2 Hx Hnx Hs. apply (h1 x e1 e2 Hx Hnx).
      intros HS. apply Hs. split; [exact HS|]. intros ->.
      assert (e1 = e) by congruence. subst e1. congruence.
    + intros x e1 Hx Hend' Hs.
      assert (x = b) by (apply (sh_prev hs he A HL he x b e1 e Hx Hb Hend' Hend)).
      subst x. congruence.
    + intros Hemp. lia.
Qed.

Lemma flags_upd_next_mp :
  Flags hs he (upd_next_mp b A)
        Spa (fun x => Smp x /\ x <> b).
Proof.
  destruct HF as [h1 h2 h3 h4 h5 h6].
  pose proof (sh_pos hs he A HL b e Hb) as Bb.
  destruct (upd_next_mp_cases hs he A b e HL Hb) as [(en & Hn & ->)|(Hn & Hend & ->)].
  - set (nb := b + bsz e) in *.
    set (en' := mkBlk (bsz en) (bsz e =? 16) (bpa en) (bal en)).
    assert (Hlk : forall x ex, blocks (set_block nb en' A) !! x = Some ex ->
              exists e0, blocks A !! x = Some e0 /\ bsz e0 = bsz ex /\
                         bal e0 = bal ex /\ bpa e0 = bpa ex /\
                         (x <> nb -> e0 = ex) /\ (x = nb -> ex = en')).
    { intros x ex. cbn [blocks set_block set_blocks].
      destruct (Z.eq_dec nb x) as [<-|N].
      - rewrite lookup_insert_eq. intros [= <-]. exists en.
        repeat split; auto. congruence.
      - rewrite lookup_insert_ne by exact N. intros H. exists ex.
        repeat split; auto. congruence. }
    constructor.
    + intros x e1 e2 Hx Hnx Hs.
      destruct (Hlk _ _ Hx) as (e1' & H1 & S1 & A1 & _).
      destruct (Hlk _ _ Hnx) as (e2' & H2 & _ & _ & M2 & _).
      rewrite <- S1 in H2. rewrite <- M2, <- A1.
      apply (h1 x e1' e2' H1 H2 Hs).
    + intros x e1 e2 Hx Hnx Hs.
      destruct (Hlk _ _ Hx) as (e1' & H1 & S1 & A1 & _).
      destruct (Hlk _ _ Hnx) as (e2' & H2 & _ & _ & _ & N2 & E2).
      rewrite <- S1 in H2. rewrite <- S1.
      destruct (Z.eq_dec (x + bsz e1') nb) as [E|E].
      * assert (x = b) by (apply (sh_prev hs he A HL nb x b e1' e H1 Hb E eq_refl)).
        subst x. assert (e1' = e) by congruence. subst e1'.
        rewrite S1 in E. rewrite (E2 E). reflexivity.
      * rewrite S1 in E. rewrite <- (N2 E).
        apply (h2 x e1' e2' H1 H2). intros HS. apply Hs. split; [exact HS|].
        intros ->. assert (e1' = e) by congruence. subst e1'. apply E.
        rewrite <- S1. reflexivity.
    + intros e1 Hx. destruct (Hlk _ _ Hx) as (e1' & H1 & _ & _ & P & _).
      rewrite <- P. apply (h3 e1' H1).
    + intros x e1 Hx Hend Hs. cbn [epa set_block set_blocks].
      destruct (Hlk _ _ Hx) as (e1' & H1 & S1 & A1 & _).
      rewrite <- A1. rewrite <- S1 in Hend. apply (h4 x e1' H1 Hend Hs).
    + intros x e1 Hx Hend Hs. cbn [emp set_block set_blocks].
      destruct (Hlk _ _ Hx) as (e1' & H1 & S1 & A1 & _).
      rewrite <- S1 in Hend |- *. apply (h5 x e1' H1 Hend).
      intros HS. apply Hs. split; [exact HS|]. intros ->.
      assert (e1' = e) by congruence. subst e1'.
      pose proof (sh_pos hs he A HL _ en Hn). unfold nb in *. lia.
    + exact h6.
  - constructor; cbn [blocks emp epa set_epi]; auto.
    + intros x e1 e2 Hx Hnx Hs. apply (h2 x e1 e2 Hx Hnx).
      intros HS. apply Hs. split; [exact HS|]. intros ->.
      assert (e1 = e) by congruence. subst e1. congruence.
    + intros x e1 Hx Hend' Hs.
      assert (x = b) by (apply (sh_prev hs he A HL he x b e1 e Hx Hb Hend' Hend)).
      subst x. congruence.
Qed.

End UpdNextFlags.

(** ** Rewriting a header in the two views *)

Lemma cb_set_block A y e' x :
  cb (set_block y e' A) x =
  if decide (x = y) then Some (bsz e', bal e') else cb A x.
Proof.
  unfold cb. cbn [blocks set_block set_blocks].
  destruct (decide (x = y)) as [->|N].
  - rewrite lookup_insert_eq. reflexivity.
  - rewrite lookup_insert_ne by congruence. reflexivity.
Qed.

(** Keeping size and own flags but changing the allocation bit makes the
    [palloc] bit of the successor stale. *)
Lemma flags_set_alloc hs he A b e al Spa Smp :
  blocks A !! b = Some e ->
  Flags hs he A Spa Smp ->
  Flags hs he (set_block b (mkBlk (bsz e) (bmp e) (bpa e) al) A)
        (fun x => Spa x \/ x = b) Smp.
Proof.
  intros Hb [h1 h2 h3 h4 h5 h6].
  set (e' := mkBlk (bsz e) (bmp e) (bpa e) al).
  assert (Hlk : forall x ex, blocks (set_block b e' A) !! x = Some ex ->
            exists e0, blocks A !! x = Some e0 /\ bsz e0 = bsz ex /\
                       bmp e0 = bmp ex /\ bpa e0 = bpa ex /\
                       (x <> b -> e0 = ex)).
  { intros x ex. cbn [blocks set_block set_blocks].
    destruct (Z.eq_dec b x) as [<-|N].
    - rewrite lookup_insert_eq. intros [= <-]. exists e.
      repeat split; auto. congruence.
    - rewrite lookup_insert_ne by exact N. intros H. exists ex.
      repeat split; auto. }
  constructor; cbn [emp epa set_block set_blocks].
  - intros x e1 e2 Hx Hnx Hs.
    destruct (Hlk _ _ Hx) as (e1' & H1 & S1 & _ & _ & N1).
    destruct (Hlk _ _ Hnx) as (e2' & H2 & _ & _ & P2 & _).
    rewrite <- S1 in H2. rewrite <- P2.
    assert (Hxb : x <> b) by (intros E; apply Hs; right; exact E).
    rewrite <- (N1 Hxb). apply (h1 x e1' e2' H1 H2). intros HS. apply Hs. auto.
  - intros x e1 e2 Hx Hnx Hs.
    destruct (Hlk _ _ Hx) as (e1' & H1 & S1 & _).
    destruct (Hlk _ _ Hnx) as (e2' & H2 & _ & M2 & _).
    rewrite <- S1 in H2. rewrite <- S1, <- M2. apply (h2 x e1' e2' H1 H2 Hs).
  - intros e1 Hx. destruct (Hlk _ _ Hx) as (e1' & H1 & _ & _ & P & _).
    rewrite <- P. apply (h3 e1' H1).
  - intros x e1 Hx Hend Hs.
    destruct (Hlk _ _ Hx) as (e1' & H1 & S1 & _ & _ & N1).
    assert (Hxb : x <> b) by (intros E; apply Hs; right; exact E).
    rewrite <- (N1 Hxb). rewrite <- S1 in Hend. apply (h4 x e1' H1 Hend).
    intros HS. apply Hs. auto.
  - intros x e1 Hx Hend Hs.
    destruct (Hlk _ _ Hx) as (e1' & H1 & S1 & _).
    rewrite <- S1 in Hend |- *. apply (h5 x e1' H1 Hend Hs).
  - exact h6.
Qed.

(** ** Merging in the two views *)

Lemma cb_absorb A p S e' x :
  cb (set_blocks (absorb_blocks p S e' (blocks A)) A) x =
  if decide (x = p) then Some (bsz e', bal e')
  else if decide (x < p \/ p + S <= x) then cb A x else None.
Proof.
  unfold cb. cbn [blocks set_blocks].
  destruct (absorb_blocks p S e' (blocks A) !! x) as [e|] eqn:E.
  - apply lookup_absorb in E as [[-> ->]|(N & Hx & Hk)].
    + rewrite decide_True by reflexivity. reflexivity.
    + rewrite decide_False by exact N. rewrite decide_True by exact Hk.
      rewrite Hx. reflexivity.
  - destruct (decide (x = p)) as [->|N].
    + unfold absorb_blocks in E. rewrite lookup_insert_eq in E. discriminate.
    + destruct (decide (x < p \/ p + S <= x)) as [Hk|Hk]; [|reflexivity].
      destruct (blocks A !! x) as [e0|] eqn:E0; [|reflexivity].
      assert (absorb_blocks p S e' (blocks A) !! x = Some e0)
        by (apply lookup_absorb; right; auto).
      congruence.
Qed.

Lemma flags_absorb hs he A p ep S Spa Smp :
  blocks A !! p = Some ep ->
  Flags hs he A Spa Smp ->
  Flags hs he
    (set_blocks (absorb_blocks p S (mkBlk S (bmp ep) (bpa ep) false) (blocks A)) A)
    (fun x => Spa x \/ x = p) (fun x => Smp x \/ x = p).
Proof.
  intros Hp [h1 h2 h3 h4 h5 h6].
  set (e' := mkBlk S (bmp ep) (bpa ep) false).
  constructor; cbn [blocks emp epa set_blocks].
  - intros x e1 e2 Hx Hnx Hs.
    apply lookup_absorb in Hx as [[-> _]|(N & Hx & _)]; [exfalso; apply Hs; auto|].
    apply lookup_absorb in Hnx as [[E ->]|(_ & Hnx & _)].
    + cbn [bpa]. apply (h1 x e1 ep Hx); [rewrite E; exact Hp|]. intros HS. apply Hs. auto.
    + apply (h1 x e1 e2 Hx Hnx). intros HS. apply Hs. auto.
  - intros x e1 e2 Hx Hnx Hs.
    apply lookup_absorb in Hx as [[-> _]|(N & Hx & _)]; [exfalso; apply Hs; auto|].
    apply lookup_absorb in Hnx as [[E ->]|(_ & Hnx & _)].
    + cbn [bmp]. apply (h2 x e1 ep Hx); [rewrite E; exact Hp|]. intros HS. apply Hs. auto.
    + apply (h2 x e1 e2 Hx Hnx). intros HS. apply Hs. auto.
  - intros e1 Hx. apply lookup_absorb in Hx as [[E ->]|(_ & Hx & _)].
    + cbn [bpa]. apply (h3 ep). rewrite E. exact Hp.
    + apply (h3 e1 Hx).
  - intros x e1 Hx Hend Hs.
    apply lookup_absorb in Hx as [[-> _]|(N & Hx & _)]; [exfalso; apply Hs; auto|].
    apply (h4 x e1 Hx Hend). intros HS. apply Hs. auto.
  - intros x e1 Hx Hend Hs.
    apply lookup_absorb in Hx as [[-> _]|(N & Hx & _)]; [exfalso; apply Hs; auto|].
    apply (h5 x e1 Hx Hend). intros HS. apply Hs. auto.
  - exact h6.
Qed.

Definition merge_heap (p S : Z) (mp pa : bool) (A : aheap) : aheap :=
  set_blocks (absorb_blocks p S (mkBlk S mp pa false) (blocks A)) A.

Definition split_heap (b asize rem : Z) (mp pa mp2 pa2 : bool) (A : aheap)
  : aheap :=
  set_blocks (<[b + asize := mkBlk rem mp2 pa2 false]>
                (<[b := mkBlk asize mp pa true]> (blocks A))) A.

Definition grow_heap (he size : Z) (mp pa : bool) (A : aheap) : aheap :=
  set_epi (size =? 16) false (set_block he (mkBlk size mp pa false) A).

(** ** Splitting in the two views *)

Section SplitViews.

Variables (s : state) (A : aheap) (b : Z) (eb : blk) (asize : Z).
Hypothesis HR : Rep s A.
Hypothesis Hb : blocks A !! b = Some eb.
Hypothesis Ha1 : 16 <= asize.
Hypothesis Ha3 : asize + 16 <= bsz eb.

Let A' : aheap :=
  split_heap b asize (bsz eb - asize) (bmp eb) (bpa eb) (asize =? 16) true A.

Lemma cb_split x :
  cb A' x =
  if decide (x = b + asize) then Some (bsz eb - asize, false)
  else if decide (x = b) then Some (asize, true) else cb A x.
Proof.
  unfold cb, A', split_heap. cbn [blocks set_blocks].
  destruct (decide (x = b + asize)) as [->|N1].
  - rewrite lookup_insert_eq. reflexivity.
  - rewrite lookup_insert_ne by congruence.
    destruct (decide (x = b)) as [->|N2].
    + rewrite lookup_insert_eq. reflexivity.
    + rewrite lookup_insert_ne by congruence. reflexivity.
Qed.

Lemma flags_split Spa Smp :
  Flags (heap_start s) (heap_end s) A Spa Smp ->
  Flags (heap_start s) (heap_end s) A'
        (fun x => (Spa x /\ x <> b) \/ x = b + asize)
        (fun x => (Smp x /\ x <> b) \/ x = b + asize).
Proof.
  intros [h1 h2 h3 h4 h5 h6]. pose proof HR as [HL _].
  pose proof (blk_bounds s A HL b eb Hb) as Bb.
  assert (Hlk := lookup_split A b eb asize (bmp eb) (bpa eb) (asize =? 16) true Ha1).
  fold (split_heap b asize (bsz eb - asize) (bmp eb) (bpa eb) (asize =? 16) true A) in Hlk.
  fold A' in Hlk.
  assert (Hno : forall x e, blocks A !! x = Some e -> x <> b ->
                  x + bsz e <> b + asize).
  { intros x e Hx N E. pose proof (blk_bounds s A HL x e Hx).
    destruct (split_outside s A b eb HR Hb x e Hx N); lia. }
  constructor; cbn [emp epa].
  - intros x e1 e2 Hx Hnx Hs.
    apply Hlk in Hx as [[-> _]|[[-> ->]|(N1 & N2 & Hx)]].
    + exfalso. apply Hs. auto.
    + cbn [bsz bal] in *. apply Hlk in Hnx as [[_ ->]|[[E _]|(_ & N & _)]];
        [reflexivity|lia|congruence].
    + apply Hlk in Hnx as [[E _]|[[E ->]|(_ & _ & Hnx)]].
      * exfalso. exact (Hno x e1 Hx N1 E).
      * cbn [bpa]. apply (h1 x e1 eb Hx); [rewrite E; exact Hb|].
        intros HS. apply Hs. auto.
      * apply (h1 x e1 e2 Hx Hnx). intros HS. apply Hs. auto.
  - intros x e1 e2 Hx Hnx Hs.
    apply Hlk in Hx as [[-> _]|[[-> ->]|(N1 & N2 & Hx)]].
    + exfalso. apply Hs. auto.
    + cbn [bsz bal] in *. apply Hlk in Hnx as [[_ ->]|[[E _]|(_ & N & _)]];
        [reflexivity|lia|congruence].
    + apply Hlk in Hnx as [[E _]|[[E ->]|(_ & _ & Hnx)]].
      * exfalso. exact (Hno x e1 Hx N1 E).
      * cbn [bmp]. apply (h2 x e1 eb Hx); [rewrite E; exact Hb|].
        intros HS. apply Hs. auto.
      * apply (h2 x e1 e2 Hx Hnx). intros HS. apply Hs. auto.
  - intros e1 Hx. apply Hlk in Hx as [[E _]|[[E ->]|(_ & _ & Hx)]].
    + pose proof (lay_in s A HL b eb Hb). lia.
    + cbn [bpa]. apply (h3 eb). rewrite E. exact Hb.
    + apply (h3 e1 Hx).
  - intros x e1 Hx Hend Hs.
    apply Hlk in Hx as [[-> _]|[[-> ->]|(N1 & N2 & Hx)]].
    + exfalso. apply Hs. auto.
    + cbn [bsz] in Hend. lia.
    + apply (h4 x e1 Hx Hend). intros HS. apply Hs. auto.
  - intros x e1 Hx Hend Hs.
    apply Hlk in Hx as [[-> _]|[[-> ->]|(N1 & N2 & Hx)]].
    + exfalso. apply Hs. auto.
    + cbn [bsz] in Hend. lia.
    + apply (h5 x e1 Hx Hend). intros HS. apply Hs. auto.
  - exact h6.
Qed.

End SplitViews.

(** ** Growing in the two views *)

Section GrowViews.

Variables (s : state) (A : aheap) (size : Z).
Hypothesis HR : Rep s A.
Hypothesis Hs1 : 32 <= size.

Let he : Z := heap_end s.
Let A' : aheap := grow_heap he size (emp A) (epa A) A.

Lemma cb_grow x :
  cb A' x = if decide (x = he) then Some (size, false) else cb A x.
Proof.
  unfold cb, A', grow_heap. cbn [blocks set_epi set_block set_blocks].
  destruct (decide (x = he)) as [->|N].
  - rewrite lookup_insert_eq. reflexivity.
  - rewrite lookup_insert_ne by congruence. reflexivity.
Qed.

Lemma flags_grow Spa Smp :
  Flags (heap_start s) he A Spa Smp ->
  Flags (heap_start s) (he + size) A' Spa Smp.
Proof.
  intros [h1 h2 h3 h4 h5 h6]. pose proof HR as [HL _].
  assert (Hlk := lookup_extend s A size (emp A) (epa A)).
  fold he in Hlk. fold (grow_heap he size (emp A) (epa A) A) in Hlk. fold A' in Hlk.
  assert (Hin : forall x e, blocks A !! x = Some e -> x + bsz e <= he /\ 16 <= bsz e).
  { intros x e Hx. pose proof (blk_bounds s A HL x e Hx). unfold he. lia. }
  pose proof (lay_start s A HL) as Hst. fold he in Hst.
  constructor; cbn [emp epa A' grow_heap set_epi].
  - intros x e1 e2 Hx Hnx Hs.
    apply Hlk in Hx as [[-> ->]|(N & Hx)].
    + cbn [bsz] in Hnx. apply Hlk in Hnx as [[E _]|(_ & Hnx)]; [lia|].
      destruct (Hin _ _ Hnx). lia.
    + apply Hlk in Hnx as [[E ->]|(_ & Hnx)].
      * cbn [bpa]. apply (h4 x e1 Hx E Hs).
      * apply (h1 x e1 e2 Hx Hnx Hs).
  - intros x e1 e2 Hx Hnx Hs.
    apply Hlk in Hx as [[-> ->]|(N & Hx)].
    + cbn [bsz] in Hnx. apply Hlk in Hnx as [[E _]|(_ & Hnx)]; [lia|].
      destruct (Hin _ _ Hnx). lia.
    + apply Hlk in Hnx as [[E ->]|(_ & Hnx)].
      * cbn [bmp]. apply (h5 x e1 Hx E Hs).
      * apply (h2 x e1 e2 Hx Hnx Hs).
  - intros e1 Hx. apply Hlk in Hx as [[E ->]|(_ & Hx)].
    + cbn [bpa]. apply h6. exact E.
    + apply (h3 e1 Hx).
  - intros x e1 Hx Hend Hs.
    apply Hlk in Hx as [[-> ->]|(N & Hx)]; [reflexivity|].
    destruct (Hin _ _ Hx). lia.
  - intros x e1 Hx Hend Hs.
    apply Hlk in Hx as [[-> ->]|(N & Hx)]; [reflexivity|].
    destruct (Hin _ _ Hx). lia.
  - intros E. lia.
Qed.

End GrowViews.

(** * The invariant in the two views *)

(** Membership of address [x], as a block of size [sz], in the free list
    for that size. *)
Definition inlist (A : aheap) (x sz : Z) : Prop :=
  if sz =? 16 then In x (minis A) else In x (segs A (home_address sz)).

Definition NoAdj (A : aheap) : Prop :=
  forall x sz al sz' al', cb A x = Some (sz, al) ->
    cb A (x + sz) = Some (sz', al') -> al = true \/ al' = true.

Definition ListedOk (A : aheap) : Prop :=
  forall x sz al, cb A x = Some (sz, al) -> (al = false <-> inlist A x sz).

Lemma good_views hs he A :
  Flags hs he A none none -> NoAdj A -> ListedOk A -> Good hs he A.
Proof.
  intros [h1 h2 h3 h4 h5 h6] HN HLs. constructor.
  - intros x e e' Hx Hn. split; [apply (h1 x e e' Hx Hn)|apply (h2 x e e' Hx Hn)];
      intros [].
  - exact h3.
  - intros x e Hx He. split; [apply (h4 x e Hx He)|apply (h5 x e Hx He)];
      intros [].
  - exact h6.
  - intros x e e' Hx Hn.
    apply (HN x (bsz e) (bal e) (bsz e') (bal e')); apply cb_of; assumption.
  - intros x e Hx. apply (HLs x (bsz e) (bal e)). apply cb_of. exact Hx.
Qed.

Lemma good_flags hs he A : Good hs he A -> Flags hs he A none none.
Proof.
  intros [h1 h2 h3 h4 h5 h6]. constructor; auto.
  - intros x e e' Hx Hn _. apply (h1 x e e' Hx Hn).
  - intros x e e' Hx Hn _. apply (h1 x e e' Hx Hn).
  - intros x e Hx He _. apply (h3 x e Hx He).
  - intros x e Hx He _. apply (h3 x e Hx He).
Qed.

Lemma good_noadj hs he A : Good hs he A -> NoAdj A.
Proof.
  intros HG x sz al sz' al' Hx Hn.
  apply cb_Some in Hx as (e & Hx & <- & <-).
  apply cb_Some in Hn as (e' & Hn & <- & <-).
  apply (g_noadj hs he A HG x e e' Hx Hn).
Qed.

Lemma good_listed hs he A : Good hs he A -> ListedOk A.
Proof.
  intros HG x sz al Hx. apply cb_Some in Hx as (e & Hx & <- & <-).
  apply (g_listed hs he A HG x e Hx).
Qed.

(** Held words, by the views. *)
Lemma held_cb A a :
  held A a <->
  exists x sz, cb A x = Some (sz, true) /\ ~ inlist A x sz /\ x < a < x + sz.
Proof.
  unfold held. split.
  - intros (x & e & Hx & Hal & Hnl & Hin). exists x, (bsz e).
    rewrite (cb_of A x e Hx), Hal. auto.
  - intros (x & sz & Hc & Hnl & Hin). apply cb_Some in Hc as (e & Hx & <- & Hal).
    exists x, e. auto.
Qed.

Lemma held_mono A A' a :
  (forall x sz, cb A x = Some (sz, true) -> ~ inlist A x sz ->
     cb A' x = Some (sz, true) /\ ~ inlist A' x sz) ->
  held A a -> held A' a.
Proof.
  intros H. rewrite !held_cb. intros (x & sz & Hc & Hnl & Hin).
  destruct (H x sz Hc Hnl). exists x, sz. auto.
Qed.

(** In a heap that is in order the held words are the ones inside the
    allocated blocks. *)
Lemma good_held hs he A a :
  Good hs he A ->
  (held A a <->
   exists x e, blocks A !! x = Some e /\ bal e = true /\ x < a < x + bsz e).
Proof.
  intros HG. split.
  - intros (x & e & Hx & Hal & _ & Hin). eauto.
  - intros (x & e & Hx & Hal & Hin). exists x, e. repeat split; auto; try lia.
    intros Hl. apply (g_listed _ _ _ HG x e Hx) in Hl. congruence.
Qed.

(** Stale sets only matter on blocks. *)
Lemma flags_weaken_blk hs he A (S1 S2 T1 T2 : Z -> Prop) :
  Flags hs he A S1 S2 ->
  (forall x e, blocks A !! x = Some e -> S1 x -> T1 x) ->
  (forall x e, blocks A !! x = Some e -> S2 x -> T2 x) ->
  Flags hs he A T1 T2.
Proof.
  intros [h1 h2 h3 h4 h5 h6] H1 H2. constructor; auto.
  - intros x e e' Hx Hn Hs. apply (h1 x e e' Hx Hn). intros HS. apply Hs.
    apply (H1 x e Hx HS).
  - intros x e e' Hx Hn Hs. apply (h2 x e e' Hx Hn). intros HS. apply Hs.
    apply (H2 x e Hx HS).
  - intros x e Hx He Hs. apply (h4 x e Hx He). intros HS. apply Hs.
    apply (H1 x e Hx HS).
  - intros x e Hx He Hs. apply (h5 x e Hx He). intros HS. apply Hs.
    apply (H2 x e Hx HS).
Qed.

(** ** Flag propagation in the two views, without a state *)

Lemma cb_upd_pa b A x : cb (upd_next_pa b A) x = cb A x.
Proof.
  unfold upd_next_pa. destruct (blocks A !! b) as [e|] eqn:Hb; [|reflexivity].
  destruct (blocks A !! (b + bsz e)) as [en|] eqn:Hn; [|reflexivity].
  unfold cb. cbn [blocks set_block set_blocks].
  destruct (Z.eq_dec (b + bsz e) x) as [<-|N].
  - rewrite lookup_insert_eq, Hn. reflexivity.
  - rewrite lookup_insert_ne by exact N. reflexivity.
Qed.

Lemma cb_upd_mp b A x : cb (upd_next_mp b A) x = cb A x.
Proof.
  unfold upd_next_mp. destruct (blocks A !! b) as [e|] eqn:Hb; [|reflexivity].
  destruct (blocks A !! (b + bsz e)) as [en|] eqn:Hn; [|reflexivity].
  unfold cb. cbn [blocks set_block set_blocks].
  destruct (Z.eq_dec (b + bsz e) x) as [<-|N].
  - rewrite lookup_insert_eq, Hn. reflexivity.
  - rewrite lookup_insert_ne by exact N. reflexivity.
Qed.

Lemma minis_upd_pa b A : minis (upd_next_pa b A) = minis A.
Proof.
  unfold upd_next_pa. destruct (blocks A !! b) as [e|]; [|reflexivity].
  destruct (blocks A !! (b + bsz e)); reflexivity.
Qed.

Lemma segs_upd_pa b A : segs (upd_next_pa b A) = segs A.
Proof.
  unfold upd_next_pa. destruct (blocks A !! b) as [e|]; [|reflexivity].
  destruct (blocks A !! (b + bsz e)); reflexivity.
Qed.

Lemma minis_upd_mp b A : minis (upd_next_mp b A) = minis A.
Proof.
  unfold upd_next_mp. destruct (blocks A !! b) as [e|]; [|reflexivity].
  destruct (blocks A !! (b + bsz e)); reflexivity.
Qed.

Lemma segs_upd_mp b A : segs (upd_next_mp b A) = segs A.
Proof.
  unfold upd_next_mp. destruct (blocks A !! b) as [e|]; [|reflexivity].
  destruct (blocks A !! (b + bsz e)); reflexivity.
Qed.

Lemma inlist_upd_pa b A x sz : inlist (upd_next_pa b A) x sz <-> inlist A x sz.
Proof. unfold inlist. rewrite minis_upd_pa, segs_upd_pa. reflexivity. Qed.

Lemma inlist_upd_mp b A x sz : inlist (upd_next_mp b A) x sz <-> inlist A x sz.
Proof. unfold inlist. rewrite minis_upd_mp, segs_upd_mp. reflexivity. Qed.

Lemma blocks_upd_pa_other b A x :
  (forall e, blocks A !! b = Some e -> x <> b + bsz e) ->
  blocks (upd_next_pa b A) !! x = blocks A !! x.
Proof.
  intros H. unfold upd_next_pa.
  destruct (blocks A !! b) as [e|] eqn:Hb; [|reflexivity].
  destruct (blocks A !! (b + bsz e)) as [en|] eqn:Hn; [|reflexivity].
  cbn [blocks set_block set_blocks]. apply lookup_insert_ne.
  intros E. apply (H e eq_refl). congruence.
Qed.

Lemma blocks_upd_mp_other b A x :
  (forall e, blocks A !! b = Some e -> x <> b + bsz e) ->
  blocks (upd_next_mp b A) !! x = blocks A !! x.
Proof.
  intros H. unfold upd_next_mp.
  destruct (blocks A !! b) as [e|] eqn:Hb; [|reflexivity].
  destruct (blocks A !! (b + bsz e)) as [en|] eqn:Hn; [|reflexivity].
  cbn [blocks set_block set_blocks]. apply lookup_insert_ne.
  intros E. apply (H e eq_refl). congruence.
Qed.

(** Both propagations together keep the flags that were right and repair
    the ones after [b]. *)
Lemma flags_upd_both hs he A b e Spa Smp :
  Shape hs he A -> blocks A !! b = Some e -> Flags hs he A Spa Smp ->
  Flags hs he (upd_next_mp b (upd_next_pa b A))
        (fun x => Spa x /\ x <> b) (fun x => Smp x /\ x <> b).
Proof.
  intros HSh Hb HF.
  pose proof (flags_upd_next_pa hs he A b e Spa Smp HSh Hb HF) as H1.
  assert (HSh' : Shape hs he (upd_next_pa b A)).
  { apply (shape_cb hs he A); [exact HSh|]. intros x. apply cb_upd_pa. }
  assert (exists e', blocks (upd_next_pa b A) !! b = Some e') as [e' Hb'].
  { pose proof (cb_upd_pa b A b) as E. rewrite (cb_of A b e Hb) in E.
    apply cb_Some in E as (e' & H' & _). eauto. }
  apply (flags_upd_next_mp hs he _ b e' _ _ HSh' Hb' H1).
Qed.

Lemma flags_upd_both' hs he A b e Spa Smp :
  Shape hs he A -> blocks A !! b = Some e -> Flags hs he A Spa Smp ->
  Flags hs he (upd_next_pa b (upd_next_mp b A))
        (fun x => Spa x /\ x <> b) (fun x => Smp x /\ x <> b).
Proof.
  intros HSh Hb HF.
  pose proof (flags_upd_next_mp hs he A b e Spa Smp HSh Hb HF) as H1.
  assert (HSh' : Shape hs he (upd_next_mp b A)).
  { apply (shape_cb hs he A); [exact HSh|]. intros x. apply cb_upd_mp. }
  assert (exists e', blocks (upd_next_mp b A) !! b = Some e') as [e' Hb'].
  { pose proof (cb_upd_mp b A b) as E. rewrite (cb_of A b e Hb) in E.
    apply cb_Some in E as (e' & H' & _). eauto. }
  apply (flags_upd_next_pa hs he _ b e' _ _ HSh' Hb' H1).
Qed.

(** ** List insertion and removal in the two views *)

Section VagueViews.

Variables (s : state) (A : aheap) (b : Z) (e : blk).
Hypothesis HR : Rep s A.
Hypothesis Hb : blocks A !! b = Some e.

Let hs : Z := heap_start s.
Let he : Z := heap_end s.

Lemma cb_ins_heap x : cb (ins_heap b e A) x = cb A x.
Proof.
  unfold ins_heap. destruct (bsz e =? 16); [|reflexivity].
  rewrite cb_upd_mp, cb_upd_pa. reflexivity.
Qed.

Lemma cb_rm_heap x : cb (rm_heap b e A) x = cb A x.
Proof.
  unfold rm_heap, rm_mini_heap. destruct (bsz e =? 16); [|reflexivity].
  destruct (hd NULL (minis A) =? b); [|reflexivity].
  rewrite cb_upd_mp, cb_upd_pa. reflexivity.
Qed.

Lemma blocks_ins_other x :
  x <> b + bsz e -> blocks (ins_heap b e A) !! x = blocks A !! x.
Proof.
  intros N. unfold ins_heap. destruct (bsz e =? 16); [|reflexivity].
  rewrite blocks_upd_mp_other.
  - rewrite blocks_upd_pa_other; [reflexivity|].
    cbn [blocks set_minis]. intros e0 E0. congruence.
  - intros e0 E0. pose proof (cb_upd_pa b (set_minis (b :: minis A) A) b) as E.
    rewrite (cb_of _ _ _ E0) in E. unfold cb in E. cbn [blocks set_minis] in E.
    rewrite Hb in E. cbn in E. congruence.
Qed.

Lemma blocks_rm_other x :
  x <> b + bsz e -> blocks (rm_heap b e A) !! x = blocks A !! x.
Proof.
  intros N. unfold rm_heap, rm_mini_heap. destruct (bsz e =? 16); [|reflexivity].
  destruct (hd NULL (minis A) =? b); [|reflexivity].
  set (A1 := set_minis _ A).
  rewrite blocks_upd_mp_other.
  - rewrite blocks_upd_pa_other; [reflexivity|].
    cbn [blocks set_minis A1]. intros e0 E0. congruence.
  - intros e0 E0. pose proof (cb_upd_pa b A1 b) as E.
    rewrite (cb_of _ _ _ E0) in E. unfold cb in E. cbn [blocks set_minis A1] in E.
    rewrite Hb in E. cbn in E. congruence.
Qed.

Lemma flags_set_minis_upd l Spa Smp :
  Flags hs he A Spa Smp ->
  Flags hs he (upd_next_mp b (upd_next_pa b (set_minis l A))) Spa Smp.
Proof.
  intros HF. destruct HR as [HL _].
  assert (HSh : Shape hs he (set_minis l A)).
  { apply (shape_cb hs he A); [apply layout_shape; exact HL|reflexivity]. }
  assert (HF1 : Flags hs he (set_minis l A) Spa Smp).
  { apply (flags_same_blocks hs he A); auto. }
  apply (flags_weaken hs he _ _ _ _ _
           (flags_upd_both hs he _ b e Spa Smp HSh Hb HF1)); tauto.
Qed.

Lemma flags_ins_heap Spa Smp :
  Flags hs he A Spa Smp -> Flags hs he (ins_heap b e A) Spa Smp.
Proof.
  intros HF. unfold ins_heap. destruct (bsz e =? 16).
  - apply flags_set_minis_upd. exact HF.
  - apply (flags_same_blocks hs he A); auto.
Qed.

Lemma flags_rm_heap Spa Smp :
  Flags hs he A Spa Smp -> Flags hs he (rm_heap b e A) Spa Smp.
Proof.
  intros HF. unfold rm_heap, rm_mini_heap. destruct (bsz e =? 16).
  - destruct (hd NULL (minis A) =? b).
    + apply flags_set_minis_upd. exact HF.
    + apply (flags_same_blocks hs he A); auto.
  - apply (flags_same_blocks hs he A); auto.
Qed.

Lemma inlist_ins_other x sz :
  x <> b -> (inlist (ins_heap b e A) x sz <-> inlist A x sz).
Proof.
  intros N. unfold ins_heap. destruct (bsz e =? 16).
  - rewrite inlist_upd_mp, inlist_upd_pa. unfold inlist. cbn [minis segs set_minis].
    destruct (sz =? 16); [|reflexivity]. cbn [In]. split; [intros [E|H]|]; auto.
    congruence.
  - unfold inlist. cbn [minis segs set_seg].
    destruct (sz =? 16); [reflexivity|].
    destruct (home_address sz =? home_address (bsz e)) eqn:E; [|reflexivity].
    apply Z.eqb_eq in E. rewrite E. cbn [In]. split; [intros [E'|H]|]; auto.
    congruence.
Qed.

Lemma inlist_ins_self : inlist (ins_heap b e A) b (bsz e).
Proof.
  unfold ins_heap. destruct (bsz e =? 16) eqn:E.
  - rewrite inlist_upd_mp, inlist_upd_pa. unfold inlist. rewrite E.
    cbn [minis set_minis]. left. reflexivity.
  - unfold inlist. rewrite E. cbn [segs set_seg]. rewrite Z.eqb_refl.
    left. reflexivity.
Qed.

Lemma minis_rm_mini_heap :
  minis (rm_mini_heap A b) = List.remove Z.eq_dec b (minis A).
Proof.
  unfold rm_mini_heap. destruct (hd NULL (minis A) =? b); [|reflexivity].
  rewrite minis_upd_mp, minis_upd_pa. reflexivity.
Qed.

Lemma segs_rm_mini_heap : segs (rm_mini_heap A b) = segs A.
Proof.
  unfold rm_mini_heap. destruct (hd NULL (minis A) =? b); [|reflexivity].
  rewrite segs_upd_mp, segs_upd_pa. reflexivity.
Qed.

Lemma in_remove_other (l : list Z) x :
  x <> b -> (In x (List.remove Z.eq_dec b l) <-> In x l).
Proof.
  intros N. split.
  - intros H. apply List.in_remove in H. tauto.
  - intros H. apply List.in_in_remove; auto.
Qed.

Lemma inlist_rm_other x sz :
  x <> b -> (inlist (rm_heap b e A) x sz <-> inlist A x sz).
Proof.
  intros N. unfold rm_heap. destruct (bsz e =? 16).
  - unfold inlist. rewrite minis_rm_mini_heap, segs_rm_mini_heap.
    destruct (sz =? 16); [|reflexivity]. apply in_remove_other. exact N.
  - unfold inlist. cbn [minis segs set_seg].
    destruct (sz =? 16); [reflexivity|].
    destruct (home_address sz =? home_address (bsz e)) eqn:E; [|reflexivity].
    apply Z.eqb_eq in E. rewrite E. apply in_remove_other. exact N.
Qed.

Lemma inlist_rm_self sz : sz = 16 \/ 32 <= sz -> ~ inlist (rm_heap b e A) b sz.
Proof.
  intros Hsz. destruct HR as [HL HS]. unfold rm_heap.
  destruct (Z.eqb_spec (bsz e) 16) as [E|E].
  - unfold inlist. rewrite minis_rm_mini_heap, segs_rm_mini_heap.
    destruct (Z.eqb_spec sz 16) as [E'|E'].
    + apply List.remove_In.
    + intros H.
      destruct (lst_seg_blk s A HS (home_address sz) b) as (e0 & H0 & S0 & _);
        [apply home_address_range; lia|exact H|]. congruence.
  - unfold inlist. cbn [minis segs set_seg].
    destruct (Z.eqb_spec sz 16) as [E'|E'].
    + intros H. destruct (lst_mini_blk s A HS b H) as (e0 & H0 & S0). congruence.
    + destruct (Z.eqb_spec (home_address sz) (home_address (bsz e))) as [E2|E2].
      * apply List.remove_In.
      * intros H.
        destruct (lst_seg_blk s A HS (home_address sz) b) as (e0 & H0 & S0 & H1);
          [apply home_address_range; lia|exact H|].
        assert (e0 = e) by congruence. subst e0. congruence.
Qed.

End VagueViews.

(** * Fit search *)

Section FindFit.

Variables (s : state) (A : aheap) (asize : Z).
Hypothesis HR : Rep s A.

(** What the search may return: nothing, or a listed block that is large
    enough. *)
Definition fit_ok (r : Z) : Prop :=
  r = NULL \/
  exists e, blocks A !! r = Some e /\ asize <= bsz e /\ listed A r e.

Lemma find_fit_bucket_spec i fuel :
  0 <= i < 14 ->
  forall l pv cur st,
    dll (mem s) pv cur l ->
    (forall x, In x l -> In x (segs A i)) ->
    (length l < fuel)%nat ->
    fit_ok (best_block st) ->
    wp (find_fit_bucket fuel asize cur st)
       (fun r s' => s' = s /\ fit_ok (best_block (snd r))) s.
Proof.
  intros Hi. destruct HR as [HL HS].
  induction fuel as [|fuel IH]; intros l pv cur st Hd Hsub Hlen Hok; [cbn in Hlen; lia|].
  cbn [find_fit_bucket]. destruct l as [|x l].
  - cbn in Hd. subst cur. cbn. auto.
  - cbn [dll] in Hd. destruct Hd as (-> & Hx & _ & Hd).
    rewrite (proj2 (Z.eqb_neq x NULL) Hx).
    destruct (lst_seg_blk s A HS i x Hi (Hsub x (or_introl eq_refl)))
      as (e & He & Hne & Hh).
    pose proof (blk_bounds s A HL x e He) as Bx.
    apply wp_bind, wp_get_size. rewrite (blk_size_at s A HL x e He).
    rewrite (proj2 (Z.ltb_lt 0 (bsz e))) by lia. cbn [negb].
    assert (Hcur : fit_ok x \/ bsz e < asize).
    { destruct (Z.le_gt_cases asize (bsz e)); [left|right; lia].
      right. exists e. repeat split; auto. unfold listed.
      rewrite (proj2 (Z.eqb_neq _ _) Hne), Hh. apply Hsub. left. reflexivity. }
    assert (K : forall st1, fit_ok (best_block st1) ->
      wp (let st2 := if count_switch st1
                     then mkFit true (counter st1 - 1) (best_block st1) (best_gap st1)
                     else st1 in
          if count_switch st1 && (counter st2 =? 0) then ret (true, st2)
          else let* cur_next := load (x + off_next) in
               find_fit_bucket fuel asize cur_next st2)
         (fun r s' => s' = s /\ fit_ok (best_block (snd r))) s).
    { intros st1 H1. cbv zeta.
      set (st2 := if count_switch st1 then _ else st1).
      assert (H2 : fit_ok (best_block st2)).
      { unfold st2. destruct (count_switch st1); exact H1. }
      destruct (count_switch st1 && (counter st2 =? 0)).
      - apply wp_ret. split; auto.
      - apply wp_bind, wp_load. unfold load_word.
        apply (IH l x _ st2 Hd); auto.
        + intros y Hy. apply Hsub. right. exact Hy.
        + cbn in Hlen. lia. }
    destruct (Z.leb_spec asize (bsz e)) as [Hle|Hgt].
    + destruct (best_block st =? NULL).
      * apply wp_bind, wp_bind, wp_get_size. apply wp_ret. apply K. cbn.
        destruct Hcur as [H|H]; [exact H|lia].
      * destruct (wrap (bsz e - asize) <? best_gap st).
        -- apply wp_bind, wp_ret. apply K. cbn.
           destruct Hcur as [H|H]; [exact H|lia].
        -- apply wp_bind, wp_ret. apply K. exact Hok.
    + apply wp_bind, wp_ret. apply K. exact Hok.
Qed.

Lemma find_fit_from_spec fuel n :
  (forall i, 0 <= i < 14 -> (length (segs A i) < fuel)%nat) ->
  forall i st, 0 <= i -> i + Z.of_nat n <= 14 ->
    fit_ok (best_block st) ->
    wp (find_fit_from n fuel asize i st) (fun r s' => s' = s /\ fit_ok r) s.
Proof.
  intros Hf. pose proof HR as [HL HS].
  induction n as [|n IH]; intros i st Hi Hn Hok.
  - cbn. auto.
  - cbn [find_fit_from]. apply wp_bind, wp_seg_read. apply wp_bind.
    assert (Hi' : 0 <= i < 14) by lia.
    eapply wp_mono.
    + apply (find_fit_bucket_spec i fuel Hi' (segs A i) NULL _ st); auto.
      apply (lst_seg s A HS i Hi').
    + intros [fl st'] s' [-> Hok']. cbn [fst snd] in *.
      destruct fl; [apply wp_ret; auto|].
      destruct (best_block st' =? NULL); cbn [negb]; [|apply wp_ret; auto].
      apply IH; auto; lia.
Qed.

Lemma find_fit_spec fuel idx :
  (forall i, 0 <= i < 14 -> (length (segs A i) < fuel)%nat) ->
  0 <= idx < 14 ->
  wp (find_fit fuel asize idx) (fun r s' => s' = s /\ fit_ok r) s.
Proof.
  intros Hf Hi. unfold find_fit. apply find_fit_from_spec; auto.
  - lia.
  - unfold BUCKET_COUNT. lia.
  - left. reflexivity.
Qed.

End FindFit.

(** * Coalescing *)

(** The common end of every case of [coalesce_block]: the free block [p]
    goes into its list and the two flags after it are refreshed. *)
Definition tail_pa_mp (p : Z) : M Z :=
  do insertVagueBlock p then
  do update_next_palloc p then
  do update_next_mpalloc p then
  ret p.

Definition tail_mp_pa (p : Z) : M Z :=
  do insertVagueBlock p then
  do update_next_mpalloc p then
  do update_next_palloc p then
  ret p.

Section Tail.

Variables (s : state) (A : aheap) (p : Z) (e : blk) (Spa Smp : Z -> Prop).
Hypothesis HR : Rep s A.
Hypothesis Hp : blocks A !! p = Some e.
Hypothesis Hfree : bal e = false.
Hypothesis Hunl : ~ listed A p e.
Hypothesis HF : Flags (heap_start s) (heap_end s) A Spa Smp.
Hypothesis Hpa : forall x ex, blocks A !! x = Some ex -> Spa x -> x = p.
Hypothesis Hmp : forall x ex, blocks A !! x = Some ex -> Smp x -> x = p.
Hypothesis HN : NoAdj A.
Hypothesis HLs : forall x sz al, cb A x = Some (sz, al) -> x <> p ->
                   (al = false <-> inlist A x sz).

Let A1 : aheap := ins_heap p e A.

Lemma tail_views (F : aheap) :
  (forall x, cb F x = cb A1 x) ->
  (forall x sz, inlist F x sz <-> inlist A1 x sz) ->
  Flags (heap_start s) (heap_end s) F
    (fun x => Spa x /\ x <> p) (fun x => Smp x /\ x <> p) ->
  Good (heap_start s) (heap_end s) F.
Proof.
  intros Hc Hi HF'.
  assert (Hc' : forall x, cb F x = cb A x).
  { intros x. rewrite Hc. apply (cb_ins_heap A p e). }
  apply good_views.
  - apply (flags_weaken_blk _ _ _ _ _ _ _ HF').
    + intros x ex Hx [H1 H2]. exfalso.
      pose proof (Hc' x) as E. rewrite (cb_of F x ex Hx) in E. symmetry in E.
      apply cb_Some in E as (e0 & H0 & _). apply H2, (Hpa x e0 H0 H1).
    + intros x ex Hx [H1 H2]. exfalso.
      pose proof (Hc' x) as E. rewrite (cb_of F x ex Hx) in E. symmetry in E.
      apply cb_Some in E as (e0 & H0 & _). apply H2, (Hmp x e0 H0 H1).
  - intros x sz al sz' al'. rewrite !Hc'. apply HN.
  - intros x sz al. rewrite Hc', Hi. intros Hx.
    destruct (Z.eq_dec x p) as [->|N].
    + rewrite (cb_of A p e Hp) in Hx. injection Hx as <- <-.
      split; [intros _; apply inlist_ins_self|auto].
    + unfold A1. rewrite (inlist_ins_other A p e x sz N). apply (HLs x sz al Hx N).
Qed.

Lemma tail_pa_mp_spec (Q : Z -> state -> Prop) :
  (forall s' F, Rep s' F -> Good (heap_start s) (heap_end s) F ->
     same_arena s s' -> keeps A s s' -> (forall x, cb F x = cb A x) -> Q p s') ->
  wp (tail_pa_mp p) Q s.
Proof.
  intros HQ. unfold tail_pa_mp.
  apply wp_bind. apply (insertVagueBlock_spec s A p e _ HR Hp Hunl Hfree).
  intros s1 HR1 Ha1 Hk1. fold A1 in HR1.
  assert (Hp1 : blocks A1 !! p = Some e).
  { unfold A1. rewrite (blocks_ins_other A p e Hp); [exact Hp|].
    destruct HR as [HL _]. pose proof (blk_bounds s A HL p e Hp). lia. }
  apply wp_bind. apply (update_next_palloc_spec s1 A1 p e _ HR1 Hp1).
  intros s2 HR2 Ha2 Hk2.
  assert (exists e2, blocks (upd_next_pa p A1) !! p = Some e2) as [e2 Hp2].
  { pose proof (cb_upd_pa p A1 p) as E. rewrite (cb_of A1 p e Hp1) in E.
    apply cb_Some in E as (e2 & H2 & _). eauto. }
  apply wp_bind. apply (update_next_mpalloc_spec s2 _ p e2 _ HR2 Hp2).
  intros s3 HR3 Ha3 Hk3. apply wp_ret.
  pose proof (same_arena_trans _ _ _ Ha1 (same_arena_trans _ _ _ Ha2 Ha3)) as Ha.
  assert (Hk : keeps A s s3).
  { apply (keeps_trans A A1 s s1 s3 Hk1);
      [|intros a; apply (held_ins_heap A p e a Hp Hfree)].
    apply (keeps_trans A1 (upd_next_pa p A1) s1 s2 s3 Hk2 Hk3).
    intros a. apply held_upd_next_pa. }
  apply (HQ s3 _ HR3); [|exact Ha|exact Hk|].
  - apply tail_views.
    + intros x. rewrite cb_upd_mp, cb_upd_pa. reflexivity.
    + intros x sz. rewrite inlist_upd_mp, inlist_upd_pa. reflexivity.
    + destruct HR1 as [HL1 _].
      pose proof (layout_shape s1 A1 HL1) as HSh.
      destruct Ha1 as (E1 & E2 & _). unfold heap_end in *. rewrite E1, E2 in HSh.
      apply (flags_upd_both _ _ A1 p e Spa Smp HSh Hp1).
      apply (flags_ins_heap s A p e HR Hp). exact HF.
  - intros x. rewrite cb_upd_mp, cb_upd_pa. apply (cb_ins_heap A p e).
Qed.

Lemma tail_mp_pa_spec (Q : Z -> state -> Prop) :
  (forall s' F, Rep s' F -> Good (heap_start s) (heap_end s) F ->
     same_arena s s' -> keeps A s s' -> (forall x, cb F x = cb A x) -> Q p s') ->
  wp (tail_mp_pa p) Q s.
Proof.
  intros HQ. unfold tail_mp_pa.
  apply wp_bind. apply (insertVagueBlock_spec s A p e _ HR Hp Hunl Hfree).
  intros s1 HR1 Ha1 Hk1. fold A1 in HR1.
  assert (Hp1 : blocks A1 !! p = Some e).
  { unfold A1. rewrite (blocks_ins_other A p e Hp); [exact Hp|].
    destruct HR as [HL _]. pose proof (blk_bounds s A HL p e Hp). lia. }
  apply wp_bind. apply (update_next_mpalloc_spec s1 A1 p e _ HR1 Hp1).
  intros s2 HR2 Ha2 Hk2.
  assert (exists e2, blocks (upd_next_mp p A1) !! p = Some e2) as [e2 Hp2].
  { pose proof (cb_upd_mp p A1 p) as E. rewrite (cb_of A1 p e Hp1) in E.
    apply cb_Some in E as (e2 & H2 & _). eauto. }
  apply wp_bind. apply (update_next_palloc_spec s2 _ p e2 _ HR2 Hp2).
  intros s3 HR3 Ha3 Hk3. apply wp_ret.
  pose proof (same_arena_trans _ _ _ Ha1 (same_arena_trans _ _ _ Ha2 Ha3)) as Ha.
  assert (Hk : keeps A s s3).
  { apply (keeps_trans A A1 s s1 s3 Hk1);
      [|intros a; apply (held_ins_heap A p e a Hp Hfree)].
    apply (keeps_trans A1 (upd_next_mp p A1) s1 s2 s3 Hk2 Hk3).
    intros a. apply held_upd_next_mp. }
  apply (HQ s3 _ HR3); [|exact Ha|exact Hk|].
  - apply tail_views.
    + intros x. rewrite cb_upd_pa, cb_upd_mp. reflexivity.
    + intros x sz. rewrite inlist_upd_pa, inlist_upd_mp. reflexivity.
    + destruct HR1 as [HL1 _].
      pose proof (layout_shape s1 A1 HL1) as HSh.
      destruct Ha1 as (E1 & E2 & _). unfold heap_end in *. rewrite E1, E2 in HSh.
      apply (flags_upd_both' _ _ A1 p e Spa Smp HSh Hp1).
      apply (flags_ins_heap s A p e HR Hp). exact HF.
  - intros x. rewrite cb_upd_pa, cb_upd_mp. apply (cb_ins_heap A p e).
Qed.

End Tail.

(** When the region from [p] of length [S] becomes one free listed block,
    and everything around it was in order, everything is in order. *)
Lemma merged_views A F p S :
  0 < S ->
  (forall x, cb F x =
     if decide (x = p) then Some (S, false)
     else if decide (x < p \/ p + S <= x) then cb A x else None) ->
  (forall x sz, x < p \/ p + S <= x -> (inlist F x sz <-> inlist A x sz)) ->
  (forall x sz al sz' al', cb A x = Some (sz, al) ->
     cb A (x + sz) = Some (sz', al') ->
     x < p \/ p + S <= x -> x + sz < p \/ p + S <= x + sz ->
     al = true \/ al' = true) ->
  (forall x sz al, cb A x = Some (sz, al) -> x < p \/ p + S <= x ->
     (al = false <-> inlist A x sz)) ->
  (forall x sz al, cb A x = Some (sz, al) -> x + sz = p -> al = true) ->
  (forall sz al, cb A (p + S) = Some (sz, al) -> al = true) ->
  NoAdj F /\
  (forall x sz al, cb F x = Some (sz, al) -> x <> p ->
     (al = false <-> inlist F x sz)).
Proof.
  intros HS Hc Hi HN HLs HB HAf. split.
  - intros x sz al sz' al' Hx Hn. rewrite Hc in Hx, Hn.
    destruct (decide (x = p)) as [->|Nx].
    + injection Hx as <- <-.
      destruct (decide (p + S = p)) as [E|_]; [lia|].
      destruct (decide (p + S < p \/ p + S <= p + S)) as [_|N]; [|lia].
      right. apply (HAf sz' al' Hn).
    + destruct (decide (x < p \/ p + S <= x)) as [Ox|]; [|discriminate].
      destruct (decide (x + sz = p)) as [E|Nn].
      * left. apply (HB x sz al Hx E).
      * destruct (decide (x + sz < p \/ p + S <= x + sz)) as [On|]; [|discriminate].
        apply (HN x sz al sz' al' Hx Hn Ox On).
  - intros x sz al Hx Nx. rewrite Hc in Hx.
    destruct (decide (x = p)) as [E|_]; [contradiction|].
    destruct (decide (x < p \/ p + S <= x)) as [Ox|]; [|discriminate].
    rewrite (Hi x sz Ox). apply (HLs x sz al Hx Ox).
Qed.

Lemma valid_size s A x e :
  Layout s A -> blocks A !! x = Some e -> bsz e = 16 \/ 32 <= bsz e.
Proof.
  intros HL Hx. destruct (lay_size s A HL x e Hx) as (H1 & H2 & _).
  revert H1 H2. divlia.
Qed.

Section MergeTail.

Variables (s : state) (A : aheap) (p : Z) (ep : blk) (S : Z) (Spa : Z -> Prop).
Hypothesis HR : Rep s A.
Hypothesis Hp : blocks A !! p = Some ep.
Hypothesis HS1 : bsz ep < S.
Hypothesis HS2 : S mod 16 = 0.
Hypothesis Hend : p + S = heap_end s \/ is_Some (blocks A !! (p + S)).
Hypothesis Hunl : forall x e, blocks A !! x = Some e -> p <= x < p + S ->
                    forall sz, sz = 16 \/ 32 <= sz -> ~ inlist A x sz.
Hypothesis HF : Flags (heap_start s) (heap_end s) A Spa none.
Hypothesis HSpa : forall x, Spa x -> p <= x < p + S.
Hypothesis HN : forall x sz al sz' al', cb A x = Some (sz, al) ->
     cb A (x + sz) = Some (sz', al') ->
     x < p \/ p + S <= x -> x + sz < p \/ p + S <= x + sz ->
     al = true \/ al' = true.
Hypothesis HLs : forall x sz al, cb A x = Some (sz, al) ->
     x < p \/ p + S <= x -> (al = false <-> inlist A x sz).
Hypothesis HB : forall x sz al, cb A x = Some (sz, al) -> x + sz = p -> al = true.
Hypothesis HAf : forall sz al, cb A (p + S) = Some (sz, al) -> al = true.
Hypothesis Hfr : forall x e, blocks A !! x = Some e -> p <= x < p + S ->
                   bal e = false.

Let e' : blk := mkBlk S (bmp ep) (bpa ep) false.
Let s1 : state := set_mem (write_block_mem (mem s) p S (bmp ep) (bpa ep) false) s.
Let A1 : aheap := merge_heap p S (bmp ep) (bpa ep) A.

Lemma merge_tail_unl x e :
  blocks A !! x = Some e -> p <= x < p + S -> ~ listed A x e.
Proof.
  intros Hx Hin. destruct HR as [HL _].
  apply (Hunl x e Hx Hin (bsz e)). apply (valid_size s A x e HL Hx).
Qed.

Lemma merge_tail_rep : Rep s1 A1.
Proof.
  apply (rep_merge s A p ep S (bmp ep) (bpa ep) HR Hp HS1 HS2 Hend merge_tail_unl).
Qed.

Lemma merge_tail_S : 32 <= S.
Proof.
  destruct HR as [HL _]. pose proof (blk_bounds s A HL p ep Hp).
  revert HS1 HS2. divlia.
Qed.

Lemma merge_tail_cb x :
  cb A1 x = if decide (x = p) then Some (S, false)
            else if decide (x < p \/ p + S <= x) then cb A x else None.
Proof. unfold A1, merge_heap. rewrite cb_absorb. reflexivity. Qed.

Lemma merge_tail_p : blocks A1 !! p = Some e'.
Proof.
  unfold A1, merge_heap. cbn [blocks set_blocks]. apply lookup_absorb. left. auto.
Qed.

Lemma merge_tail_views :
  NoAdj A1 /\
  (forall x sz al, cb A1 x = Some (sz, al) -> x <> p ->
     (al = false <-> inlist A1 x sz)).
Proof.
  pose proof merge_tail_S.
  apply (merged_views A A1 p S); auto;
    try lia; try apply merge_tail_cb; try (intros x sz _; reflexivity).
Qed.

Lemma merge_tail_stale (T : Z -> Prop) x ex :
  (forall y, T y -> p <= y < p + S) ->
  blocks A1 !! x = Some ex -> T x \/ x = p -> x = p.
Proof.
  intros HT Hx [H|H]; [|exact H]. apply HT in H.
  pose proof (merge_tail_cb x) as E. rewrite (cb_of A1 x ex Hx) in E.
  destruct (decide (x = p)) as [->|N]; [reflexivity|].
  destruct (decide (x < p \/ p + S <= x)); [lia|discriminate].
Qed.

Lemma merge_tail_flags :
  Flags (heap_start s1) (heap_end s1) A1
    (fun x => Spa x \/ x = p) (fun x => none x \/ x = p).
Proof. apply (flags_absorb _ _ A p ep S Spa none Hp HF). Qed.

(** The merged region holds free blocks only, so the new header and footer
    touch no held word, and the blocks in use are the same as before. *)
Lemma merge_tail_keeps : keeps A s s1.
Proof.
  intros a Ha. destruct HR as [HL _].
  pose proof (blk_bounds s A HL p ep Hp) as Bp. pose proof merge_tail_S as HS32.
  destruct (held_apart s A HL a p ep Ha Hp) as [Np _].
  destruct Ha as (x & e & Hx & Hal & _ & Hin).
  unfold s1. cbn [mem set_mem].
  assert (HSm : 0 <= S < modulus).
  { destruct Hend as [E|[en Hn]].
    - pose proof (lay_max s A HL). unfold heap_end in E. lia.
    - pose proof (blk_bounds s A HL _ en Hn). lia. }
  apply wbm_other; [exact HSm|exact HS2|exact Np|].
  intros E. subst a.
  assert (Hpx : p <= x).
  { destruct (blk_apart s A HL x p e ep Hx Hp) as [E|[D|D]]; lia. }
  pose proof (Hfr x e Hx ltac:(lia)). congruence.
Qed.

Lemma merge_tail_held a : held A a -> held A1 a.
Proof.
  apply held_mono. intros x sz Hc Hnl. rewrite merge_tail_cb.
  apply cb_Some in Hc as (e & Hx & <- & Hal). pose proof merge_tail_S as HS32.
  destruct (decide (x = p)) as [->|N].
  { assert (bal e = false) by (apply (Hfr p e Hx); lia). congruence. }
  destruct (decide (x < p \/ p + S <= x)) as [O|O].
  - rewrite (cb_of A x e Hx), Hal. split; [reflexivity|exact Hnl].
  - assert (bal e = false) by (apply (Hfr x e Hx); lia). congruence.
Qed.

Lemma merge_pa_mp_spec (Q : Z -> state -> Prop) :
  (forall s' F, Rep s' F -> Good (heap_start s) (heap_end s) F ->
     same_arena s s' -> keeps A s s' ->
     (forall x, cb F x = if decide (x = p) then Some (S, false)
                         else if decide (x < p \/ p + S <= x) then cb A x
                              else None) -> Q p s') ->
  wp (write_block p S (bmp ep) (bpa ep) false)
     (fun _ s' => wp (tail_pa_mp p) Q s') s.
Proof.
  intros HQ. apply wp_write_block. fold s1.
  destruct merge_tail_views as [V1 V2].
  apply (tail_pa_mp_spec s1 A1 p e' (fun x => Spa x \/ x = p) (fun x => none x \/ x = p)
           merge_tail_rep merge_tail_p eq_refl).
  - unfold listed, e'. cbn [bsz]. apply (Hunl p ep Hp); pose proof merge_tail_S.
    + destruct HR as [HL _]. pose proof (blk_bounds s A HL p ep Hp). lia.
    + lia.
  - apply merge_tail_flags.
  - intros x ex Hx. apply (merge_tail_stale Spa x ex HSpa Hx).
  - intros x ex Hx. apply (merge_tail_stale none x ex); [intros y []|exact Hx].
  - exact V1.
  - exact V2.
  - intros s' F HR' HG Ha Hk Hc. apply (HQ s' F HR' HG Ha).
    + apply (keeps_trans A A1 s s1 s' merge_tail_keeps Hk merge_tail_held).
    + intros x. rewrite Hc. apply merge_tail_cb.
Qed.

Lemma merge_mp_pa_spec (Q : Z -> state -> Prop) :
  (forall s' F, Rep s' F -> Good (heap_start s) (heap_end s) F ->
     same_arena s s' -> keeps A s s' ->
     (forall x, cb F x = if decide (x = p) then Some (S, false)
                         else if decide (x < p \/ p + S <= x) then cb A x
                              else None) -> Q p s') ->
  wp (write_block p S (bmp ep) (bpa ep) false)
     (fun _ s' => wp (tail_mp_pa p) Q s') s.
Proof.
  intros HQ. apply wp_write_block. fold s1.
  destruct merge_tail_views as [V1 V2].
  apply (tail_mp_pa_spec s1 A1 p e' (fun x => Spa x \/ x = p) (fun x => none x \/ x = p)
           merge_tail_rep merge_tail_p eq_refl).
  - unfold listed, e'. cbn [bsz]. apply (Hunl p ep Hp); pose proof merge_tail_S.
    + destruct HR as [HL _]. pose proof (blk_bounds s A HL p ep Hp). lia.
    + lia.
  - apply merge_tail_flags.
  - intros x ex Hx. apply (merge_tail_stale Spa x ex HSpa Hx).
  - intros x ex Hx. apply (merge_tail_stale none x ex); [intros y []|exact Hx].
  - exact V1.
  - exact V2.
  - intros s' F HR' HG Ha Hk Hc. apply (HQ s' F HR' HG Ha).
    + apply (keeps_trans A A1 s s1 s' merge_tail_keeps Hk merge_tail_held).
    + intros x. rewrite Hc. apply merge_tail_cb.
Qed.

End MergeTail.

(** What [coalesce_block] needs of the heap around the free, unlisted block
    [b] it is given: everything is in order except at [b], whose successor
    may still carry the flag of an allocated predecessor. *)
Record PreCo (hs he : Z) (A : aheap) (b : Z) : Prop := mkPreCo {
  pc_flags : Flags hs he A (only b) none;
  pc_noadj : forall x sz al sz' al', cb A x = Some (sz, al) ->
               cb A (x + sz) = Some (sz', al') -> x <> b -> x + sz <> b ->
               al = true \/ al' = true;
  pc_listed : forall x sz al, cb A x = Some (sz, al) -> x <> b ->
                (al = false <-> inlist A x sz)
}.

Lemma length_minis_rm_heap A b e :
  (length (minis (rm_heap b e A)) <= length (minis A))%nat.
Proof.
  unfold rm_heap. destruct (bsz e =? 16); [|reflexivity].
  rewrite minis_rm_mini_heap. apply List.remove_length_le.
Qed.

Lemma unlisted_all s A b e sz :
  Rep s A -> blocks A !! b = Some e -> ~ listed A b e ->
  sz = 16 \/ 32 <= sz -> ~ inlist A b sz.
Proof.
  intros [HL HS] Hb Hunl Hsz H. unfold inlist in H. unfold listed in Hunl.
  destruct (Z.eqb_spec sz 16) as [E|E].
  - destruct (lst_mini_blk s A HS b H) as (e0 & H0 & S0).
    assert (e0 = e) by congruence. subst e0.
    rewrite (proj2 (Z.eqb_eq _ _) S0) in Hunl. auto.
  - destruct (lst_seg_blk s A HS (home_address sz) b) as (e0 & H0 & S0 & H1);
      [apply home_address_range; lia|exact H|].
    assert (e0 = e) by congruence. subst e0.
    rewrite (proj2 (Z.eqb_neq _ _) S0), H1 in Hunl. auto.
Qed.

Lemma prev_of_free s A p ep :
  Layout s A -> blocks A !! p = Some ep -> bal ep = false ->
  prev_of s (p + bsz ep) (bsz ep =? 16) = p.
Proof.
  intros HL Hp Hf. unfold prev_of, MINI_BLOCK_SIZE, wsize.
  pose proof (blk_bounds s A HL p ep Hp) as B.
  destruct (Z.eqb_spec (bsz ep) 16) as [E|E]; [lia|].
  assert (size_at s (p + bsz ep - 8) = bsz ep) as ->.
  { unfold size_at, load_word. rewrite (lay_ftr s A HL p ep Hp Hf E). cbn.
    apply unpack_size; lia. }
  rewrite (proj2 (Z.eqb_neq _ _)) by lia. lia.
Qed.

Lemma same_arena_flags s s' A' Spa Smp :
  same_arena s s' ->
  Flags (heap_start s) (heap_end s) A' Spa Smp ->
  Flags (heap_start s') (heap_end s') A' Spa Smp.
Proof.
  intros Ha. rewrite (same_arena_end s s' Ha).
  destruct Ha as (-> & _). auto.
Qed.

Lemma same_arena_good s s' A' :
  same_arena s s' ->
  Good (heap_start s') (heap_end s') A' ->
  Good (heap_start s) (heap_end s) A'.
Proof.
  intros Ha. rewrite (same_arena_end s s' Ha).
  destruct Ha as (-> & _). auto.
Qed.

Lemma same_arena_good' s s' A' :
  same_arena s s' ->
  Good (heap_start s) (heap_end s) A' ->
  Good (heap_start s') (heap_end s') A'.
Proof.
  intros Ha. rewrite (same_arena_end s s' Ha).
  destruct Ha as (-> & _). auto.
Qed.

Section Coalesce.

Variables (fuel : nat) (s : state) (A : aheap) (b : Z) (eb : blk).
Hypothesis HR : Rep s A.
Hypothesis HP : PreCo (heap_start s) (heap_end s) A b.
Hypothesis Hb : blocks A !! b = Some eb.
Hypothesis Hfree : bal eb = false.
Hypothesis Hunl : ~ listed A b eb.
Hypothesis Hfuel : (length (minis A) < fuel)%nat.

Lemma co_layout : Layout s A.
Proof. apply HR. Qed.

(** The block before [b], when the flag of [b] says it is free. *)
Lemma co_prev :
  bpa eb = false ->
  exists p ep, blocks A !! p = Some ep /\ p + bsz ep = b /\
               bal ep = false /\ bmp eb = (bsz ep =? 16).
Proof.
  intros Hpa. pose proof co_layout as HL.
  destruct (lay_prev s A HL b eb Hb) as [E|(p & ep & Hp & E)].
  - pose proof (fl_first _ _ _ _ _ (pc_flags _ _ _ _ HP) eb) as H.
    rewrite <- E in H. specialize (H Hb). congruence.
  - pose proof (blk_bounds s A HL p ep Hp) as Bp.
    assert (N : ~ only b p) by (unfold only; lia).
    exists p, ep. rewrite <- E in Hb. repeat split; auto.
    + rewrite <- (fl_pa _ _ _ _ _ (pc_flags _ _ _ _ HP) p ep eb Hp Hb N). exact Hpa.
    + apply (fl_mp _ _ _ _ _ (pc_flags _ _ _ _ HP) p ep eb Hp Hb). intros [].
Qed.

(** Whatever ends at [b] is allocated when the flag of [b] says so. *)
Lemma co_before_b :
  bpa eb = true ->
  forall x sz al, cb A x = Some (sz, al) -> x + sz = b -> al = true.
Proof.
  intros Hpa x sz al Hx E. apply cb_Some in Hx as (ex & Hx & <- & <-).
  pose proof (blk_bounds s A co_layout x ex Hx) as Bx.
  assert (N : ~ only b x) by (unfold only; lia).
  rewrite <- E in Hb.
  rewrite <- (fl_pa _ _ _ _ _ (pc_flags _ _ _ _ HP) x ex eb Hx Hb N). exact Hpa.
Qed.

(** Whatever ends at a free block other than [b] is allocated. *)
Lemma co_before_free p ep :
  blocks A !! p = Some ep -> bal ep = false -> p + bsz ep = b ->
  forall x sz al, cb A x = Some (sz, al) -> x + sz = p -> al = true.
Proof.
  intros Hp Hf E x sz al Hx Ex.
  pose proof (blk_bounds s A co_layout p ep Hp) as Bp.
  pose proof Hx as Hx'. apply cb_Some in Hx' as (ex & Hx' & <- & <-).
  pose proof (blk_bounds s A co_layout x ex Hx') as Bx.
  destruct (pc_noadj _ _ _ _ HP x (bsz ex) (bal ex) (bsz ep) false Hx) as [H|H];
    try lia; try congruence.
  rewrite Ex, (cb_of A p ep Hp), Hf. reflexivity.
Qed.

(** Whatever starts where a free block after [b] ends is allocated. *)
Lemma co_after_free n en :
  blocks A !! n = Some en -> bal en = false -> b < n ->
  forall sz al, cb A (n + bsz en) = Some (sz, al) -> al = true.
Proof.
  intros Hn Hf N sz al Hx.
  pose proof (blk_bounds s A co_layout n en Hn) as Bn.
  destruct (pc_noadj _ _ _ _ HP n (bsz en) false sz al) as [H|H]; auto;
    try discriminate; try lia.
  rewrite (cb_of A n en Hn), Hf. reflexivity.
Qed.


(** Facts about the heap away from the region being merged carry over to
    any heap with the same blocks and the same lists there. *)
Lemma co_outside A' p S :
  p <= b < p + S ->
  (forall x, cb A' x = cb A x) ->
  (forall x sz, x < p \/ p + S <= x -> (inlist A' x sz <-> inlist A x sz)) ->
  (forall x sz al sz' al', cb A' x = Some (sz, al) ->
     cb A' (x + sz) = Some (sz', al') ->
     x < p \/ p + S <= x -> x + sz < p \/ p + S <= x + sz ->
     al = true \/ al' = true) /\
  (forall x sz al, cb A' x = Some (sz, al) -> x < p \/ p + S <= x ->
     (al = false <-> inlist A' x sz)).
Proof.
  intros Hin Hc Hi. split.
  - intros x sz al sz' al'. rewrite !Hc. intros Hx Hn O1 O2.
    apply (pc_noadj _ _ _ _ HP x sz al sz' al' Hx Hn); lia.
  - intros x sz al. rewrite Hc. intros Hx O. rewrite (Hi x sz O).
    apply (pc_listed _ _ _ _ HP x sz al Hx). lia.
Qed.

Lemma co_unl_b sz : sz = 16 \/ 32 <= sz -> ~ inlist A b sz.
Proof. apply (unlisted_all s A b eb sz HR Hb Hunl). Qed.

(** What the merged heap keeps: the new free block, and every allocated
    block. *)
Lemma co_keep A' F p S :
  0 < S ->
  (forall x, cb A' x = cb A x) ->
  (forall x, cb F x = if decide (x = p) then Some (S, false)
                      else if decide (x < p \/ p + S <= x) then cb A' x
                           else None) ->
  (forall x sz al, cb A x = Some (sz, al) -> p <= x < p + S -> al = false) ->
  cb F p = Some (S, false) /\
  (forall x sz, cb F x = Some (sz, true) <-> cb A x = Some (sz, true)).
Proof.
  intros HS Hc HcF Hreg. split.
  - rewrite HcF. destruct (decide (p = p)); [reflexivity|contradiction].
  - intros x sz. rewrite HcF. split.
    + destruct (decide (x = p)) as [->|_]; [discriminate|].
      destruct (decide (x < p \/ p + S <= x)) as [O|O]; [|discriminate].
      rewrite Hc. auto.
    + intros Hx. destruct (decide (x < p \/ p + S <= x)) as [O|O].
      * destruct (decide (x = p)) as [->|_]; [lia|]. rewrite Hc. exact Hx.
      * assert (p <= x < p + S) as Hin by lia.
        pose proof (Hreg x sz true Hx Hin). discriminate.
Qed.

(** No neighbour is free: the block is only put on its list. *)
Lemma coalesce_none_spec (Q : Z -> state -> Prop) :
  bpa eb = true ->
  (forall en, blocks A !! (b + bsz eb) = Some en -> bal en = true) ->
  (forall s' F, Rep s' F -> Good (heap_start s) (heap_end s) F ->
     same_arena s s' -> keeps A s s' -> cb F b = Some (bsz eb, false) ->
     (forall x sz, cb F x = Some (sz, true) <-> cb A x = Some (sz, true)) -> Q b s') ->
  wp (tail_pa_mp b) Q s.
Proof.
  intros Hpa Hna HQ.
  apply (tail_pa_mp_spec s A b eb (only b) none HR Hb Hfree Hunl
           (pc_flags _ _ _ _ HP)).
  - intros x ex _ H. exact H.
  - intros x ex _ [].
  - intros x sz al sz' al' Hx Hn.
    destruct (Z.eq_dec x b) as [->|Nx].
    + right. rewrite (cb_of A b eb Hb) in Hx. injection Hx as <- <-.
      apply cb_Some in Hn as (en & Hn & _ & <-). apply (Hna en Hn).
    + destruct (Z.eq_dec (x + sz) b) as [E|Nn].
      * left. apply (co_before_b Hpa x sz al Hx E).
      * apply (pc_noadj _ _ _ _ HP x sz al sz' al' Hx Hn Nx Nn).
  - intros x sz al Hx Nx. apply (pc_listed _ _ _ _ HP x sz al Hx Nx).
  - intros s' F HR' HG Ha Hk Hc. apply (HQ s' F HR' HG Ha Hk).
    + rewrite Hc, (cb_of A b eb Hb), Hfree. reflexivity.
    + intros x sz. rewrite Hc. reflexivity.
Qed.

Lemma cb_is_Some A' x :
  (forall y, cb A' y = cb A y) -> is_Some (blocks A !! x) ->
  is_Some (blocks A' !! x).
Proof.
  intros Hc [e Hx]. pose proof (Hc x) as E. rewrite (cb_of A x e Hx) in E.
  apply cb_Some in E as (e' & H' & _). eauto.
Qed.

(** The next block is free and the previous one is not. *)
Lemma coalesce_next_spec en (Q : Z -> state -> Prop) :
  bpa eb = true ->
  blocks A !! (b + bsz eb) = Some en -> bal en = false ->
  (forall s' F, Rep s' F -> Good (heap_start s) (heap_end s) F ->
     same_arena s s' -> keeps A s s' ->
     cb F b = Some (bsz eb + bsz en, false) ->
     (forall x sz, cb F x = Some (sz, true) <-> cb A x = Some (sz, true)) -> Q b s') ->
  wp (removeVagueBlock fuel (b + bsz eb))
     (fun _ s1 =>
        wp (get_mpalloc b) (fun mp s2 =>
        wp (get_palloc b) (fun pa s3 =>
        wp (write_block b (bsz eb + bsz en) mp pa false)
           (fun _ s4 => wp (tail_mp_pa b) Q s4) s3) s2) s1) s.
Proof.
  intros Hpa Hn Hnf HQ. pose proof co_layout as HL.
  set (n := b + bsz eb) in *.
  pose proof (blk_bounds s A HL b eb Hb) as Bb.
  pose proof (blk_bounds s A HL n en Hn) as Bn.
  assert (Hnl : listed A n en).
  { apply (pc_listed _ _ _ _ HP n (bsz en) false); [|unfold n; lia|reflexivity].
    rewrite (cb_of A n en Hn), Hnf. reflexivity. }
  assert (Hreg : forall x sz al, cb A x = Some (sz, al) ->
            b <= x < b + (bsz eb + bsz en) -> al = false).
  { intros x sz al Hx Hin. apply cb_Some in Hx as (ex & Hx & <- & <-).
    pose proof (blk_bounds s A HL x ex Hx).
    destruct (blk_apart s A HL x b ex eb Hx Hb) as [->|H1]; [congruence|].
    destruct (blk_apart s A HL x n ex en Hx Hn) as [->|H2]; [congruence|].
    unfold n in *. lia. }
  apply (removeVagueBlock_spec fuel s A n en _ HR Hn Hnl Hfuel).
  intros s1 HR1 Ha1 Hk1. set (A1 := rm_heap n en A) in *.
  pose proof HR1 as [HL1 _].
  assert (Hc : forall x, cb A1 x = cb A x) by (intros x; apply cb_rm_heap).
  assert (Hb1 : blocks A1 !! b = Some eb).
  { unfold A1. rewrite (blocks_rm_other A n en Hn); [exact Hb|lia]. }
  apply wp_get_mpalloc. rewrite (blk_mpalloc_at s1 A1 HL1 b eb Hb1).
  apply wp_get_palloc. rewrite (blk_palloc_at s1 A1 HL1 b eb Hb1).
  assert (Hi : forall x sz, x <> n -> (inlist A1 x sz <-> inlist A x sz)).
  { intros x sz N. apply (inlist_rm_other A n en x sz N). }
  destruct (co_outside A1 b (bsz eb + bsz en)) as [HN HLs]; [lia|exact Hc| |].
  { intros x sz O. apply Hi. unfold n. lia. }
  apply (merge_mp_pa_spec s1 A1 b eb (bsz eb + bsz en) (only b) HR1 Hb1).
  - lia.
  - destruct Bb as (_ & Mb & _). destruct Bn as (_ & Mn & _).
    revert Mb Mn. divlia.
  - rewrite (same_arena_end s s1 Ha1).
    replace (b + (bsz eb + bsz en)) with (n + bsz en) by (unfold n; lia).
    destruct (lay_next s A HL n en Hn) as [E|E]; [left; exact E|right].
    apply (cb_is_Some A1 _ Hc E).
  - intros x e Hx Hin sz Hsz.
    assert (Hn1 : exists en1, blocks A1 !! n = Some en1 /\ bsz en1 = bsz en).
    { pose proof (Hc n) as E. rewrite (cb_of A n en Hn) in E.
      apply cb_Some in E as (e1 & H1 & S1 & _). eauto. }
    destruct Hn1 as (en1 & Hn1 & Sn1).
    assert (x = b \/ x = n) as [->| ->].
    { pose proof (blk_bounds s1 A1 HL1 x e Hx).
      destruct (blk_apart s1 A1 HL1 x b e eb Hx Hb1) as [H1|H1]; [auto|].
      destruct (blk_apart s1 A1 HL1 x n e en1 Hx Hn1) as [H2|H2]; [auto|].
      unfold n in *. lia. }
    + rewrite Hi by (unfold n; lia). apply co_unl_b. exact Hsz.
    + apply (inlist_rm_self s A n en HR Hn sz Hsz).
  - apply (same_arena_flags s s1 A1 _ _ Ha1).
    apply (flags_rm_heap s A n en HR Hn). apply (pc_flags _ _ _ _ HP).
  - unfold only. intros x ->. lia.
  - exact HN.
  - exact HLs.
  - intros x sz al. rewrite Hc. apply (co_before_b Hpa).
  - intros sz al. rewrite Hc.
    replace (b + (bsz eb + bsz en)) with (n + bsz en) by (unfold n; lia).
    apply (co_after_free n en Hn Hnf). unfold n. lia.
  - intros x e Hx Hin. pose proof (cb_of A1 x e Hx) as E. rewrite Hc in E.
    apply (Hreg x _ _ E Hin).
  - intros s' F HR' HG Ha' Hk' Hcb.
    destruct (co_keep A1 F b (bsz eb + bsz en) ltac:(lia) Hc Hcb Hreg) as [K1 K2].
    apply (HQ s' F HR'); [| | |exact K1|exact K2].
    + apply (same_arena_good s s1 F Ha1 HG).
    + apply (same_arena_trans s s1 s' Ha1 Ha').
    + apply (keeps_trans A A1 s s1 s' Hk1 Hk').
      intros a. apply held_rm_heap.
Qed.

(** The previous block is free and the next one is not. *)
Lemma coalesce_prev_spec p ep (Q : Z -> state -> Prop) :
  blocks A !! p = Some ep -> p + bsz ep = b -> bal ep = false ->
  (forall en, blocks A !! (b + bsz eb) = Some en -> bal en = true) ->
  (forall s' F, Rep s' F -> Good (heap_start s) (heap_end s) F ->
     same_arena s s' -> keeps A s s' ->
     cb F p = Some (bsz ep + bsz eb, false) ->
     (forall x sz, cb F x = Some (sz, true) <-> cb A x = Some (sz, true)) -> Q p s') ->
  wp (removeVagueBlock fuel p)
     (fun _ s1 =>
        wp (write_block p (bsz ep + bsz eb) (bmp ep) (bpa ep) false)
           (fun _ s2 => wp (tail_pa_mp p) Q s2) s1) s.
Proof.
  intros Hp Epb Hpf Hna HQ. pose proof co_layout as HL.
  pose proof (blk_bounds s A HL b eb Hb) as Bb.
  pose proof (blk_bounds s A HL p ep Hp) as Bp.
  assert (Hpl : listed A p ep).
  { apply (pc_listed _ _ _ _ HP p (bsz ep) false); [|lia|reflexivity].
    rewrite (cb_of A p ep Hp), Hpf. reflexivity. }
  assert (Hreg : forall x sz al, cb A x = Some (sz, al) ->
            p <= x < p + (bsz ep + bsz eb) -> al = false).
  { intros x sz al Hx Hin. apply cb_Some in Hx as (ex & Hx & <- & <-).
    pose proof (blk_bounds s A HL x ex Hx).
    destruct (blk_apart s A HL x p ex ep Hx Hp) as [->|H1]; [congruence|].
    destruct (blk_apart s A HL x b ex eb Hx Hb) as [->|H2]; [congruence|].
    lia. }
  apply (removeVagueBlock_spec fuel s A p ep _ HR Hp Hpl Hfuel).
  intros s1 HR1 Ha1 Hk1. set (A1 := rm_heap p ep A) in *.
  pose proof HR1 as [HL1 _].
  assert (Hc : forall x, cb A1 x = cb A x) by (intros x; apply cb_rm_heap).
  assert (Hp1 : blocks A1 !! p = Some ep).
  { unfold A1. rewrite (blocks_rm_other A p ep Hp); [exact Hp|lia]. }
  assert (Hi : forall x sz, x <> p -> (inlist A1 x sz <-> inlist A x sz)).
  { intros x sz N. apply (inlist_rm_other A p ep x sz N). }
  destruct (co_outside A1 p (bsz ep + bsz eb)) as [HN HLs]; [lia|exact Hc| |].
  { intros x sz O. apply Hi. lia. }
  apply (merge_pa_mp_spec s1 A1 p ep (bsz ep + bsz eb) (only b) HR1 Hp1).
  - lia.
  - destruct Bb as (_ & Mb & _). destruct Bp as (_ & Mp & _).
    revert Mb Mp. divlia.
  - rewrite (same_arena_end s s1 Ha1).
    replace (p + (bsz ep + bsz eb)) with (b + bsz eb) by lia.
    destruct (lay_next s A HL b eb Hb) as [E|E]; [left; exact E|right].
    apply (cb_is_Some A1 _ Hc E).
  - intros x e Hx Hin sz Hsz.
    assert (Hb1 : exists eb1, blocks A1 !! b = Some eb1 /\ bsz eb1 = bsz eb).
    { pose proof (Hc b) as E. rewrite (cb_of A b eb Hb) in E.
      apply cb_Some in E as (e1 & H1 & S1 & _). eauto. }
    destruct Hb1 as (eb1 & Hb1 & Sb1).
    assert (x = p \/ x = b) as [->| ->].
    { pose proof (blk_bounds s1 A1 HL1 x e Hx).
      destruct (blk_apart s1 A1 HL1 x p e ep Hx Hp1) as [H1|H1]; [auto|].
      destruct (blk_apart s1 A1 HL1 x b e eb1 Hx Hb1) as [H2|H2]; [auto|].
      lia. }
    + apply (inlist_rm_self s A p ep HR Hp sz Hsz).
    + rewrite Hi by lia. apply co_unl_b. exact Hsz.
  - apply (same_arena_flags s s1 A1 _ _ Ha1).
    apply (flags_rm_heap s A p ep HR Hp). apply (pc_flags _ _ _ _ HP).
  - unfold only. intros x ->. lia.
  - exact HN.
  - exact HLs.
  - intros x sz al. rewrite Hc. apply (co_before_free p ep Hp Hpf Epb).
  - intros sz al. rewrite Hc.
    replace (p + (bsz ep + bsz eb)) with (b + bsz eb) by lia.
    intros Hx. apply cb_Some in Hx as (en & Hn & _ & <-). apply (Hna en Hn).
  - intros x e Hx Hin. pose proof (cb_of A1 x e Hx) as E. rewrite Hc in E.
    apply (Hreg x _ _ E Hin).
  - intros s' F HR' HG Ha' Hk' Hcb.
    destruct (co_keep A1 F p (bsz ep + bsz eb) ltac:(lia) Hc Hcb Hreg) as [K1 K2].
    apply (HQ s' F HR'); [| | |exact K1|exact K2].
    + apply (same_arena_good s s1 F Ha1 HG).
    + apply (same_arena_trans s s1 s' Ha1 Ha').
    + apply (keeps_trans A A1 s s1 s' Hk1 Hk').
      intros a. apply held_rm_heap.
Qed.

(** Both neighbours are free. *)
Lemma coalesce_both_spec p ep en (Q : Z -> state -> Prop) :
  blocks A !! p = Some ep -> p + bsz ep = b -> bal ep = false ->
  blocks A !! (b + bsz eb) = Some en -> bal en = false ->
  (forall s' F, Rep s' F -> Good (heap_start s) (heap_end s) F ->
     same_arena s s' -> keeps A s s' ->
     cb F p = Some (bsz ep + bsz eb + bsz en, false) ->
     (forall x sz, cb F x = Some (sz, true) <-> cb A x = Some (sz, true)) -> Q p s') ->
  wp (removeVagueBlock fuel p)
     (fun _ s1 =>
        wp (removeVagueBlock fuel (b + bsz eb))
           (fun _ s2 =>
              wp (write_block p (bsz ep + bsz eb + bsz en) (bmp ep) (bpa ep) false)
                 (fun _ s3 => wp (tail_pa_mp p) Q s3) s2) s1) s.
Proof.
  intros Hp Epb Hpf Hn Hnf HQ. pose proof co_layout as HL.
  set (n := b + bsz eb) in *.
  pose proof (blk_bounds s A HL b eb Hb) as Bb.
  pose proof (blk_bounds s A HL p ep Hp) as Bp.
  pose proof (blk_bounds s A HL n en Hn) as Bn.
  assert (Hpl : listed A p ep).
  { apply (pc_listed _ _ _ _ HP p (bsz ep) false); [|lia|reflexivity].
    rewrite (cb_of A p ep Hp), Hpf. reflexivity. }
  assert (Hnl : listed A n en).
  { apply (pc_listed _ _ _ _ HP n (bsz en) false); [|unfold n; lia|reflexivity].
    rewrite (cb_of A n en Hn), Hnf. reflexivity. }
  apply (removeVagueBlock_spec fuel s A p ep _ HR Hp Hpl Hfuel).
  intros s1 HR1 Ha1 Hk1. set (A1 := rm_heap p ep A) in *.
  assert (Hc1 : forall x, cb A1 x = cb A x) by (intros x; apply cb_rm_heap).
  assert (Hp1 : blocks A1 !! p = Some ep).
  { unfold A1. rewrite (blocks_rm_other A p ep Hp); [exact Hp|lia]. }
  assert (Hn1 : blocks A1 !! n = Some en).
  { unfold A1. rewrite (blocks_rm_other A p ep Hp); [exact Hn|unfold n; lia]. }
  assert (Hi1 : forall x sz, x <> p -> (inlist A1 x sz <-> inlist A x sz)).
  { intros x sz N. apply (inlist_rm_other A p ep x sz N). }
  assert (Hnl1 : listed A1 n en).
  { unfold listed. fold (inlist A1 n (bsz en)). apply Hi1; [unfold n; lia|exact Hnl]. }
  assert (Hfuel1 : (length (minis A1) < fuel)%nat).
  { pose proof (length_minis_rm_heap A p ep). fold A1 in H. lia. }
  apply (removeVagueBlock_spec fuel s1 A1 n en _ HR1 Hn1 Hnl1 Hfuel1).
  intros s2 HR2 Ha2 Hk2. set (A2 := rm_heap n en A1) in *.
  pose proof HR2 as [HL2 _].
  pose proof (same_arena_trans s s1 s2 Ha1 Ha2) as Ha.
  assert (Hc : forall x, cb A2 x = cb A x).
  { intros x. unfold A2. rewrite cb_rm_heap. apply Hc1. }
  assert (Hp2 : blocks A2 !! p = Some ep).
  { unfold A2. rewrite (blocks_rm_other A1 n en Hn1); [exact Hp1|unfold n; lia]. }
  assert (Hi : forall x sz, x <> p -> x <> n -> (inlist A2 x sz <-> inlist A x sz)).
  { intros x sz N1 N2. unfold A2. rewrite (inlist_rm_other A1 n en x sz N2).
    apply Hi1. exact N1. }
  set (S := bsz ep + bsz eb + bsz en).
  assert (Hreg : forall x sz al, cb A x = Some (sz, al) ->
            p <= x < p + S -> al = false).
  { intros x sz al Hx Hin. apply cb_Some in Hx as (ex & Hx & <- & <-).
    pose proof (blk_bounds s A HL x ex Hx).
    destruct (blk_apart s A HL x p ex ep Hx Hp) as [->|H1]; [congruence|].
    destruct (blk_apart s A HL x b ex eb Hx Hb) as [->|H2]; [congruence|].
    destruct (blk_apart s A HL x n ex en Hx Hn) as [->|H3]; [congruence|].
    unfold S, n in *. lia. }
  destruct (co_outside A2 p S) as [HN HLs]; [unfold S; lia|exact Hc| |].
  { intros x sz O. apply Hi; unfold S, n in *; lia. }
  apply (merge_pa_mp_spec s2 A2 p ep S (only b) HR2 Hp2).
  - unfold S. lia.
  - destruct Bb as (_ & Mb & _). destruct Bp as (_ & Mp & _).
    destruct Bn as (_ & Mn & _). unfold S. revert Mb Mp Mn. divlia.
  - rewrite (same_arena_end s s2 Ha).
    replace (p + S) with (n + bsz en) by (unfold S, n; lia).
    destruct (lay_next s A HL n en Hn) as [E|E]; [left; exact E|right].
    apply (cb_is_Some A2 _ Hc E).
  - intros x e Hx Hin sz Hsz.
    assert (Hb2 : exists eb2, blocks A2 !! b = Some eb2 /\ bsz eb2 = bsz eb).
    { pose proof (Hc b) as E. rewrite (cb_of A b eb Hb) in E.
      apply cb_Some in E as (e1 & H1 & S1 & _). eauto. }
    destruct Hb2 as (eb2 & Hb2 & Sb2).
    assert (Hn2 : exists en2, blocks A2 !! n = Some en2 /\ bsz en2 = bsz en).
    { pose proof (Hc n) as E. rewrite (cb_of A n en Hn) in E.
      apply cb_Some in E as (e1 & H1 & S1 & _). eauto. }
    destruct Hn2 as (en2 & Hn2 & Sn2).
    assert (x = p \/ x = b \/ x = n) as [->|[->| ->]].
    { pose proof (blk_bounds s2 A2 HL2 x e Hx).
      destruct (blk_apart s2 A2 HL2 x p e ep Hx Hp2) as [H1|H1]; [auto|].
      destruct (blk_apart s2 A2 HL2 x b e eb2 Hx Hb2) as [H2|H2]; [auto|].
      destruct (blk_apart s2 A2 HL2 x n e en2 Hx Hn2) as [H3|H3]; [auto|].
      unfold S, n in *. lia. }
    + unfold A2. rewrite (inlist_rm_other A1 n en p sz) by (unfold n; lia).
      apply (inlist_rm_self s A p ep HR Hp sz Hsz).
    + rewrite Hi by (unfold n; lia). apply co_unl_b. exact Hsz.
    + apply (inlist_rm_self s1 A1 n en HR1 Hn1 sz Hsz).
  - apply (same_arena_flags s1 s2 A2 _ _ Ha2).
    apply (flags_rm_heap s1 A1 n en HR1 Hn1).
    apply (same_arena_flags s s1 A1 _ _ Ha1).
    apply (flags_rm_heap s A p ep HR Hp). apply (pc_flags _ _ _ _ HP).
  - unfold only. intros x ->. unfold S. lia.
  - exact HN.
  - exact HLs.
  - intros x sz al. rewrite Hc. apply (co_before_free p ep Hp Hpf Epb).
  - intros sz al. rewrite Hc.
    replace (p + S) with (n + bsz en) by (unfold S, n; lia).
    apply (co_after_free n en Hn Hnf). unfold n. lia.
  - intros x e Hx Hin. pose proof (cb_of A2 x e Hx) as E. rewrite Hc in E.
    apply (Hreg x _ _ E Hin).
  - intros s' F HR' HG Ha' Hk' Hcb.
    destruct (co_keep A2 F p S ltac:(unfold S; lia) Hc Hcb Hreg) as [K1 K2].
    apply (HQ s' F HR'); [| | |exact K1|exact K2].
    + apply (same_arena_good s s2 F Ha HG).
    + apply (same_arena_trans s s2 s' Ha Ha').
    + apply (keeps_trans A A1 s s1 s' Hk1); [|intros a; apply held_rm_heap].
      apply (keeps_trans A1 A2 s1 s2 s' Hk2 Hk').
      intros a. apply held_rm_heap.
Qed.

Lemma wrap_small x : 0 <= x < modulus -> wrap x = x.
Proof. intros H. unfold wrap. apply Z.mod_small. exact H. Qed.

(** [coalesce_block] puts the heap in order and returns the free block
    that now covers [b]. *)
Lemma coalesce_block_spec (Q : Z -> state -> Prop) :
  (forall r s' F sz, Rep s' F -> Good (heap_start s) (heap_end s) F ->
     same_arena s s' -> keeps A s s' -> cb F r = Some (sz, false) ->
     r <= b -> b + bsz eb <= r + sz ->
     (forall x sz, cb F x = Some (sz, true) <-> cb A x = Some (sz, true)) -> Q r s') ->
  wp (coalesce_block fuel b) Q s.
Proof.
  intros HQ. pose proof co_layout as HL.
  pose proof (blk_bounds s A HL b eb Hb) as Bb.
  unfold coalesce_block.
  apply wp_bind, wp_find_next. rewrite (blk_next_of s A HL b eb Hb).
  apply wp_bind, wp_get_palloc. rewrite (blk_palloc_at s A HL b eb Hb).
  apply wp_bind, wp_get_alloc.
  apply wp_bind, wp_get_mpalloc. rewrite (blk_mpalloc_at s A HL b eb Hb).
  assert (Hnext : (exists en, blocks A !! (b + bsz eb) = Some en /\
                     alloc_at s (b + bsz eb) = bal en) \/
                  (blocks A !! (b + bsz eb) = None /\
                     alloc_at s (b + bsz eb) = true)).
  { destruct (blocks A !! (b + bsz eb)) as [en|] eqn:Hn.
    - left. exists en. split; [reflexivity|]. apply (blk_alloc_at s A HL _ en Hn).
    - right. split; [reflexivity|].
      destruct (lay_next s A HL b eb Hb) as [E|[en E]]; [|congruence].
      rewrite E. apply (epi_alloc_at s A HL). }
  destruct (bpa eb) eqn:Hpa.
  - (* the previous block is allocated *)
    destruct Hnext as [(en & Hn & ->)|(Hn & ->)]; [destruct (bal en) eqn:Hna|];
      cbn [negb andb].
    + apply (coalesce_none_spec Q Hpa).
      * intros en' Hn'. congruence.
      * intros s' F HR' HG Ha Hk0 Hc Hk.
        apply (HQ b s' F (bsz eb) HR' HG Ha Hk0 Hc); auto; lia.
    + pose proof (blk_bounds s A HL _ en Hn) as Bn.
      apply wp_bind, wp_get_size. rewrite (blk_size_at s A HL b eb Hb).
      apply wp_bind, wp_get_size. rewrite (blk_size_at s A HL _ en Hn).
      cbv zeta. rewrite (wrap_small (bsz eb + bsz en)) by lia.
      apply wp_bind.
      eapply wp_mono; [apply (coalesce_next_spec en Q Hpa Hn Hna)|].
      * intros s' F HR' HG Ha Hk0 Hc Hk.
        apply (HQ b s' F (bsz eb + bsz en) HR' HG Ha Hk0 Hc); auto; lia.
      * intros [] s1 H. apply wp_bind. eapply wp_mono; [exact H|].
        intros mp s2 H2. apply wp_bind. eapply wp_mono; [exact H2|].
        intros pa s3 H3. apply wp_bind. exact H3.
    + apply (coalesce_none_spec Q Hpa).
      * intros en' Hn'. congruence.
      * intros s' F HR' HG Ha Hk0 Hc Hk.
        apply (HQ b s' F (bsz eb) HR' HG Ha Hk0 Hc); auto; lia.
  - (* the previous block is free *)
    destruct (co_prev Hpa) as (p & ep & Hp & Epb & Hpf & Hmp).
    pose proof (blk_bounds s A HL p ep Hp) as Bp.
    assert (Hprev : prev_of s b (bmp eb) = p).
    { rewrite Hmp, <- Epb. apply (prev_of_free s A p ep HL Hp Hpf). }
    destruct Hnext as [(en & Hn & ->)|(Hn & ->)]; [destruct (bal en) eqn:Hna|];
      cbn [negb andb].
    + apply wp_bind, wp_find_prev. rewrite Hprev.
      apply wp_bind, wp_get_mpalloc. rewrite (blk_mpalloc_at s A HL p ep Hp).
      apply wp_bind, wp_get_palloc. rewrite (blk_palloc_at s A HL p ep Hp).
      apply wp_bind, wp_get_size. rewrite (blk_size_at s A HL p ep Hp).
      apply wp_bind, wp_get_size. rewrite (blk_size_at s A HL b eb Hb).
      cbv zeta. rewrite (wrap_small (bsz ep + bsz eb)) by lia.
      apply wp_bind.
      eapply wp_mono; [apply (coalesce_prev_spec p ep Q Hp Epb Hpf)|].
      * intros en' Hn'. congruence.
      * intros s' F HR' HG Ha Hk0 Hc Hk.
        apply (HQ p s' F (bsz ep + bsz eb) HR' HG Ha Hk0 Hc); auto; lia.
      * intros [] s1 H. apply wp_bind. exact H.
    + pose proof (blk_bounds s A HL _ en Hn) as Bn.
      apply wp_bind, wp_find_prev. rewrite Hprev.
      apply wp_bind, wp_get_mpalloc. rewrite (blk_mpalloc_at s A HL p ep Hp).
      apply wp_bind, wp_get_palloc. rewrite (blk_palloc_at s A HL p ep Hp).
      apply wp_bind, wp_get_size. rewrite (blk_size_at s A HL p ep Hp).
      apply wp_bind, wp_get_size. rewrite (blk_size_at s A HL b eb Hb).
      apply wp_bind, wp_get_size. rewrite (blk_size_at s A HL _ en Hn).
      cbv zeta. rewrite (wrap_small (bsz ep + bsz eb)) by lia.
      rewrite (wrap_small (bsz ep + bsz eb + bsz en)) by lia.
      apply wp_bind.
      eapply wp_mono; [apply (coalesce_both_spec p ep en Q Hp Epb Hpf Hn Hna)|].
      * intros s' F HR' HG Ha Hk0 Hc Hk.
        apply (HQ p s' F (bsz ep + bsz eb + bsz en) HR' HG Ha Hk0 Hc); auto; lia.
      * intros [] s1 H. apply wp_bind. eapply wp_mono; [exact H|].
        intros [] s2 H2. apply wp_bind. exact H2.
    + apply wp_bind, wp_find_prev. rewrite Hprev.
      apply wp_bind, wp_get_mpalloc. rewrite (blk_mpalloc_at s A HL p ep Hp).
      apply wp_bind, wp_get_palloc. rewrite (blk_palloc_at s A HL p ep Hp).
      apply wp_bind, wp_get_size. rewrite (blk_size_at s A HL p ep Hp).
      apply wp_bind, wp_get_size. rewrite (blk_size_at s A HL b eb Hb).
      cbv zeta. rewrite (wrap_small (bsz ep + bsz eb)) by lia.
      apply wp_bind.
      eapply wp_mono; [apply (coalesce_prev_spec p ep Q Hp Epb Hpf)|].
      * intros en' Hn'. congruence.
      * intros s' F HR' HG Ha Hk0 Hc Hk.
        apply (HQ p s' F (bsz ep + bsz eb) HR' HG Ha Hk0 Hc); auto; lia.
      * intros [] s1 H. apply wp_bind. exact H.
Qed.

End Coalesce.

Lemma same_arena_flags_preco s s' A b :
  same_arena s s' ->
  PreCo (heap_start s) (heap_end s) A b ->
  PreCo (heap_start s') (heap_end s') A b.
Proof.
  intros Ha. rewrite (same_arena_end s s' Ha).
  destruct Ha as (-> & _). auto.
Qed.

(** * The entry points keep the heap in order *)

(** Refreshing the flags after a block of a heap that is in order changes
    nothing that matters. *)
Lemma good_upd_mp_pa hs he A r e :
  Shape hs he A -> blocks A !! r = Some e -> Good hs he A ->
  Good hs he (upd_next_pa r (upd_next_mp r A)).
Proof.
  intros HSh Hr HG. apply good_views.
  - apply (flags_weaken hs he _ _ _ _ _
             (flags_upd_both' hs he A r e none none HSh Hr (good_flags hs he A HG)));
      tauto.
  - intros x sz al sz' al'. rewrite !cb_upd_pa, !cb_upd_mp.
    apply (good_noadj hs he A HG).
  - intros x sz al. rewrite cb_upd_pa, cb_upd_mp, inlist_upd_pa, inlist_upd_mp.
    apply (good_listed hs he A HG).
Qed.

Lemma good_upd_pa_mp hs he A r e :
  Shape hs he A -> blocks A !! r = Some e -> Good hs he A ->
  Good hs he (upd_next_mp r (upd_next_pa r A)).
Proof.
  intros HSh Hr HG. apply good_views.
  - apply (flags_weaken hs he _ _ _ _ _
             (flags_upd_both hs he A r e none none HSh Hr (good_flags hs he A HG)));
      tauto.
  - intros x sz al sz' al'. rewrite !cb_upd_mp, !cb_upd_pa.
    apply (good_noadj hs he A HG).
  - intros x sz al. rewrite cb_upd_mp, cb_upd_pa, inlist_upd_mp, inlist_upd_pa.
    apply (good_listed hs he A HG).
Qed.

(** ** [free] *)

Section Free.

Variables (fuel : nat) (s : state) (A : aheap) (b : Z) (eb : blk).
Hypothesis HR : Rep s A.
Hypothesis HG : Good (heap_start s) (heap_end s) A.
Hypothesis Hb : blocks A !! b = Some eb.
Hypothesis Hal : bal eb = true.
Hypothesis Hfuel : (length (minis A) < fuel)%nat.

Let e1 : blk := mkBlk (bsz eb) (bmp eb) (bpa eb) false.
Let A1 : aheap := set_block b e1 A.

Lemma free_cb x : cb A1 x = if decide (x = b) then Some (bsz eb, false) else cb A x.
Proof. unfold A1. rewrite cb_set_block. reflexivity. Qed.

Lemma free_preco : PreCo (heap_start s) (heap_end s) A1 b.
Proof.
  constructor.
  - apply (flags_weaken _ _ _ _ _ _ _
             (flags_set_alloc _ _ A b eb false none none Hb (good_flags _ _ _ HG)));
      unfold only, none; tauto.
  - intros x sz al sz' al'. rewrite !free_cb. intros Hx Hn N1 N2.
    destruct (decide (x = b)); [contradiction|].
    destruct (decide (x + sz = b)); [contradiction|].
    apply (good_noadj _ _ _ HG x sz al sz' al' Hx Hn).
  - intros x sz al. rewrite free_cb. intros Hx N.
    destruct (decide (x = b)); [contradiction|].
    apply (good_listed _ _ _ HG x sz al Hx).
Qed.

Lemma free_spec (Q : unit -> state -> Prop) :
  (forall s' F, Rep s' F -> Good (heap_start s') (heap_end s') F ->
     same_arena s s' ->
     (forall x sz, cb F x = Some (sz, true) <->
                   x <> b /\ cb A x = Some (sz, true)) ->
     (exists r sz, cb F r = Some (sz, false) /\ r <= b /\ b + bsz eb <= r + sz) ->
     (forall x e a, blocks A !! x = Some e -> bal e = true -> x <> b ->
        x < a < x + bsz e -> mem s' !! a = mem s !! a) ->
     Q tt s') ->
  wp (free fuel (b + 8)) Q s.
Proof.
  intros HQ. pose proof HR as [HL HS].
  pose proof (blk_bounds s A HL b eb Hb) as Bb.
  unfold free. rewrite (proj2 (Z.eqb_neq (b + 8) NULL)) by (unfold NULL; lia).
  unfold payload_to_header, off_payload. replace (b + 8 - 8) with b by lia.
  apply wp_bind, wp_get_size. rewrite (blk_size_at s A HL b eb Hb).
  apply wp_bind, wp_get_mpalloc. rewrite (blk_mpalloc_at s A HL b eb Hb).
  apply wp_bind, wp_get_palloc. rewrite (blk_palloc_at s A HL b eb Hb).
  apply wp_bind, wp_write_block.
  pose proof (rep_write_same s A b eb (bmp eb) (bpa eb) false HR Hb) as HR1.
  fold e1 in HR1. fold A1 in HR1.
  set (s1 := set_mem _ s) in *.
  assert (Ha1 : same_arena s s1) by apply same_arena_set_mem.
  assert (Hb1 : blocks A1 !! b = Some e1).
  { unfold A1, set_block, set_blocks. cbn [blocks]. apply lookup_insert_eq. }
  assert (Hunl : ~ listed A1 b e1).
  { unfold listed, e1. cbn [bsz]. change (~ listed A b eb). intros H.
    apply (g_listed _ _ _ HG b eb Hb) in H. congruence. }
  apply wp_bind.
  apply (coalesce_block_spec fuel s1 A1 b e1 HR1
           (same_arena_flags_preco s s1 A1 b Ha1 free_preco) Hb1 eq_refl Hunl Hfuel).
  intros r s2 F sz HR2 HG2 Ha2 Hk2 Hc Hle Hge Hk.
  pose proof Hc as Hc'. apply cb_Some in Hc' as (er & Hr & _).
  apply wp_bind. apply (update_next_mpalloc_spec s2 F r er _ HR2 Hr).
  intros s3 HR3 Ha3 Hk3.
  assert (exists e3, blocks (upd_next_mp r F) !! r = Some e3) as [e3 Hr3].
  { pose proof (cb_upd_mp r F r) as E. rewrite (cb_of F r er Hr) in E.
    apply cb_Some in E as (e3 & H3 & _). eauto. }
  apply (update_next_palloc_spec s3 _ r e3 _ HR3 Hr3).
  intros s4 HR4 Ha4 Hk4.
  pose proof (same_arena_trans _ _ _ Ha2 (same_arena_trans _ _ _ Ha3 Ha4)) as Ha24.
  assert (Hfr : forall x e a, blocks A !! x = Some e -> bal e = true -> x <> b ->
            x < a < x + bsz e -> mem s4 !! a = mem s !! a).
  { intros x e a Hx Hax Nx Hin.
    assert (H1 : held A1 a).
    { exists x, e. unfold A1, set_block, set_blocks, listed. cbn [blocks minis segs].
      rewrite lookup_insert_ne by congruence. repeat split; auto; try lia.
      intros Hl. apply (g_listed _ _ _ HG x e Hx) in Hl. congruence. }
    assert (H2 : held F a).
    { apply (good_held _ _ F a HG2).
      assert (Hcx : cb F x = Some (bsz e, true)).
      { apply Hk. rewrite free_cb. destruct (decide (x = b)); [contradiction|].
        rewrite (cb_of A x e Hx), Hax. reflexivity. }
      apply cb_Some in Hcx as (e' & Hx' & Es & Ea). exists x, e'.
      rewrite Es. auto. }
    rewrite (Hk4 a (held_upd_next_mp r F a H2)), (Hk3 a H2), (Hk2 a H1).
    unfold s1. cbn [mem set_mem].
    pose proof (blk_bounds s A HL x e Hx) as Bx.
    apply wbm_other; [lia|apply Bb| |];
      destruct (blk_apart s A HL x b e eb Hx Hb) as [E|[D|D]]; lia. }
  apply (HQ s4 _ HR4); [| | | |exact Hfr].
  - apply (same_arena_good' s1 s4 _ Ha24).
    apply (good_upd_mp_pa _ _ F r er); auto.
    destruct HR2 as [HL2 _]. pose proof (layout_shape s2 F HL2) as HSh.
    rewrite (same_arena_end s1 s2 Ha2) in HSh.
    destruct Ha2 as (E & _). rewrite E in HSh. exact HSh.
  - apply (same_arena_trans s s1 s4 Ha1 Ha24).
  - intros x sz'. rewrite cb_upd_pa, cb_upd_mp, (Hk x sz'), free_cb.
    destruct (decide (x = b)) as [->|N].
    + split; [discriminate|]. intros [N _]. contradiction.
    + split; [auto|]. intros [_ H]. exact H.
  - exists r, sz. rewrite cb_upd_pa, cb_upd_mp. unfold e1 in Hge. cbn [bsz] in Hge.
    auto.
Qed.

End Free.

(** ** [extend_heap] *)

Lemma round_up_mult size :
  0 <= size -> size + 15 < modulus -> size mod 16 = 0 ->
  round_up size dsize = size.
Proof.
  intros H1 H2 H3. unfold round_up, dsize, wsize, wrap.
  change (2 * 8 - 1) with 15. change (2 * 8) with 16.
  rewrite (Z.mod_small (size + 15)) by lia.
  assert (16 * ((size + 15) / 16) = size) as -> by (revert H3; divlia).
  apply Z.mod_small. lia.
Qed.

Lemma size_at_wbm s m x sz mp p a :
  0 <= sz < modulus -> sz mod 16 = 0 ->
  size_at (set_mem (write_block_mem m x sz mp p a) s) x = sz.
Proof.
  intros H1 H2. unfold size_at. rewrite load_word_set_mem.
  rewrite (wbm_hdr m x sz mp p a H1 H2). cbn. apply unpack_size; assumption.
Qed.

Section ExtendHeap.

Variables (fuel : nat) (s : state) (A : aheap) (size : Z).
Hypothesis HR : Rep s A.
Hypothesis HG : Good (heap_start s) (heap_end s) A.
Hypothesis Hs1 : 32 <= size.
Hypothesis Hs2 : size mod 16 = 0.
Hypothesis Hs3 : size + 15 < modulus.
Hypothesis Hfuel : (length (minis A) < fuel)%nat.

Let he : Z := heap_end s.
Let e1 : blk := mkBlk size (emp A) (epa A) false.
Let A1 : aheap := grow_heap he size (emp A) (epa A) A.

Lemma extend_cb x : cb A1 x = if decide (x = he) then Some (size, false) else cb A x.
Proof. apply (cb_grow s A size). Qed.

Lemma extend_he_none : blocks A !! he = None.
Proof.
  destruct HR as [HL _]. destruct (blocks A !! he) as [e|] eqn:E; [|reflexivity].
  pose proof (blk_bounds s A HL he e E). unfold he in *. lia.
Qed.

Lemma extend_preco : PreCo (heap_start s) (he + size) A1 he.
Proof.
  constructor.
  - apply (flags_weaken _ _ _ none none).
    + apply (flags_grow s A size HR Hs1). apply (good_flags _ _ _ HG).
    + intros x [].
    + intros x [].
  - intros x sz al sz' al'. rewrite !extend_cb. intros Hx Hn N1 N2.
    destruct (decide (x = he)); [contradiction|].
    destruct (decide (x + sz = he)); [contradiction|].
    apply (good_noadj _ _ _ HG x sz al sz' al' Hx Hn).
  - intros x sz al. rewrite extend_cb. intros Hx N.
    destruct (decide (x = he)); [contradiction|].
    apply (good_listed _ _ _ HG x sz al Hx).
Qed.

Lemma extend_unlisted : ~ listed A1 he e1.
Proof.
  destruct HR as [HL HS]. unfold listed, e1. cbn [bsz].
  rewrite (proj2 (Z.eqb_neq size 16)) by lia.
  change (segs A1) with (segs A). intros H.
  destruct (lst_seg_blk s A HS (home_address size) he) as (e0 & H0 & _);
    [apply home_address_range; lia|exact H|].
  rewrite extend_he_none in H0. discriminate.
Qed.

Lemma extend_heap_spec (Q : Z -> state -> Prop) :
  (mem_max s < mem_brk s + size -> Q NULL s) ->
  (forall r s' F sz, mem_brk s + size <= mem_max s ->
     Rep s' F -> Good (heap_start s') (heap_end s') F ->
     heap_start s' = heap_start s -> mem_brk s' = mem_brk s + size ->
     mem_max s' = mem_max s -> mem_lo s' = mem_lo s -> keeps A s s' ->
     cb F r = Some (sz, false) -> size <= sz ->
     (forall x sz', cb F x = Some (sz', true) <-> cb A x = Some (sz', true)) ->
     Q r s') ->
  wp (extend_heap fuel size (emp A) (epa A)) Q s.
Proof.
  intros HQ0 HQ. pose proof HR as [HL HS].
  unfold extend_heap. rewrite (round_up_mult size) by (auto; lia).
  apply wp_bind, wp_mem_sbrk_cases; [intros Hfit|intros Hno; apply wp_ret; auto].
  unfold payload_to_header, off_payload. fold (heap_end s). fold he.
  apply wp_bind, wp_write_block.
  apply wp_bind, wp_find_next. unfold next_of.
  rewrite size_at_wbm by (unfold modulus in *; lia).
  apply wp_bind, wp_isMiniBlock.
  rewrite size_at_wbm by (unfold modulus in *; lia).
  apply wp_bind, wp_write_epilogue.
  pose proof (rep_extend s A size (emp A) (epa A) HR Hs1 Hs2 Hfit) as HR1.
  fold he in HR1. fold A1 in HR1.
  match type of HR1 with Rep ?st _ => set (s1 := st) in * end.
  match goal with |- wp _ _ ?st => change st with s1 end.
  assert (E1 : heap_start s1 = heap_start s) by reflexivity.
  assert (E2 : heap_end s1 = he + size).
  { unfold s1, heap_end, he. st_simpl. unfold heap_end. lia. }
  assert (Hb1 : blocks A1 !! he = Some e1).
  { unfold A1, grow_heap, set_epi, set_block, set_blocks. cbn [blocks].
    apply lookup_insert_eq. }
  assert (HP : PreCo (heap_start s1) (heap_end s1) A1 he).
  { rewrite E1, E2. apply extend_preco. }
  assert (Hk1 : keeps A s s1).
  { intros a Ha.
    apply (extend_mem_other s A size (emp A) (epa A) HR Hs1 Hs2 Hfit).
    apply (held_below_end s A HL a Ha). }
  assert (Hi1 : forall a, held A a -> held A1 a).
  { intros a (x & e & Hx & Hal & Hnl & Hin). exists x, e.
    assert (N : he <> x) by (intros <-; rewrite extend_he_none in Hx; discriminate).
    split; [|split; [exact Hal|split; [exact Hnl|exact Hin]]].
    unfold A1, grow_heap, set_epi, set_block, set_blocks. cbn [blocks].
    rewrite lookup_insert_ne by exact N. exact Hx. }
  apply (coalesce_block_spec fuel s1 A1 he e1 HR1 HP Hb1 eq_refl extend_unlisted Hfuel).
  intros r s2 F sz HR2 HG2 Ha2 Hk2 Hc Hle Hge Hk.
  destruct Ha2 as (F1 & F2 & F3 & F4).
  apply (HQ r s2 F sz Hfit HR2).
  - unfold heap_end in *. rewrite F1, F2. exact HG2.
  - congruence.
  - rewrite F2. reflexivity.
  - rewrite F3. reflexivity.
  - rewrite F4. reflexivity.
  - apply (keeps_trans A A1 s s1 s2 Hk1 Hk2 Hi1).
  - exact Hc.
  - unfold e1 in Hge. cbn [bsz] in Hge. lia.
  - intros x sz'. rewrite (Hk x sz'), extend_cb.
    destruct (decide (x = he)) as [->|_]; [|reflexivity].
    split; [discriminate|]. intros Hx.
    apply cb_Some in Hx as (ex & Hx & _). rewrite extend_he_none in Hx. discriminate.
Qed.

End ExtendHeap.

(** ** [mm_init] *)

(** The arena before the heap is set up. *)
Definition arena_ok (s : state) : Prop :=
  0 <= mem_brk s /\ mem_brk s mod 16 = 0 /\ mem_brk s <= mem_max s < modulus.

Definition empty_heap : aheap := mkHeap ∅ false true [] (fun _ => []).

Lemma replicate_null (n k : nat) : default NULL (replicate k NULL !! n) = NULL.
Proof.
  destruct (replicate k NULL !! n) as [v|] eqn:E; [|reflexivity].
  apply lookup_replicate in E as [-> _]. reflexivity.
Qed.

Section Init.

Variable s : state.
Hypothesis Hok : arena_ok s.
Hypothesis Hfit : mem_brk s + 16 <= mem_max s.

Let start : Z := mem_brk s.
Let s1 : state :=
  set_heap_start (start + 8)
    (set_mem (<[start + 8 := pack 0 false true true]>
                (<[start := pack 0 false true true]> (mem s)))
       (set_brk (start + 16)
          (set_mini_root NULL (set_seglist (replicate 14 NULL) s)))).

Lemma init_rep : Rep s1 empty_heap.
Proof.
  destruct Hok as (H0 & H1 & H2 & H3). split.
  - constructor; unfold s1, heap_end, empty_heap; st_simpl; cbn [blocks emp epa];
      try (intros; match goal with H : ∅ !! _ = Some _ |- _ =>
                     rewrite lookup_empty in H; discriminate end).
    + fold start. lia.
    + fold start. revert H1. unfold start. divlia.
    + fold start. lia.
    + replace (start + 16 - 8) with (start + 8) by lia. apply lookup_insert_eq.
    + left. lia.
    + left. lia.
  - constructor; unfold s1, empty_heap; st_simpl; cbn [minis segs].
    + reflexivity.
    + reflexivity.
    + constructor.
    + intros x [].
    + intros idx Hi. apply (replicate_null (Z.to_nat idx) 14).
    + intros idx _. constructor.
    + intros idx x _ [].
Qed.

Lemma init_good : Good (heap_start s1) (heap_end s1) empty_heap.
Proof.
  constructor; unfold empty_heap; cbn [blocks epa emp];
    try (intros; match goal with H : ∅ !! _ = Some _ |- _ =>
                   rewrite lookup_empty in H; discriminate end).
  reflexivity.
Qed.

End Init.

Lemma mm_init_spec fuel s (Q : bool -> state -> Prop) :
  arena_ok s -> (0 < fuel)%nat ->
  (mem_max s < mem_brk s + 16 ->
   Q false (set_mini_root NULL (set_seglist (replicate 14 NULL) s))) ->
  (forall (ok : bool) s' F, mem_brk s + 16 <= mem_max s ->
     Rep s' F -> Good (heap_start s') (heap_end s') F ->
     mem_max s' = mem_max s -> mem_lo s' = mem_lo s ->
     heap_start s' = mem_brk s + 8 ->
     (if ok return Prop
      then mem_brk s' = mem_brk s + 528 /\
           forall x, cb F x = if decide (x = mem_brk s + 8)
                              then Some (512, false) else None
      else mem_max s < mem_brk s + 528 /\ mem_brk s' = mem_brk s + 16 /\
           forall x, cb F x = None) ->
     Q ok s') ->
  wp (mm_init fuel) Q s.
Proof.
  intros Hok Hfuel HQ0 HQ. unfold mm_init, seglist_init.
  apply wp_bind, wp_modify. apply wp_bind, wp_modify.
  apply wp_bind, wp_mem_sbrk_cases.
  - st_simpl. change (2 * wsize) with 16. intros Hfit.
    apply wp_bind, wp_store. apply wp_bind, wp_store. apply wp_bind, wp_modify.
    pose proof (init_rep s Hok Hfit) as HR1.
    pose proof (init_good s) as HG1.
    match type of HR1 with Rep ?st _ => set (s1 := st) in * end.
    match goal with |- wp _ _ ?st => change st with s1 end.
    assert (B1 : mem_brk s1 = mem_brk s + 16) by reflexivity.
    assert (H1 : heap_start s1 = mem_brk s + 8) by reflexivity.
    apply wp_bind.
    apply (extend_heap_spec fuel s1 empty_heap chunksize HR1 HG1).
    + vm_compute. discriminate.
    + reflexivity.
    + vm_compute. reflexivity.
    + cbn. lia.
    + intros Hno. cbn beta. rewrite Z.eqb_refl. apply wp_ret.
      apply (HQ false s1 empty_heap Hfit HR1 HG1); try reflexivity.
      change chunksize with 512 in Hno. rewrite B1 in Hno.
      change (mem_max s1) with (mem_max s) in Hno.
      split; [lia|]. split; [reflexivity|]. intros x. unfold cb, empty_heap.
      cbn [blocks]. rewrite lookup_empty. reflexivity.
    + intros r s' F sz Hfit' HR' HG' E1 E2 E3 E4 _ Hc Hle Hk.
      change chunksize with 512 in *. pose proof HR' as [HL' _].
      pose proof Hc as Hc'. apply cb_Some in Hc' as (er & Hr & Hsz & Hal).
      pose proof (blk_bounds s' F HL' r er Hr) as Br.
      pose proof (lay_in s' F HL' r er Hr) as Ir.
      assert (Hend : heap_end s' = mem_brk s + 520).
      { unfold heap_end. rewrite E2, B1. lia. }
      assert (Hall : forall x ex, blocks F !! x = Some ex -> bal ex = false).
      { intros x ex Hx. destruct (bal ex) eqn:Hb; [|reflexivity]. exfalso.
        assert (Hx' : cb F x = Some (bsz ex, true)).
        { rewrite (cb_of F x ex Hx), Hb. reflexivity. }
        apply Hk in Hx'. unfold cb, empty_heap in Hx'. cbn [blocks] in Hx'.
        rewrite lookup_empty in Hx'. discriminate. }
      assert (Hone : forall x ex, blocks F !! x = Some ex ->
                x = mem_brk s + 8 /\ bsz ex = 512).
      { intros x ex Hx. pose proof (blk_bounds s' F HL' x ex Hx) as Bx.
        pose proof (lay_in s' F HL' x ex Hx) as Ix.
        destruct (Z.eq_dec x (mem_brk s + 8)) as [->|N].
        - split; [reflexivity|].
          destruct (lay_next s' F HL' _ ex Hx) as [E|[en Hn]]; [lia|].
          pose proof (g_noadj _ _ _ HG' _ ex en Hx Hn) as [H|H];
            [rewrite (Hall _ ex Hx) in H|rewrite (Hall _ en Hn) in H]; discriminate.
        - exfalso. destruct (lay_prev s' F HL' x ex Hx) as [E|(y & ey & Hy & Ey)];
            [lia|].
          pose proof (g_noadj _ _ _ HG' y ey ex Hy) as K. rewrite Ey in K.
          destruct (K Hx) as [H|H];
            [rewrite (Hall _ ey Hy) in H|rewrite (Hall _ ex Hx) in H]; discriminate. }
      destruct (Hone r er Hr) as [-> Hsz512].
      rewrite (proj2 (Z.eqb_neq _ NULL)) by (unfold NULL, arena_ok in *; lia).
      apply wp_ret.
      apply (HQ true s' F Hfit HR' HG'); rewrite ?E3, ?E4, ?E1; try reflexivity.
      split; [rewrite E2, B1; lia|].
      intros x. destruct (decide (x = mem_brk s + 8)) as [->|N].
      * rewrite Hc. f_equal. f_equal. lia.
      * destruct (cb F x) as [[sz' al']|] eqn:Ec; [|reflexivity]. exfalso.
        apply cb_Some in Ec as (ex & Hx & _). destruct (Hone x ex Hx). contradiction.
  - st_simpl. change (2 * wsize) with 16. intros Hno. apply wp_ret.
    apply HQ0. exact Hno.
Qed.

(** ** [split_block] *)

(** The heap after a block was carved into an allocated part of [asize]
    bytes and a free, listed rest. *)
Record Carved (A F : aheap) (b asize rest : Z) : Prop := mkCarved {
  cv_b : cb F b = Some (asize, true);
  cv_r : cb F (b + asize) = Some (rest, false);
  cv_other : forall x, x <> b -> x <> b + asize -> cb F x = cb A x;
  cv_in : inlist F (b + asize) rest;
  cv_out : forall sz, sz = 16 \/ 32 <= sz -> ~ inlist F b sz;
  cv_lists : forall x sz, x <> b -> x <> b + asize ->
               (inlist F x sz <-> inlist A x sz)
}.

(** The heap after a block was taken whole. *)
Record Taken (A F : aheap) (b size : Z) : Prop := mkTaken {
  tk_b : cb F b = Some (size, true);
  tk_other : forall x, x <> b -> cb F x = cb A x;
  tk_out : forall sz, sz = 16 \/ 32 <= sz -> ~ inlist F b sz;
  tk_lists : forall x sz, x <> b -> (inlist F x sz <-> inlist A x sz)
}.

Lemma not_block_unlisted s A x sz :
  Rep s A -> blocks A !! x = None -> sz = 16 \/ 32 <= sz -> ~ inlist A x sz.
Proof.
  intros [HL HS] Hx Hsz H. unfold inlist in H.
  destruct (Z.eqb_spec sz 16) as [E|E].
  - destruct (lst_mini_blk s A HS x H) as (e0 & H0 & _). congruence.
  - destruct (lst_seg_blk s A HS (home_address sz) x) as (e0 & H0 & _);
      [apply home_address_range; lia|exact H|]. congruence.
Qed.

Section SplitBlock.

Variables (fuel : nat) (s : state) (A : aheap) (b : Z) (eb : blk) (asize : Z).
Hypothesis HR : Rep s A.
Hypothesis Hb : blocks A !! b = Some eb.
Hypothesis Hl : listed A b eb.
Hypothesis Ha1 : 16 <= asize.
Hypothesis Ha2 : asize mod 16 = 0.
Hypothesis Ha3 : asize <= bsz eb.
Hypothesis Hfuel : (length (minis A) < fuel)%nat.

Let hs : Z := heap_start s.
Let he : Z := heap_end s.
Let rest : Z := bsz eb - asize.

Lemma split_block_frame (Q : unit -> state -> Prop) :
  (16 <= rest -> forall s' F, Rep s' F -> same_arena s s' -> keeps A s s' ->
     Carved A F b asize rest ->
     (Flags hs he A (only b) none -> Flags hs he F none none) -> Q tt s') ->
  (rest < 16 -> forall s' F, Rep s' F -> same_arena s s' -> keeps A s s' ->
     Taken A F b (bsz eb) ->
     (Flags hs he A (only b) none -> Flags hs he F none none) -> Q tt s') ->
  wp (split_block fuel b asize) Q s.
Proof.
  intros HQ1 HQ2. pose proof HR as [HL HS].
  pose proof (blk_bounds s A HL b eb Hb) as Bb.
  unfold split_block.
  apply wp_bind, wp_get_size. rewrite (blk_size_at s A HL b eb Hb).
  rewrite (wrap_small (bsz eb - asize)) by lia. fold rest.
  unfold min_block_size, dsize, wsize. change (2 * 8) with 16.
  assert (Hb2 : blocks (rm_heap b eb A) !! b = Some eb).
  { rewrite (blocks_rm_other A b eb Hb); [exact Hb|lia]. }
  assert (Hc2 : forall x, cb (rm_heap b eb A) x = cb A x)
    by (intros x; apply cb_rm_heap).
  destruct (Z.leb_spec 16 rest) as [Hsp|Hsp].
  - (* split *)
    apply wp_bind, wp_get_mpalloc. rewrite (blk_mpalloc_at s A HL b eb Hb).
    apply wp_bind, wp_get_palloc. rewrite (blk_palloc_at s A HL b eb Hb).
    apply wp_bind. apply (removeVagueBlock_spec fuel s A b eb _ HR Hb Hl Hfuel).
    intros s1 HR1 Ha1' Hk1. set (A2 := rm_heap b eb A) in *.
    assert (Hunl2 : forall sz, sz = 16 \/ 32 <= sz -> ~ inlist A2 b sz).
    { intros sz Hsz. apply (inlist_rm_self s A b eb HR Hb sz Hsz). }
    apply wp_bind, wp_write_block.
    apply wp_bind, wp_find_next. unfold next_of.
    rewrite size_at_wbm by (unfold modulus in *; lia).
    apply wp_bind, wp_isMiniBlock.
    rewrite size_at_wbm by (unfold modulus in *; lia).
    apply wp_bind, wp_write_block. unfold MINI_BLOCK_SIZE.
    assert (Ha3' : asize + 16 <= bsz eb) by (unfold rest in Hsp; lia).
    pose proof (rep_split s1 A2 b eb asize (bmp eb) (bpa eb) (asize =? 16) true
                  HR1 Hb2 Ha1 Ha2 Ha3'
                  (Hunl2 (bsz eb) (valid_size s A b eb HL Hb))) as HR3.
    fold rest in HR3.
    match type of HR3 with Rep ?st ?hp => set (s3 := st) in *; set (A3 := hp) in * end.
    match goal with |- wp _ _ ?st => change st with s3 end.
    set (r := b + asize) in *.
    set (e2 := mkBlk rest (asize =? 16) true false) in *.
    assert (Hr3 : blocks A3 !! r = Some e2).
    { unfold A3, set_blocks. cbn [blocks]. apply lookup_insert_eq. }
    assert (Hc3 : forall x, cb A3 x =
              if decide (x = r) then Some (rest, false)
              else if decide (x = b) then Some (asize, true) else cb A x).
    { intros x. rewrite <- Hc2. apply (cb_split A2 b eb asize x). }
    assert (Hrn : blocks A2 !! r = None).
    { destruct (blocks A2 !! r) as [er|] eqn:E; [|reflexivity].
      destruct HR1 as [HL1 _].
      pose proof (blk_bounds s1 A2 HL1 r er E).
      destruct (blk_apart s1 A2 HL1 r b er eb E Hb2) as [H1|H1]; unfold r in *; lia. }
    assert (Hunl3 : ~ listed A3 r e2).
    { unfold listed, e2. cbn [bsz]. change (~ inlist A2 r rest).
      apply (not_block_unlisted s1 A2 r rest HR1 Hrn).
      unfold rest. revert Hsp Ha2. destruct Bb as (_ & Mb & _). revert Mb.
      unfold rest. divlia. }
    apply wp_bind. apply (insertVagueBlock_spec s3 A3 r e2 _ HR3 Hr3 Hunl3 eq_refl).
    intros s4 HR4 Ha4 Hk4. set (A4 := ins_heap r e2 A3) in *.
    assert (Hr4 : blocks A4 !! r = Some e2).
    { unfold A4. rewrite (blocks_ins_other A3 r e2 Hr3); [exact Hr3|].
      unfold e2. cbn [bsz]. lia. }
    apply wp_bind. apply (update_next_mpalloc_spec s4 A4 r e2 _ HR4 Hr4).
    intros s5 HR5 Ha5 Hk5.
    assert (exists e5, blocks (upd_next_mp r A4) !! r = Some e5) as [e5 Hr5].
    { pose proof (cb_upd_mp r A4 r) as E. rewrite (cb_of A4 r e2 Hr4) in E.
      apply cb_Some in E as (e5 & H5 & _). eauto. }
    apply (update_next_palloc_spec s5 _ r e5 _ HR5 Hr5).
    intros s6 HR6 Ha6 Hk6.
    assert (Ha13 : same_arena s1 s3) by apply same_arena_set_mem.
    pose proof (same_arena_trans _ _ _ Ha1' (same_arena_trans _ _ _ Ha13 Ha4)) as Ha04.
    assert (HcF : forall x, cb (upd_next_pa r (upd_next_mp r A4)) x = cb A3 x).
    { intros x. rewrite cb_upd_pa, cb_upd_mp. apply (cb_ins_heap A3 r e2). }
    assert (HiF : forall x sz, x <> r ->
              (inlist (upd_next_pa r (upd_next_mp r A4)) x sz <-> inlist A2 x sz)).
    { intros x sz N. rewrite inlist_upd_pa, inlist_upd_mp.
      apply (inlist_ins_other A3 r e2 x sz N). }
    apply (HQ1 Hsp s6 _ HR6).
    + apply (same_arena_trans _ _ _ Ha04 (same_arena_trans _ _ _ Ha5 Ha6)).
    + intros a Ha.
      assert (H3 : held A3 a).
      { revert Ha. apply held_mono. intros x sz Hc Hnl.
        assert (Nb : x <> b).
        { intros ->. rewrite (cb_of A b eb Hb) in Hc. injection Hc as <- _.
          apply Hnl. exact Hl. }
        assert (Nr : x <> r).
        { intros ->. rewrite <- Hc2 in Hc. apply cb_Some in Hc as (er & Hr & _).
          congruence. }
        rewrite Hc3. destruct (decide (x = r)); [contradiction|].
        destruct (decide (x = b)); [contradiction|].
        split; [exact Hc|]. change (~ inlist A2 x sz).
        intros H. apply Hnl. apply (inlist_rm_other A b eb x sz Nb). exact H. }
      assert (H4 : held A4 a) by apply (held_ins_heap A3 r e2 a Hr3 eq_refl H3).
      rewrite (Hk6 a (held_upd_next_mp r A4 a H4)), (Hk5 a H4), (Hk4 a H3).
      rewrite <- (Hk1 a Ha).
      destruct (held_apart s A HL a b eb Ha Hb) as [Nb D].
      specialize (D (or_intror Hl)).
      apply (split_mem_other s1 A2 b eb asize _ _ _ _ HR1 Hb2); try assumption;
        unfold r in *; lia.
    + constructor; fold r.
      * rewrite HcF, Hc3. destruct (decide (b = r)); [unfold r in *; lia|].
        destruct (decide (b = b)); [reflexivity|contradiction].
      * rewrite HcF, Hc3. destruct (decide (r = r)); [reflexivity|contradiction].
      * intros x N1 N2. rewrite HcF, Hc3.
        destruct (decide (x = r)); [contradiction|].
        destruct (decide (x = b)); [contradiction|reflexivity].
      * rewrite inlist_upd_pa, inlist_upd_mp. apply (inlist_ins_self A3 r e2).
      * intros sz Hsz. rewrite HiF by (unfold r; lia). apply Hunl2. exact Hsz.
      * intros x sz N1 N2. rewrite (HiF x sz N2).
        apply (inlist_rm_other A b eb x sz N1).
    + intros HF.
      pose proof (flags_rm_heap s A b eb HR Hb _ _ HF) as HF2. fold A2 in HF2.
      pose proof (flags_split s1 A2 b eb asize HR1 Hb2 Ha1 Ha3' _ _
                    (same_arena_flags s s1 A2 _ _ Ha1' HF2)) as HF3.
      change (split_heap _ _ _ _ _ _ _ _) with A3 in HF3.
      pose proof (flags_ins_heap s3 A3 r e2 HR3 Hr3 _ _
                    (same_arena_flags s1 s3 A3 _ _ Ha13 HF3)) as HF4.
      fold A4 in HF4.
      destruct HR4 as [HL4 _]. pose proof (layout_shape s4 A4 HL4) as HSh.
      rewrite (same_arena_end s3 s4 Ha4) in HSh.
      assert (E : heap_start s4 = heap_start s3) by apply Ha4.
      rewrite E in HSh.
      pose proof (flags_upd_both' _ _ A4 r e2 _ _ HSh Hr4 HF4) as HF6.
      assert (E3 : heap_start s3 = hs) by (destruct Ha1' as (K & _); exact K).
      assert (E4 : heap_end s3 = he).
      { unfold he. rewrite (same_arena_end s1 s3 Ha13). apply (same_arena_end s s1 Ha1'). }
      rewrite E3, E4 in HF6.
      apply (flags_weaken _ _ _ _ _ _ _ HF6); unfold only, none; fold r; tauto.
  - (* the whole block *)
    apply wp_bind, wp_get_mpalloc. rewrite (blk_mpalloc_at s A HL b eb Hb).
    apply wp_bind, wp_get_palloc. rewrite (blk_palloc_at s A HL b eb Hb).
    apply wp_bind. apply (removeVagueBlock_spec fuel s A b eb _ HR Hb Hl Hfuel).
    intros s1 HR1 Ha1' Hk1. set (A2 := rm_heap b eb A) in *.
    apply wp_bind, wp_write_block.
    pose proof (rep_write_same s1 A2 b eb (bmp eb) (bpa eb) true HR1 Hb2) as HR3.
    match type of HR3 with Rep ?st ?hp => set (s3 := st) in *; set (A3 := hp) in * end.
    set (e3 := mkBlk (bsz eb) (bmp eb) (bpa eb) true) in *.
    assert (Hb3 : blocks A3 !! b = Some e3).
    { unfold A3, set_block, set_blocks. cbn [blocks]. apply lookup_insert_eq. }
    apply wp_bind. apply (update_next_palloc_spec s3 A3 b e3 _ HR3 Hb3).
    intros s4 HR4 Ha4 Hk4.
    assert (exists e4, blocks (upd_next_pa b A3) !! b = Some e4) as [e4 Hb4].
    { pose proof (cb_upd_pa b A3 b) as E. rewrite (cb_of A3 b e3 Hb3) in E.
      apply cb_Some in E as (e4 & H4 & _). eauto. }
    apply (update_next_mpalloc_spec s4 _ b e4 _ HR4 Hb4).
    intros s5 HR5 Ha5 Hk5.
    assert (Ha13 : same_arena s1 s3) by apply same_arena_set_mem.
    assert (HcF : forall x, cb (upd_next_mp b (upd_next_pa b A3)) x =
              if decide (x = b) then Some (bsz eb, true) else cb A x).
    { intros x. rewrite cb_upd_mp, cb_upd_pa. unfold A3. rewrite cb_set_block.
      destruct (decide (x = b)); [reflexivity|apply Hc2]. }
    apply (HQ2 Hsp s5 _ HR5).
    + apply (same_arena_trans _ _ _ Ha1'
               (same_arena_trans _ _ _ Ha13 (same_arena_trans _ _ _ Ha4 Ha5))).
    + intros a Ha.
      assert (H2 : held A2 a) by (apply held_rm_heap; exact Ha).
      assert (H3 : held A3 a)
        by apply (held_set_block A2 b eb e3 a Hb2 eq_refl (fun _ => eq_refl) H2).
      rewrite (Hk5 a (held_upd_next_pa b A3 a H3)), (Hk4 a H3).
      rewrite <- (Hk1 a Ha). destruct HR1 as [HL1 _].
      apply (keeps_write_same s1 A2 HL1 b eb (bmp eb) (bpa eb) true Hb2
               (or_introl eq_refl) a H2).
    + constructor.
      * rewrite HcF. destruct (decide (b = b)); [reflexivity|contradiction].
      * intros x N. rewrite HcF. destruct (decide (x = b)); [contradiction|reflexivity].
      * intros sz Hsz. rewrite inlist_upd_mp, inlist_upd_pa.
        apply (inlist_rm_self s A b eb HR Hb sz Hsz).
      * intros x sz N. rewrite inlist_upd_mp, inlist_upd_pa.
        apply (inlist_rm_other A b eb x sz N).
    + intros HF.
      pose proof (flags_rm_heap s A b eb HR Hb _ _ HF) as HF2. fold A2 in HF2.
      pose proof (flags_set_alloc _ _ A2 b eb true _ _ Hb2 HF2) as HF3.
      fold e3 in HF3. change (set_block b e3 A2) with A3 in HF3.
      destruct HR3 as [HL3 _]. pose proof (layout_shape s3 A3 HL3) as HSh.
      assert (E3 : heap_start s3 = hs) by (destruct Ha1' as (K & _); exact K).
      assert (E4 : heap_end s3 = he).
      { unfold he. rewrite (same_arena_end s1 s3 Ha13). apply (same_arena_end s s1 Ha1'). }
      rewrite E3, E4 in HSh.
      pose proof (flags_upd_both _ _ A3 b e3 _ _ HSh Hb3 HF3) as HF5.
      apply (flags_weaken _ _ _ _ _ _ _ HF5); unfold only, none; tauto.
Qed.


End SplitBlock.

(** * Fuel

    The list walks take a bound on their length.  No list is longer than
    the arena can hold blocks. *)

Definition fuel_ok (s : state) (fuel : nat) : Prop :=
  mem_max s / 16 < Z.of_nat fuel.

Lemma addr_list_bound (l : list Z) lo hi :
  List.NoDup l ->
  (forall x, In x l -> lo <= x /\ x + 16 <= hi /\ (x - lo) mod 16 = 0) ->
  Z.of_nat (length l) <= Z.max 0 ((hi - lo) / 16).
Proof.
  intros Hnd Hin.
  set (N := Z.to_nat ((hi - lo) / 16)).
  set (l' := List.map (fun k => lo + 16 * Z.of_nat k) (List.seq 0 N)).
  assert (Hincl : List.incl l l').
  { intros x Hx. destruct (Hin x Hx) as (H1 & H2 & H3).
    apply List.in_map_iff. exists (Z.to_nat ((x - lo) / 16)). split.
    - rewrite Z2Nat.id by (apply Z.div_pos; lia). revert H3. divlia.
    - apply List.in_seq. split; [lia|]. unfold N. cbn.
      apply Z2Nat.inj_lt; try (apply Z.div_pos; lia).
      revert H3. divlia. }
  pose proof (List.NoDup_incl_length Hnd Hincl) as Hlen.
  unfold l' in Hlen. rewrite List.length_map, List.length_seq in Hlen.
  unfold N in Hlen. lia.
Qed.

Lemma rep_lists_fit s A fuel :
  Rep s A -> fuel_ok s fuel ->
  (length (minis A) < fuel)%nat /\
  (forall i, 0 <= i < 14 -> (length (segs A i) < fuel)%nat).
Proof.
  intros [HL HS] Hf. unfold fuel_ok in Hf.
  pose proof (lay_start s A HL) as H1. pose proof (lay_max s A HL) as H2.
  pose proof (lay_align s A HL) as H3.
  assert (K : forall l, List.NoDup l ->
            (forall x, In x l -> exists e, blocks A !! x = Some e) ->
            (length l < fuel)%nat).
  { intros l Hnd Hb.
    pose proof (addr_list_bound l (heap_start s) (heap_end s) Hnd) as B.
    assert (Z.of_nat (length l) <= Z.max 0 ((heap_end s - heap_start s) / 16)).
    { apply B. intros x Hx. destruct (Hb x Hx) as (e & He).
      pose proof (blk_bounds s A HL x e He).
      destruct (lay_size s A HL x e He) as (_ & _ & Hal).
      pose proof (lay_in s A HL x e He).
      repeat split; try lia. revert H3 Hal. divlia. }
    assert ((heap_end s - heap_start s) / 16 <= mem_max s / 16).
    { apply Z.div_le_mono; [lia|]. unfold heap_end in *. lia. }
    assert (0 <= mem_max s / 16) by (apply Z.div_pos; unfold heap_end in *; lia).
    lia. }
  split.
  - apply K; [apply (lst_mini_nodup s A HS)|].
    intros x Hx. destruct (lst_mini_blk s A HS x Hx) as (e & He & _). eauto.
  - intros i Hi. apply K; [apply (lst_seg_nodup s A HS i Hi)|].
    intros x Hx. destruct (lst_seg_blk s A HS i x Hi Hx) as (e & He & _). eauto.
Qed.

(** * [malloc] *)

(** The adjusted size is a multiple of 16 that fits a word, whatever the
    request. *)
Lemma asize_shape size :
  let a := round_up (wrap (size + wsize)) dsize in
  0 <= a /\ a mod 16 = 0 /\ a + 15 < modulus.
Proof.
  cbv zeta. unfold round_up, dsize, wsize, wrap.
  change (2 * 8 - 1) with 15. change (2 * 8) with 16.
  set (x := (size + 8) mod modulus).
  set (k := ((x + 15) mod modulus) / 16).
  assert (0 <= x < modulus) by (apply Z.mod_pos_bound; reflexivity).
  assert (0 <= (x + 15) mod modulus < modulus) by (apply Z.mod_pos_bound; reflexivity).
  assert (0 <= k <= (modulus - 1) / 16).
  { unfold k. split; [apply Z.div_pos; lia|apply Z.div_le_mono; lia]. }
  assert (Hk : 0 <= 16 * k <= modulus - 16).
  { change ((modulus - 1) / 16) with 1152921504606846975 in *.
    unfold modulus in *. lia. }
  rewrite (Z.mod_small (16 * k)) by lia.
  repeat split; try lia. rewrite Z.mul_comm. apply Z.mod_mul. lia.
Qed.

(** Without wrap-around the adjusted size covers the request and the
    header. *)
Lemma asize_covers size :
  0 < size <= SIZE_MAX - 23 ->
  size + 8 <= round_up (wrap (size + wsize)) dsize.
Proof.
  intros H. unfold round_up, dsize, wsize, wrap, SIZE_MAX in *.
  change (2 * 8 - 1) with 15. change (2 * 8) with 16.
  unfold modulus in *.
  rewrite (Z.mod_small (size + 8)) by lia.
  rewrite (Z.mod_small (size + 8 + 15)) by lia.
  rewrite Z.mod_small; divlia.
Qed.

Section MallocFind.

Variables (fuel : nat) (s : state) (A : aheap) (asize : Z).
Hypothesis HR : Rep s A.
Hypothesis HG : Good (heap_start s) (heap_end s) A.
Hypothesis Hfuel : fuel_ok s fuel.
Hypothesis Has1 : 0 <= asize.
Hypothesis Has2 : asize mod 16 = 0.
Hypothesis Has3 : asize + 15 < modulus.

Lemma malloc_found_spec :
  wp (if asize =? MINI_BLOCK_SIZE then
        let* root := gets mini_root in
        if root =? NULL then find_fit fuel asize 0 else ret root
      else
        let home := home_address asize in
        find_fit fuel asize home)
     (fun r s' => s' = s /\ fit_ok A asize r) s.
Proof.
  pose proof HR as [HL HS].
  destruct (rep_lists_fit s A fuel HR Hfuel) as [Hf1 Hf2].
  unfold MINI_BLOCK_SIZE. destruct (Z.eqb_spec asize 16) as [E|E].
  - apply wp_bind, wp_gets.
    destruct (Z.eqb_spec (mini_root s) NULL) as [E0|E0].
    + apply (find_fit_spec s A asize HR fuel 0 Hf2). lia.
    + apply wp_ret. split; [reflexivity|]. right.
      pose proof (lst_mini s A HS) as Hsl.
      destruct (minis A) as [|x l] eqn:Hm; [cbn in Hsl; contradiction|].
      cbn [sll] in Hsl. destruct Hsl as (Hx & _).
      destruct (lst_mini_blk s A HS x) as (e & He & Hsz); [rewrite Hm; left; reflexivity|].
      exists e. rewrite Hx. repeat split; [exact He|lia|].
      unfold listed. rewrite Hsz. cbn. rewrite Hm. left. reflexivity.
  - cbv zeta. apply (find_fit_spec s A asize HR fuel _ Hf2).
    destruct (Z.eq_dec asize 0) as [->|N]; [vm_compute; split; [discriminate|reflexivity]|].
    apply home_address_range. revert Has2. divlia.
Qed.

Lemma max_chunk :
  32 <= max asize chunksize /\ max asize chunksize mod 16 = 0 /\
  max asize chunksize + 15 < modulus /\ asize <= max asize chunksize.
Proof.
  unfold max. change chunksize with 512. unfold modulus in *.
  destruct (Z.ltb_spec 512 asize); repeat split; try lia; try exact Has2.
Qed.

Lemma malloc_block_spec found (Q : Z -> state -> Prop) :
  fit_ok A asize found ->
  (mem_max s < mem_brk s + max asize chunksize -> Q NULL s) ->
  (forall b s' F e, Rep s' F -> Good (heap_start s') (heap_end s') F ->
     heap_start s' = heap_start s -> mem_brk s <= mem_brk s' ->
     mem_max s' = mem_max s -> mem_lo s' = mem_lo s -> keeps A s s' ->
     blocks F !! b = Some e -> bal e = false -> asize <= bsz e ->
     (forall x sz, cb F x = Some (sz, true) <-> cb A x = Some (sz, true)) ->
     Q b s') ->
  wp (if found =? NULL then
        let* hi := gets mem_heap_hi in
        let* old_mpalloc := get_mpalloc (hi - 7) in
        let* old_palloc := get_palloc (hi - 7) in
        let extendsize := max asize chunksize in
        extend_heap fuel extendsize old_mpalloc old_palloc
      else ret found) Q s.
Proof.
  intros Hok HQ0 HQ. pose proof HR as [HL HS].
  destruct (rep_lists_fit s A fuel HR Hfuel) as [Hf1 Hf2].
  destruct (Z.eqb_spec found NULL) as [E|E].
  - apply wp_bind, wp_gets. unfold mem_heap_hi.
    replace (mem_brk s - 1 - 7) with (heap_end s) by (unfold heap_end; lia).
    apply wp_bind, wp_get_mpalloc. rewrite (epi_mpalloc_at s A HL).
    apply wp_bind, wp_get_palloc. rewrite (epi_palloc_at s A HL).
    cbv zeta. destruct max_chunk as (M1 & M2 & M3 & M4).
    apply (extend_heap_spec fuel s A _ HR HG M1 M2 M3 Hf1).
    + exact HQ0.
    + intros r s' F sz Hfit HR' HG' E1 E2 E3 E4 Hkp Hc Hle Hk.
      apply cb_Some in Hc as (e & He & Hsz & Hal).
      apply (HQ r s' F e HR' HG'); auto; lia.
  - apply wp_ret. destruct Hok as [->|(e & He & Hle & Hl)]; [contradiction|].
    apply (HQ found s A e HR HG); auto; try lia; try (intros; reflexivity);
      try apply keeps_refl.
    destruct (bal e) eqn:Hal; [|reflexivity].
    apply (g_listed _ _ _ HG found e He) in Hl. congruence.
Qed.

End MallocFind.

(** Carving an allocated part out of a free block of a heap in order
    leaves the heap in order, once the flags are right. *)
Lemma carved_good s F0 A1 F' b e asize :
  Rep s F0 -> Good (heap_start s) (heap_end s) F0 ->
  blocks F0 !! b = Some e -> bal e = false ->
  (forall x, x <> b -> cb A1 x = cb F0 x) ->
  (forall x sz, inlist A1 x sz <-> inlist F0 x sz) ->
  16 <= asize -> asize mod 16 = 0 -> 16 <= bsz e - asize ->
  Carved A1 F' b asize (bsz e - asize) ->
  Flags (heap_start s) (heap_end s) F' none none ->
  Good (heap_start s) (heap_end s) F'.
Proof.
  intros [HL HS] HG Hb Hf Hc1 Hi1 Ha1 Ha2 Hrest [c1 c2 c3 c4 c5 c6] HF.
  pose proof (blk_bounds s F0 HL b e Hb) as Bb.
  set (r := b + asize) in *.
  assert (Hc : forall x, x <> b -> x <> r -> cb F' x = cb F0 x).
  { intros x N1 N2. rewrite (c3 x N1 N2). apply (Hc1 x N1). }
  assert (Hnb : forall x sz al, cb F0 x = Some (sz, al) -> x <> r /\ x + sz <> r).
  { intros x sz al Hx. apply cb_Some in Hx as (ex & Hx & <- & _).
    pose proof (blk_bounds s F0 HL x ex Hx).
    destruct (blk_apart s F0 HL x b ex e Hx Hb) as [->|[H1|H1]];
      [assert (ex = e) by congruence; subst ex|..]; unfold r; lia. }
  apply good_views; [exact HF| |].
  - intros x sz al sz' al' Hx Hn.
    destruct (Z.eq_dec x b) as [->|Nb].
    { left. rewrite c1 in Hx. congruence. }
    destruct (Z.eq_dec x r) as [->|Nr].
    { right. rewrite c2 in Hx. injection Hx as <- <-.
      replace (r + (bsz e - asize)) with (b + bsz e) in Hn by (unfold r; lia).
      rewrite Hc in Hn by (unfold r; lia).
      destruct (good_noadj _ _ _ HG b (bsz e) false sz' al') as [H|H];
        auto; try discriminate.
      rewrite (cb_of F0 b e Hb), Hf. reflexivity. }
    rewrite (Hc x Nb Nr) in Hx. destruct (Hnb x sz al Hx) as [_ N2].
    destruct (Z.eq_dec (x + sz) b) as [E|Nn].
    { right. rewrite E, c1 in Hn. congruence. }
    rewrite (Hc _ Nn N2) in Hn.
    apply (good_noadj _ _ _ HG x sz al sz' al' Hx Hn).
  - intros x sz al Hx.
    destruct (Z.eq_dec x b) as [->|Nb].
    { rewrite c1 in Hx. injection Hx as <- <-. split; [discriminate|].
      intros H. exfalso. apply (c5 asize); [revert Ha1 Ha2; divlia|exact H]. }
    destruct (Z.eq_dec x r) as [->|Nr].
    { rewrite c2 in Hx. injection Hx as <- <-. split; auto. }
    rewrite (Hc x Nb Nr) in Hx. rewrite (c6 x sz Nb Nr), Hi1.
    apply (good_listed _ _ _ HG x sz al Hx).
Qed.

Lemma taken_good s F0 A1 F' b e :
  Rep s F0 -> Good (heap_start s) (heap_end s) F0 ->
  blocks F0 !! b = Some e ->
  (forall x, x <> b -> cb A1 x = cb F0 x) ->
  (forall x sz, inlist A1 x sz <-> inlist F0 x sz) ->
  Taken A1 F' b (bsz e) ->
  Flags (heap_start s) (heap_end s) F' none none ->
  Good (heap_start s) (heap_end s) F'.
Proof.
  intros [HL HS] HG Hb Hc1 Hi1 [c1 c2 c3 c4] HF.
  assert (Hc : forall x, x <> b -> cb F' x = cb F0 x).
  { intros x N. rewrite (c2 x N). apply (Hc1 x N). }
  apply good_views; [exact HF| |].
  - intros x sz al sz' al' Hx Hn.
    destruct (Z.eq_dec x b) as [->|Nb].
    { left. rewrite c1 in Hx. congruence. }
    destruct (Z.eq_dec (x + sz) b) as [E|Nn].
    { right. rewrite E, c1 in Hn. congruence. }
    rewrite (Hc x Nb) in Hx. rewrite (Hc _ Nn) in Hn.
    apply (good_noadj _ _ _ HG x sz al sz' al' Hx Hn).
  - intros x sz al Hx.
    destruct (Z.eq_dec x b) as [->|Nb].
    { rewrite c1 in Hx. injection Hx as <- <-. split; [discriminate|].
      intros H. exfalso. apply (c3 (bsz e)); [apply (valid_size s F0 b e HL Hb)|exact H]. }
    rewrite (Hc x Nb) in Hx. rewrite (c4 x sz Nb), Hi1.
    apply (good_listed _ _ _ HG x sz al Hx).
Qed.

Section MallocTake.

Variables (fuel : nat) (s : state) (F : aheap) (b : Z) (e : blk) (asize : Z).
Hypothesis HR : Rep s F.
Hypothesis HG : Good (heap_start s) (heap_end s) F.
Hypothesis Hfuel : fuel_ok s fuel.
Hypothesis Hb : blocks F !! b = Some e.
Hypothesis Hfree : bal e = false.
Hypothesis Ha1 : 16 <= asize.
Hypothesis Ha2 : asize mod 16 = 0.
Hypothesis Ha3 : asize <= bsz e.

Lemma malloc_take_spec (Q : Z -> state -> Prop) :
  (forall s' F' e', Rep s' F' -> Good (heap_start s') (heap_end s') F' ->
     same_arena s s' -> keeps F s s' -> blocks F' !! b = Some e' ->
     bal e' = true -> asize <= bsz e' <= bsz e ->
     (forall x sz, x <> b ->
        (cb F' x = Some (sz, true) <-> cb F x = Some (sz, true))) ->
     Q (b + 8) s') ->
  wp (let* block_size := get_size b in
      let* mpalloc := get_mpalloc b in
      let* palloc := get_palloc b in
      do write_block b block_size mpalloc palloc true then
      do split_block fuel b asize then
      ret (header_to_payload b)) Q s.
Proof.
  intros HQ. pose proof HR as [HL HS].
  pose proof (blk_bounds s F HL b e Hb) as Bb.
  apply wp_bind, wp_get_size. rewrite (blk_size_at s F HL b e Hb).
  apply wp_bind, wp_get_mpalloc. rewrite (blk_mpalloc_at s F HL b e Hb).
  apply wp_bind, wp_get_palloc. rewrite (blk_palloc_at s F HL b e Hb).
  apply wp_bind, wp_write_block.
  pose proof (rep_write_same s F b e (bmp e) (bpa e) true HR Hb) as HR1.
  match type of HR1 with Rep ?st ?hp => set (s1 := st) in *; set (A1 := hp) in * end.
  set (e1 := mkBlk (bsz e) (bmp e) (bpa e) true) in *.
  assert (Ha01 : same_arena s s1) by apply same_arena_set_mem.
  assert (Hb1 : blocks A1 !! b = Some e1).
  { unfold A1, set_block, set_blocks. cbn [blocks]. apply lookup_insert_eq. }
  assert (Hl1 : listed A1 b e1).
  { change (listed F b e). apply (g_listed _ _ _ HG b e Hb). exact Hfree. }
  assert (Hf1 : (length (minis A1) < fuel)%nat).
  { apply (rep_lists_fit s1 A1 fuel HR1). exact Hfuel. }
  assert (Hc1 : forall x, x <> b -> cb A1 x = cb F x).
  { intros x N. unfold A1. rewrite cb_set_block.
    destruct (decide (x = b)); [contradiction|reflexivity]. }
  assert (Hi1 : forall x sz, inlist A1 x sz <-> inlist F x sz) by reflexivity.
  assert (HF1 : Flags (heap_start s1) (heap_end s1) A1 (only b) none).
  { apply (same_arena_flags s s1 A1 _ _ Ha01).
    apply (flags_weaken _ _ _ _ _ _ _
             (flags_set_alloc _ _ F b e true none none Hb (good_flags _ _ _ HG)));
      unfold only, none; tauto. }
  assert (Hkp : forall s2, keeps A1 s1 s2 -> keeps F s s2).
  { intros s2 Hk12 a Ha.
    rewrite (Hk12 a (held_set_block F b e e1 a Hb eq_refl (fun _ => eq_refl) Ha)).
    apply (keeps_write_same s F HL b e (bmp e) (bpa e) true Hb (or_introl eq_refl) a Ha). }
  apply wp_bind.
  apply (split_block_frame fuel s1 A1 b e1 asize HR1 Hb1 Hl1 Ha1 Ha2 Ha3 Hf1).
  - intros Hrest s2 F' HR2 Ha12 Hk12 HC HFl. apply wp_ret.
    unfold header_to_payload, off_payload.
    pose proof (same_arena_trans _ _ _ Ha01 Ha12) as Ha02.
    pose proof (cv_b _ _ _ _ _ HC) as Hcb. apply cb_Some in Hcb as (e' & He' & Hsz' & Hal').
    apply (HQ s2 F' e' HR2); auto.
    + apply (same_arena_good' s s2 F' Ha02).
      apply (carved_good s F A1 F' b e asize HR HG Hb Hfree Hc1 Hi1 Ha1 Ha2 Hrest HC).
      apply (same_arena_flags s1 s F' _ _); [|apply HFl; exact HF1].
      destruct Ha01 as (E1 & E2 & E3 & E4). repeat split; congruence.
    + subst e1. cbn [bsz] in *. lia.
    + intros x sz N. destruct (Z.eq_dec x (b + asize)) as [->|N'].
      * rewrite (cv_r _ _ _ _ _ HC). split; [discriminate|]. intros Hx.
        apply cb_Some in Hx as (ex & Hx & _).
        pose proof (blk_bounds s F HL _ ex Hx).
        destruct (blk_apart s F HL _ b ex e Hx Hb) as [H1|[H1|H1]]; subst e1; cbn [bsz] in *; lia.
      * rewrite (cv_other _ _ _ _ _ HC x N N'), (Hc1 x N). reflexivity.
  - intros Hrest s2 F' HR2 Ha12 Hk12 HT HFl. apply wp_ret.
    unfold header_to_payload, off_payload.
    pose proof (same_arena_trans _ _ _ Ha01 Ha12) as Ha02.
    pose proof (tk_b _ _ _ _ HT) as Hcb. apply cb_Some in Hcb as (e' & He' & Hsz' & Hal').
    apply (HQ s2 F' e' HR2); auto.
    + apply (same_arena_good' s s2 F' Ha02).
      apply (taken_good s F A1 F' b e HR HG Hb Hc1 Hi1 HT).
      apply (same_arena_flags s1 s F' _ _); [|apply HFl; exact HF1].
      destruct Ha01 as (E1 & E2 & E3 & E4). repeat split; congruence.
    + subst e1. cbn [bsz] in *. lia.
    + intros x sz N. rewrite (tk_other _ _ _ _ HT x N), (Hc1 x N). reflexivity.
Qed.

End MallocTake.

(** [malloc] once the heap is known to be set up. *)
Definition malloc_body (fuel : nat) (size : Z) : M Z :=
  if size =? 0 then ret NULL
  else
    let asize := round_up (wrap (size + wsize)) dsize in
    let* found :=
      (if asize =? MINI_BLOCK_SIZE then
         let* root := gets mini_root in
         if root =? NULL then find_fit fuel asize 0 else ret root
       else
         let home := home_address asize in
         find_fit fuel asize home) in
    let* block :=
      (if found =? NULL then
         let* hi := gets mem_heap_hi in
         let* old_mpalloc := get_mpalloc (hi - 7) in
         let* old_palloc := get_palloc (hi - 7) in
         let extendsize := max asize chunksize in
         extend_heap fuel extendsize old_mpalloc old_palloc
       else ret found) in
    if block =? NULL then ret NULL
    else
      let* block_size := get_size block in
      let* mpalloc := get_mpalloc block in
      let* palloc := get_palloc block in
      do write_block block block_size mpalloc palloc true then
      do split_block fuel block asize then
      ret (header_to_payload block).

Lemma malloc_unfold fuel size :
  malloc fuel size =
  (let* hs := gets heap_start in
   do (if hs =? NULL then let* ok := mm_init fuel in ret tt else ret tt) then
   malloc_body fuel size).
Proof. reflexivity. Qed.

Section MallocBody.

Variables (fuel : nat) (s : state) (A : aheap) (size : Z).
Hypothesis HR : Rep s A.
Hypothesis HG : Good (heap_start s) (heap_end s) A.
Hypothesis Hfuel : fuel_ok s fuel.
Hypothesis Hsize : 0 < size <= SIZE_MAX - 23.

Lemma malloc_body_spec (Q : Z -> state -> Prop) :
  (mem_max s < mem_brk s + max (round_up (wrap (size + wsize)) dsize) chunksize ->
   Q NULL s) ->
  (forall b s' F e, Rep s' F -> Good (heap_start s') (heap_end s') F ->
     heap_start s' = heap_start s -> mem_brk s <= mem_brk s' ->
     mem_max s' = mem_max s -> mem_lo s' = mem_lo s ->
     blocks F !! b = Some e -> bal e = true -> size + 8 <= bsz e ->
     (forall x sz, x <> b ->
        (cb F x = Some (sz, true) <-> cb A x = Some (sz, true))) ->
     (forall sz, cb A b <> Some (sz, true)) ->
     (forall x e a, blocks A !! x = Some e -> bal e = true ->
        x < a < x + bsz e -> mem s' !! a = mem s !! a) ->
     Q (b + 8) s') ->
  wp (malloc_body fuel size) Q s.
Proof.
  intros HQ0 HQ. unfold malloc_body.
  rewrite (proj2 (Z.eqb_neq size 0)) by lia. cbv zeta.
  set (asize := round_up (wrap (size + wsize)) dsize).
  destruct (asize_shape size) as (S1 & S2 & S3). fold asize in S1, S2, S3.
  pose proof (asize_covers size Hsize) as S4. fold asize in S4.
  apply wp_bind.
  eapply wp_mono; [apply (malloc_found_spec fuel s A asize HR Hfuel S1 S2 S3)|].
  intros found s0 [-> Hok]. cbv beta.
  apply wp_bind.
  apply (malloc_block_spec fuel s A asize HR HG Hfuel S2 S3 found _ Hok).
  - intros Hno. rewrite Z.eqb_refl. apply wp_ret. exact (HQ0 Hno).
  - intros b s' F e HR' HG' E1 E2 E3 E4 Hkp Hb Hfree Hle Hk.
    pose proof HR' as [HL' _].
    pose proof (blk_bounds s' F HL' b e Hb) as Bb.
    rewrite (proj2 (Z.eqb_neq b NULL)) by (unfold NULL; lia).
    assert (Hfuel' : fuel_ok s' fuel) by (unfold fuel_ok; rewrite E3; exact Hfuel).
    apply (malloc_take_spec fuel s' F b e asize HR' HG' Hfuel' Hb Hfree ltac:(revert S2; divlia) S2 Hle).
    intros s'' F' e' HR'' HG'' (F1 & F2 & F3 & F4) Hkp' Hb' Hal' Hsz' Hk'.
    apply (HQ b s'' F' e' HR'' HG''); try congruence; try lia.
    + intros x sz N. rewrite (Hk' x sz N). apply Hk.
    + intros sz Hx. apply Hk in Hx. rewrite (cb_of F b e Hb), Hfree in Hx. discriminate.
    + intros x ex a Hx Hax Hin.
      assert (H1 : held A a) by (apply (good_held _ _ A a HG); eauto).
      assert (H2 : held F a).
      { apply (good_held _ _ F a HG').
        assert (Hcx : cb F x = Some (bsz ex, true)).
        { apply Hk. rewrite (cb_of A x ex Hx), Hax. reflexivity. }
        apply cb_Some in Hcx as (e2 & Hx2 & Es & Ea). exists x, e2.
        rewrite Es. auto. }
      rewrite (Hkp' a H2). apply (Hkp a H1).
Qed.

End MallocBody.

(** ** [malloc] before the heap exists and the arena cannot grow *)

Section NoHeap.

Variables (fuel : nat) (s : state) (asize : Z).
Hypothesis Hseg : seglist s = replicate 14 NULL.
Hypothesis Hfuel : (0 < fuel)%nat.

Lemma find_fit_from_empty n i st :
  best_block st = NULL ->
  wp (find_fit_from n fuel asize i st) (fun r s' => r = NULL /\ s' = s) s.
Proof.
  revert i st. induction n as [|n IH]; intros i st Hst.
  - cbn. auto.
  - cbn [find_fit_from]. apply wp_bind, wp_seg_read.
    unfold seg_get. rewrite Hseg, replicate_null.
    destruct fuel as [|f]; [lia|]. cbn [find_fit_bucket].
    change (NULL =? NULL) with true. cbv iota.
    apply wp_bind, wp_ret. cbn [fst snd]. rewrite Hst.
    change (NULL =? NULL) with true. cbn [negb]. apply IH. exact Hst.
Qed.

Lemma find_fit_empty idx :
  wp (find_fit fuel asize idx) (fun r s' => r = NULL /\ s' = s) s.
Proof. apply find_fit_from_empty. reflexivity. Qed.

End NoHeap.

Lemma extend_heap_fails fuel s size mp pa :
  32 <= size -> size mod 16 = 0 -> size + 15 < modulus ->
  mem_max s < mem_brk s + size ->
  wp (extend_heap fuel size mp pa) (fun r s' => r = NULL /\ s' = s) s.
Proof.
  intros H1 H2 H3 H4. unfold extend_heap.
  rewrite (round_up_mult size) by (auto; lia).
  apply wp_bind, wp_mem_sbrk_cases; [lia|]. intros _. apply wp_ret. auto.
Qed.

Lemma malloc_body_noheap fuel s size :
  seglist s = replicate 14 NULL -> mini_root s = NULL -> (0 < fuel)%nat ->
  mem_max s < mem_brk s + 16 ->
  wp (malloc_body fuel size) (fun r s' => r = NULL /\ s' = s) s.
Proof.
  intros Hseg Hroot Hfuel Hno. unfold malloc_body.
  destruct (size =? 0); [apply wp_ret; auto|]. cbv zeta.
  set (asize := round_up (wrap (size + wsize)) dsize).
  destruct (asize_shape size) as (S1 & S2 & S3). fold asize in S1, S2, S3.
  apply wp_bind.
  assert (Hfound : wp (if asize =? MINI_BLOCK_SIZE then
                         let* root := gets mini_root in
                         if root =? NULL then find_fit fuel asize 0 else ret root
                       else let home := home_address asize in
                            find_fit fuel asize home)
                      (fun r s' => r = NULL /\ s' = s) s).
  { destruct (asize =? MINI_BLOCK_SIZE).
    - apply wp_bind, wp_gets. rewrite Hroot. change (NULL =? NULL) with true.
      cbv iota. apply (find_fit_empty fuel s asize Hseg Hfuel).
    - cbv zeta. apply (find_fit_empty fuel s asize Hseg Hfuel). }
  eapply wp_mono; [exact Hfound|]. intros found s0 [-> ->]. cbv beta.
  change (NULL =? NULL) with true. cbv iota.
  apply wp_bind, wp_bind, wp_gets.
  apply wp_bind, wp_get_mpalloc. apply wp_bind, wp_get_palloc. cbv zeta.
  destruct (max_chunk asize S2 S3) as (M1 & M2 & M3 & M4).
  eapply wp_mono; [apply (extend_heap_fails fuel s _ _ _ M1 M2 M3)|].
  - unfold max in *. change chunksize with 512 in *.
    destruct (512 <? asize); lia.
  - intros r s' [-> ->]. change (NULL =? NULL) with true. cbv iota.
    apply wp_ret. auto.
Qed.

(** * Writes into the payload of an allocated block *)

Section PayloadWrites.

Variables (s0 : state) (A : aheap) (b : Z) (e : blk).
Hypothesis Hb : blocks A !! b = Some e.
Hypothesis Hal : bal e = true.
Hypothesis HG : Good (heap_start s0) (heap_end s0) A.

(** What the writes keep: the heap as described by [A], and the header
    words. *)
Definition kept (s : state) : Prop :=
  Rep s A /\ same_arena s0 s.

Lemma store_inside_kept s a v :
  kept s -> b < a < b + bsz e ->
  kept (set_mem (<[a := v]> (mem s)) s).
Proof.
  intros [[HL HS] Ha] Hin. split; [split|].
  - apply (layout_store_inside s A b e a v HL Hb Hin). intros H. congruence.
  - apply (lists_frame s _ A HS); try reflexivity.
    intros c Hc. cbn [mem set_mem]. apply lookup_insert_ne. intros <-.
    destruct (link_inside s A a HL HS Hc) as (z & ez & Hz & Hlz & Hc').
    assert (N : z <> b).
    { intros ->. assert (ez = e) by congruence. subst ez.
      apply (g_listed _ _ _ HG b e Hb) in Hlz. congruence. }
    destruct (store_inside_not_link s A HL b e a z ez Hb Hin Hz N) as [N1 N2].
    unfold off_next, off_prev in *. destruct Hc' as [E|[E _]]; lia.
  - apply (same_arena_trans _ _ _ Ha). apply same_arena_set_mem.
Qed.

Lemma store_byte_kept s a v (Q : unit -> state -> Prop) :
  kept s -> b + 8 <= a < b + bsz e ->
  (forall s', kept s' -> Q tt s') ->
  wp (store_byte a v) Q s.
Proof.
  intros Hk Hin HQ. unfold store_byte.
  apply wp_bind, wp_load. apply wp_store. apply HQ.
  apply store_inside_kept; [exact Hk|].
  destruct Hk as [[HL _] _].
  destruct (lay_size s A HL b e Hb) as (_ & _ & Hal8).
  unfold word_of, wsize. revert Hal8. divlia.
Qed.

Lemma copy_bytes_kept n : forall s dst src (Q : unit -> state -> Prop),
  kept s -> b + 8 <= dst -> dst + Z.of_nat n <= b + bsz e ->
  (forall s', kept s' -> Q tt s') ->
  wp (copy_bytes n dst src) Q s.
Proof.
  induction n as [|n IH]; intros s dst src Q Hk H1 H2 HQ.
  - cbn. apply HQ. exact Hk.
  - cbn [copy_bytes]. apply wp_bind, wp_gets. apply wp_bind.
    apply (store_byte_kept s dst _ _ Hk); [lia|].
    intros s' Hk'. apply IH; auto; lia.
Qed.

Lemma fill_bytes_kept n : forall s dst v (Q : unit -> state -> Prop),
  kept s -> b + 8 <= dst -> dst + Z.of_nat n <= b + bsz e ->
  (forall s', kept s' -> Q tt s') ->
  wp (fill_bytes n dst v) Q s.
Proof.
  induction n as [|n IH]; intros s dst v Q Hk H1 H2 HQ.
  - cbn. apply HQ. exact Hk.
  - cbn [fill_bytes]. apply wp_bind.
    apply (store_byte_kept s dst _ _ Hk); [lia|].
    intros s' Hk'. apply IH; auto; lia.
Qed.

End PayloadWrites.

(** * The heap as a program sees it *)

(** The blocks in address order, as a walk from [heap_start] finds them:
    the [n]-th block, or the epilogue once the walk has reached it. *)
Fixpoint nth_block (s : state) (n : nat) : Z :=
  match n with
  | O => heap_start s
  | S n' =>
      let x := nth_block s n' in
      if is_epilogue s x then x else next_of s x
  end.

Definition is_block (s : state) (x : Z) : Prop :=
  exists n, nth_block s n = x /\ is_epilogue s x = false.

(** No two neighbours are both free. *)
Definition no_adjacent_free (s : state) : Prop :=
  forall x, is_block s x -> is_block s (next_of s x) ->
    alloc_at s x = true \/ alloc_at s (next_of s x) = true.

(** A pointer a caller may pass to [free] or [realloc]: the payload of an
    allocated block of the heap. *)
Definition valid_ptr (s : state) (p : Z) : Prop :=
  heap_start s <> NULL /\ is_block s (payload_to_header p) /\
  alloc_at s (payload_to_header p) = true.

Lemma walk_blocks s A n :
  Layout s A ->
  nth_block s n = heap_end s \/ is_Some (blocks A !! nth_block s n).
Proof.
  intros HL. induction n as [|n IH].
  - cbn. destruct (lay_first s A HL) as [E|E]; [left; exact E|right; exact E].
  - cbn [nth_block]. cbv zeta. destruct IH as [E|[e He]].
    + rewrite E, (epi_is_epilogue s A HL). left. reflexivity.
    + rewrite (blk_not_epilogue s A HL _ e He), (blk_next_of s A HL _ e He).
      destruct (lay_next s A HL _ e He) as [E|E]; [left; exact E|right; exact E].
Qed.

Lemma is_block_blocks s A x :
  Layout s A -> is_block s x -> exists e, blocks A !! x = Some e.
Proof.
  intros HL (n & <- & He).
  destruct (walk_blocks s A n HL) as [E|[e E]]; [|eauto].
  rewrite E, (epi_is_epilogue s A HL) in He. discriminate.
Qed.

Lemma inv_no_adjacent_free s : Inv s -> no_adjacent_free s.
Proof.
  intros (A & [HL HS] & HG) x Hx Hn.
  destruct (is_block_blocks s A x HL Hx) as (e & He).
  destruct (is_block_blocks s A _ HL Hn) as (e' & He').
  rewrite (blk_alloc_at s A HL _ e' He'), (blk_alloc_at s A HL x e He).
  rewrite (blk_next_of s A HL x e He) in He'.
  apply (g_noadj _ _ _ HG x e e' He He').
Qed.

Lemma valid_ptr_block s A p :
  Layout s A -> valid_ptr s p ->
  exists e, blocks A !! (p - 8) = Some e /\ bal e = true.
Proof.
  intros HL (_ & Hb & Hal). unfold payload_to_header, off_payload in *.
  destruct (is_block_blocks s A _ HL Hb) as (e & He).
  exists e. split; [exact He|]. rewrite <- (blk_alloc_at s A HL _ e He). exact Hal.
Qed.

(** * What holds between calls *)

Definition Uninit (s : state) : Prop := heap_start s = NULL /\ arena_ok s.

Definition J (s : state) : Prop := Uninit s \/ Inv s.

Lemma inv_started s : Inv s -> heap_start s <> NULL.
Proof.
  intros (A & [HL _] & _). pose proof (lay_start s A HL). unfold NULL. lia.
Qed.

Lemma fuel_ok_pos s fuel : arena_ok s -> fuel_ok s fuel -> (0 < fuel)%nat.
Proof.
  intros (H1 & _ & H2 & _) Hf. unfold fuel_ok in Hf.
  assert (0 <= mem_max s / 16) by (apply Z.div_pos; lia). lia.
Qed.

(** ** [mm_init] and [malloc] *)

Lemma init_J fuel s :
  Uninit s -> fuel_ok s fuel -> wp (mm_init fuel) (fun _ s' => J s') s.
Proof.
  intros [Hs Hok] Hf.
  apply (mm_init_spec fuel s _ Hok (fuel_ok_pos s fuel Hok Hf)).
  - intros _. left. split; [exact Hs|exact Hok].
  - intros ok s' F _ HR HG _ _ _ _. right. exists F. auto.
Qed.

Lemma malloc_entry fuel s size (Q : Z -> state -> Prop) :
  J s -> fuel_ok s fuel ->
  (forall s1 A, Rep s1 A -> Good (heap_start s1) (heap_end s1) A ->
     mem_max s1 = mem_max s ->
     (heap_start s <> NULL -> s1 = s) ->
     (heap_start s = NULL -> forall x sz, cb A x <> Some (sz, true)) ->
     wp (malloc_body fuel size) Q s1) ->
  (forall s1, heap_start s = NULL -> Uninit s1 ->
     seglist s1 = replicate 14 NULL ->
     mini_root s1 = NULL -> mem_max s1 < mem_brk s1 + 16 ->
     mem_max s1 = mem_max s ->
     wp (malloc_body fuel size) Q s1) ->
  wp (malloc fuel size) Q s.
Proof.
  intros HJ Hf H1 H2. rewrite malloc_unfold.
  apply wp_bind, wp_gets. apply wp_bind.
  destruct HJ as [[Hs Hok]|HI].
  - rewrite Hs. change (NULL =? NULL) with true. cbv iota.
    apply wp_bind.
    apply (mm_init_spec fuel s _ Hok (fuel_ok_pos s fuel Hok Hf)).
    + intros Hno. apply wp_ret. apply H2; try reflexivity; [exact Hs| |exact Hno].
      split; [exact Hs|exact Hok].
    + intros ok s' F _ HR HG E1 _ _ Hc. apply wp_ret.
      apply (H1 s' F HR HG E1); [intros N; contradiction|].
      intros _ x sz. destruct ok.
      * destruct Hc as [_ Hc]. rewrite Hc. destruct (decide _); discriminate.
      * destruct Hc as (_ & _ & Hc). rewrite Hc. discriminate.
  - rewrite (proj2 (Z.eqb_neq _ _) (inv_started s HI)). apply wp_ret.
    pose proof (inv_started s HI) as Hst. destruct HI as (A & HR & HG).
    apply (H1 s A HR HG); auto; intros N; contradiction.
Qed.

Lemma malloc_body_J fuel s size :
  Inv s -> fuel_ok s fuel -> 0 <= size <= SIZE_MAX - 23 ->
  wp (malloc_body fuel size) (fun _ s' => J s') s.
Proof.
  intros HI Hf Hsz. destruct (Z.eq_dec size 0) as [->|N].
  - unfold malloc_body. change (0 =? 0) with true. cbv iota.
    apply wp_ret. right. exact HI.
  - pose proof HI as (A & HR & HG).
    apply (malloc_body_spec fuel s A size HR HG Hf); [lia| |].
    + intros _. right. exact HI.
    + intros b s' F e HR' HG' _ _ _ _ _ _ _ _ _ _. right. exists F. auto.
Qed.

Lemma malloc_J fuel s size :
  J s -> fuel_ok s fuel -> 0 <= size <= SIZE_MAX - 23 ->
  wp (malloc fuel size) (fun _ s' => J s') s.
Proof.
  intros HJ Hf Hsz. apply (malloc_entry fuel s size _ HJ Hf).
  - intros s1 A1 HR1 HG1 E _ _. apply malloc_body_J; auto.
    + exists A1. auto.
    + unfold fuel_ok. rewrite E. exact Hf.
  - intros s1 _ HU Hseg Hroot Hno E.
    eapply wp_mono; [apply (malloc_body_noheap fuel s1 size Hseg Hroot)|].
    + destruct HU as [_ Hok]. apply (fuel_ok_pos s1 fuel Hok).
      unfold fuel_ok. rewrite E. exact Hf.
    + exact Hno.
    + intros r s' [_ ->]. left. exact HU.
Qed.

(** ** [free] *)

Lemma free_J fuel s p :
  J s -> fuel_ok s fuel -> p = NULL \/ valid_ptr s p ->
  wp (free fuel p) (fun _ s' => J s') s.
Proof.
  intros HJ Hf [->|Hv].
  - unfold free. change (NULL =? NULL) with true. cbv iota. apply wp_ret. exact HJ.
  - destruct HJ as [[Hs _]|HI]; [destruct Hv as (N & _); contradiction|].
    destruct HI as (A & HR & HG). pose proof HR as [HL _].
    destruct (valid_ptr_block s A p HL Hv) as (e & He & Hal).
    replace p with (p - 8 + 8) by lia.
    apply (free_spec fuel s A (p - 8) e HR HG He Hal).
    + apply (rep_lists_fit s A fuel HR Hf).
    + intros s' F HR' HG' _ _ _ _. right. exists F. auto.
Qed.

(** ** [calloc] *)

Lemma calloc_J fuel s elements size :
  J s -> fuel_ok s fuel -> wrap (elements * size) <= SIZE_MAX - 23 ->
  wp (calloc fuel elements size) (fun _ s' => J s') s.
Proof.
  intros HJ Hf Hsz. unfold calloc. cbv zeta.
  set (asize := wrap (elements * size)) in *.
  assert (Hpos : 0 <= asize) by (apply Z.mod_pos_bound; reflexivity).
  destruct (elements =? 0); [apply wp_ret; exact HJ|].
  destruct (negb (asize / elements =? size)); [apply wp_ret; exact HJ|].
  apply wp_bind. apply (malloc_entry fuel s asize _ HJ Hf).
  - intros s1 A1 HR1 HG1 E _ _.
    assert (HI : Inv s1) by (exists A1; auto).
    assert (Hf1 : fuel_ok s1 fuel) by (unfold fuel_ok; rewrite E; exact Hf).
    destruct (Z.eq_dec asize 0) as [E0|N].
    + rewrite E0. unfold malloc_body. change (0 =? 0) with true. cbv iota.
      apply wp_ret. change (NULL =? NULL) with true. cbv iota.
      apply wp_ret. right. exact HI.
    + pose proof HI as (A & HR & HG).
      apply (malloc_body_spec fuel s1 A asize HR HG Hf1); [lia| |].
      * intros _. change (NULL =? NULL) with true. cbv iota. apply wp_ret.
        right. exact HI.
      * intros b s' F e HR' HG' _ _ _ _ Hb Hal Hle _ _ _.
        pose proof HR' as [HL' _].
        pose proof (blk_bounds s' F HL' b e Hb) as Bb.
        rewrite (proj2 (Z.eqb_neq (b + 8) NULL)) by (unfold NULL; lia).
        apply wp_bind. unfold memset.
        apply (fill_bytes_kept s' F b e Hb Hal HG' (Z.to_nat asize) s' (b + 8) 0).
        -- split; [exact HR'|apply same_arena_refl].
        -- lia.
        -- lia.
        -- intros s2 [HR2 Ha2]. apply wp_ret. right. exists F.
           split; [exact HR2|]. apply (same_arena_good' s' s2 F Ha2 HG').
  - intros s1 _ HU Hseg Hroot Hno E.
    eapply wp_mono; [apply (malloc_body_noheap fuel s1 asize Hseg Hroot)|].
    + destruct HU as [_ Hok]. apply (fuel_ok_pos s1 fuel Hok).
      unfold fuel_ok. rewrite E. exact Hf.
    + exact Hno.
    + intros r s' [-> ->]. change (NULL =? NULL) with true. cbv iota.
      apply wp_ret. left. exact HU.
Qed.

(** ** [realloc] *)

Lemma realloc_J fuel s p size :
  J s -> fuel_ok s fuel -> p = NULL \/ valid_ptr s p ->
  0 <= size <= SIZE_MAX - 23 ->
  wp (realloc fuel p size) (fun _ s' => J s') s.
Proof.
  intros HJ Hf Hp Hsz. unfold realloc. cbv zeta.
  destruct (Z.eqb_spec size 0) as [E0|N0].
  { apply wp_bind. eapply wp_mono; [apply (free_J fuel s p HJ Hf Hp)|].
    intros [] s' HJ'. apply wp_ret. exact HJ'. }
  destruct Hp as [->|Hv].
  { change (NULL =? NULL) with true. cbv iota. apply malloc_J; auto. }
  destruct HJ as [[Hs _]|HI]; [destruct Hv as (N & _); contradiction|].
  pose proof HI as (A & HR & HG). pose proof HR as [HL _].
  destruct (valid_ptr_block s A p HL Hv) as (e & He & Hal).
  pose proof (blk_bounds s A HL _ e He) as Be.
  rewrite (proj2 (Z.eqb_neq p NULL)) by (unfold NULL; lia).
  apply wp_bind. apply (malloc_entry fuel s size _ (or_intror HI) Hf).
  - intros s1 _ _ _ _ Es _. rewrite (Es (inv_started s HI)).
    apply (malloc_body_spec fuel s A size HR HG Hf); [lia| |].
    + intros _. change (NULL =? NULL) with true. cbv iota. apply wp_ret.
      right. exact HI.
    + intros b' s' F e' HR' HG' _ _ E3 _ Hb' Hal' Hle' Hk Hfresh _.
      pose proof HR' as [HL' _].
      pose proof (blk_bounds s' F HL' b' e' Hb') as Bb'.
      rewrite (proj2 (Z.eqb_neq (b' + 8) NULL)) by (unfold NULL; lia).
      assert (Hold : cb F (p - 8) = Some (bsz e, true)).
      { apply Hk; [|rewrite (cb_of A _ e He), Hal; reflexivity].
        intros E. apply (Hfresh (bsz e)). rewrite <- E, (cb_of A _ e He), Hal.
        reflexivity. }
      apply cb_Some in Hold as (e2 & He2 & Hsz2 & Hal2).
      unfold payload_to_header, off_payload.
      apply wp_bind, wp_get_payload_size.
      rewrite (blk_size_at s' F HL' _ e2 He2), Hsz2.
      unfold wsize. rewrite (wrap_small (bsz e - 8)) by lia.
      set (copysize := if size <? bsz e - 8 then size else bsz e - 8).
      assert (Hcs : 0 <= copysize <= size).
      { unfold copysize. destruct (Z.ltb_spec size (bsz e - 8)); lia. }
      apply wp_bind. unfold memcpy.
      apply (copy_bytes_kept s' F b' e' Hb' Hal' HG' (Z.to_nat copysize) s' (b' + 8) p).
      * split; [exact HR'|apply same_arena_refl].
      * lia.
      * lia.
      * intros s2 [HR2 Ha2]. apply wp_bind.
        assert (Hf2 : fuel_ok s2 fuel).
        { unfold fuel_ok. destruct Ha2 as (_ & _ & -> & _). rewrite E3. exact Hf. }
        replace p with (p - 8 + 8) at 1 by lia.
        apply (free_spec fuel s2 F (p - 8) e2 HR2
                 (same_arena_good' s' s2 F Ha2 HG') He2 Hal2).
        -- apply (rep_lists_fit s2 F fuel HR2 Hf2).
        -- intros s3 F3 HR3 HG3 _ _ _ _. apply wp_ret. right. exists F3. auto.
  - intros s1 Hs _ _ _ _ _. exfalso. apply (inv_started s HI Hs).
Qed.

(** * States a program can reach *)

Lemma wp_result {T : Type} (c : M T) (Q : T -> state -> Prop) s a s' :
  wp c Q s -> c s = Some (a, s') -> Q a s'.
Proof. unfold wp. intros H E. rewrite E in H. exact H. Qed.

Lemma bind_run {T U : Type} (c : M T) (k : T -> M U) s r s' :
  bind c k s = Some (r, s') ->
  exists a s0, c s = Some (a, s0) /\ k a s0 = Some (r, s').
Proof.
  unfold bind. destruct (c s) as [[a s0]|]; [eauto|discriminate].
Qed.

(** The arena as [memlib] hands it over, and the calls of the interface on
    it.  Request sizes stay below the point where adding the header and
    rounding wraps around; pointers passed back are payloads of allocated
    blocks. *)
Inductive reachable : state -> Prop :=
| reach_fresh lo hi :
    0 <= lo -> lo mod 16 = 0 -> lo <= hi < modulus ->
    reachable (fresh lo hi)
| reach_init s fuel ok s' :
    reachable s -> fuel_ok s fuel -> heap_start s = NULL ->
    mm_init fuel s = Some (ok, s') -> reachable s'
| reach_malloc s fuel size r s' :
    reachable s -> fuel_ok s fuel -> 0 <= size <= SIZE_MAX - 23 ->
    malloc fuel size s = Some (r, s') -> reachable s'
| reach_free s fuel p s' :
    reachable s -> fuel_ok s fuel -> p = NULL \/ valid_ptr s p ->
    free fuel p s = Some (tt, s') -> reachable s'
| reach_realloc s fuel p size r s' :
    reachable s -> fuel_ok s fuel -> p = NULL \/ valid_ptr s p ->
    0 <= size <= SIZE_MAX - 23 ->
    realloc fuel p size s = Some (r, s') -> reachable s'
| reach_calloc s fuel elements size r s' :
    reachable s -> fuel_ok s fuel ->
    wrap (elements * size) <= SIZE_MAX - 23 ->
    calloc fuel elements size s = Some (r, s') -> reachable s'.

Lemma reachable_J s : reachable s -> J s.
Proof.
  induction 1 as [lo hi H1 H2 H3
                 |s fuel ok s' _ IH Hf Hs E
                 |s fuel size r s' _ IH Hf Hsz E
                 |s fuel p s' _ IH Hf Hp E
                 |s fuel p size r s' _ IH Hf Hp Hsz E
                 |s fuel n size r s' _ IH Hf Hsz E].
  - left. split; [reflexivity|]. unfold arena_ok, fresh. cbn. lia.
  - destruct IH as [HU|HI]; [|exfalso; apply (inv_started s HI Hs)].
    apply (wp_result _ _ _ _ _ (init_J fuel s HU Hf) E).
  - apply (wp_result _ _ _ _ _ (malloc_J fuel s size IH Hf Hsz) E).
  - apply (wp_result _ _ _ _ _ (free_J fuel s p IH Hf Hp) E).
  - apply (wp_result _ _ _ _ _ (realloc_J fuel s p size IH Hf Hp Hsz) E).
  - apply (wp_result _ _ _ _ _ (calloc_J fuel s n size IH Hf Hsz) E).
Qed.

(** In every state that calls of [malloc], [free], [realloc] and [calloc]
    with sizes short of wrap-around can reach from an empty arena, once the
    heap is set up, no two blocks next to each other are both free. *)
Theorem reachable_no_adjacent_free (s : state) :
  reachable s -> heap_start s <> NULL -> no_adjacent_free s.
Proof.
  intros Hr Hs. destruct (reachable_J s Hr) as [[E _]|HI]; [contradiction|].
  apply inv_no_adjacent_free. exact HI.
Qed.

(** * A failed allocation changes nothing *)

Lemma malloc_started fuel size s :
  heap_start s <> NULL -> malloc fuel size s = malloc_body fuel size s.
Proof.
  intros H. rewrite malloc_unfold. unfold bind, gets at 1.
  rewrite (proj2 (Z.eqb_neq _ _) H). reflexivity.
Qed.

(** Whatever way the last steps of [malloc] go, what they return is the
    payload of the block they were given. *)
Lemma malloc_take_result fuel b asize s r s' :
  (let* block_size := get_size b in
   let* mpalloc := get_mpalloc b in
   let* palloc := get_palloc b in
   do write_block b block_size mpalloc palloc true then
   do split_block fuel b asize then
   ret (header_to_payload b)) s = Some (r, s') ->
  r = header_to_payload b.
Proof.
  intros H.
  apply bind_run in H as (x1 & s1 & _ & H).
  apply bind_run in H as (x2 & s2 & _ & H).
  apply bind_run in H as (x3 & s3 & _ & H).
  apply bind_run in H as (x4 & s4 & _ & H).
  apply bind_run in H as (x5 & s5 & _ & H).
  unfold ret in H. injection H as <- _. reflexivity.
Qed.

Lemma malloc_body_null fuel s size s1 :
  Inv s -> fuel_ok s fuel ->
  malloc_body fuel size s = Some (NULL, s1) -> s1 = s.
Proof.
  intros (A & HR & HG) Hf H. unfold malloc_body in H.
  destruct (size =? 0); [unfold ret in H; congruence|]. cbv zeta in H.
  set (asize := round_up (wrap (size + wsize)) dsize) in *.
  destruct (asize_shape size) as (S1 & S2 & S3). fold asize in S1, S2, S3.
  apply bind_run in H as (found & s0 & E1 & H).
  destruct (wp_result _ _ _ _ _ (malloc_found_spec fuel s A asize HR Hf S1 S2 S3) E1)
    as [-> Hok].
  apply bind_run in H as (block & s2 & E2 & H).
  assert (K : (block = NULL /\ s2 = s) \/ 0 < block).
  { refine (wp_result _ (fun b s' => (b = NULL /\ s' = s) \/ 0 < b) _ _ _ _ E2).
    apply (malloc_block_spec fuel s A asize HR HG Hf S2 S3 found _ Hok).
    - intros _. left. auto.
    - intros b s' F e [HL' _] _ _ _ _ _ _ Hb _ _ _. right.
      pose proof (blk_bounds s' F HL' b e Hb). lia. }
  destruct K as [[-> ->]|Hpos].
  - change (NULL =? NULL) with true in H. unfold ret in H. congruence.
  - rewrite (proj2 (Z.eqb_neq block NULL)) in H by (unfold NULL; lia).
    apply malloc_take_result in H. unfold header_to_payload, off_payload, NULL in H.
    lia.
Qed.

(** * Splitting, as a program sees it *)

(** The head of the free list that holds blocks of [sz] bytes. *)
Definition free_list_for (s : state) (sz : Z) : Z :=
  if sz =? MINI_BLOCK_SIZE then mini_root s else seg_get s (home_address sz).

(** Walking that list from its head finds [x]. *)
Definition listed_in (fuel : nat) (s : state) (x : Z) : Prop :=
  In x (walk_next fuel s (free_list_for s (size_at s x))).

Lemma walk_sll s fuel : forall l p,
  sll (mem s) p l -> (length l < fuel)%nat -> walk_next fuel s p = l.
Proof.
  induction fuel as [|f IH]; intros l p Hl Hlen; [lia|].
  destruct l as [|x l]; cbn [sll] in Hl.
  - subst p. reflexivity.
  - destruct Hl as (-> & Hx & Hl). cbn [walk_next].
    rewrite (proj2 (Z.eqb_neq x NULL) Hx). f_equal.
    apply IH; [exact Hl|cbn in Hlen; lia].
Qed.

Lemma walk_dll s fuel : forall l pv p,
  dll (mem s) pv p l -> (length l < fuel)%nat -> walk_next fuel s p = l.
Proof.
  induction fuel as [|f IH]; intros l pv p Hl Hlen; [lia|].
  destruct l as [|x l]; cbn [dll] in Hl.
  - subst p. reflexivity.
  - destruct Hl as (-> & Hx & _ & Hl). cbn [walk_next].
    rewrite (proj2 (Z.eqb_neq x NULL) Hx). f_equal.
    apply (IH l x); [exact Hl|cbn in Hlen; lia].
Qed.

Lemma listed_in_inlist fuel s A x sz :
  Rep s A -> fuel_ok s fuel ->
  (In x (walk_next fuel s (free_list_for s sz)) <-> inlist A x sz).
Proof.
  intros HR Hf. pose proof HR as [HL HS].
  destruct (rep_lists_fit s A fuel HR Hf) as [F1 F2].
  unfold free_list_for, inlist, MINI_BLOCK_SIZE. destruct (sz =? 16).
  - rewrite (walk_sll s fuel _ _ (lst_mini s A HS) F1). reflexivity.
  - pose proof (home_address_total sz) as Hi.
    rewrite (walk_dll s fuel _ _ _ (lst_seg s A HS _ Hi) (F2 _ Hi)). reflexivity.
Qed.


(** * The theorems at work *)

(** The state a call leaves behind. *)
Definition after {T : Type} (c : M T) (s : state) : state :=
  match c s with Some (_, s') => s' | None => s end.

(** Two allocations and their release, in a 60 KiB arena. *)
Definition demo1 : state := after (malloc 5000 100) fresh_state.
Definition demo2 : state := after (malloc 5000 200) demo1.
Definition demo3 : state := after (free 5000 4112) demo2.
Definition demo4 : state := after (free 5000 4224) demo3.

Lemma demo_fuel (s : state) : mem_max s = 65536 -> fuel_ok s 5000.
Proof. intros E. unfold fuel_ok. rewrite E. reflexivity. Qed.

Lemma demo1_reachable : reachable demo1.
Proof.
  apply (reach_malloc fresh_state 5000 100 4112 demo1).
  - apply (reach_fresh 4096 65536); [lia|reflexivity|unfold modulus; lia].
  - apply demo_fuel. reflexivity.
  - unfold SIZE_MAX, modulus. lia.
  - vm_compute. reflexivity.
Defined.

Lemma demo2_reachable : reachable demo2.
Proof.
  apply (reach_malloc demo1 5000 200 4224 demo2 demo1_reachable).
  - apply demo_fuel. reflexivity.
  - unfold SIZE_MAX, modulus. lia.
  - vm_compute. reflexivity.
Defined.

Lemma demo3_reachable : reachable demo3.
Proof.
  apply (reach_free demo2 5000 4112 demo3 demo2_reachable).
  - apply demo_fuel. reflexivity.
  - right. split; [vm_compute; discriminate|]. split; [|reflexivity].
    exists 0%nat. split; reflexivity.
  - vm_compute. reflexivity.
Defined.

Lemma demo4_reachable : reachable demo4.
Proof.
  apply (reach_free demo3 5000 4224 demo4 demo3_reachable).
  - apply demo_fuel. reflexivity.
  - right. split; [vm_compute; discriminate|]. split; [|reflexivity].
    exists 1%nat. split; reflexivity.
  - vm_compute. reflexivity.
Defined.

Lemma demo4_no_adjacent_free :
  reachable demo4 /\ heap_start demo4 <> NULL /\ no_adjacent_free demo4.
Proof.
  assert (H : heap_start demo4 <> NULL) by (vm_compute; discriminate).
  split; [exact demo4_reachable|]. split; [exact H|].
  exact (reachable_no_adjacent_free demo4 demo4_reachable H).
Defined.

(** An arena with room for one chunk only: the second allocation fails. *)
Definition tight1 : state := after (malloc 5000 100) (fresh 4096 4624).

Lemma tight1_reachable : reachable tight1.
Proof.
  apply (reach_malloc (fresh 4096 4624) 5000 100 4112 tight1).
  - apply (reach_fresh 4096 4624); [lia|reflexivity|unfold modulus; lia].
  - reflexivity.
  - unfold SIZE_MAX, modulus. lia.
  - vm_compute. reflexivity.
Defined.



(** * What [malloc] hands out, short of wrap-around

    For requests up to [SIZE_MAX - 23] the block is aligned, in use, and
    large enough. *)
Lemma malloc_payload (fuel : nat) (s : state) (size : Z) :
  reachable s -> fuel_ok s fuel -> 0 < size <= SIZE_MAX - 23 ->
  wp (malloc fuel size)
     (fun r s' =>
        r = NULL \/
        (r mod 16 = 0 /\ alloc_at s' (payload_to_header r) = true /\
         size <= size_at s' (payload_to_header r) - wsize)) s.
Proof.
  intros Hr Hf Hsz. apply (malloc_entry fuel s size _ (reachable_J s Hr) Hf).
  - intros s1 A HR HG E _ _.
    assert (Hf1 : fuel_ok s1 fuel) by (unfold fuel_ok; rewrite E; exact Hf).
    apply (malloc_body_spec fuel s1 A size HR HG Hf1 Hsz); [intros _; left; reflexivity|].
    intros b s' F e [HL' _] _ _ _ _ _ Hb Hal Hle _ _ _. right.
    unfold payload_to_header, off_payload, wsize.
    replace (b + 8 - 8) with b by lia.
    rewrite (blk_alloc_at s' F HL' b e Hb), (blk_size_at s' F HL' b e Hb).
    destruct (lay_size s' F HL' b e Hb) as (_ & _ & Hal8).
    repeat split; [revert Hal8; divlia|exact Hal|lia].
  - intros s1 _ HU Hseg Hroot Hno E.
    eapply wp_mono; [apply (malloc_body_noheap fuel s1 size Hseg Hroot)|].
    + destruct HU as [_ Hok]. apply (fuel_ok_pos s1 fuel Hok).
      unfold fuel_ok. rewrite E. exact Hf.
    + exact Hno.
    + intros r s' [-> _]. left. reflexivity.
Qed.

(** * A request that wraps around

    [malloc] adds the header size to the request and rounds up without
    looking for overflow.  For a request of [SIZE_MAX - 15] bytes the
    rounded size is 0: the call returns a block that it leaves free and on
    its list.  Releasing that block puts it on the list a second time, and
    from then on the fit search hands out a block that is in use. *)

Definition wrapped_request : Z := SIZE_MAX - 15.

Definition wrap1 : state := after (malloc 16 wrapped_request) fresh_state.
Definition wrap2 : state := after (free 16 4112) wrap1.
Definition wrap3 : state := after (malloc 16 100) wrap2.
Definition wrap4 : state := after (malloc 16 40) wrap3.

(** C1.  The calls [p = malloc (SIZE_MAX - 15)], [free p], [malloc 100],
    [malloc 40] on an empty arena all return, and leave the free blocks at
    4152 and 4216 next to each other: the heap after them is not free of
    adjacent free blocks.  The two last calls return the same pointer. *)
Theorem wrapped_request_breaks_coalescing :
  malloc 16 wrapped_request fresh_state = Some (4112, wrap1) /\
  alloc_at wrap1 (payload_to_header 4112) = false /\
  free 16 4112 wrap1 = Some (tt, wrap2) /\
  malloc 16 100 wrap2 = Some (4112, wrap3) /\
  malloc 16 40 wrap3 = Some (4112, wrap4) /\
  is_block wrap4 4152 /\ next_of wrap4 4152 = 4216 /\ is_block wrap4 4216 /\
  alloc_at wrap4 4152 = false /\ alloc_at wrap4 4216 = false /\
  ~ no_adjacent_free wrap4.
Proof.
  assert (N : next_of wrap4 4152 = 4216) by (vm_compute; reflexivity).
  assert (B1 : is_block wrap4 4152).
  { exists 1%nat. split; vm_compute; reflexivity. }
  assert (B2 : is_block wrap4 4216).
  { exists 2%nat. split; vm_compute; reflexivity. }
  assert (F1 : alloc_at wrap4 4152 = false) by (vm_compute; reflexivity).
  assert (F2 : alloc_at wrap4 4216 = false) by (vm_compute; reflexivity).
  split; [vm_compute; reflexivity|].
  split; [vm_compute; reflexivity|].
  split; [vm_compute; reflexivity|].
  split; [vm_compute; reflexivity|].
  split; [vm_compute; reflexivity|].
  split; [exact B1|]. split; [exact N|]. split; [exact B2|].
  split; [exact F1|]. split; [exact F2|].
  intros H. specialize (H 4152 B1). rewrite N in H.
  destruct (H B2) as [E|E]; congruence.
Qed.

(** * The allocator in use

    A program calls the allocator and, between calls, writes into the
    payloads it holds.  [in_use] adds those writes to the calls of
    [reachable]: a byte stored anywhere in the payload of an allocated
    block. *)
Inductive in_use : state -> Prop :=
| use_fresh lo hi :
    0 <= lo -> lo mod 16 = 0 -> lo <= hi < modulus ->
    in_use (fresh lo hi)
| use_init s fuel ok s' :
    in_use s -> fuel_ok s fuel -> heap_start s = NULL ->
    mm_init fuel s = Some (ok, s') -> in_use s'
| use_malloc s fuel size r s' :
    in_use s -> fuel_ok s fuel -> 0 <= size <= SIZE_MAX - 23 ->
    malloc fuel size s = Some (r, s') -> in_use s'
| use_free s fuel p s' :
    in_use s -> fuel_ok s fuel -> p = NULL \/ valid_ptr s p ->
    free fuel p s = Some (tt, s') -> in_use s'
| use_realloc s fuel p size r s' :
    in_use s -> fuel_ok s fuel -> p = NULL \/ valid_ptr s p ->
    0 <= size <= SIZE_MAX - 23 ->
    realloc fuel p size s = Some (r, s') -> in_use s'
| use_calloc s fuel elements size r s' :
    in_use s -> fuel_ok s fuel ->
    wrap (elements * size) <= SIZE_MAX - 23 ->
    calloc fuel elements size s = Some (r, s') -> in_use s'
| use_write s p a v s' :
    in_use s -> valid_ptr s p ->
    p <= a < p + (size_at s (payload_to_header p) - wsize) ->
    store_byte a v s = Some (tt, s') -> in_use s'.

Lemma reachable_in_use s : reachable s -> in_use s.
Proof.
  induction 1 as [lo hi H1 H2 H3
                 |s fuel ok s' _ IH Hf Hs E
                 |s fuel size r s' _ IH Hf Hsz E
                 |s fuel p s' _ IH Hf Hp E
                 |s fuel p size r s' _ IH Hf Hp Hsz E
                 |s fuel n size r s' _ IH Hf Hsz E].
  - apply use_fresh; assumption.
  - apply (use_init s fuel ok s'); assumption.
  - apply (use_malloc s fuel size r s'); assumption.
  - apply (use_free s fuel p s'); assumption.
  - apply (use_realloc s fuel p size r s'); assumption.
  - apply (use_calloc s fuel n size r s'); assumption.
Qed.

Lemma store_byte_Inv s p a v :
  Inv s -> valid_ptr s p ->
  p <= a < p + (size_at s (payload_to_header p) - wsize) ->
  wp (store_byte a v) (fun _ s' => Inv s' /\ same_arena s s' /\
                                   seglist s' = seglist s /\
                                   mini_root s' = mini_root s) s.
Proof.
  intros (A & HR & HG) Hv Ha. pose proof HR as [HL _].
  destruct (valid_ptr_block s A p HL Hv) as (e & He & Hal).
  unfold payload_to_header, off_payload, wsize in Ha.
  rewrite (blk_size_at s A HL _ e He) in Ha.
  assert (Hk : kept s A s) by (split; [exact HR|apply same_arena_refl]).
  unfold store_byte. apply wp_bind, wp_load. apply wp_store.
  assert (Hk' : forall w, kept s A (set_mem (<[word_of a := w]> (mem s)) s)).
  { intros w. apply (store_inside_kept s A (p - 8) e He Hal HG s (word_of a) w Hk).
    destruct (lay_size s A HL _ e He) as (_ & _ & Hal8).
    unfold word_of, wsize. revert Hal8. divlia. }
  match goal with |- context [<[_ := ?w]> _] => destruct (Hk' w) as [HR' Hsa] end.
  repeat split; try reflexivity.
  exists A. split; [exact HR'|]. apply (same_arena_good' s _ A Hsa HG).
Qed.

Lemma in_use_J s : in_use s -> J s.
Proof.
  induction 1 as [lo hi H1 H2 H3
                 |s fuel ok s' _ IH Hf Hs E
                 |s fuel size r s' _ IH Hf Hsz E
                 |s fuel p s' _ IH Hf Hp E
                 |s fuel p size r s' _ IH Hf Hp Hsz E
                 |s fuel n size r s' _ IH Hf Hsz E
                 |s p a v s' _ IH Hv Ha E].
  - left. split; [reflexivity|]. unfold arena_ok, fresh. cbn. lia.
  - destruct IH as [HU|HI]; [|exfalso; apply (inv_started s HI Hs)].
    apply (wp_result _ _ _ _ _ (init_J fuel s HU Hf) E).
  - apply (wp_result _ _ _ _ _ (malloc_J fuel s size IH Hf Hsz) E).
  - apply (wp_result _ _ _ _ _ (free_J fuel s p IH Hf Hp) E).
  - apply (wp_result _ _ _ _ _ (realloc_J fuel s p size IH Hf Hp Hsz) E).
  - apply (wp_result _ _ _ _ _ (calloc_J fuel s n size IH Hf Hsz) E).
  - destruct IH as [[Hs _]|HI]; [destruct Hv as [N _]; contradiction|].
    right. apply (wp_result _ _ _ _ _ (store_byte_Inv s p a v HI Hv Ha) E).
Qed.

Lemma in_use_inv s : in_use s -> heap_start s <> NULL -> Inv s.
Proof.
  intros Hr Hs. destruct (in_use_J s Hr) as [[E _]|HI]; [contradiction|exact HI].
Qed.

(** C4.  In a state of a program that has called the allocator and
    written into the payloads it holds, with the heap set up, when the
    allocation inside [realloc ptr size] for a pointer other than null and
    a size other than 0 returns the null pointer, [realloc] returns the
    null pointer and the whole state is as before the call: the block of
    [ptr], its header and its payload with what the program stored there,
    is neither changed nor released. *)
Theorem realloc_failed_allocation (fuel : nat) (s : state) (ptr size : Z) :
  in_use s -> heap_start s <> NULL -> fuel_ok s fuel ->
  ptr <> NULL -> size <> 0 ->
  (exists s1, malloc fuel size s = Some (NULL, s1)) ->
  realloc fuel ptr size s = Some (NULL, s).
Proof.
  intros Hr Hs Hf Hp Hsz (s1 & Hm).
  pose proof (in_use_inv s Hr Hs) as HI.
  assert (s1 = s) as ->.
  { rewrite (malloc_started fuel size s Hs) in Hm.
    apply (malloc_body_null fuel s size s1 HI Hf Hm). }
  unfold realloc. cbv zeta.
  rewrite (proj2 (Z.eqb_neq size 0) Hsz).
  rewrite (proj2 (Z.eqb_neq ptr NULL) Hp).
  unfold bind at 1. rewrite Hm. reflexivity.
Qed.

(** Every block of the layout is found by the walk. *)
Lemma blocks_walk s A :
  Layout s A ->
  forall k x e, blocks A !! x = Some e -> x - heap_start s < Z.of_nat k ->
    exists n, nth_block s n = x.
Proof.
  intros HL. induction k as [|k IH]; intros x e Hx Hk.
  - pose proof (lay_in s A HL x e Hx). lia.
  - destruct (lay_prev s A HL x e Hx) as [->|(y & ey & Hy & E)].
    + exists 0%nat. reflexivity.
    + pose proof (blk_bounds s A HL y ey Hy) as By.
      destruct (IH y ey Hy) as (n & Hn); [lia|].
      exists (S n). cbn [nth_block]. cbv zeta. rewrite Hn.
      rewrite (blk_not_epilogue s A HL y ey Hy), (blk_next_of s A HL y ey Hy).
      exact E.
Qed.

Lemma blocks_is_block s A x e :
  Layout s A -> blocks A !! x = Some e -> is_block s x.
Proof.
  intros HL Hx.
  destruct (blocks_walk s A HL (S (Z.to_nat (x - heap_start s))) x e Hx) as (n & Hn);
    [lia|].
  exists n. split; [exact Hn|]. apply (blk_not_epilogue s A HL x e Hx).
Qed.

Lemma valid_ptr_of_block s A b e :
  Layout s A -> blocks A !! b = Some e -> bal e = true -> valid_ptr s (b + 8).
Proof.
  intros HL Hb Hal. pose proof (lay_start s A HL).
  unfold valid_ptr, payload_to_header, off_payload.
  replace (b + 8 - 8) with b by lia. repeat split.
  - unfold NULL. lia.
  - apply (blocks_is_block s A b e HL Hb).
  - rewrite (blk_alloc_at s A HL b e Hb). exact Hal.
Qed.

Lemma valid_ptr_cb s A p :
  Layout s A ->
  (valid_ptr s p <-> exists sz, cb A (p - 8) = Some (sz, true)).
Proof.
  intros HL. split.
  - intros Hv. destruct (valid_ptr_block s A p HL Hv) as (e & He & Hal).
    exists (bsz e). rewrite (cb_of A _ e He), Hal. reflexivity.
  - intros (sz & Hc). apply cb_Some in Hc as (e & He & _ & Hal).
    replace p with (p - 8 + 8) by lia.
    apply (valid_ptr_of_block s A (p - 8) e HL He Hal).
Qed.

(** X3.  Between calls every block is at least 16 bytes long, a
    multiple of 16, below [2^64], has a payload aligned to 16 bytes and lies
    between [heap_start] and the epilogue; a free block of more than 16
    bytes ends in a footer equal to its header. *)
Theorem block_shape (s : state) (x : Z) :
  in_use s -> heap_start s <> NULL -> is_block s x ->
  16 <= size_at s x < modulus /\ size_at s x mod 16 = 0 /\
  header_to_payload x mod 16 = 0 /\
  heap_start s <= x /\ x + size_at s x <= mem_heap_hi s - 7 /\
  (alloc_at s x = false -> size_at s x <> MINI_BLOCK_SIZE ->
   load_word s (x + size_at s x - wsize) = load_word s x).
Proof.
  intros Hr Hs Hx. destruct (in_use_inv s Hr Hs) as (A & [HL _] & _).
  destruct (is_block_blocks s A x HL Hx) as (e & He).
  pose proof (blk_bounds s A HL x e He) as B.
  destruct (lay_size s A HL x e He) as (_ & _ & Hal).
  pose proof (lay_in s A HL x e He) as Hin.
  rewrite (blk_size_at s A HL x e He), (blk_alloc_at s A HL x e He).
  unfold header_to_payload, off_payload, mem_heap_hi, MINI_BLOCK_SIZE, wsize.
  unfold heap_end in *.
  repeat split; try lia; [revert Hal; divlia|].
  intros Hf Hn. unfold load_word.
  rewrite (lay_ftr s A HL x e He Hf Hn), (lay_hdr s A HL x e He). reflexivity.
Qed.

(** X4.  Between calls the blocks tile the heap: the walk from
    [heap_start] comes to the epilogue, which is the word at
    [mem_heap_hi - 7], and what follows a block is a block or the
    epilogue. *)
Theorem heap_tiled (s : state) :
  in_use s -> heap_start s <> NULL ->
  (exists n, nth_block s n = mem_heap_hi s - 7) /\
  is_epilogue s (mem_heap_hi s - 7) = true /\
  (forall x, is_block s x ->
     is_block s (next_of s x) \/ next_of s x = mem_heap_hi s - 7).
Proof.
  intros Hr Hs. destruct (in_use_inv s Hr Hs) as (A & [HL _] & _).
  assert (E : mem_heap_hi s - 7 = heap_end s) by (unfold mem_heap_hi, heap_end; lia).
  rewrite E. repeat split.
  - destruct (lay_last s A HL) as [E0|(y & ey & Hy & Ey)].
    + exists 0%nat. exact E0.
    + destruct (blocks_is_block s A y ey HL Hy) as (n & Hn & _).
      exists (S n). cbn [nth_block]. cbv zeta. rewrite Hn.
      rewrite (blk_not_epilogue s A HL y ey Hy), (blk_next_of s A HL y ey Hy).
      exact Ey.
  - apply (epi_is_epilogue s A HL).
  - intros x Hx. destruct (is_block_blocks s A x HL Hx) as (e & He).
    rewrite (blk_next_of s A HL x e He).
    destruct (lay_next s A HL x e He) as [E1|[e' He']]; [right; exact E1|left].
    apply (blocks_is_block s A _ e' HL He').
Qed.

(** X5.  Between calls the flags in a header tell the truth about
    the block before it: the block, or the epilogue, that follows a block
    carries that block's allocation bit as [palloc] and whether it is 16
    bytes long as [mpalloc]; the first header has [palloc] set. *)
Theorem flags_truthful (s : state) (x : Z) :
  in_use s -> heap_start s <> NULL -> is_block s x ->
  palloc_at s (next_of s x) = alloc_at s x /\
  mpalloc_at s (next_of s x) = (size_at s x =? MINI_BLOCK_SIZE) /\
  palloc_at s (heap_start s) = true.
Proof.
  intros Hr Hs Hx. destruct (in_use_inv s Hr Hs) as (A & [HL _] & HG).
  destruct (is_block_blocks s A x HL Hx) as (e & He).
  rewrite (blk_next_of s A HL x e He), (blk_alloc_at s A HL x e He),
    (blk_size_at s A HL x e He). unfold MINI_BLOCK_SIZE.
  assert (K : palloc_at s (x + bsz e) = bal e /\
              mpalloc_at s (x + bsz e) = (bsz e =? 16)).
  { destruct (lay_next s A HL x e He) as [E1|[e' He']].
    - rewrite E1, (epi_palloc_at s A HL), (epi_mpalloc_at s A HL).
      apply (g_last _ _ _ HG x e He E1).
    - rewrite (blk_palloc_at s A HL _ e' He'), (blk_mpalloc_at s A HL _ e' He').
      apply (g_flags _ _ _ HG x e e' He He'). }
  destruct K as [K1 K2]. repeat split; auto.
  destruct (lay_first s A HL) as [E0|[e0 H0]].
  - rewrite E0, (epi_palloc_at s A HL). apply (g_empty _ _ _ HG E0).
  - rewrite (blk_palloc_at s A HL _ e0 H0). apply (g_first _ _ _ HG e0 H0).
Qed.

(** X6.  Between calls a block is free exactly when the walk of
    the free list for its size finds it. *)
Theorem free_iff_listed (fuel : nat) (s : state) (x : Z) :
  in_use s -> heap_start s <> NULL -> fuel_ok s fuel -> is_block s x ->
  (alloc_at s x = false <-> listed_in fuel s x).
Proof.
  intros Hr Hs Hf Hx. destruct (in_use_inv s Hr Hs) as (A & HR & HG).
  pose proof HR as [HL _].
  destruct (is_block_blocks s A x HL Hx) as (e & He).
  unfold listed_in. rewrite (listed_in_inlist fuel s A x _ HR Hf).
  rewrite (blk_size_at s A HL x e He), (blk_alloc_at s A HL x e He).
  apply (g_listed _ _ _ HG x e He).
Qed.

(** The blocks of the list of 16-byte blocks, in list order. *)
Definition mini_blocks (fuel : nat) (s : state) : list Z :=
  walk_next fuel s (mini_root s).

Lemma bucket_blocks_segs fuel s A idx :
  Rep s A -> fuel_ok s fuel -> 0 <= idx < 14 ->
  bucket_blocks fuel s idx = segs A idx.
Proof.
  intros HR Hf Hi. pose proof HR as [HL HS].
  destruct (rep_lists_fit s A fuel HR Hf) as [_ F2].
  unfold bucket_blocks. apply (walk_dll s fuel _ NULL).
  - apply (lst_seg s A HS idx Hi).
  - apply (F2 idx Hi).
Qed.

Lemma mini_blocks_minis fuel s A :
  Rep s A -> fuel_ok s fuel -> mini_blocks fuel s = minis A.
Proof.
  intros HR Hf. pose proof HR as [HL HS].
  destruct (rep_lists_fit s A fuel HR Hf) as [F1 _].
  unfold mini_blocks. apply (walk_sll s fuel); [apply (lst_mini s A HS)|exact F1].
Qed.

(** X7.  Between calls every node of bucket [idx] is a free block
    of the heap, longer than 16 bytes, whose size class is [idx]. *)
Theorem bucket_members (fuel : nat) (s : state) (idx x : Z) :
  in_use s -> heap_start s <> NULL -> fuel_ok s fuel ->
  0 <= idx < BUCKET_COUNT -> In x (bucket_blocks fuel s idx) ->
  is_block s x /\ alloc_at s x = false /\
  size_at s x <> MINI_BLOCK_SIZE /\ home_address (size_at s x) = idx.
Proof.
  intros Hr Hs Hf Hi Hx. destruct (in_use_inv s Hr Hs) as (A & HR & HG).
  pose proof HR as [HL HS]. unfold BUCKET_COUNT in Hi.
  rewrite (bucket_blocks_segs fuel s A idx HR Hf Hi) in Hx.
  destruct (lst_seg_blk s A HS idx x Hi Hx) as (e & He & Hn & Hh).
  rewrite (blk_size_at s A HL x e He), (blk_alloc_at s A HL x e He).
  unfold MINI_BLOCK_SIZE. repeat split; auto.
  - apply (blocks_is_block s A x e HL He).
  - apply (g_listed _ _ _ HG x e He). unfold listed.
    rewrite (proj2 (Z.eqb_neq _ _) Hn), Hh. exact Hx.
Qed.

(** X8.  Between calls every node of the list of 16-byte blocks
    is a free block of the heap of exactly 16 bytes. *)
Theorem mini_members (fuel : nat) (s : state) (x : Z) :
  in_use s -> heap_start s <> NULL -> fuel_ok s fuel ->
  In x (mini_blocks fuel s) ->
  is_block s x /\ alloc_at s x = false /\ size_at s x = MINI_BLOCK_SIZE.
Proof.
  intros Hr Hs Hf Hx. destruct (in_use_inv s Hr Hs) as (A & HR & HG).
  pose proof HR as [HL HS].
  rewrite (mini_blocks_minis fuel s A HR Hf) in Hx.
  destruct (lst_mini_blk s A HS x Hx) as (e & He & Hsz).
  rewrite (blk_size_at s A HL x e He), (blk_alloc_at s A HL x e He).
  unfold MINI_BLOCK_SIZE. repeat split; auto.
  - apply (blocks_is_block s A x e HL He).
  - apply (g_listed _ _ _ HG x e He). unfold listed. rewrite Hsz. exact Hx.
Qed.

Lemma dll_prev_links m : forall l1 pv p x y l2,
  dll m pv p (l1 ++ x :: y :: l2) -> default 0 (m !! (y + off_prev)) = x.
Proof.
  induction l1 as [|z l1 IH]; intros pv p x y l2 H.
  - cbn [app dll] in H. destruct H as (_ & _ & _ & _ & _ & H & _). exact H.
  - cbn [app dll] in H. destruct H as (_ & _ & _ & H). apply (IH _ _ _ _ _ H).
Qed.

(** X9.  Between calls no free list holds a block twice, so none
    is cyclic; in a bucket the [prev] field of the first node is null and
    the [prev] field of every other node points at the node before it. *)
Theorem lists_acyclic (fuel : nat) (s : state) (idx : Z) :
  in_use s -> heap_start s <> NULL -> fuel_ok s fuel ->
  0 <= idx < BUCKET_COUNT ->
  List.NoDup (mini_blocks fuel s) /\ List.NoDup (bucket_blocks fuel s idx) /\
  (forall x l, bucket_blocks fuel s idx = x :: l ->
     load_word s (x + off_prev) = NULL) /\
  (forall l1 x y l2, bucket_blocks fuel s idx = l1 ++ x :: y :: l2 ->
     load_word s (y + off_prev) = x).
Proof.
  intros Hr Hs Hf Hi. destruct (in_use_inv s Hr Hs) as (A & HR & HG).
  pose proof HR as [HL HS]. unfold BUCKET_COUNT in Hi.
  rewrite (bucket_blocks_segs fuel s A idx HR Hf Hi).
  rewrite (mini_blocks_minis fuel s A HR Hf).
  pose proof (lst_seg s A HS idx Hi) as Hd.
  repeat split.
  - apply (lst_mini_nodup s A HS).
  - apply (lst_seg_nodup s A HS idx Hi).
  - intros x l E. rewrite E in Hd. cbn [dll] in Hd.
    destruct Hd as (_ & _ & H & _). exact H.
  - intros l1 x y l2 E. rewrite E in Hd.
    apply (dll_prev_links (mem s) l1 _ _ x y l2 Hd).
Qed.

(** ** Sample runs *)

(** A program that stores a byte into its first allocation and then
    releases it; and one that works with 16-byte blocks. *)
Definition used1 : state := after (store_byte 4120 255) demo2.
Definition used2 : state := after (free 5000 4112) used1.
Definition small1 : state := after (malloc 5000 8) fresh_state.
Definition small2 : state := after (malloc 5000 8) small1.
Definition small3 : state := after (free 5000 4112) small2.

Ltac block_nr n :=
  split; [vm_compute; discriminate
         |split; [exists n; split; reflexivity|reflexivity]].

Lemma used1_in_use : in_use used1.
Proof.
  apply (use_write demo2 4112 4120 255 used1 (reachable_in_use _ demo2_reachable)).
  - block_nr 0%nat.
  - vm_compute. split; [discriminate|reflexivity].
  - vm_compute. reflexivity.
Defined.

(** An arena with no room left, whose one allocation holds a byte the
    program stored. *)
Definition tight2 : state := after (store_byte 4120 255) tight1.

Lemma tight2_in_use : in_use tight2.
Proof.
  apply (use_write tight1 4112 4120 255 tight2 (reachable_in_use _ tight1_reachable)).
  - block_nr 0%nat.
  - vm_compute. split; [discriminate|reflexivity].
  - vm_compute. reflexivity.
Defined.

Lemma realloc_failed_allocation_witness :
  in_use tight2 /\ heap_start tight2 <> NULL /\ fuel_ok tight2 5000 /\
  4112 <> NULL /\ 1000 <> 0 /\ load_byte tight2 4120 = 255 /\
  (exists s1, malloc 5000 1000 tight2 = Some (NULL, s1)) /\
  realloc 5000 4112 1000 tight2 = Some (NULL, tight2).
Proof.
  assert (Hs : heap_start tight2 <> NULL) by (vm_compute; discriminate).
  assert (Hf : fuel_ok tight2 5000) by (vm_compute; reflexivity).
  assert (Hp : 4112 <> NULL) by discriminate.
  assert (Hsz : 1000 <> 0) by discriminate.
  assert (Hb : load_byte tight2 4120 = 255) by (vm_compute; reflexivity).
  assert (Hm : exists s1, malloc 5000 1000 tight2 = Some (NULL, s1)).
  { exists tight2. vm_compute. reflexivity. }
  split; [exact tight2_in_use|]. split; [exact Hs|]. split; [exact Hf|].
  split; [exact Hp|]. split; [exact Hsz|]. split; [exact Hb|].
  split; [exact Hm|].
  exact (realloc_failed_allocation 5000 tight2 4112 1000 tight2_in_use Hs Hf
           Hp Hsz Hm).
Defined.

Lemma used2_in_use : in_use used2.
Proof.
  apply (use_free used1 5000 4112 used2 used1_in_use).
  - apply demo_fuel. reflexivity.
  - right. block_nr 0%nat.
  - vm_compute. reflexivity.
Defined.

Lemma small1_in_use : in_use small1.
Proof.
  apply (use_malloc fresh_state 5000 8 4112 small1).
  - apply (use_fresh 4096 65536); [lia|reflexivity|unfold modulus; lia].
  - apply demo_fuel. reflexivity.
  - unfold SIZE_MAX, modulus. lia.
  - vm_compute. reflexivity.
Defined.

Lemma small2_in_use : in_use small2.
Proof.
  apply (use_malloc small1 5000 8 4128 small2 small1_in_use).
  - apply demo_fuel. reflexivity.
  - unfold SIZE_MAX, modulus. lia.
  - vm_compute. reflexivity.
Defined.

Lemma small3_in_use : in_use small3.
Proof.
  apply (use_free small2 5000 4112 small3 small2_in_use).
  - apply demo_fuel. reflexivity.
  - right. block_nr 0%nat.
  - vm_compute. reflexivity.
Defined.

Lemma used2_started : heap_start used2 <> NULL.
Proof. vm_compute. discriminate. Defined.

Lemma small3_started : heap_start small3 <> NULL.
Proof. vm_compute. discriminate. Defined.

Lemma used2_fuel : fuel_ok used2 5000.
Proof. apply demo_fuel. reflexivity. Defined.

Lemma small3_fuel : fuel_ok small3 5000.
Proof. apply demo_fuel. reflexivity. Defined.

(** ** Witnesses *)

Lemma block_shape_witness :
  in_use used2 /\ heap_start used2 <> NULL /\ is_block used2 4104 /\
  16 <= size_at used2 4104 < modulus /\ size_at used2 4104 mod 16 = 0 /\
  header_to_payload 4104 mod 16 = 0 /\
  heap_start used2 <= 4104 /\
  4104 + size_at used2 4104 <= mem_heap_hi used2 - 7 /\
  (alloc_at used2 4104 = false -> size_at used2 4104 <> MINI_BLOCK_SIZE ->
   load_word used2 (4104 + size_at used2 4104 - wsize) = load_word used2 4104).
Proof.
  assert (Hb : is_block used2 4104) by (exists 0%nat; split; reflexivity).
  split; [exact used2_in_use|]. split; [exact used2_started|].
  split; [exact Hb|].
  exact (block_shape used2 4104 used2_in_use used2_started Hb).
Defined.

Lemma heap_tiled_witness :
  in_use used2 /\ heap_start used2 <> NULL /\
  (exists n, nth_block used2 n = mem_heap_hi used2 - 7) /\
  is_epilogue used2 (mem_heap_hi used2 - 7) = true /\
  (forall x, is_block used2 x ->
     is_block used2 (next_of used2 x) \/
     next_of used2 x = mem_heap_hi used2 - 7).
Proof.
  split; [exact used2_in_use|]. split; [exact used2_started|].
  exact (heap_tiled used2 used2_in_use used2_started).
Defined.

Lemma flags_truthful_witness :
  in_use small3 /\ heap_start small3 <> NULL /\ is_block small3 4104 /\
  palloc_at small3 (next_of small3 4104) = alloc_at small3 4104 /\
  mpalloc_at small3 (next_of small3 4104) =
    (size_at small3 4104 =? MINI_BLOCK_SIZE) /\
  palloc_at small3 (heap_start small3) = true.
Proof.
  assert (Hb : is_block small3 4104) by (exists 0%nat; split; reflexivity).
  split; [exact small3_in_use|]. split; [exact small3_started|].
  split; [exact Hb|].
  exact (flags_truthful small3 4104 small3_in_use small3_started Hb).
Defined.

Lemma free_iff_listed_witness :
  in_use used2 /\ heap_start used2 <> NULL /\ fuel_ok used2 5000 /\
  is_block used2 4424 /\
  (alloc_at used2 4424 = false <-> listed_in 5000 used2 4424).
Proof.
  assert (Hb : is_block used2 4424) by (exists 2%nat; split; reflexivity).
  split; [exact used2_in_use|]. split; [exact used2_started|].
  split; [exact used2_fuel|]. split; [exact Hb|].
  exact (free_iff_listed 5000 used2 4424 used2_in_use used2_started used2_fuel Hb).
Defined.

Lemma bucket_members_witness :
  in_use used2 /\ heap_start used2 <> NULL /\ fuel_ok used2 5000 /\
  0 <= 6 < BUCKET_COUNT /\ In 4424 (bucket_blocks 5000 used2 6) /\
  is_block used2 4424 /\ alloc_at used2 4424 = false /\
  size_at used2 4424 <> MINI_BLOCK_SIZE /\
  home_address (size_at used2 4424) = 6.
Proof.
  assert (Hi : 0 <= 6 < BUCKET_COUNT) by (unfold BUCKET_COUNT; lia).
  assert (Hx : In 4424 (bucket_blocks 5000 used2 6)) by (vm_compute; left; reflexivity).
  split; [exact used2_in_use|]. split; [exact used2_started|].
  split; [exact used2_fuel|]. split; [exact Hi|]. split; [exact Hx|].
  exact (bucket_members 5000 used2 6 4424 used2_in_use used2_started used2_fuel
           Hi Hx).
Defined.

Lemma mini_members_witness :
  in_use small3 /\ heap_start small3 <> NULL /\ fuel_ok small3 5000 /\
  In 4104 (mini_blocks 5000 small3) /\
  is_block small3 4104 /\ alloc_at small3 4104 = false /\
  size_at small3 4104 = MINI_BLOCK_SIZE.
Proof.
  assert (Hx : In 4104 (mini_blocks 5000 small3)) by (vm_compute; left; reflexivity).
  split; [exact small3_in_use|]. split; [exact small3_started|].
  split; [exact small3_fuel|]. split; [exact Hx|].
  exact (mini_members 5000 small3 4104 small3_in_use small3_started small3_fuel Hx).
Defined.

Lemma lists_acyclic_witness :
  in_use used2 /\ heap_start used2 <> NULL /\ fuel_ok used2 5000 /\
  0 <= 3 < BUCKET_COUNT /\
  List.NoDup (mini_blocks 5000 used2) /\
  List.NoDup (bucket_blocks 5000 used2 3) /\
  (forall x l, bucket_blocks 5000 used2 3 = x :: l ->
     load_word used2 (x + off_prev) = NULL) /\
  (forall l1 x y l2, bucket_blocks 5000 used2 3 = l1 ++ x :: y :: l2 ->
     load_word used2 (y + off_prev) = x).
Proof.
  assert (Hi : 0 <= 3 < BUCKET_COUNT) by (unfold BUCKET_COUNT; lia).
  split; [exact used2_in_use|]. split; [exact used2_started|].
  split; [exact used2_fuel|]. split; [exact Hi|].
  exact (lists_acyclic 5000 used2 3 used2_in_use used2_started used2_fuel Hi).
Defined.

(** * The calls, as a program sees them *)

(** X1.  Between calls no two blocks next to each other are both free,
    whatever the program has allocated, released and written into its
    payloads. *)
Theorem never_adjacent_free (s : state) :
  in_use s -> heap_start s <> NULL -> no_adjacent_free s.
Proof.
  intros Hu Hs. apply inv_no_adjacent_free, (in_use_inv s Hu Hs).
Qed.

(** X2.  Once the heap is set up, or while the arena still has room for
    the 16 bytes that [mm_init] takes first, every call with a size short
    of wrap-around and a null or valid pointer returns: no [assert] fails
    and every list walk ends.  (With the heap not set up and less room than
    that, [malloc] goes on after the failed [mm_init] and reads the word at
    [mem_heap_hi () - 7], which lies below the arena.) *)
Theorem calls_return (fuel : nat) (s : state) :
  in_use s -> fuel_ok s fuel ->
  heap_start s <> NULL \/ mem_brk s + 16 <= mem_max s ->
  (forall size, 0 <= size <= SIZE_MAX - 23 ->
     exists r s', malloc fuel size s = Some (r, s')) /\
  (forall p, p = NULL \/ valid_ptr s p ->
     exists s', free fuel p s = Some (tt, s')) /\
  (forall p size, p = NULL \/ valid_ptr s p -> 0 <= size <= SIZE_MAX - 23 ->
     exists r s', realloc fuel p size s = Some (r, s')) /\
  (forall elements size, wrap (elements * size) <= SIZE_MAX - 23 ->
     exists r s', calloc fuel elements size s = Some (r, s')).
Proof.
  intros Hr Hf _. pose proof (in_use_J s Hr) as HJ. repeat split.
  - intros size Hsz.
    destruct (proj1 (wp_run _ _ _) (malloc_J fuel s size HJ Hf Hsz)) as (r & s' & E & _).
    eauto.
  - intros p Hp.
    destruct (proj1 (wp_run _ _ _) (free_J fuel s p HJ Hf Hp)) as ([] & s' & E & _).
    eauto.
  - intros p size Hp Hsz.
    destruct (proj1 (wp_run _ _ _) (realloc_J fuel s p size HJ Hf Hp Hsz))
      as (r & s' & E & _). eauto.
  - intros n size Hsz.
    destruct (proj1 (wp_run _ _ _) (calloc_J fuel s n size HJ Hf Hsz))
      as (r & s' & E & _). eauto.
Qed.

Lemma valid_apart (s : state) (p q : Z) :
  Inv s -> valid_ptr s p -> valid_ptr s q -> p < q ->
  p + (size_at s (payload_to_header p) - wsize) <= payload_to_header q.
Proof.
  intros (A & [HL _] & _) Hp Hq Hlt.
  destruct (valid_ptr_block s A p HL Hp) as (e & He & _).
  destruct (valid_ptr_block s A q HL Hq) as (e' & He' & _).
  unfold payload_to_header, off_payload, wsize.
  rewrite (blk_size_at s A HL _ e He).
  pose proof (lay_disj s A HL (p - 8) (q - 8) e e' He He'). lia.
Qed.

(** The block of a valid pointer has a header and room for 8 bytes. *)
Lemma valid_ptr_size (s : state) (p : Z) :
  Inv s -> valid_ptr s p ->
  16 <= size_at s (payload_to_header p) < modulus /\ 8 < p.
Proof.
  intros (A & [HL _] & _) Hp.
  destruct (valid_ptr_block s A p HL Hp) as (e & He & _).
  unfold payload_to_header, off_payload.
  rewrite (blk_size_at s A HL _ e He).
  pose proof (blk_bounds s A HL _ e He). lia.
Qed.

(** X10.  The payloads of two different valid pointers do not overlap:
    the header of the one that lies higher comes after the last payload
    byte of the other. *)
Theorem valid_ptrs_disjoint (s : state) (p q : Z) :
  in_use s -> valid_ptr s p -> valid_ptr s q -> p < q ->
  p + (size_at s (payload_to_header p) - wsize) <= payload_to_header q.
Proof.
  intros Hu Hp Hq Hlt. pose proof Hp as (Hs & _).
  apply (valid_apart s p q (in_use_inv s Hu Hs) Hp Hq Hlt).
Qed.

(** ** Bytes *)

Lemma byte_same (w k v : Z) :
  0 <= k < 8 -> 0 <= v < 256 ->
  ((w - (w / 2 ^ (8 * k)) mod 256 * 2 ^ (8 * k) + v * 2 ^ (8 * k))
     / 2 ^ (8 * k)) mod 256 = v.
Proof.
  intros Hk Hv.
  assert (Hp : 0 < 2 ^ (8 * k)) by (apply Z.pow_pos_nonneg; lia).
  set (P := 2 ^ (8 * k)) in *.
  replace (w - (w / P) mod 256 * P + v * P) with (w + (v - (w / P) mod 256) * P) by lia.
  rewrite Z.div_add by lia.
  pose proof (Z.mod_pos_bound (w / P) 256 ltac:(lia)).
  pose proof (Z.div_mod (w / P) 256 ltac:(lia)).
  replace (w / P + (v - (w / P) mod 256)) with (v + (w / P / 256) * 256) by lia.
  rewrite Z.mod_add by lia. apply Z.mod_small. lia.
Qed.

Lemma byte_other (w k k' v : Z) :
  0 <= k < 8 -> 0 <= k' < 8 -> k <> k' -> 0 <= v < 256 ->
  ((w - (w / 2 ^ (8 * k)) mod 256 * 2 ^ (8 * k) + v * 2 ^ (8 * k))
     / 2 ^ (8 * k')) mod 256 = (w / 2 ^ (8 * k')) mod 256.
Proof.
  intros Hk Hk' N Hv.
  assert (Hp : 0 < 2 ^ (8 * k)) by (apply Z.pow_pos_nonneg; lia).
  assert (Hp' : 0 < 2 ^ (8 * k')) by (apply Z.pow_pos_nonneg; lia).
  pose proof (Z.mod_pos_bound (w / 2 ^ (8 * k)) 256 ltac:(lia)) as Ho.
  set (old := (w / 2 ^ (8 * k)) mod 256) in *.
  destruct (Z_lt_ge_dec k k') as [Hlt|Hge].
  - (* the byte read lies above the byte written *)
    assert (E : 2 ^ (8 * k') = 2 ^ (8 * k) * (256 * 2 ^ (8 * (k' - k - 1)))).
    { change 256 with (2 ^ 8). rewrite <- !Z.pow_add_r by lia. f_equal. lia. }
    assert (Hq : 0 < 2 ^ (8 * (k' - k - 1))) by (apply Z.pow_pos_nonneg; lia).
    rewrite E. set (P := 2 ^ (8 * k)) in *. set (R := 2 ^ (8 * (k' - k - 1))) in *.
    rewrite <- !Z.div_div by lia.
    replace (w - old * P + v * P) with (w + (v - old) * P) by lia.
    rewrite Z.div_add by lia.
    pose proof (Z.div_mod (w / P) 256 ltac:(lia)) as D. fold old in D.
    replace (w / P + (v - old)) with (v + (w / P / 256) * 256) by lia.
    rewrite Z.div_add by lia. rewrite (Z.div_small v 256) by lia.
    rewrite Z.add_0_l. reflexivity.
  - (* the byte read lies below the byte written *)
    assert (E : 2 ^ (8 * k) = 2 ^ (8 * k') * (256 * 2 ^ (8 * (k - k' - 1)))).
    { change 256 with (2 ^ 8). rewrite <- !Z.pow_add_r by lia. f_equal. lia. }
    rewrite E. set (P := 2 ^ (8 * k')) in *. set (R := 2 ^ (8 * (k - k' - 1))) in *.
    replace (w - old * (P * (256 * R)) + v * (P * (256 * R)))
      with (w + ((v - old) * 256 * R) * P) by lia.
    rewrite Z.div_add by lia.
    replace (w / P + (v - old) * 256 * R) with (w / P + ((v - old) * R) * 256) by lia.
    rewrite Z.mod_add by lia. reflexivity.
Qed.

Lemma word_byte (a : Z) : a = word_of a + a mod wsize /\ 0 <= a mod wsize < 8.
Proof. unfold word_of, wsize. split; [lia|apply Z.mod_pos_bound; lia]. Qed.

(** A byte store changes the byte at its address and no other. *)
Lemma load_byte_store (s : state) (a v : Z) (s' : state) (a' : Z) :
  store_byte a v s = Some (tt, s') ->
  load_byte s' a' = if decide (a' = a) then v mod 256 else load_byte s a'.
Proof.
  unfold store_byte, bind, load, gets, store, modify. intros E.
  injection E as <-. unfold load_byte, load_word, byte_shift.
  cbn [mem set_mem].
  destruct (word_byte a) as [Ea Ba]. destruct (word_byte a') as [Ea' Ba'].
  pose proof (Z.mod_pos_bound v 256 ltac:(lia)) as Hv.
  destruct (decide (a' = a)) as [->|N].
  - rewrite lookup_insert_eq. cbn [default from_option id].
    apply byte_same; [exact Ba|exact Hv].
  - destruct (Z.eq_dec (word_of a') (word_of a)) as [Ew|Nw].
    + rewrite Ew, lookup_insert_eq. cbn [default from_option id].
      apply byte_other; [exact Ba|exact Ba'|lia|exact Hv].
    + rewrite lookup_insert_ne by congruence. reflexivity.
Qed.

Lemma store_byte_fields (s : state) (a v : Z) (s' : state) :
  store_byte a v s = Some (tt, s') ->
  same_arena s s' /\ seglist s' = seglist s /\ mini_root s' = mini_root s.
Proof.
  unfold store_byte, bind, load, gets, store, modify. intros E.
  injection E as <-. repeat split.
Qed.

Lemma load_byte_range (s : state) (a : Z) : load_byte s a mod 256 = load_byte s a.
Proof. unfold load_byte. apply Z.mod_mod. lia. Qed.

(** [memset]: the bytes of the range hold the value, the others are as
    before. *)
Lemma fill_bytes_bytes (n : nat) : forall (dst v : Z) (s : state),
  wp (fill_bytes n dst v)
     (fun _ s' => forall a,
        load_byte s' a = if decide (dst <= a < dst + Z.of_nat n)
                         then v mod 256 else load_byte s a) s.
Proof.
  induction n as [|n IH]; intros dst v s.
  - cbn. intros a. destruct (decide _); [lia|reflexivity].
  - cbn [fill_bytes]. apply wp_bind. unfold wp at 1.
    destruct (store_byte dst v s) as [[[] s1]|] eqn:E.
    2:{ unfold store_byte, bind, load, gets, store, modify in E. discriminate. }
    eapply wp_mono; [apply (IH (dst + 1) v s1)|].
    intros [] s' H a. rewrite (H a), (load_byte_store s dst v s1 a E).
    repeat destruct (decide _); try reflexivity; lia.
Qed.

(** [memcpy] between ranges that do not overlap: the bytes of the
    destination hold what the source held, the others are as before. *)
Lemma copy_bytes_bytes (n : nat) : forall (dst src : Z) (s : state),
  dst + Z.of_nat n <= src \/ src + Z.of_nat n <= dst ->
  wp (copy_bytes n dst src)
     (fun _ s' => forall a,
        load_byte s' a = if decide (dst <= a < dst + Z.of_nat n)
                         then load_byte s (src + (a - dst))
                         else load_byte s a) s.
Proof.
  induction n as [|n IH]; intros dst src s Hd.
  - cbn. intros a. destruct (decide _); [lia|reflexivity].
  - cbn [copy_bytes]. apply wp_bind, wp_gets. apply wp_bind. unfold wp at 1.
    destruct (store_byte dst (load_byte s src) s) as [[[] s1]|] eqn:E.
    2:{ unfold store_byte, bind, load, gets, store, modify in E. discriminate. }
    eapply wp_mono; [apply (IH (dst + 1) (src + 1) s1); lia|].
    intros [] s' H a. rewrite (H a).
    rewrite !(load_byte_store s dst _ s1 _ E), load_byte_range.
    repeat destruct (decide _); try lia; try reflexivity.
    + f_equal. lia.
    + f_equal. lia.
Qed.

Lemma wp_both {T : Type} (c : M T) (Q1 Q2 : T -> state -> Prop) (s : state) :
  wp c Q1 s -> wp c Q2 s -> wp c (fun r s' => Q1 r s' /\ Q2 r s') s.
Proof. unfold wp. destruct (c s) as [[r s']|]; tauto. Qed.

(** ** What the calls leave alone *)

(** The bytes of the payload of [p], as the block is in [s], read the same
    in [s']. *)
Definition payload_kept (s s' : state) (p : Z) : Prop :=
  forall i, 0 <= i < size_at s (payload_to_header p) - wsize ->
    load_byte s' (p + i) = load_byte s (p + i).

(** Bytes whose words are the same are the same. *)
Lemma words_bytes (s s' : state) (x sz a : Z) :
  x mod 8 = 0 ->
  (forall w, x < w < x + sz -> mem s' !! w = mem s !! w) ->
  x + 8 <= a < x + sz -> load_byte s' a = load_byte s a.
Proof.
  intros Hx Hw Ha. unfold load_byte, load_word.
  rewrite Hw; [reflexivity|]. unfold word_of, wsize. revert Hx. divlia.
Qed.

Lemma block_payload_kept (s s' : state) (A : aheap) (p : Z) (e : blk) :
  Layout s A -> blocks A !! (p - 8) = Some e ->
  (forall a, p - 8 < a < p - 8 + bsz e -> mem s' !! a = mem s !! a) ->
  payload_kept s s' p.
Proof.
  intros HL He Hw i Hi. unfold payload_to_header, off_payload, wsize in Hi.
  rewrite (blk_size_at s A HL _ e He) in Hi.
  destruct (lay_size s A HL _ e He) as (_ & _ & Hal).
  apply (words_bytes s s' (p - 8) (bsz e)); [revert Hal; divlia|exact Hw|lia].
Qed.

(** The size of the block handed out for a request. *)
Definition asize_of (size : Z) : Z := round_up (wrap (size + wsize)) dsize.

(** The outcome of [malloc], for the calls that build on it. *)
Definition malloc_post (size : Z) (s : state) (r : Z) (s' : state) : Prop :=
  valid_ptr s' r /\ ~ valid_ptr s r /\ r mod 16 = 0 /\
  size <= size_at s' (payload_to_header r) - wsize /\
  (forall p, p <> r -> (valid_ptr s' p <-> valid_ptr s p)) /\
  (forall p, valid_ptr s p ->
     size_at s' (payload_to_header p) = size_at s (payload_to_header p)).

Lemma malloc_wp (fuel : nat) (s : state) (size : Z) :
  J s -> fuel_ok s fuel -> 0 < size <= SIZE_MAX - 23 ->
  wp (malloc fuel size)
     (fun r s' => mem_max s' = mem_max s /\
                  (forall p, valid_ptr s p -> payload_kept s s' p) /\
                  (r = NULL -> heap_start s <> NULL -> s' = s) /\
                  (r <> NULL -> Inv s' /\ malloc_post size s r s')) s.
Proof.
  intros HJ Hf Hsz.
  apply (malloc_entry fuel s size _ HJ Hf).
  - intros s1 A HR HG E1 Es Hna.
    assert (Hf1 : fuel_ok s1 fuel) by (unfold fuel_ok; rewrite E1; exact Hf).
    pose proof HR as [HL _].
    assert (Hold : forall p, valid_ptr s p <->
                     exists sz, cb A (p - 8) = Some (sz, true)).
    { intros p. destruct (Z.eq_dec (heap_start s) NULL) as [E0|N].
      - split; [intros (N & _); contradiction|].
        intros (sz & Hc). destruct (Hna E0 _ _ Hc).
      - rewrite <- (Es N). apply (valid_ptr_cb s1 A p HL). }
    apply (malloc_body_spec fuel s1 A size HR HG Hf1 Hsz).
    { intros _. split; [exact E1|].
      split; [intros p (N & _) i _; rewrite (Es N); reflexivity|].
      split; [intros _ N; apply (Es N)|intros N; contradiction]. }
    intros b s2 F e HR' HG' _ _ E2 _ Hb Hal Hle Hk Hfresh Hfr.
    split; [congruence|]. split.
    { intros p Hp. pose proof Hp as (N & _). pose proof (Es N) as ->.
      destruct (valid_ptr_block s A p HL Hp) as (ep & Hep & Halp).
      apply (block_payload_kept s s2 A p ep HL Hep).
      intros a Ha. apply (Hfr _ ep a Hep Halp Ha). }
    pose proof HR' as [HL' _].
    split.
    { intros Hn. exfalso. pose proof (blk_bounds s2 F HL' b e Hb).
      unfold NULL in Hn. lia. }
    intros _. split; [exists F; auto|].
    destruct (lay_size s2 F HL' b e Hb) as (_ & _ & Hal8).
    assert (Hnew : forall p, valid_ptr s2 p <->
                     exists sz, cb F (p - 8) = Some (sz, true))
      by (intros p; apply (valid_ptr_cb s2 F p HL')).
    split; [apply (valid_ptr_of_block s2 F b e HL' Hb Hal)|].
    split.
    { intros Hv. apply Hold in Hv as (sz & Hc).
      replace (b + 8 - 8) with b in Hc by lia. apply (Hfresh sz Hc). }
    split; [revert Hal8; divlia|].
    split.
    { unfold payload_to_header, off_payload, wsize.
      replace (b + 8 - 8) with b by lia.
      rewrite (blk_size_at s2 F HL' b e Hb). lia. }
    split.
    { intros p Np. rewrite Hold, Hnew.
      split; intros (sz & Hc); exists sz; apply (Hk (p - 8) sz); auto; lia. }
    intros p Hv. pose proof Hv as (N & _).
    apply Hold in Hv as (sz & Hc).
    assert (Nb : p - 8 <> b) by (intros <-; apply (Hfresh sz Hc)).
    pose proof (proj2 (Hk _ sz Nb) Hc) as Hc'.
    apply cb_Some in Hc as (e1 & H1 & <- & _).
    apply cb_Some in Hc' as (e2 & H2 & E2' & _).
    unfold payload_to_header, off_payload.
    rewrite (blk_size_at s2 F HL' _ e2 H2). rewrite <- (Es N) at 1.
    rewrite (blk_size_at s1 A HL _ e1 H1). exact E2'.
  - intros s1 Hs HU Hseg Hroot Hno E1.
    eapply wp_mono; [apply (malloc_body_noheap fuel s1 size Hseg Hroot)|].
    + destruct HU as [_ Hok]. apply (fuel_ok_pos s1 fuel Hok).
      unfold fuel_ok. rewrite E1. exact Hf.
    + exact Hno.
    + intros r0 s0 [-> ->]. split; [exact E1|].
      split; [intros p (N & _); contradiction|].
      split; [intros _ N; contradiction|intros N; contradiction].
Qed.


(** X23.  [malloc] leaves what the program has stored alone: every byte
    of the payload of every pointer that was valid before the call reads
    the same after it, whether the call succeeds or not. *)
Theorem malloc_keeps_contents (fuel : nat) (s : state) (size r : Z)
    (s' : state) (p i : Z) :
  in_use s -> fuel_ok s fuel -> 0 < size <= SIZE_MAX - 23 ->
  malloc fuel size s = Some (r, s') ->
  valid_ptr s p -> 0 <= i < size_at s (payload_to_header p) - wsize ->
  load_byte s' (p + i) = load_byte s (p + i).
Proof.
  intros Hu Hf Hsz E Hp Hi.
  destruct (wp_result _ _ _ _ _ (malloc_wp fuel s size (in_use_J s Hu) Hf Hsz) E)
    as (_ & H & _).
  apply (H p Hp i Hi).
Qed.

(** X12.  [malloc] returns null only when the arena cannot grow by the
    block it needs; once the heap is set up, such a call changes
    nothing. *)
Theorem malloc_null (fuel : nat) (s : state) (size : Z) (s' : state) :
  in_use s -> fuel_ok s fuel -> 0 < size <= SIZE_MAX - 23 ->
  malloc fuel size s = Some (NULL, s') ->
  mem_max s' < mem_brk s' + max (asize_of size) chunksize /\
  (heap_start s <> NULL -> s' = s).
Proof.
  intros Hu Hf Hsz E.
  refine (wp_result _ (fun r s' => r = NULL -> _) _ _ _ _ E eq_refl).
  apply (malloc_entry fuel s size _ (in_use_J s Hu) Hf).
  - intros s1 A HR HG E1 Es Hna.
    assert (Hf1 : fuel_ok s1 fuel) by (unfold fuel_ok; rewrite E1; exact Hf).
    apply (malloc_body_spec fuel s1 A size HR HG Hf1 Hsz).
    + intros Hno _. split; [exact Hno|]. intros N. apply (Es N).
    + intros b s2 F e [HL' _] _ _ _ _ _ Hb _ _ _ _ _ Hnull. exfalso.
      pose proof (blk_bounds s2 F HL' b e Hb). unfold NULL in Hnull. lia.
  - intros s1 Hs HU Hseg Hroot Hno E1.
    eapply wp_mono; [apply (malloc_body_noheap fuel s1 size Hseg Hroot)|].
    + destruct HU as [_ Hok]. apply (fuel_ok_pos s1 fuel Hok).
      unfold fuel_ok. rewrite E1. exact Hf.
    + exact Hno.
    + intros r0 s0 [_ ->] _. split; [|intros N; contradiction].
      unfold max. change chunksize with 512.
      destruct (512 <? asize_of size) eqn:K; [apply Z.ltb_lt in K|]; lia.
Qed.

(** The outcome of [free]. *)
Lemma free_wp (fuel : nat) (s : state) (p : Z) :
  Inv s -> fuel_ok s fuel -> valid_ptr s p ->
  wp (free fuel p)
     (fun _ s' =>
        Inv s' /\ ~ valid_ptr s' p /\
        (forall q, q <> p -> (valid_ptr s' q <-> valid_ptr s q)) /\
        (forall q, q <> p -> valid_ptr s q ->
           size_at s' (payload_to_header q) = size_at s (payload_to_header q)) /\
        same_arena s s' /\
        (exists r, is_block s' r /\ alloc_at s' r = false /\
           r <= payload_to_header p /\
           payload_to_header p + size_at s (payload_to_header p)
             <= r + size_at s' r) /\
        (forall q, q <> p -> valid_ptr s q -> payload_kept s s' q)) s.
Proof.
  intros (A & HR & HG) Hf Hv. pose proof HR as [HL _].
  destruct (valid_ptr_block s A p HL Hv) as (e & He & Hal).
  replace p with (p - 8 + 8) at 1 by lia.
  apply (free_spec fuel s A (p - 8) e HR HG He Hal).
  { apply (rep_lists_fit s A fuel HR Hf). }
  intros s2 F HR' HG' Hsa Hk (r & sz & Hr & Hle1 & Hle2) Hfr.
  pose proof HR' as [HL' _].
  assert (Hold : forall q, valid_ptr s q <->
                   exists sz, cb A (q - 8) = Some (sz, true))
    by (intros q; apply (valid_ptr_cb s A q HL)).
  assert (Hnew : forall q, valid_ptr s2 q <->
                   exists sz, cb F (q - 8) = Some (sz, true))
    by (intros q; apply (valid_ptr_cb s2 F q HL')).
  split; [exists F; auto|].
  split.
  { rewrite Hnew. intros (sz0 & Hc). apply Hk in Hc as [N _]. lia. }
  split.
  { intros q Nq. rewrite Hold, Hnew.
    split; intros (sz0 & Hc); exists sz0.
    - apply Hk in Hc as [_ Hc]. exact Hc.
    - apply Hk. split; [lia|exact Hc]. }
  split.
  { intros q Nq Hq. apply Hold in Hq as (sz0 & Hc).
    assert (Hc' : cb F (q - 8) = Some (sz0, true)) by (apply Hk; split; [lia|exact Hc]).
    apply cb_Some in Hc as (e1 & H1 & <- & _).
    apply cb_Some in Hc' as (e2 & H2 & E2 & _).
    unfold payload_to_header, off_payload.
    rewrite (blk_size_at s2 F HL' _ e2 H2), (blk_size_at s A HL _ e1 H1). exact E2. }
  split; [exact Hsa|].
  split.
  { apply cb_Some in Hr as (er & Her & Esz & Eal).
    exists r. unfold payload_to_header, off_payload.
    rewrite (blk_size_at s2 F HL' r er Her), (blk_alloc_at s2 F HL' r er Her),
      (blk_size_at s A HL _ e He).
    split; [apply (blocks_is_block s2 F r er HL' Her)|].
    split; [exact Eal|]. lia. }
  intros q Nq Hq. destruct (valid_ptr_block s A q HL Hq) as (eq & Heq & Halq).
  apply (block_payload_kept s s2 A q eq HL Heq).
  intros a Ha. apply (Hfr _ eq a Heq Halq); [lia|exact Ha].
Qed.

(** X13.  [free] of a valid pointer makes it invalid and leaves the
    validity and the block size of every other pointer as they were; the
    arena keeps its bounds, and the bytes of the released block lie in one
    free block of the new heap. *)
Theorem free_effect (fuel : nat) (s : state) (p : Z) (s' : state) :
  in_use s -> fuel_ok s fuel -> valid_ptr s p ->
  free fuel p s = Some (tt, s') ->
  ~ valid_ptr s' p /\
  (forall q, q <> p -> (valid_ptr s' q <-> valid_ptr s q)) /\
  (forall q, q <> p -> valid_ptr s q ->
     size_at s' (payload_to_header q) = size_at s (payload_to_header q)) /\
  same_arena s s' /\
  (exists r, is_block s' r /\ alloc_at s' r = false /\
     r <= payload_to_header p /\
     payload_to_header p + size_at s (payload_to_header p)
       <= r + size_at s' r).
Proof.
  intros Hu Hf Hv E. pose proof Hv as (Hs & _).
  destruct (wp_result _ _ _ _ _
              (free_wp fuel s p (in_use_inv s Hu Hs) Hf Hv) E)
    as (_ & H1 & H2 & H3 & H4 & H5 & _).
  auto.
Qed.

(** X24.  [free] leaves the other allocations alone: every byte of the
    payload of every other valid pointer reads the same after the call. *)
Theorem free_keeps_contents (fuel : nat) (s : state) (p : Z) (s' : state)
    (q i : Z) :
  in_use s -> fuel_ok s fuel -> valid_ptr s p ->
  free fuel p s = Some (tt, s') ->
  valid_ptr s q -> q <> p ->
  0 <= i < size_at s (payload_to_header q) - wsize ->
  load_byte s' (q + i) = load_byte s (q + i).
Proof.
  intros Hu Hf Hv E Hq Nq Hi. pose proof Hv as (Hs & _).
  destruct (wp_result _ _ _ _ _
              (free_wp fuel s p (in_use_inv s Hu Hs) Hf Hv) E)
    as (_ & _ & _ & _ & _ & _ & H).
  apply (H q Nq Hq i Hi).
Qed.

(** What a caller can tell about the heap: which pointers are valid, and
    how long their blocks are. *)
Definition same_pointers (s s' : state) : Prop :=
  (forall q, valid_ptr s' q <-> valid_ptr s q) /\
  (forall q, valid_ptr s q ->
     size_at s' (payload_to_header q) = size_at s (payload_to_header q)).

Lemma rep_same_pointers s s' A : Rep s A -> Rep s' A -> same_pointers s s'.
Proof.
  intros [HL _] [HL' _]. split.
  - intros q. rewrite (valid_ptr_cb s A q HL), (valid_ptr_cb s' A q HL'). tauto.
  - intros q Hq. destruct (valid_ptr_block s A q HL Hq) as (e & He & _).
    unfold payload_to_header, off_payload.
    rewrite (blk_size_at s A HL _ e He), (blk_size_at s' A HL' _ e He). reflexivity.
Qed.


(** Writing into the payload of a valid pointer leaves the heap as a
    caller sees it. *)
Lemma fill_bytes_view (s : state) (p dst v : Z) (n : nat) :
  Inv s -> valid_ptr s p -> p <= dst ->
  dst + Z.of_nat n <= p + (size_at s (payload_to_header p) - wsize) ->
  wp (fill_bytes n dst v)
     (fun _ s' => Inv s' /\ same_pointers s s' /\ same_arena s s') s.
Proof.
  intros (A & HR & HG) Hv H1 H2. pose proof HR as [HL _].
  destruct (valid_ptr_block s A p HL Hv) as (e & He & Hal).
  unfold payload_to_header, off_payload, wsize in H2.
  rewrite (blk_size_at s A HL _ e He) in H2.
  apply (fill_bytes_kept s A (p - 8) e He Hal HG n s dst v).
  - split; [exact HR|apply same_arena_refl].
  - lia.
  - lia.
  - intros s' [HR' Hsa]. split; [|split; [apply (rep_same_pointers s s' A HR HR')|exact Hsa]].
    exists A. split; [exact HR'|apply (same_arena_good' s s' A Hsa HG)].
Qed.

Lemma copy_bytes_view (s : state) (p dst src : Z) (n : nat) :
  Inv s -> valid_ptr s p -> p <= dst ->
  dst + Z.of_nat n <= p + (size_at s (payload_to_header p) - wsize) ->
  wp (copy_bytes n dst src)
     (fun _ s' => Inv s' /\ same_pointers s s' /\ same_arena s s') s.
Proof.
  intros (A & HR & HG) Hv H1 H2. pose proof HR as [HL _].
  destruct (valid_ptr_block s A p HL Hv) as (e & He & Hal).
  unfold payload_to_header, off_payload, wsize in H2.
  rewrite (blk_size_at s A HL _ e He) in H2.
  apply (copy_bytes_kept s A (p - 8) e He Hal HG n s dst src).
  - split; [exact HR|apply same_arena_refl].
  - lia.
  - lia.
  - intros s' [HR' Hsa]. split; [|split; [apply (rep_same_pointers s s' A HR HR')|exact Hsa]].
    exists A. split; [exact HR'|apply (same_arena_good' s s' A Hsa HG)].
Qed.

(** X14.  A successful [calloc] returns a fresh valid pointer, aligned
    to 16 bytes, to a block with room for [elements * size] bytes, all of
    which read as zero; the other pointers stay as they were, and so do
    the bytes of their payloads. *)
Theorem calloc_effect (fuel : nat) (s : state) (elements size r : Z)
    (s' : state) :
  in_use s -> fuel_ok s fuel -> 0 <= elements -> 0 <= size ->
  elements * size <= SIZE_MAX - 23 ->
  calloc fuel elements size s = Some (r, s') -> r <> NULL ->
  valid_ptr s' r /\ ~ valid_ptr s r /\ r mod 16 = 0 /\
  elements * size <= size_at s' (payload_to_header r) - wsize /\
  (forall i, 0 <= i < elements * size -> load_byte s' (r + i) = 0) /\
  (forall p, p <> r -> (valid_ptr s' p <-> valid_ptr s p)) /\
  (forall p, valid_ptr s p ->
     size_at s' (payload_to_header p) = size_at s (payload_to_header p)) /\
  (forall p i, valid_ptr s p ->
     0 <= i < size_at s (payload_to_header p) - wsize ->
     load_byte s' (p + i) = load_byte s (p + i)).
Proof.
  intros Hu Hf He Hs Hb E Hr.
  refine (wp_result _ (fun r s' => r <> NULL -> _) _ _ _ _ E Hr).
  unfold calloc. cbv zeta.
  assert (Hw : wrap (elements * size) = elements * size).
  { unfold wrap. apply Z.mod_small. unfold SIZE_MAX in Hb. nia. }
  rewrite Hw. set (asize := elements * size) in *.
  destruct (elements =? 0); [apply wp_ret; intros N; contradiction|].
  destruct (negb (asize / elements =? size));
    [apply wp_ret; intros N; contradiction|].
  apply wp_bind.
  destruct (Z.eq_dec asize 0) as [E0|N0].
  { rewrite E0. eapply wp_mono; [apply malloc_zero_null|].
    intros r0 s0 ->. change (NULL =? NULL) with true. cbv iota.
    apply wp_ret. intros N. contradiction. }
  assert (Hsz : 0 < asize <= SIZE_MAX - 23) by (unfold asize in *; nia).
  eapply wp_mono; [apply (malloc_wp fuel s asize (in_use_J s Hu) Hf Hsz)|].
  intros r0 s1 (Emax & Hkept & _ & H). cbv beta.
  destruct (Z.eqb_spec r0 NULL) as [->|Nr];
    [apply wp_ret; intros N; contradiction|].
  destruct (H Nr) as (HI & Hv & Hnv & Hal & Hle & Hoth & Hsize).
  apply wp_bind. unfold memset.
  eapply wp_mono.
  { apply wp_both.
    - apply (fill_bytes_view s1 r0 r0 0 (Z.to_nat asize) HI Hv); lia.
    - apply (fill_bytes_bytes (Z.to_nat asize) r0 0 s1). }
  intros [] s2 [(HI2 & [Hp1 Hp2] & Hsa) Hbytes]. apply wp_ret. intros _.
  split; [apply Hp1; exact Hv|]. split; [exact Hnv|]. split; [exact Hal|].
  split; [rewrite (Hp2 r0 Hv); exact Hle|].
  split.
  { intros i Hi. rewrite Hbytes. destruct (decide _); [reflexivity|lia]. }
  split.
  { intros p Np. rewrite Hp1. apply Hoth. exact Np. }
  assert (Hold : forall p, valid_ptr s p -> p <> r0 /\ valid_ptr s1 p).
  { intros p Hp. assert (N : p <> r0) by (intros ->; contradiction).
    split; [exact N|]. apply Hoth; assumption. }
  split.
  { intros p Hp. destruct (Hold p Hp) as [_ Hp'].
    rewrite (Hp2 p Hp'). apply Hsize. exact Hp. }
  intros p i Hp Hi. destruct (Hold p Hp) as [Np Hp'].
  rewrite Hbytes, <- (Hkept p Hp i Hi).
  destruct (decide _) as [Hin|]; [exfalso|reflexivity].
  rewrite <- (Hsize p Hp) in Hi.
  unfold payload_to_header, off_payload in *.
  destruct (Z.lt_total p r0) as [Hlt|[->|Hlt]]; [|contradiction|].
  - pose proof (valid_apart s1 p r0 HI Hp' Hv Hlt).
    unfold payload_to_header, off_payload in *. lia.
  - pose proof (valid_apart s1 r0 p HI Hv Hp' Hlt).
    unfold payload_to_header, off_payload in *. lia.
Qed.

(** The outcome of [realloc] on a valid pointer, with a new size. *)
Definition realloc_post (size : Z) (s : state) (p r : Z) (s' : state) : Prop :=
  valid_ptr s' r /\ ~ valid_ptr s r /\ ~ valid_ptr s' p /\ r mod 16 = 0 /\
  size <= size_at s' (payload_to_header r) - wsize /\
  (forall q, q <> r -> q <> p -> (valid_ptr s' q <-> valid_ptr s q)) /\
  (forall q, valid_ptr s q -> q <> p ->
     size_at s' (payload_to_header q) = size_at s (payload_to_header q)) /\
  (forall i, 0 <= i < Z.min size (size_at s (payload_to_header p) - wsize) ->
     load_byte s' (r + i) = load_byte s (p + i)) /\
  (forall q, valid_ptr s q -> q <> p -> payload_kept s s' q).

Lemma realloc_wp (fuel : nat) (s : state) (p size : Z) :
  Inv s -> fuel_ok s fuel -> valid_ptr s p -> 0 < size <= SIZE_MAX - 23 ->
  wp (realloc fuel p size)
     (fun r s' => (r = NULL -> s' = s) /\
                  (r <> NULL -> realloc_post size s p r s')) s.
Proof.
  intros HI Hf Hv Hsz. unfold realloc. cbv zeta.
  destruct (valid_ptr_size s p HI Hv) as [Bp Pp].
  rewrite (proj2 (Z.eqb_neq size 0)) by lia.
  rewrite (proj2 (Z.eqb_neq p NULL)) by (unfold NULL; lia).
  apply wp_bind.
  eapply wp_mono; [apply (malloc_wp fuel s size (or_intror HI) Hf Hsz)|].
  intros r0 s1 (Emax & Hkept & Hnull & H). cbv beta.
  destruct (Z.eqb_spec r0 NULL) as [->|Nr].
  { apply wp_ret. split; [|intros N; contradiction].
    intros _. apply Hnull; [reflexivity|apply (inv_started s HI)]. }
  destruct (H Nr) as (HI1 & Hv1 & Hnv & Hal & Hle & Hoth & Hsize).
  assert (Np : p <> r0) by (intros ->; contradiction).
  assert (Hvp1 : valid_ptr s1 p) by (apply Hoth; assumption).
  apply wp_bind, wp_get_payload_size.
  rewrite (Hsize p Hv).
  set (old := size_at s (payload_to_header p)) in *.
  rewrite (wrap_small (old - wsize)) by (unfold wsize; lia).
  set (copysize := if size <? old - wsize then size else old - wsize).
  assert (Hcs : copysize = Z.min size (old - wsize)).
  { unfold copysize. destruct (Z.ltb_spec size (old - wsize)); lia. }
  assert (Hc0 : 0 <= copysize) by (unfold wsize in *; lia).
  apply wp_bind. unfold memcpy.
  eapply wp_mono.
  { apply wp_both.
    - apply (copy_bytes_view s1 r0 r0 p (Z.to_nat copysize) HI1 Hv1); lia.
    - apply (copy_bytes_bytes (Z.to_nat copysize) r0 p s1).
      pose proof (Hsize p Hv) as Ep. fold old in Ep.
      unfold payload_to_header, off_payload in *.
      destruct (Z.lt_total p r0) as [Hlt|[->|Hlt]]; [|contradiction|].
      + pose proof (valid_apart s1 p r0 HI1 Hvp1 Hv1 Hlt).
        unfold payload_to_header, off_payload in *. lia.
      + pose proof (valid_apart s1 r0 p HI1 Hv1 Hvp1 Hlt).
        unfold payload_to_header, off_payload in *. lia. }
  intros [] s2 [(HI2 & [Hp1 Hp2] & Hsa) Hbytes]. apply wp_bind.
  assert (Hf2 : fuel_ok s2 fuel).
  { unfold fuel_ok. destruct Hsa as (_ & _ & -> & _). rewrite Emax. exact Hf. }
  assert (Hvp2 : valid_ptr s2 p) by (apply Hp1; exact Hvp1).
  eapply wp_mono; [apply (free_wp fuel s2 p HI2 Hf2 Hvp2)|].
  intros [] s3 (HI3 & Hnp & Hoth3 & Hsize3 & _ & _ & Hkept3).
  apply wp_ret. split; [intros N; contradiction|]. intros _.
  assert (Hr2 : valid_ptr s2 r0) by (apply Hp1; exact Hv1).
  assert (Hold : forall q, valid_ptr s q -> q <> r0 /\ valid_ptr s1 q /\ valid_ptr s2 q).
  { intros q Hq. assert (N : q <> r0) by (intros ->; contradiction).
    assert (Hq1 : valid_ptr s1 q) by (apply Hoth; assumption).
    split; [exact N|]. split; [exact Hq1|apply Hp1; exact Hq1]. }
  split; [apply Hoth3; [intros E; apply Np; symmetry; exact E|exact Hr2]|].
  split; [exact Hnv|]. split; [exact Hnp|]. split; [exact Hal|].
  split.
  { rewrite (Hsize3 r0), (Hp2 r0 Hv1); auto. }
  split.
  { intros q Nr0 Nq. rewrite (Hoth3 q Nq), Hp1. apply Hoth. exact Nr0. }
  split.
  { intros q Hq Nq. destruct (Hold q Hq) as (_ & Hq1 & Hq2).
    rewrite (Hsize3 q Nq Hq2), (Hp2 q Hq1). apply Hsize. exact Hq. }
  split.
  { intros i Hi. change (0 <= i < Z.min size (old - wsize)) in Hi.
    rewrite <- Hcs in Hi.
    assert (Hi3 : 0 <= i < size_at s2 (payload_to_header r0) - wsize).
    { rewrite (Hp2 r0 Hv1). lia. }
    rewrite (Hkept3 r0 (not_eq_sym Np) Hr2 i Hi3), Hbytes.
    destruct (decide _) as [_|N]; [|lia].
    replace (p + (r0 + i - r0)) with (p + i) by lia.
    apply (Hkept p Hv). fold old. lia. }
  intros q Hq Nq i Hi. destruct (Hold q Hq) as (Nr0 & Hq1 & Hq2).
  pose proof (Hsize q Hq) as Eq1. pose proof (Hp2 q Hq1) as Eq2.
  assert (Hi2 : 0 <= i < size_at s2 (payload_to_header q) - wsize)
    by (rewrite Eq2, Eq1; exact Hi).
  rewrite (Hkept3 q Nq Hq2 i Hi2), Hbytes, <- (Hkept q Hq i Hi).
  destruct (decide _) as [Hin|]; [exfalso|reflexivity].
  rewrite <- Eq1 in Hi.
  unfold payload_to_header, off_payload in *.
  destruct (Z.lt_total q r0) as [Hlt|[->|Hlt]]; [|contradiction|].
  - pose proof (valid_apart s1 q r0 HI1 Hq1 Hv1 Hlt).
    unfold payload_to_header, off_payload in *. lia.
  - pose proof (valid_apart s1 r0 q HI1 Hv1 Hq1 Hlt).
    unfold payload_to_header, off_payload in *. lia.
Qed.

(** X25.  A successful [realloc] of a valid pointer to a new size returns
    a fresh valid pointer, aligned to 16 bytes, to a block with room for
    the new size, and makes the old pointer invalid; every other pointer
    is valid after the call exactly when it was before, and keeps its
    block size. *)
Theorem realloc_effect (fuel : nat) (s : state) (p size r : Z) (s' : state) :
  in_use s -> fuel_ok s fuel -> valid_ptr s p -> 0 < size <= SIZE_MAX - 23 ->
  realloc fuel p size s = Some (r, s') -> r <> NULL ->
  valid_ptr s' r /\ ~ valid_ptr s r /\ ~ valid_ptr s' p /\ r mod 16 = 0 /\
  size <= size_at s' (payload_to_header r) - wsize /\
  (forall q, q <> r -> q <> p -> (valid_ptr s' q <-> valid_ptr s q)) /\
  (forall q, valid_ptr s q -> q <> p ->
     size_at s' (payload_to_header q) = size_at s (payload_to_header q)).
Proof.
  intros Hu Hf Hv Hsz E Hr. pose proof Hv as (Hs & _).
  destruct (wp_result _ _ _ _ _
              (realloc_wp fuel s p size (in_use_inv s Hu Hs) Hf Hv Hsz) E)
    as [_ H].
  destruct (H Hr) as (H1 & H2 & H3 & H4 & H5 & H6 & H7 & _). auto 10.
Qed.

(** X26.  A successful [realloc] moves the contents: the first
    [min size old] bytes of the new payload, where [old] is the payload
    size of the old block, read as the bytes of the old payload did before
    the call, and the payload bytes of every other valid pointer read as
    before. *)
Theorem realloc_contents (fuel : nat) (s : state) (p size r : Z) (s' : state) :
  in_use s -> fuel_ok s fuel -> valid_ptr s p -> 0 < size <= SIZE_MAX - 23 ->
  realloc fuel p size s = Some (r, s') -> r <> NULL ->
  (forall i, 0 <= i < Z.min size (size_at s (payload_to_header p) - wsize) ->
     load_byte s' (r + i) = load_byte s (p + i)) /\
  (forall q i, valid_ptr s q -> q <> p ->
     0 <= i < size_at s (payload_to_header q) - wsize ->
     load_byte s' (q + i) = load_byte s (q + i)).
Proof.
  intros Hu Hf Hv Hsz E Hr. pose proof Hv as (Hs & _).
  destruct (wp_result _ _ _ _ _
              (realloc_wp fuel s p size (in_use_inv s Hu Hs) Hf Hv Hsz) E)
    as [_ H].
  destruct (H Hr) as (_ & _ & _ & _ & _ & _ & _ & H8 & H9).
  split; [exact H8|]. intros q i Hq Nq Hi. apply (H9 q Hq Nq i Hi).
Qed.

(** * The fit search finds a block when there is one *)

Section FitComplete.

Variables (s : state) (A : aheap) (asize : Z).
Hypothesis HR : Rep s A.

(** The search state is consistent: a block has been found once the
    countdown runs. *)
Definition fit_started (st : fit_state) : Prop :=
  count_switch st = true -> best_block st <> NULL.

Definition too_small (l : list Z) : Prop :=
  forall x e, In x l -> blocks A !! x = Some e -> bsz e < asize.

Lemma find_fit_bucket_complete i fuel :
  0 <= i < 14 ->
  forall l pv cur st,
    dll (mem s) pv cur l ->
    (forall x, In x l -> In x (segs A i)) ->
    (length l < fuel)%nat ->
    fit_started st ->
    wp (find_fit_bucket fuel asize cur st)
       (fun r _ => fit_started (snd r) /\
                   (fst r = true -> best_block (snd r) <> NULL) /\
                   (best_block (snd r) = NULL ->
                    best_block st = NULL /\ too_small l)) s.
Proof.
  intros Hi. destruct HR as [HL HS].
  induction fuel as [|fuel IH]; intros l pv cur st Hd Hsub Hlen Hst;
    [cbn in Hlen; lia|].
  cbn [find_fit_bucket]. destruct l as [|x l].
  - cbn in Hd. subst cur. cbn. split; [exact Hst|]. split; [discriminate|].
    intros E. split; [exact E|]. intros x e [].
  - cbn [dll] in Hd. destruct Hd as (-> & Hx & _ & Hd).
    rewrite (proj2 (Z.eqb_neq x NULL) Hx).
    destruct (lst_seg_blk s A HS i x Hi (Hsub x (or_introl eq_refl)))
      as (e & He & Hne & Hh).
    pose proof (blk_bounds s A HL x e He) as Bx.
    apply wp_bind, wp_get_size. rewrite (blk_size_at s A HL x e He).
    rewrite (proj2 (Z.ltb_lt 0 (bsz e))) by lia. cbn [negb].
    assert (K : forall st1, fit_started st1 ->
      (best_block st1 = NULL -> best_block st = NULL /\ bsz e < asize) ->
      wp (let st2 := if count_switch st1
                     then mkFit true (counter st1 - 1) (best_block st1) (best_gap st1)
                     else st1 in
          if count_switch st1 && (counter st2 =? 0) then ret (true, st2)
          else let* cur_next := load (x + off_next) in
               find_fit_bucket fuel asize cur_next st2)
         (fun r _ => fit_started (snd r) /\
                     (fst r = true -> best_block (snd r) <> NULL) /\
                     (best_block (snd r) = NULL ->
                      best_block st = NULL /\ too_small (x :: l))) s).
    { intros st1 H1 H1'. cbv zeta.
      set (st2 := if count_switch st1 then _ else st1).
      assert (E2 : best_block st2 = best_block st1)
        by (unfold st2; destruct (count_switch st1); reflexivity).
      assert (C2 : count_switch st2 = count_switch st1)
        by (unfold st2; destruct (count_switch st1) eqn:Ecs;
            [reflexivity|exact Ecs]).
      assert (H2 : fit_started st2).
      { unfold fit_started. rewrite E2, C2. exact H1. }
      destruct (count_switch st1 && (counter st2 =? 0)) eqn:Ec.
      - apply wp_ret. cbn [fst snd]. apply andb_true_iff in Ec as [Ec _].
        split; [exact H2|]. split; [intros _; rewrite E2; apply (H1 Ec)|].
        intros E0. rewrite E2 in E0. destruct (H1 Ec E0).
      - apply wp_bind, wp_load. unfold load_word.
        eapply wp_mono.
        + apply (IH l x _ st2 Hd).
          * intros y Hy. apply Hsub. right. exact Hy.
          * cbn in Hlen. lia.
          * exact H2.
        + intros r s' (R1 & R2 & R3). split; [exact R1|]. split; [exact R2|].
          intros E0. destruct (R3 E0) as [E3 Hsm]. rewrite E2 in E3.
          destruct (H1' E3) as [E4 Hlt]. split; [exact E4|].
          intros y ey [<-|Hy] Hey.
          * assert (ey = e) by congruence. subst ey. exact Hlt.
          * apply (Hsm y ey Hy Hey). }
    destruct (Z.leb_spec asize (bsz e)) as [Hle|Hgt].
    + destruct (best_block st =? NULL) eqn:Eb.
      * apply wp_bind, wp_bind, wp_get_size. apply wp_ret. apply K.
        -- intros _. cbn. exact Hx.
        -- cbn. intros E0. contradiction.
      * apply Z.eqb_neq in Eb.
        destruct (wrap (bsz e - asize) <? best_gap st).
        -- apply wp_bind, wp_ret. apply K.
           ++ intros _. cbn. exact Hx.
           ++ cbn. intros E0. contradiction.
        -- apply wp_bind, wp_ret. apply K; [exact Hst|].
           intros E0. contradiction.
    + apply wp_bind, wp_ret. apply K; [exact Hst|].
      intros E0. split; [exact E0|lia].
Qed.

Lemma find_fit_from_complete fuel n :
  (forall i, 0 <= i < 14 -> (length (segs A i) < fuel)%nat) ->
  forall i st, 0 <= i -> i + Z.of_nat n <= 14 ->
    fit_started st -> fit_ok A asize (best_block st) ->
    wp (find_fit_from n fuel asize i st)
       (fun r _ => r = NULL ->
          best_block st = NULL /\
          forall j, i <= j < i + Z.of_nat n -> too_small (segs A j)) s.
Proof.
  intros Hf. pose proof HR as [HL HS].
  induction n as [|n IH]; intros i st Hi Hn Hst Hok.
  - cbn. intros E. split; [exact E|]. intros j Hj. lia.
  - cbn [find_fit_from]. apply wp_bind, wp_seg_read. apply wp_bind.
    assert (Hi' : 0 <= i < 14) by lia.
    eapply wp_mono.
    + apply wp_both.
      * apply (find_fit_bucket_spec s A asize HR i fuel Hi' (segs A i) NULL _ st);
          auto.
        apply (lst_seg s A HS i Hi').
      * apply (find_fit_bucket_complete i fuel Hi' (segs A i) NULL _ st); auto.
        apply (lst_seg s A HS i Hi').
    + intros [fl st'] s' [[-> Hok'] (R1 & R2 & R3)]. cbn [fst snd] in *.
      destruct fl.
      { apply wp_ret. intros E0. destruct (R2 eq_refl E0). }
      destruct (best_block st' =? NULL) eqn:Eb; cbn [negb].
      2:{ apply wp_ret. apply Z.eqb_neq in Eb. intros E0. contradiction. }
      apply Z.eqb_eq in Eb. destruct (R3 Eb) as [E1 Hsm].
      eapply wp_mono; [apply (IH (i + 1) st'); auto; lia|].
      intros r s2 H E0. destruct (H E0) as [_ Hrest].
      split; [exact E1|]. intros j Hj.
      destruct (Z.eq_dec j i) as [->|Nj]; [exact Hsm|].
      apply Hrest. lia.
Qed.

End FitComplete.

(** X15.  [find_fit] only reads.  What it returns is a free block of the
    heap with room for [asize]; it returns null only when every free block
    of more than 16 bytes whose size class is [idx] or higher is shorter
    than [asize]. *)
Theorem find_fit_finds (fuel : nat) (s : state) (asize idx : Z) :
  in_use s -> heap_start s <> NULL -> fuel_ok s fuel ->
  0 <= idx < BUCKET_COUNT ->
  exists r, find_fit fuel asize idx s = Some (r, s) /\
    (r <> NULL ->
       is_block s r /\ alloc_at s r = false /\ asize <= size_at s r) /\
    (r = NULL ->
       forall x, is_block s x -> alloc_at s x = false ->
         size_at s x <> MINI_BLOCK_SIZE ->
         idx <= home_address (size_at s x) -> size_at s x < asize).
Proof.
  intros Hu Hs Hf Hi. destruct (in_use_inv s Hu Hs) as (A & HR & HG).
  pose proof HR as [HL HS]. unfold BUCKET_COUNT, MINI_BLOCK_SIZE in *.
  destruct (rep_lists_fit s A fuel HR Hf) as [_ Hlen].
  assert (W : wp (find_fit fuel asize idx)
                (fun r s' => (s' = s /\ fit_ok A asize r) /\
                   (r = NULL -> NULL = NULL /\
                      forall j, idx <= j < idx + Z.of_nat (Z.to_nat (14 - idx)) ->
                        too_small A asize (segs A j))) s).
  { apply wp_both.
    - apply (find_fit_spec s A asize HR fuel idx Hlen Hi).
    - unfold find_fit, BUCKET_COUNT.
      apply (find_fit_from_complete s A asize HR fuel _ Hlen idx
               (mkFit false 3 NULL 0)); [lia|lia| |left; reflexivity].
      intros E. discriminate. }
  apply wp_run in W as (r & s' & E & (-> & Hok) & Hnone).
  exists r. split; [exact E|]. split.
  - intros N. destruct Hok as [->|(e & He & Hle & Hl)]; [contradiction|].
    rewrite (blk_size_at s A HL r e He), (blk_alloc_at s A HL r e He).
    split; [apply (blocks_is_block s A r e HL He)|]. split; [|exact Hle].
    apply (g_listed _ _ _ HG r e He). exact Hl.
  - intros E0 x Hx. destruct (Hnone E0) as [_ Hsm].
    destruct (is_block_blocks s A x HL Hx) as (e & He).
    rewrite (blk_size_at s A HL x e He), (blk_alloc_at s A HL x e He).
    intros Hfree Hn16 Hidx.
    apply (g_listed _ _ _ HG x e He) in Hfree. unfold listed in Hfree.
    rewrite (proj2 (Z.eqb_neq _ _) Hn16) in Hfree.
    pose proof (home_address_total (bsz e)) as Hh.
    apply (Hsm (home_address (bsz e)) ltac:(lia) x e Hfree He).
Qed.

(** X16.  Size classes grow with the size: from 32 bytes on, a larger
    block never has a lower bucket index, which is why the fit search may
    start at the bucket of the request. *)
Theorem home_address_mono (a b : Z) :
  32 <= a -> a <= b -> home_address a <= home_address b.
Proof.
  intros Ha Hab.
  pose proof (home_address_cases a Ha) as Ca.
  pose proof (home_address_cases b ltac:(lia)) as Cb.
  lia.
Qed.

(** X17.  Boundary tags lead back: from the header that follows a free
    block, [find_prev] with that header's [mpalloc] flag returns the
    block, reading only. *)
Theorem find_prev_of_next (s : state) (x : Z) :
  in_use s -> heap_start s <> NULL -> is_block s x -> alloc_at s x = false ->
  find_prev (next_of s x) (mpalloc_at s (next_of s x)) s = Some (x, s).
Proof.
  intros Hu Hs Hx Hfree. destruct (in_use_inv s Hu Hs) as (A & [HL _] & HG).
  destruct (is_block_blocks s A x HL Hx) as (e & He).
  rewrite (blk_alloc_at s A HL x e He) in Hfree.
  pose proof (blk_bounds s A HL x e He) as B.
  assert (K : mpalloc_at s (x + bsz e) = (bsz e =? 16)).
  { destruct (lay_next s A HL x e He) as [E1|[e' He']].
    - rewrite E1, (epi_mpalloc_at s A HL). apply (g_last _ _ _ HG x e He E1).
    - rewrite (blk_mpalloc_at s A HL _ e' He').
      apply (g_flags _ _ _ HG x e e' He He'). }
  rewrite (blk_next_of s A HL x e He), K.
  assert (W : wp (find_prev (x + bsz e) (bsz e =? 16))
                (fun r s' => r = x /\ s' = s) s).
  { apply wp_find_prev. split; [|reflexivity]. unfold prev_of.
    destruct (Z.eqb_spec (bsz e) 16) as [E|N].
    - unfold MINI_BLOCK_SIZE. lia.
    - unfold size_at, load_word, wsize.
      replace (x + bsz e - 8) with (x + bsz e - 8) by lia.
      rewrite (lay_ftr s A HL x e He Hfree N). cbn [default from_option id].
      fold (load_word s x). rewrite <- (blk_load s A HL x e He).
      fold (size_at s x). rewrite (blk_size_at s A HL x e He).
      rewrite (proj2 (Z.eqb_neq _ 0)) by lia. lia. }
  apply wp_run in W as (r & s' & E & -> & ->). exact E.
Qed.

(** * The free lists under insertion and removal *)

Lemma minis_ins_heap b e A :
  minis (ins_heap b e A) = if bsz e =? 16 then b :: minis A else minis A.
Proof.
  unfold ins_heap. destruct (bsz e =? 16); [|reflexivity].
  rewrite minis_upd_mp, minis_upd_pa. reflexivity.
Qed.

Lemma segs_ins_heap b e A i :
  segs (ins_heap b e A) i =
    if negb (bsz e =? 16) && (i =? home_address (bsz e))
    then b :: segs A i else segs A i.
Proof.
  unfold ins_heap. destruct (bsz e =? 16); cbn [negb andb].
  - rewrite segs_upd_mp, segs_upd_pa. reflexivity.
  - cbn [segs set_seg]. destruct (Z.eqb_spec i (home_address (bsz e))) as [->|N];
      reflexivity.
Qed.

Lemma minis_rm_heap b e A :
  minis (rm_heap b e A) =
    if bsz e =? 16 then List.remove Z.eq_dec b (minis A) else minis A.
Proof.
  unfold rm_heap, rm_mini_heap. destruct (bsz e =? 16); [|reflexivity].
  destruct (hd NULL (minis A) =? b); [|reflexivity].
  rewrite minis_upd_mp, minis_upd_pa. reflexivity.
Qed.

Lemma segs_rm_heap b e A i :
  segs (rm_heap b e A) i =
    if negb (bsz e =? 16) && (i =? home_address (bsz e))
    then List.remove Z.eq_dec b (segs A i) else segs A i.
Proof.
  unfold rm_heap, rm_mini_heap. destruct (bsz e =? 16); cbn [negb andb].
  - destruct (hd NULL (minis A) =? b); [|reflexivity].
    rewrite segs_upd_mp, segs_upd_pa. reflexivity.
  - cbn [segs set_seg]. destruct (Z.eqb_spec i (home_address (bsz e))) as [->|N];
      reflexivity.
Qed.

Lemma same_arena_fuel s s' fuel : same_arena s s' -> fuel_ok s fuel -> fuel_ok s' fuel.
Proof. intros (_ & _ & E & _) H. unfold fuel_ok in *. rewrite E. exact H. Qed.

(** X18.  [removeVagueBlock] takes a free block off the list for its
    size, the list of 16-byte blocks or the bucket of its size class, and
    leaves the order of the other nodes and every other list as they
    were. *)
Theorem removeVagueBlock_unlinks (fuel : nat) (s : state) (x : Z) :
  in_use s -> heap_start s <> NULL -> fuel_ok s fuel ->
  is_block s x -> alloc_at s x = false ->
  exists s', removeVagueBlock fuel x s = Some (tt, s') /\
    mini_blocks fuel s' =
      (if size_at s x =? MINI_BLOCK_SIZE
       then List.remove Z.eq_dec x (mini_blocks fuel s)
       else mini_blocks fuel s) /\
    (forall i, 0 <= i < BUCKET_COUNT ->
       bucket_blocks fuel s' i =
         if negb (size_at s x =? MINI_BLOCK_SIZE) &&
            (i =? home_address (size_at s x))
         then List.remove Z.eq_dec x (bucket_blocks fuel s i)
         else bucket_blocks fuel s i).
Proof.
  intros Hu Hs Hf Hx Hfree. destruct (in_use_inv s Hu Hs) as (A & HR & HG).
  pose proof HR as [HL HS]. unfold BUCKET_COUNT, MINI_BLOCK_SIZE.
  destruct (is_block_blocks s A x HL Hx) as (e & He).
  rewrite (blk_alloc_at s A HL x e He) in Hfree.
  rewrite (blk_size_at s A HL x e He).
  pose proof (proj1 (g_listed _ _ _ HG x e He) Hfree) as Hl.
  destruct (rep_lists_fit s A fuel HR Hf) as [Hlen _].
  assert (W : wp (removeVagueBlock fuel x)
                (fun _ s' => Rep s' (rm_heap x e A) /\ same_arena s s') s).
  { apply (removeVagueBlock_spec fuel s A x e _ HR He Hl Hlen). auto. }
  apply wp_run in W as ([] & s' & E & HR' & Hsa).
  pose proof (same_arena_fuel s s' fuel Hsa Hf) as Hf'.
  exists s'. split; [exact E|]. split.
  - rewrite (mini_blocks_minis fuel s' _ HR' Hf'),
      (mini_blocks_minis fuel s A HR Hf). apply minis_rm_heap.
  - intros i Hi.
    rewrite (bucket_blocks_segs fuel s' _ i HR' Hf' Hi),
      (bucket_blocks_segs fuel s A i HR Hf Hi). apply segs_rm_heap.
Qed.

(** X19.  [insertVagueBlock] puts a block that is on no list at the head
    of the list for its size and leaves the other lists alone;
    [removeVagueBlock] of the same block then gives back the lists as they
    were. *)
Theorem insertVagueBlock_pushes (fuel : nat) (s : state) (p : Z) :
  in_use s -> fuel_ok s fuel -> valid_ptr s p ->
  exists s', insertVagueBlock (payload_to_header p) s = Some (tt, s') /\
    mini_blocks fuel s' =
      (if size_at s (payload_to_header p) =? MINI_BLOCK_SIZE
       then payload_to_header p :: mini_blocks fuel s
       else mini_blocks fuel s) /\
    (forall i, 0 <= i < BUCKET_COUNT ->
       bucket_blocks fuel s' i =
         if negb (size_at s (payload_to_header p) =? MINI_BLOCK_SIZE) &&
            (i =? home_address (size_at s (payload_to_header p)))
         then payload_to_header p :: bucket_blocks fuel s i
         else bucket_blocks fuel s i) /\
    exists s'', removeVagueBlock fuel (payload_to_header p) s' = Some (tt, s'') /\
      mini_blocks fuel s'' = mini_blocks fuel s /\
      (forall i, 0 <= i < BUCKET_COUNT ->
         bucket_blocks fuel s'' i = bucket_blocks fuel s i).
Proof.
  intros Hu Hf Hv. pose proof Hv as (Hs & _).
  destruct (in_use_inv s Hu Hs) as (A & HR & HG).
  pose proof HR as [HL HS]. unfold BUCKET_COUNT, MINI_BLOCK_SIZE.
  destruct (valid_ptr_block s A p HL Hv) as (e & He & Hal).
  unfold payload_to_header, off_payload. set (b := p - 8) in *.
  rewrite (blk_size_at s A HL b e He).
  assert (Hnl : ~ listed A b e).
  { intros Hl. apply (g_listed _ _ _ HG b e He) in Hl. congruence. }
  assert (W : wp (insertVagueBlock b)
                (fun _ s' => Rep s' (ins_heap b e A) /\ same_arena s s') s).
  { apply (insertVagueBlock_links s A b e _ HR He Hnl). auto. }
  apply wp_run in W as ([] & s1 & E1 & HR1 & Hsa1).
  pose proof (same_arena_fuel s s1 fuel Hsa1 Hf) as Hf1.
  pose proof HR1 as [HL1 _].
  exists s1. split; [exact E1|]. split.
  { rewrite (mini_blocks_minis fuel s1 _ HR1 Hf1),
      (mini_blocks_minis fuel s A HR Hf). apply minis_ins_heap. }
  split.
  { intros i Hi.
    rewrite (bucket_blocks_segs fuel s1 _ i HR1 Hf1 Hi),
      (bucket_blocks_segs fuel s A i HR Hf Hi). apply segs_ins_heap. }
  assert (He1 : exists e1, blocks (ins_heap b e A) !! b = Some e1 /\ bsz e1 = bsz e).
  { assert (Hc : cb (ins_heap b e A) b = cb A b) by apply cb_ins_heap.
    rewrite (cb_of A b e He) in Hc. apply cb_Some in Hc as (e1 & H1 & E & _).
    exists e1. auto. }
  destruct He1 as (e1 & He1 & Esz).
  assert (Hl1 : listed (ins_heap b e A) b e1).
  { unfold listed. rewrite Esz, minis_ins_heap, segs_ins_heap.
    destruct (bsz e =? 16); cbn [negb andb]; [left; reflexivity|].
    rewrite Z.eqb_refl. left. reflexivity. }
  destruct (rep_lists_fit s1 _ fuel HR1 Hf1) as [Hlen1 _].
  assert (W : wp (removeVagueBlock fuel b)
                (fun _ s' => Rep s' (rm_heap b e1 (ins_heap b e A)) /\
                             same_arena s1 s') s1).
  { apply (removeVagueBlock_spec fuel s1 _ b e1 _ HR1 He1 Hl1 Hlen1). auto. }
  apply wp_run in W as ([] & s2 & E2 & HR2 & Hsa2).
  pose proof (same_arena_fuel s1 s2 fuel Hsa2 Hf1) as Hf2.
  assert (Hrm : forall l, ~ In b l -> List.remove Z.eq_dec b (b :: l) = l).
  { intros l Hn. cbn. destruct (Z.eq_dec b b); [|congruence].
    apply List.notin_remove. exact Hn. }
  unfold listed in Hnl.
  exists s2. split; [exact E2|]. split.
  - rewrite (mini_blocks_minis fuel s2 _ HR2 Hf2),
      (mini_blocks_minis fuel s A HR Hf).
    rewrite minis_rm_heap, Esz, minis_ins_heap.
    destruct (bsz e =? 16); [apply Hrm; exact Hnl|reflexivity].
  - intros i Hi.
    rewrite (bucket_blocks_segs fuel s2 _ i HR2 Hf2 Hi),
      (bucket_blocks_segs fuel s A i HR Hf Hi).
    rewrite segs_rm_heap, Esz, segs_ins_heap.
    destruct (bsz e =? 16); cbn [negb andb]; [reflexivity|].
    destruct (Z.eqb_spec i (home_address (bsz e))) as [->|N]; [|reflexivity].
    apply Hrm. exact Hnl.
Qed.

(** * Headers *)

(** X20.  What [write_block] writes can be read back: the header at
    [block] decodes to the size and the three flags that were passed; a
    free block of another size than 16 gets a footer equal to its header,
    and no other word changes; for an allocated or a 16-byte block the
    header is the only word that changes. *)
Theorem write_block_reads (s : state) (b size : Z) (mp pa al : bool) :
  0 <= size < modulus -> size mod 16 = 0 ->
  exists s', write_block b size mp pa al s = Some (tt, s') /\
    size_at s' b = size /\ alloc_at s' b = al /\
    palloc_at s' b = pa /\ mpalloc_at s' b = mp /\
    (al = false -> size <> MINI_BLOCK_SIZE ->
       load_word s' (b + size - wsize) = load_word s' b) /\
    (forall a, a <> b ->
       al = true \/ size = MINI_BLOCK_SIZE \/ a <> b + size - wsize ->
       load_word s' a = load_word s a).
Proof.
  intros Hr Hm.
  assert (W : wp (write_block b size mp pa al)
                (fun _ s' => s' = set_mem (write_block_mem (mem s) b size mp pa al) s) s)
    by (apply wp_write_block; reflexivity).
  apply wp_run in W as ([] & s' & E & ->).
  exists (set_mem (write_block_mem (mem s) b size mp pa al) s).
  split; [exact E|].
  destruct (unpack size mp pa al Hr Hm) as (U1 & U2 & U3 & U4).
  unfold size_at, alloc_at, palloc_at, mpalloc_at, load_word, write_block_mem,
    isMiniSize, MINI_BLOCK_SIZE, off_payload, dsize, wsize.
  cbn [mem set_mem]. cbv zeta. rewrite U1.
  destruct (Z.eqb_spec size 16) as [E16|N16]; cbn [orb].
  - rewrite lookup_insert_eq. cbn [default from_option id].
    repeat split; auto; try contradiction.
    intros a Na _. rewrite lookup_insert_ne by congruence. reflexivity.
  - destruct al.
    + rewrite lookup_insert_eq. cbn [default from_option id].
      repeat split; auto; try discriminate.
      intros a Na _. rewrite lookup_insert_ne by congruence. reflexivity.
    + assert (Nf : b + 8 + size - 2 * 8 <> b) by (revert Hm; divlia).
      rewrite (lookup_insert_ne _ _ b) by exact Nf.
      rewrite lookup_insert_eq. cbn [default from_option id].
      repeat split; auto.
      * intros _ _. replace (b + size - 8) with (b + 8 + size - 2 * 8) by lia.
        rewrite lookup_insert_eq. reflexivity.
      * intros a Na [H|[H|H]]; try discriminate; try contradiction.
        rewrite !lookup_insert_ne by lia. reflexivity.
Qed.

(** X21.  [round_up] gives the least multiple of [n] that is not below
    [size], as long as [size + n - 1] fits a machine word. *)
Theorem round_up_least (size n : Z) :
  0 < n -> 0 <= size -> size + (n - 1) < modulus ->
  round_up size n mod n = 0 /\
  size <= round_up size n < size + n /\
  (forall m, m mod n = 0 -> size <= m -> round_up size n <= m).
Proof.
  intros Hn Hs Hfit. unfold round_up, wrap.
  rewrite (Z.mod_small (size + (n - 1))) by lia.
  assert (Hq : n * ((size + (n - 1)) / n) <= size + (n - 1))
    by (apply Z.mul_div_le; lia).
  assert (H0 : 0 <= (size + (n - 1)) / n) by (apply Z.div_pos; lia).
  rewrite (Z.mod_small (n * _)) by nia.
  pose proof (Z.div_mod (size + (n - 1)) n ltac:(lia)) as D.
  pose proof (Z.mod_pos_bound (size + (n - 1)) n Hn) as B.
  split; [rewrite Z.mul_comm; apply Z.mod_mul; lia|].
  split; [lia|].
  intros m Hm Hle.
  assert (Em : m = n * (m / n)) by (apply Z.div_exact; lia).
  assert (Hlt : (size + (n - 1)) / n < m / n + 1)
    by (apply Z.div_lt_upper_bound; lia).
  rewrite Em. apply Z.mul_le_mono_nonneg_l; lia.
Qed.

(** * Setting up the heap *)

(** X22.  [mm_init] on an untouched arena whose break is aligned to 16
    bytes: with less than 16 bytes to grow it fails and leaves
    [heap_start] null; with room for the two boundary words but not for a
    chunk it fails with an empty heap; otherwise it succeeds and the heap
    is one free block of 512 bytes at [heap_start].  No pointer is valid
    afterwards. *)
Theorem mm_init_outcome (fuel : nat) (s : state) (ok : bool) (s' : state) :
  arena_ok s -> heap_start s = NULL -> (0 < fuel)%nat ->
  mm_init fuel s = Some (ok, s') ->
  (ok = true <-> mem_brk s + 528 <= mem_max s) /\
  (heap_start s' <> NULL <-> mem_brk s + 16 <= mem_max s) /\
  (forall p, ~ valid_ptr s' p) /\
  (mem_brk s + 16 <= mem_max s ->
     heap_start s' = mem_brk s + 8 /\
     mem_brk s' = (if ok then mem_brk s + 528 else mem_brk s + 16) /\
     forall x, is_block s' x <->
       ok = true /\ x = heap_start s' /\
       size_at s' x = chunksize /\ alloc_at s' x = false).
Proof.
  intros Hok Hs0 Hfuel E.
  refine (wp_result _ (fun ok s' => _) _ _ _ _ E).
  apply (mm_init_spec fuel s _ Hok Hfuel).
  - intros Hno.
    assert (Hs : heap_start (set_mini_root NULL (set_seglist (replicate 14 NULL) s))
                 = NULL) by exact Hs0.
    split; [split; [discriminate|lia]|].
    split; [rewrite Hs; split; [intros N; contradiction|lia]|].
    split; [intros p (N & _); contradiction|]. lia.
  - intros ok0 s1 F Hfit HR HG Emax _ Ehs Hc. pose proof HR as [HL _].
    pose proof (lay_max s1 F HL) as Hmax. rewrite Emax in Hmax.
    pose proof Hok as (Hb0 & _).
    assert (Hst : heap_start s1 <> NULL) by (rewrite Ehs; unfold NULL; lia).
    assert (Hcb : forall x, cb F x =
              if ok0 then (if decide (x = mem_brk s + 8)
                           then Some (512, false) else None) else None).
    { intros x. destruct ok0; [apply Hc|apply Hc]. }
    assert (Hblk : forall x, is_block s1 x <->
              ok0 = true /\ x = heap_start s1 /\
              size_at s1 x = chunksize /\ alloc_at s1 x = false).
    { intros x. split.
      - intros Hx. destruct (is_block_blocks s1 F x HL Hx) as (e & He).
        pose proof (cb_of F x e He) as Hce. rewrite Hcb in Hce.
        destruct ok0; [|discriminate].
        destruct (decide (x = mem_brk s + 8)) as [->|]; [|discriminate].
        injection Hce as E1 E2.
        rewrite (blk_size_at s1 F HL _ e He), (blk_alloc_at s1 F HL _ e He).
        repeat split; auto.
      - intros (-> & -> & _ & _). rewrite Ehs.
        pose proof (Hcb (mem_brk s + 8)) as Hce. cbv iota in Hce.
        destruct (decide (mem_brk s + 8 = mem_brk s + 8)); [|congruence].
        apply cb_Some in Hce as (e1 & He1 & _).
        apply (blocks_is_block s1 F _ e1 HL He1). }
    split.
    { destruct ok0.
      - destruct Hc as [Eb _]. split; [intros _; lia|reflexivity].
      - destruct Hc as (Hno & _). split; [discriminate|lia]. }
    split; [tauto|].
    split.
    { intros p Hv. apply (valid_ptr_cb s1 F p HL) in Hv as (sz & Hv).
      rewrite Hcb in Hv. destruct ok0; [|discriminate].
      destruct (decide _); discriminate. }
    intros _. split; [exact Ehs|]. split; [|exact Hblk].
    destruct ok0; [apply Hc|apply Hc].
Qed.

(** ** Witnesses for the calls *)

Lemma demo1_in_use : in_use demo1.
Proof. exact (reachable_in_use demo1 demo1_reachable). Defined.

Lemma demo2_in_use : in_use demo2.
Proof. exact (reachable_in_use demo2 demo2_reachable). Defined.

Lemma tight1_in_use : in_use tight1.
Proof. exact (reachable_in_use tight1 tight1_reachable). Defined.

Lemma demo2_valid_4112 : valid_ptr demo2 4112.
Proof. block_nr 0%nat. Defined.

Lemma demo2_valid_4224 : valid_ptr demo2 4224.
Proof. block_nr 1%nat. Defined.

Lemma size_ok (n : Z) : 0 < n <= 100000 -> 0 < n <= SIZE_MAX - 23.
Proof. unfold SIZE_MAX, modulus. lia. Defined.

Lemma never_adjacent_free_witness :
  in_use used2 /\ heap_start used2 <> NULL /\ no_adjacent_free used2.
Proof.
  split; [exact used2_in_use|]. split; [exact used2_started|].
  exact (never_adjacent_free used2 used2_in_use used2_started).
Defined.

Lemma calls_return_witness :
  in_use used2 /\ fuel_ok used2 5000 /\
  (heap_start used2 <> NULL \/ mem_brk used2 + 16 <= mem_max used2) /\
  (forall size, 0 <= size <= SIZE_MAX - 23 ->
     exists r s', malloc 5000 size used2 = Some (r, s')) /\
  (forall p, p = NULL \/ valid_ptr used2 p ->
     exists s', free 5000 p used2 = Some (tt, s')) /\
  (forall p size, p = NULL \/ valid_ptr used2 p -> 0 <= size <= SIZE_MAX - 23 ->
     exists r s', realloc 5000 p size used2 = Some (r, s')) /\
  (forall elements size, wrap (elements * size) <= SIZE_MAX - 23 ->
     exists r s', calloc 5000 elements size used2 = Some (r, s')).
Proof.
  assert (H : heap_start used2 <> NULL \/ mem_brk used2 + 16 <= mem_max used2)
    by (left; exact used2_started).
  split; [exact used2_in_use|]. split; [exact used2_fuel|]. split; [exact H|].
  exact (calls_return 5000 used2 used2_in_use used2_fuel H).
Defined.

Lemma valid_ptrs_disjoint_witness :
  in_use demo2 /\ valid_ptr demo2 4112 /\ valid_ptr demo2 4224 /\ 4112 < 4224 /\
  4112 + (size_at demo2 (payload_to_header 4112) - wsize)
    <= payload_to_header 4224.
Proof.
  assert (H : 4112 < 4224) by lia.
  split; [exact demo2_in_use|]. split; [exact demo2_valid_4112|].
  split; [exact demo2_valid_4224|]. split; [exact H|].
  exact (valid_ptrs_disjoint demo2 4112 4224 demo2_in_use demo2_valid_4112
           demo2_valid_4224 H).
Defined.


Lemma malloc_null_witness :
  in_use tight1 /\ fuel_ok tight1 5000 /\ 0 < 1000 <= SIZE_MAX - 23 /\
  malloc 5000 1000 tight1 = Some (NULL, tight1) /\
  mem_max tight1 < mem_brk tight1 + max (asize_of 1000) chunksize /\
  (heap_start tight1 <> NULL -> tight1 = tight1).
Proof.
  assert (Hf : fuel_ok tight1 5000) by reflexivity.
  assert (Hsz : 0 < 1000 <= SIZE_MAX - 23) by (apply size_ok; lia).
  assert (E : malloc 5000 1000 tight1 = Some (NULL, tight1))
    by (vm_compute; reflexivity).
  split; [exact tight1_in_use|]. split; [exact Hf|]. split; [exact Hsz|].
  split; [exact E|].
  exact (malloc_null 5000 tight1 1000 tight1 tight1_in_use Hf Hsz E).
Defined.

Lemma free_effect_witness :
  in_use demo2 /\ fuel_ok demo2 5000 /\ valid_ptr demo2 4112 /\
  free 5000 4112 demo2 = Some (tt, demo3) /\
  ~ valid_ptr demo3 4112 /\
  (forall q, q <> 4112 -> (valid_ptr demo3 q <-> valid_ptr demo2 q)) /\
  (forall q, q <> 4112 -> valid_ptr demo2 q ->
     size_at demo3 (payload_to_header q) = size_at demo2 (payload_to_header q)) /\
  same_arena demo2 demo3 /\
  (exists r, is_block demo3 r /\ alloc_at demo3 r = false /\
     r <= payload_to_header 4112 /\
     payload_to_header 4112 + size_at demo2 (payload_to_header 4112)
       <= r + size_at demo3 r).
Proof.
  assert (Hf : fuel_ok demo2 5000) by (apply demo_fuel; reflexivity).
  assert (E : free 5000 4112 demo2 = Some (tt, demo3))
    by (vm_compute; reflexivity).
  split; [exact demo2_in_use|]. split; [exact Hf|].
  split; [exact demo2_valid_4112|]. split; [exact E|].
  exact (free_effect 5000 demo2 4112 demo3 demo2_in_use Hf demo2_valid_4112 E).
Defined.

Definition zeroed1 : state := after (calloc 5000 10 20) demo1.

Lemma calloc_effect_witness :
  in_use demo1 /\ fuel_ok demo1 5000 /\ 0 <= 10 /\ 0 <= 20 /\
  10 * 20 <= SIZE_MAX - 23 /\
  calloc 5000 10 20 demo1 = Some (4224, zeroed1) /\ 4224 <> NULL /\
  valid_ptr zeroed1 4224 /\ ~ valid_ptr demo1 4224 /\ 4224 mod 16 = 0 /\
  10 * 20 <= size_at zeroed1 (payload_to_header 4224) - wsize /\
  (forall i, 0 <= i < 10 * 20 -> load_byte zeroed1 (4224 + i) = 0) /\
  (forall p, p <> 4224 -> (valid_ptr zeroed1 p <-> valid_ptr demo1 p)) /\
  (forall p, valid_ptr demo1 p ->
     size_at zeroed1 (payload_to_header p) = size_at demo1 (payload_to_header p)) /\
  (forall p i, valid_ptr demo1 p ->
     0 <= i < size_at demo1 (payload_to_header p) - wsize ->
     load_byte zeroed1 (p + i) = load_byte demo1 (p + i)).
Proof.
  assert (Hf : fuel_ok demo1 5000) by (apply demo_fuel; reflexivity).
  assert (H1 : 0 <= 10) by lia. assert (H2 : 0 <= 20) by lia.
  assert (H3 : 10 * 20 <= SIZE_MAX - 23) by (unfold SIZE_MAX, modulus; lia).
  assert (E : calloc 5000 10 20 demo1 = Some (4224, zeroed1))
    by (vm_compute; reflexivity).
  assert (N : 4224 <> NULL) by discriminate.
  split; [exact demo1_in_use|]. split; [exact Hf|]. split; [exact H1|].
  split; [exact H2|]. split; [exact H3|]. split; [exact E|]. split; [exact N|].
  exact (calloc_effect 5000 demo1 10 20 4224 zeroed1 demo1_in_use Hf H1 H2 H3 E N).
Defined.

(** A heap with a byte stored in the first allocation, and the calls
    that follow. *)
Definition grown1 : state := after (malloc 5000 100) used1.
Definition moved1 : state := after (realloc 5000 4112 300) used1.

Lemma used1_fuel : fuel_ok used1 5000.
Proof. apply demo_fuel. vm_compute. reflexivity. Defined.

Lemma used1_valid_4112 : valid_ptr used1 4112.
Proof. block_nr 0%nat. Defined.

Lemma used1_valid_4224 : valid_ptr used1 4224.
Proof. block_nr 1%nat. Defined.

Lemma used1_size_4112 : size_at used1 (payload_to_header 4112) = 112.
Proof. vm_compute. reflexivity. Defined.

Lemma used1_range_8 : 0 <= 8 < size_at used1 (payload_to_header 4112) - wsize.
Proof. rewrite used1_size_4112. unfold wsize. lia. Defined.

Lemma malloc_keeps_contents_witness :
  in_use used1 /\ fuel_ok used1 5000 /\ 0 < 100 <= SIZE_MAX - 23 /\
  malloc 5000 100 used1 = Some (4432, grown1) /\ valid_ptr used1 4112 /\
  0 <= 8 < size_at used1 (payload_to_header 4112) - wsize /\
  load_byte grown1 (4112 + 8) = load_byte used1 (4112 + 8).
Proof.
  assert (Hsz : 0 < 100 <= SIZE_MAX - 23) by (apply size_ok; lia).
  assert (E : malloc 5000 100 used1 = Some (4432, grown1))
    by (vm_compute; reflexivity).
  split; [exact used1_in_use|]. split; [exact used1_fuel|]. split; [exact Hsz|].
  split; [exact E|]. split; [exact used1_valid_4112|].
  split; [exact used1_range_8|].
  exact (malloc_keeps_contents 5000 used1 100 4432 grown1 4112 8 used1_in_use
           used1_fuel Hsz E used1_valid_4112 used1_range_8).
Defined.

Definition freed1 : state := after (free 5000 4224) used1.

Lemma free_keeps_contents_witness :
  in_use used1 /\ fuel_ok used1 5000 /\ valid_ptr used1 4224 /\
  free 5000 4224 used1 = Some (tt, freed1) /\
  valid_ptr used1 4112 /\ 4112 <> 4224 /\
  0 <= 8 < size_at used1 (payload_to_header 4112) - wsize /\
  load_byte freed1 (4112 + 8) = load_byte used1 (4112 + 8).
Proof.
  assert (E : free 5000 4224 used1 = Some (tt, freed1))
    by (vm_compute; reflexivity).
  assert (N : 4112 <> 4224) by discriminate.
  split; [exact used1_in_use|]. split; [exact used1_fuel|].
  split; [exact used1_valid_4224|]. split; [exact E|].
  split; [exact used1_valid_4112|]. split; [exact N|].
  split; [exact used1_range_8|].
  exact (free_keeps_contents 5000 used1 4224 freed1 4112 8 used1_in_use
           used1_fuel used1_valid_4224 E used1_valid_4112 N used1_range_8).
Defined.

Lemma realloc_effect_witness :
  in_use used1 /\ fuel_ok used1 5000 /\ valid_ptr used1 4112 /\
  0 < 300 <= SIZE_MAX - 23 /\
  realloc 5000 4112 300 used1 = Some (4432, moved1) /\ 4432 <> NULL /\
  valid_ptr moved1 4432 /\ ~ valid_ptr used1 4432 /\ ~ valid_ptr moved1 4112 /\
  4432 mod 16 = 0 /\
  300 <= size_at moved1 (payload_to_header 4432) - wsize /\
  (forall q, q <> 4432 -> q <> 4112 -> (valid_ptr moved1 q <-> valid_ptr used1 q)) /\
  (forall q, valid_ptr used1 q -> q <> 4112 ->
     size_at moved1 (payload_to_header q) = size_at used1 (payload_to_header q)).
Proof.
  assert (Hsz : 0 < 300 <= SIZE_MAX - 23) by (apply size_ok; lia).
  assert (E : realloc 5000 4112 300 used1 = Some (4432, moved1))
    by (vm_compute; reflexivity).
  assert (N : 4432 <> NULL) by discriminate.
  split; [exact used1_in_use|]. split; [exact used1_fuel|].
  split; [exact used1_valid_4112|]. split; [exact Hsz|].
  split; [exact E|]. split; [exact N|].
  exact (realloc_effect 5000 used1 4112 300 4432 moved1 used1_in_use
           used1_fuel used1_valid_4112 Hsz E N).
Defined.

Lemma realloc_contents_witness :
  in_use used1 /\ fuel_ok used1 5000 /\ valid_ptr used1 4112 /\
  0 < 300 <= SIZE_MAX - 23 /\
  realloc 5000 4112 300 used1 = Some (4432, moved1) /\ 4432 <> NULL /\
  (forall i, 0 <= i < Z.min 300 (size_at used1 (payload_to_header 4112) - wsize) ->
     load_byte moved1 (4432 + i) = load_byte used1 (4112 + i)) /\
  (forall q i, valid_ptr used1 q -> q <> 4112 ->
     0 <= i < size_at used1 (payload_to_header q) - wsize ->
     load_byte moved1 (q + i) = load_byte used1 (q + i)).
Proof.
  assert (Hsz : 0 < 300 <= SIZE_MAX - 23) by (apply size_ok; lia).
  assert (E : realloc 5000 4112 300 used1 = Some (4432, moved1))
    by (vm_compute; reflexivity).
  assert (N : 4432 <> NULL) by discriminate.
  split; [exact used1_in_use|]. split; [exact used1_fuel|].
  split; [exact used1_valid_4112|]. split; [exact Hsz|].
  split; [exact E|]. split; [exact N|].
  exact (realloc_contents 5000 used1 4112 300 4432 moved1 used1_in_use
           used1_fuel used1_valid_4112 Hsz E N).
Defined.

Lemma find_fit_finds_witness :
  in_use used2 /\ heap_start used2 <> NULL /\ fuel_ok used2 5000 /\
  0 <= 1 < BUCKET_COUNT /\
  exists r, find_fit 5000 64 1 used2 = Some (r, used2) /\
    (r <> NULL ->
       is_block used2 r /\ alloc_at used2 r = false /\ 64 <= size_at used2 r) /\
    (r = NULL ->
       forall x, is_block used2 x -> alloc_at used2 x = false ->
         size_at used2 x <> MINI_BLOCK_SIZE ->
         1 <= home_address (size_at used2 x) -> size_at used2 x < 64).
Proof.
  assert (Hi : 0 <= 1 < BUCKET_COUNT) by (unfold BUCKET_COUNT; lia).
  split; [exact used2_in_use|]. split; [exact used2_started|].
  split; [exact used2_fuel|]. split; [exact Hi|].
  exact (find_fit_finds 5000 used2 64 1 used2_in_use used2_started used2_fuel Hi).
Defined.

Lemma home_address_mono_witness :
  32 <= 40 /\ 40 <= 100 /\ home_address 40 <= home_address 100.
Proof.
  assert (H1 : 32 <= 40) by lia. assert (H2 : 40 <= 100) by lia.
  split; [exact H1|]. split; [exact H2|].
  exact (home_address_mono 40 100 H1 H2).
Defined.

Lemma find_prev_of_next_witness :
  in_use used2 /\ heap_start used2 <> NULL /\ is_block used2 4104 /\
  alloc_at used2 4104 = false /\
  find_prev (next_of used2 4104) (mpalloc_at used2 (next_of used2 4104)) used2
    = Some (4104, used2).
Proof.
  assert (Hb : is_block used2 4104) by (exists 0%nat; split; reflexivity).
  assert (Ha : alloc_at used2 4104 = false) by reflexivity.
  split; [exact used2_in_use|]. split; [exact used2_started|].
  split; [exact Hb|]. split; [exact Ha|].
  exact (find_prev_of_next used2 4104 used2_in_use used2_started Hb Ha).
Defined.

Lemma removeVagueBlock_unlinks_witness :
  in_use used2 /\ heap_start used2 <> NULL /\ fuel_ok used2 5000 /\
  is_block used2 4424 /\ alloc_at used2 4424 = false /\
  exists s', removeVagueBlock 5000 4424 used2 = Some (tt, s') /\
    mini_blocks 5000 s' =
      (if size_at used2 4424 =? MINI_BLOCK_SIZE
       then List.remove Z.eq_dec 4424 (mini_blocks 5000 used2)
       else mini_blocks 5000 used2) /\
    (forall i, 0 <= i < BUCKET_COUNT ->
       bucket_blocks 5000 s' i =
         if negb (size_at used2 4424 =? MINI_BLOCK_SIZE) &&
            (i =? home_address (size_at used2 4424))
         then List.remove Z.eq_dec 4424 (bucket_blocks 5000 used2 i)
         else bucket_blocks 5000 used2 i).
Proof.
  assert (Hb : is_block used2 4424) by (exists 2%nat; split; reflexivity).
  assert (Ha : alloc_at used2 4424 = false) by reflexivity.
  split; [exact used2_in_use|]. split; [exact used2_started|].
  split; [exact used2_fuel|]. split; [exact Hb|]. split; [exact Ha|].
  exact (removeVagueBlock_unlinks 5000 used2 4424 used2_in_use used2_started
           used2_fuel Hb Ha).
Defined.

Lemma insertVagueBlock_pushes_witness :
  in_use demo2 /\ fuel_ok demo2 5000 /\ valid_ptr demo2 4112 /\
  exists s', insertVagueBlock (payload_to_header 4112) demo2 = Some (tt, s') /\
    mini_blocks 5000 s' =
      (if size_at demo2 (payload_to_header 4112) =? MINI_BLOCK_SIZE
       then payload_to_header 4112 :: mini_blocks 5000 demo2
       else mini_blocks 5000 demo2) /\
    (forall i, 0 <= i < BUCKET_COUNT ->
       bucket_blocks 5000 s' i =
         if negb (size_at demo2 (payload_to_header 4112) =? MINI_BLOCK_SIZE) &&
            (i =? home_address (size_at demo2 (payload_to_header 4112)))
         then payload_to_header 4112 :: bucket_blocks 5000 demo2 i
         else bucket_blocks 5000 demo2 i) /\
    exists s'', removeVagueBlock 5000 (payload_to_header 4112) s' = Some (tt, s'') /\
      mini_blocks 5000 s'' = mini_blocks 5000 demo2 /\
      (forall i, 0 <= i < BUCKET_COUNT ->
         bucket_blocks 5000 s'' i = bucket_blocks 5000 demo2 i).
Proof.
  assert (Hf : fuel_ok demo2 5000) by (apply demo_fuel; reflexivity).
  split; [exact demo2_in_use|]. split; [exact Hf|].
  split; [exact demo2_valid_4112|].
  exact (insertVagueBlock_pushes 5000 demo2 4112 demo2_in_use Hf demo2_valid_4112).
Defined.

Lemma write_block_reads_witness :
  0 <= 48 < modulus /\ 48 mod 16 = 0 /\
  exists s', write_block 4104 48 true false false fresh_state = Some (tt, s') /\
    size_at s' 4104 = 48 /\ alloc_at s' 4104 = false /\
    palloc_at s' 4104 = false /\ mpalloc_at s' 4104 = true /\
    (false = false -> 48 <> MINI_BLOCK_SIZE ->
       load_word s' (4104 + 48 - wsize) = load_word s' 4104) /\
    (forall a, a <> 4104 ->
       false = true \/ 48 = MINI_BLOCK_SIZE \/ a <> 4104 + 48 - wsize ->
       load_word s' a = load_word fresh_state a).
Proof.
  assert (H1 : 0 <= 48 < modulus) by (unfold modulus; lia).
  assert (H2 : 48 mod 16 = 0) by reflexivity.
  split; [exact H1|]. split; [exact H2|].
  exact (write_block_reads fresh_state 4104 48 true false false H1 H2).
Defined.

Lemma round_up_least_witness :
  0 < 16 /\ 0 <= 100 /\ 100 + (16 - 1) < modulus /\
  round_up 100 16 mod 16 = 0 /\
  100 <= round_up 100 16 < 100 + 16 /\
  (forall m, m mod 16 = 0 -> 100 <= m -> round_up 100 16 <= m).
Proof.
  assert (H1 : 0 < 16) by lia. assert (H2 : 0 <= 100) by lia.
  assert (H3 : 100 + (16 - 1) < modulus) by (unfold modulus; lia).
  split; [exact H1|]. split; [exact H2|]. split; [exact H3|].
  exact (round_up_least 100 16 H1 H2 H3).
Defined.

Definition started1 : state := after (mm_init 5000) fresh_state.

Lemma mm_init_outcome_witness :
  arena_ok fresh_state /\ heap_start fresh_state = NULL /\ (0 < 5000)%nat /\
  mm_init 5000 fresh_state = Some (true, started1) /\
  (true = true <-> mem_brk fresh_state + 528 <= mem_max fresh_state) /\
  (heap_start started1 <> NULL <->
     mem_brk fresh_state + 16 <= mem_max fresh_state) /\
  (forall p, ~ valid_ptr started1 p) /\
  (mem_brk fresh_state + 16 <= mem_max fresh_state ->
     heap_start started1 = mem_brk fresh_state + 8 /\
     mem_brk started1 = mem_brk fresh_state + 528 /\
     forall x, is_block started1 x <->
       true = true /\ x = heap_start started1 /\
       size_at started1 x = chunksize /\ alloc_at started1 x = false).
Proof.
  assert (H1 : arena_ok fresh_state).
  { unfold arena_ok. cbn. unfold modulus. repeat split; try lia. }
  assert (H2 : heap_start fresh_state = NULL) by reflexivity.
  assert (H3 : (0 < 5000)%nat) by lia.
  assert (E : mm_init 5000 fresh_state = Some (true, started1))
    by (vm_compute; reflexivity).
  split; [exact H1|]. split; [exact H2|]. split; [exact H3|]. split; [exact E|].
  exact (mm_init_outcome 5000 fresh_state true started1 H1 H2 H3 E).
Defined.
